(* ===== verification/_CoqProject ===== *)
-Q . S2P
Prelude.v
Libc.v
Regex.v
Cidr.v
Options.v
Usage.v
Inet6.v
Config.v
OS.v
Glue.v
JsonObject.v
JsonRemove.v
Double.v
Json.v
JsonTheory.v
JsonMemory.v
JsonRoundtrip.v
JsonValues.v
JsonPaths.v
JsonComments.v
Api.v
ApiTheory.v
ApiSession.v
Sandbox.v
Seccomp.v
Netns.v
Loop.v
LoopTheory.v
LoopHeap.v
LoopForwards.v
Main.v
MainTheory.v
Processes.v
