(* ===== verification/Prelude.v ===== *)
(** * slirp4netns: verification of the user-mode network daemon

    slirp4netns gives an unprivileged network namespace access to the network
    of the host.  A child process enters the namespace, creates a tap device
    there and sends its descriptor to the parent; the parent hands the packets
    of the tap to libslirp, a TCP/IP stack in user space, and serves requests
    for port forwards on a UNIX socket.

    ** The parts, and the files that model them

    - The command line: [struct options], [parse_args] and the option table of
      main.c.  File Options ([options], [longopts], [getopt_long], [opt_step],
      [parse_args]).  What it prints on standard output (the warnings, [usage]
      and [version]): file Usage.
    - The configuration: [parse_cidr] with its regular expression, the
      addresses derived from the network, the MAC address parser, the outbound
      addresses and [slirp4netns_config_from_options] of main.c, the structure
      of slirp4netns.h.  Files Regex (POSIX matching), Cidr, Inet6
      ([inet_pton] for IPv6) and Config.
    - The child: [nsenter], [open_tap], [configure_network], [sendfd],
      [child], [child_bess], [recvfd] of main.c.  File Netns.
    - The glue around libslirp: the callbacks of slirp4netns.c with their
      timers and poll entries, [update_ra_timeout] and [check_ra_timeout].
      File Glue.
    - The main loop: [create_slirp] and [do_slirp] of slirp4netns.c.  File Loop
      (the program), LoopTheory, LoopHeap (memory) and LoopForwards (the calls
      for port forwards) with the theorems.
    - The API: api.c.  File Api (the program), ApiTheory (one connection) and
      ApiSession (any number of them).
    - JSON: vendor/parson/parson.c.  Files JsonObject (the hash table),
      JsonRemove (removal from it), Double (numbers), Json (parser and
      printer), JsonTheory and JsonRoundtrip (their theorems), JsonMemory
      (quoted strings with pointers and checked accesses).  The rest of the
      library, which the API does not call: JsonValues (arrays, copies,
      comparison, schemas), JsonPaths (dotted names) and JsonComments.
    - The sandbox, sandbox.c: file Sandbox.  The seccomp filter,
      seccompfilter.c, seccompfilter_rules.h and seccomparch.h: file Seccomp.
    - The process: [parent] and [main] of main.c.  File Main (the program),
      MainTheory (a run of one process) and Processes (the child and the parent
      together).

    Prelude holds characters, machine integers ([u32], [i32], [htonl], ... as
    functions on [Z]) and general lemmas; Libc holds the C library functions
    whose results the code computes with ([strtol], [sscanf], [inet_pton],
    ...), as glibc implements them.

    ** How the code is modelled

    A pure function of the source is a function here, with the source's name.
    A C string is the list of its bytes; errors are values of a sum, an option
    or an error type with one constructor per message.

    Code with effects is a program of the monad [M] of file OS: a function from
    the history (the calls made so far, with their answers) to the calls it
    adds and its outcome, which is a value, [exit] with a status, undefined
    behaviour, or the end of the fuel.  The kernel, libslirp's forwarding calls
    and libseccomp are the environment [Env], which answers every call as an
    arbitrary function of the history.  What libslirp does while it is called
    (it calls back) is the class [Libslirp]: programs over the callbacks
    ([cbprog], run by [run_cb]).  [ByteOrder] and [PollFlags] are the byte
    order of the host and the bits of the poll flags.

    [wp m h Q] says that the run of [m] after [h] satisfies [Q]; [runs] is the
    specification of fail-stop sequences (a list of calls made in order up to
    the first that fails), and [emits] says which events a program can produce
    at all.

    ** What is assumed of the environment

    Each is a hypothesis of the theorems that need it, and each has an
    instance in the witnesses: a sane clock ([clock_ok]), [read] returns at
    most what was asked for ([read_ok]), libslirp refuses a forward that exists
    ([slirp_exclusive]), calls that create descriptors and [recvmsg] fail with
    -1 ([fails_with_minus1], [recvmsg_fails_with_minus1]), the kernel has
    finitely many capabilities ([knows_caps]), a call is not interrupted for
    ever ([patient]), interface addresses have the width of their family
    ([typed_ifaddrs], [well_tagged]), and libslirp keeps the contract of its
    documentation ([LibslirpContract]: it creates its timers when it is
    created, arms only its own, and asks only for poll entries it added).  The
    theorem on two processes assumes of [fork], [waitpid] and descriptors sent
    over a socket pair what the record [forked] says.

    ** What the theorems show

    - Command line and configuration: what [parse_args] guarantees of the
      options; exactly which CIDRs are accepted and what each message means;
      the derived addresses are distinct and inside the network; every field
      of the configuration, its type and every error; the MAC parser against a
      reference definition; round trips of printing and parsing.  The usage
      documents exactly the option table; of the options it marks as
      experimental all but --disable-dns print a warning exactly when they are
      given.
    - JSON: the hash table, with its growth and its removal by shifting cells
      back, refines an association list; the parser returns on
      every input without undefined behaviour; reading a quoted string never
      reads behind the terminator of the text nor writes outside its buffers;
      printing and parsing are inverse for values whose numbers are integers
      below 2^53, also with comments in front.
      Arrays are lists; a deep copy has the contents of the original; equality
      and conformance to a schema are decided as their specifications say,
      whatever the layout of the tables; a dotted name reads what was written
      under it last, and names independent of it are not affected.
    - The API: the table agrees with what libslirp was told for every sequence
      of requests (a refinement of the trace of calls), what each request does
      on every branch, and exactly which requests are undefined behaviour
      ([hazardous]: a "proto" that is missing or not a string, a number that
      does not fit [int] where it is looked at, an exhausted id).  Over a
      session a forward keeps its id until it is removed and no id is given
      out twice.  Where a run can end in undefined behaviour ([hazard_read]),
      it is the last request of that run, read on its own socket, and the id
      counter is the one the run has reached.
    - The glue and the loop: no timer is used after it was freed, no poll entry
      out of range; exactly the timers that are due are called, each disarmed
      before; a round of the
      loop keeps the invariant [loop_inv]; [do_slirp] locks the process down
      before it says that it is ready and serves, and comes to an end once the
      exit descriptor hangs up; the packet buffer, the poll array, the API
      context and its buffer are freed, once, on every path, and the entries
      left in the forwarding table with their list.  Over a whole run, with the API, libslirp is only asked to remove
      forwards it holds and to add well-formed ones.
    - Sandbox and seccomp: the fixed sequence of calls, what holds when it
      succeeds, and that a listed system call is blocked unless libseccomp does
      not know it or refuses its rule.
    - The processes: the child sends the descriptor only after everything it
      had to do succeeded, and leaks no descriptor; the parent becomes root
      before the sandbox and closes the tap on every failure; [main] composes
      them and its exit status says what happened.  Put together by a fork,
      the parent serves only the very descriptor that a child which did all
      its work sent.

    ** Bounds and fuel

    The JSON parser has fuel [parse_fuel], and a theorem says that it is
    enough.  Copies, comparison and schemas recurse to the depth of a value, a
    dotted name to its length, the removal of comments to the length of the
    text.  The record [bounds] gives the rounds of the main loop a run looks
    at ([iters]; a run that is still serving after them is [OutOfFuel], and the
    theorems say that it is then in a good state), the attempts at an
    interrupted call ([tries], enough by [patient]), the timers visited
    ([visits], enough when it is at least the number of timers) and the rounds
    of the capability loop ([caps], enough when the kernel knows fewer
    capabilities).  All other recursion is structural.

    ** What is not modelled

    Messages on standard error and the buffering of standard output; memory
    other than that of [do_slirp] and the API context: the cells of glib's
    lists, the allocation and release of a single forward within a request
    (the entries [g_list_free_full] frees at the end are events, with their contents),
    timers (tracked by their addresses, but not as blocks), the blocks of
    parson (but for those of a quoted string), of libseccomp and of libslirp,
    which is never shut down; failing allocations inside these libraries;
    counters of parson's printer for texts of more than 2 GiB (they have the
    type [int]); at the prefix length 1 the mask of a CIDR is computed with a
    signed overflow, and the model takes the value it wraps to
    (Cidr, [netmask_int_overflow]); the [parent] pointers of JSON values; parson's functions on files, its
    global settings (the allocator, the number format) and the getters that only
    combine others; libslirp, libseccomp, glib and the kernel,
    which are parameters; the shell scripts of tests/ and benchmarks/. *)

From stdpp Require Export base numbers list gmap strings.
From Stdlib Require Export ZArith Lia.

#[export] Set Default Goal Selector "!".
Global Open Scope Z_scope.

(** ** Characters and C strings

    A C [char *] that points to a NUL-terminated string is the list of the
    bytes before the terminator, each a [Z] in [0, 255]; a pointer into the
    middle of the string is a suffix of the list.  Reading the byte at the
    pointer ([*p]) is [deref]: it yields 0 on the empty suffix. *)

Abbreviation bytes := (list Z).

Fixpoint b2l (s : string) : bytes :=
  match s with
  | EmptyString => []
  | String a s' => Z.of_N (Ascii.N_of_ascii a) :: b2l s'
  end.

Definition deref (p : bytes) : Z :=
  match p with [] => 0 | c :: _ => c end.

Definition is_byte (c : Z) : Prop := 0 <= c < 256.

(** A C string has byte-sized, non-zero characters. *)
Definition is_char (c : Z) : Prop := 0 < c < 256.

Definition wf_cstr (s : bytes) : Prop := Forall is_char s.

(** A one-character literal in [cchar_scope] denotes the character's code. *)
Declare Scope cchar_scope.
Delimit Scope cchar_scope with c.

Definition cchar_parse (l : list Byte.byte) : option Z :=
  match l with [b] => Some (Z.of_N (Byte.to_N b)) | _ => None end.

Definition cchar_print (z : Z) : option (list Byte.byte) := None.

String Notation Z cchar_parse cchar_print : cchar_scope.

Definition isdigit (c : Z) : bool := ("0"%c <=? c) && (c <=? "9"%c).

(** [isspace] of the "C" locale: space, \t \n \v \f \r. *)
Definition isspace (c : Z) : bool := (c =? " "%c) || ((9 <=? c) && (c <=? 13)).

Arguments b2l : simpl never.
Arguments isdigit : simpl never.
Arguments isspace : simpl never.

(** ** Machine integers *)

Definition u16 (z : Z) : Z := z mod 2 ^ 16.
Definition u32 (z : Z) : Z := z mod 2 ^ 32.
Definition u64 (z : Z) : Z := z mod 2 ^ 64.

Definition swrap (w z : Z) : Z := (z + 2 ^ (w - 1)) mod 2 ^ w - 2 ^ (w - 1).
Definition i32 (z : Z) : Z := swrap 32 z.
Definition i64 (z : Z) : Z := swrap 64 z.

Definition in_i32 (z : Z) : Prop := - 2 ^ 31 <= z < 2 ^ 31.
Definition in_u32 (z : Z) : Prop := 0 <= z < 2 ^ 32.

Definition INT_MAX : Z := 2 ^ 31 - 1.
Definition LONG_MAX : Z := 2 ^ 63 - 1.
Definition LONG_MIN : Z := - 2 ^ 63.
Definition ULONG_MAX : Z := 2 ^ 64 - 1.

Create HintDb cint.
Create Rewrite HintDb cint.

Lemma u32_range z : in_u32 (u32 z).
Proof. unfold in_u32, u32. apply Z.mod_pos_bound. lia. Qed.

Lemma u32_small z : in_u32 z -> u32 z = z.
Proof. unfold in_u32, u32. intros. apply Z.mod_small. lia. Qed.

Lemma i32_range z : in_i32 (i32 z).
Proof.
  unfold in_i32, i32, swrap.
  pose proof (Z.mod_pos_bound (z + 2 ^ (32 - 1)) (2 ^ 32)). lia.
Qed.

Lemma i32_small z : in_i32 z -> i32 z = z.
Proof.
  unfold in_i32, i32, swrap. intros.
  rewrite Z.mod_small; lia.
Qed.

#[export] Hint Resolve u32_range i32_range : cint.
#[export] Hint Rewrite i32_small u32_small using (unfold in_i32, in_u32 in *; lia) : cint.

(** ** Byte order

    [s_addr] fields hold the address in network byte order.  The host byte
    order is a parameter of everything that converts; the theorems hold for
    both. *)

Class ByteOrder := little_endian : bool.

Definition byte_at (k x : Z) : Z := Z.land (Z.shiftr x (8 * k)) 255.

Definition bswap32 (x : Z) : Z :=
  Z.lor (Z.shiftl (byte_at 0 x) 24)
    (Z.lor (Z.shiftl (byte_at 1 x) 16)
       (Z.lor (Z.shiftl (byte_at 2 x) 8) (byte_at 3 x))).

Definition htonl `{ByteOrder} (x : Z) : Z :=
  if little_endian then bswap32 x else u32 x.

Definition ntohl `{ByteOrder} (x : Z) : Z := htonl x.

(** ** Tactics *)

(** [lia] with quotients and remainders by constants. *)
Ltac dlia := Z.to_euclidean_division_equations; lia.

(** Turns the boolean tests of the code into propositions. *)
Ltac bool_props :=
  repeat match goal with
    | H : _ && _ = true |- _ => apply andb_true_iff in H; destruct H
    | H : _ || _ = false |- _ => apply orb_false_iff in H; destruct H
    | H : negb _ = true |- _ => apply negb_true_iff in H
    | H : negb _ = false |- _ => apply negb_false_iff in H
    end.

(** Evaluates the integer tests of the goal that the hypotheses decide. *)
Ltac ztests :=
  repeat match goal with
    | |- context [?a <=? ?b] =>
        first [replace (a <=? b) with true by lia | replace (a <=? b) with false by lia]
    | |- context [?a <? ?b] =>
        first [replace (a <? b) with true by lia | replace (a <? b) with false by lia]
    | |- context [?a =? ?b] =>
        first [replace (a =? b) with true by lia | replace (a =? b) with false by lia]
    end.

(** Splits the first [match]/[if] scrutinee of the goal or of [H]. *)
Ltac case_goal :=
  match goal with
  | |- context [match ?x with _ => _ end] =>
      lazymatch x with
      | context [match _ with _ => _ end] => fail
      | _ => destruct x eqn:?
      end
  end.

Ltac case_in H :=
  match type of H with
  | context [match ?x with _ => _ end] =>
      lazymatch x with
      | context [match _ with _ => _ end] => fail
      | _ => destruct x eqn:?
      end
  end.

(** A boolean check over an integer range, by evaluation. *)
Lemma check_range (P : Z -> bool) lo n :
  forallb P (seqZ lo n) = true -> forall z, lo <= z < lo + n -> P z = true.
Proof.
  intros H z Hz. rewrite forallb_forall in H. apply H, list_elem_of_In, elem_of_seqZ. lia.
Qed.

(** ** Bits *)

(** Masking with the upper bits of a 32-bit word rounds down. *)
Lemma land_high_mask h k :
  in_u32 h -> 0 <= k <= 32 -> Z.land h (2 ^ 32 - 2 ^ k) = h - h mod 2 ^ k.
Proof.
  intros [H0 H1] Hk.
  replace (2 ^ 32 - 2 ^ k) with (Z.shiftl (Z.ones (32 - k)) k).
  2:{ rewrite Z.shiftl_mul_pow2, Z.ones_equiv, <-Z.sub_1_r, Z.mul_sub_distr_r, <-Z.pow_add_r by lia.
      f_equal; [f_equal; lia|lia]. }
  replace (h - h mod 2 ^ k) with (Z.shiftl (Z.shiftr h k) k).
  2:{ rewrite Z.shiftl_mul_pow2, Z.shiftr_div_pow2 by lia.
      pose proof (Z.div_mod h (2 ^ k) ltac:(lia)). lia. }
  apply Z.bits_inj'. intros n Hn. rewrite Z.land_spec, !Z.shiftl_spec by lia.
  destruct (Z.ltb_spec n k); [rewrite !(Z.testbit_neg_r _ (n - k)) by lia; apply andb_false_r|].
  rewrite Z.shiftr_spec, Z.testbit_ones by lia. replace (n - k + k) with n by lia.
  destruct (Z.ltb_spec n 32).
  - ztests. apply andb_true_r.
  - replace (Z.testbit h n) with false; [done|].
    symmetry. by apply Z.bounded_iff_bits_nonneg with 32.
Qed.

Lemma testbit_byte_at k x n :
  0 <= n -> 0 <= k ->
  Z.testbit (byte_at k x) n = (n <? 8) && Z.testbit x (n + 8 * k).
Proof.
  intros Hn Hk. unfold byte_at. rewrite Z.land_spec, Z.shiftr_spec by lia.
  change 255 with (Z.ones 8). rewrite Z.testbit_ones by lia.
  destruct (n <? 8) eqn:E; [|by rewrite !andb_false_r].
  replace (0 <=? n) with true by lia. by rewrite andb_true_r.
Qed.

Lemma testbit_bswap32 x n :
  0 <= n ->
  Z.testbit (bswap32 x) n =
    (n <? 32) && Z.testbit x (8 * (3 - n / 8) + n mod 8).
Proof.
  intros Hn. unfold bswap32.
  rewrite !Z.lor_spec, !Z.shiftl_spec, (testbit_byte_at 3) by lia.
  assert (Hb : forall k s, 0 <= k -> s = 24 - 8 * k -> 0 <= s ->
     Z.testbit (byte_at k x) (n - s) =
     (s <=? n) && (n <? s + 8) && Z.testbit x (n - s + 8 * k)).
  { intros k s ? -> ?. destruct (Z.leb_spec (24 - 8 * k) n).
    - rewrite testbit_byte_at by lia. simpl. f_equal. lia.
    - rewrite Z.testbit_neg_r by lia. done. }
  rewrite (Hb 0 24), (Hb 1 16), (Hb 2 8) by lia.
  destruct (Z.ltb_spec n 32).
  2:{ replace (n <? 24 + 8) with false by lia. replace (n <? 16 + 8) with false by lia.
      replace (n <? 8 + 8) with false by lia. replace (n <? 8) with false by lia.
      by rewrite !andb_false_r. }
  assert (Hq : n / 8 = 0 \/ n / 8 = 1 \/ n / 8 = 2 \/ n / 8 = 3) by dlia.
  pose proof (Z.div_mod n 8 ltac:(lia)). pose proof (Z.mod_pos_bound n 8 ltac:(lia)).
  destruct Hq as [Hq|[Hq|[Hq|Hq]]]; rewrite Hq in *;
  ztests; simpl; rewrite ?orb_false_r; f_equal; lia.
Qed.

Lemma bswap32_range x : in_u32 (bswap32 x).
Proof.
  unfold in_u32. assert (0 <= bswap32 x).
  { unfold bswap32, byte_at.
    rewrite !Z.lor_nonneg, !Z.shiftl_nonneg, !Z.land_nonneg. lia. }
  split; [done|]. apply Z.bounded_iff_bits_nonneg; [lia..|].
  intros l Hl. rewrite testbit_bswap32 by lia. by replace (l <? 32) with false by lia.
Qed.

Lemma bswap32_invol x : in_u32 x -> bswap32 (bswap32 x) = x.
Proof.
  intros [H0 H1]. apply Z.bits_inj'. intros n Hn.
  rewrite testbit_bswap32 by lia. destruct (Z.ltb_spec n 32); simpl.
  - rewrite testbit_bswap32 by dlia.
    replace (8 * (3 - n / 8) + n mod 8 <? 32) with true by dlia. simpl. f_equal. dlia.
  - symmetry. by apply Z.bounded_iff_bits_nonneg with 32.
Qed.

Lemma bswap32_land x y : bswap32 (Z.land x y) = Z.land (bswap32 x) (bswap32 y).
Proof.
  apply Z.bits_inj'. intros n Hn. rewrite Z.land_spec, !testbit_bswap32, Z.land_spec by lia.
  by destruct (n <? 32).
Qed.

Section byteorder.
Context `{BO : ByteOrder}.

Lemma htonl_range x : in_u32 (htonl x).
Proof. unfold htonl. case_match; auto using bswap32_range with cint. Qed.

Lemma ntohl_htonl x : in_u32 x -> ntohl (htonl x) = x.
Proof.
  intros. unfold ntohl, htonl. case_match; [by apply bswap32_invol|].
  by rewrite !u32_small; auto with cint.
Qed.

Lemma htonl_ntohl x : in_u32 x -> htonl (ntohl x) = x.
Proof. apply ntohl_htonl. Qed.

Lemma htonl_land x y :
  in_u32 x -> in_u32 y -> htonl (Z.land x y) = Z.land (htonl x) (htonl y).
Proof.
  intros Hx Hy. unfold htonl. case_match; [apply bswap32_land|].
  unfold u32. rewrite <-!Z.land_ones by lia. apply Z.bits_inj'. intros n _.
  rewrite !Z.land_spec. by destruct (Z.testbit x n), (Z.testbit y n), (Z.testbit (Z.ones 32) n).
Qed.

Lemma htonl_inj x y : in_u32 x -> in_u32 y -> htonl x = htonl y -> x = y.
Proof. intros. rewrite <-(ntohl_htonl x), <-(ntohl_htonl y) by done. by f_equal. Qed.
End byteorder.

#[export] Hint Resolve htonl_range bswap32_range : cint.
