(* ===== verification/Libc.v ===== *)
(** * The parts of the C library that the program's logic rests on

    Number conversion ([strtol], [strtoul], [sscanf "%x"], ["%d"] output),
    [strchr], [strncpy], [inet_pton] and [inet_ntop] for [AF_INET], as glibc
    implements them.  A pointer result ([endptr], [strchr]) is the suffix of
    the string it points to. *)

From S2P Require Import Prelude.

(** ** errno values *)

Definition EINTR : Z := 4.
Definition EEXIST : Z := 17.
Definition EINVAL : Z := 22.
Definition EDOM : Z := 33.
Definition ERANGE : Z := 34.

(** ** Scanning *)

Fixpoint skip_ws (s : bytes) : bytes :=
  match s with
  | c :: s' => if isspace c then skip_ws s' else s
  | [] => []
  end.

(** The longest prefix whose characters satisfy [p], and the rest. *)
Fixpoint span (p : Z -> bool) (s : bytes) : bytes * bytes :=
  match s with
  | c :: s' => if p c then let '(a, b) := span p s' in (c :: a, b) else ([], s)
  | [] => ([], [])
  end.

Definition scan_sign (s : bytes) : bool * bytes :=
  match s with
  | c :: s' =>
      if c =? "-"%c then (true, s') else if c =? "+"%c then (false, s') else (false, s)
  | [] => (false, s)
  end.

Fixpoint strchr (s : bytes) (c : Z) : option bytes :=
  match s with
  | [] => if c =? 0 then Some [] else None
  | d :: s' => if d =? c then Some s else strchr s' c
  end.

(** The value of a digit string, most significant digit first, continuing
    from [acc]. *)
Definition dval_from (acc : Z) (ds : bytes) : Z :=
  foldl (fun a c => a * 10 + (c - "0"%c)) acc ds.

Definition dval (ds : bytes) : Z := dval_from 0 ds.

Definition hexdigit (c : Z) : option Z :=
  if isdigit c then Some (c - "0"%c)
  else if ("a"%c <=? c) && (c <=? "f"%c) then Some (c - "a"%c + 10)
  else if ("A"%c <=? c) && (c <=? "F"%c) then Some (c - "A"%c + 10)
  else None.

Definition isxdigit (c : Z) : bool :=
  match hexdigit c with Some _ => true | None => false end.

Definition hval (ds : bytes) : Z :=
  foldl (fun a c => a * 16 + default 0 (hexdigit c)) 0 ds.

(** ** strtol and strtoul, base 10 *)

Record strtox := Strtox { sx_val : Z; sx_end : bytes; sx_errno : Z }.

Definition strtol (s : bytes) : strtox :=
  let '(neg, p) := scan_sign (skip_ws s) in
  match span isdigit p with
  | ([], _) => Strtox 0 s 0
  | (ds, rest) =>
      let v := if (neg : bool) then - dval ds else dval ds in
      if v <? LONG_MIN then Strtox LONG_MIN rest ERANGE
      else if LONG_MAX <? v then Strtox LONG_MAX rest ERANGE
      else Strtox v rest 0
  end.

Definition strtoul (s : bytes) : strtox :=
  let '(neg, p) := scan_sign (skip_ws s) in
  match span isdigit p with
  | ([], _) => Strtox 0 s 0
  | (ds, rest) =>
      if ULONG_MAX <? dval ds then Strtox ULONG_MAX rest ERANGE
      else Strtox (if (neg : bool) then u64 (- dval ds) else dval ds) rest 0
  end.

(** ** sscanf(s, "%x", &temp) into an int

    [Some v]: one item was converted and [v] was stored; [None]: the call
    did not return 1.  The conversion goes through [unsigned long] (clamped
    on overflow) and is truncated to the 32 bits of the destination.  A bare
    "0x" is a matching failure (C11 7.21.6.2, 10). *)
Definition sscanf_x (s : bytes) : option Z :=
  let '(neg, p) := scan_sign (skip_ws s) in
  let q :=
    match p with
    | c0 :: cx :: q => if (c0 =? "0"%c) && ((cx =? "x"%c) || (cx =? "X"%c)) then q else p
    | _ => p
    end in
  match span isxdigit q with
  | ([], _) => None
  | (ds, _) =>
      let m := hval ds in
      Some (i32 (if ULONG_MAX <? m then ULONG_MAX
                 else if (neg : bool) then u64 (- m) else m))
  end.

(** ** Decimal output *)

Fixpoint dec_fuel (fuel : nat) (n : Z) : bytes :=
  match fuel with
  | O => []
  | S f => if n <? 10 then ["0"%c + n] else dec_fuel f (n / 10) ++ ["0"%c + n mod 10]
  end.

(** "%u": the decimal digits of [n >= 0]; at most one digit per bit. *)
Definition dec (n : Z) : bytes := dec_fuel (S (Z.to_nat (Z.log2 n))) n.

(** "%d" *)
Definition dec_signed (n : Z) : bytes := if n <? 0 then "-"%c :: dec (- n) else dec n.

(** ** AF_INET addresses *)

(** glibc's [inet_pton4] loop: [octets] counts the octets begun, [saw]
    tells whether the current one has a digit, [cur] is its value and [acc]
    holds the finished ones, last first. *)
Fixpoint inet_pton4 (s : bytes) (octets : Z) (saw : bool) (cur : Z) (acc : list Z)
  : option (list Z) :=
  match s with
  | [] => if octets <? 4 then None else Some (rev (cur :: acc))
  | c :: s' =>
      if isdigit c then
        let new := cur * 10 + (c - "0"%c) in
        if saw && (cur =? 0) then None
        else if 255 <? new then None
        else if saw then inet_pton4 s' octets true new acc
        else if 4 <? octets + 1 then None
        else inet_pton4 s' (octets + 1) true new acc
      else if (c =? "."%c) && saw then
        if octets =? 4 then None else inet_pton4 s' octets false 0 (cur :: acc)
      else None
  end.

(** The 32-bit number with the given bytes, most significant first. *)
Definition be_combine (l : list Z) : Z := foldl (fun a o => a * 256 + o) 0 l.

(** [inet_pton(AF_INET, s, &addr)]: [Some s_addr] when it returns 1. *)
Definition inet_pton `{ByteOrder} (s : bytes) : option Z :=
  l ← inet_pton4 s 0 false 0 []; Some (htonl (be_combine l)).

Definition octet (k h : Z) : Z := (h / 2 ^ (8 * k)) mod 256.

(** [inet_ntop(AF_INET, &addr, ...)] of an [s_addr] *)
Definition inet_ntop `{ByteOrder} (a : Z) : bytes :=
  let h := ntohl a in
  dec (octet 3 h) ++ "."%c :: dec (octet 2 h) ++ "."%c ::
  dec (octet 1 h) ++ "."%c :: dec (octet 0 h).

(** ** Lemmas: scanning *)

Lemma span_app p s : let '(a, b) := span p s in s = a ++ b.
Proof.
  induction s as [|c s IH]; simpl; [done|]. destruct (p c); [|done].
  destruct (span p s). by subst.
Qed.

Lemma span_all p ds rest :
  forallb p ds = true -> p (deref rest) = false -> p 0 = false ->
  span p (ds ++ rest) = (ds, rest).
Proof.
  intros Hds Hr H0. induction ds as [|d ds IH]; simpl in *.
  - destruct rest as [|c rest]; simpl in *; [done|]. by rewrite Hr.
  - apply andb_true_iff in Hds as [-> Hds]. by rewrite IH.
Qed.

Lemma span_forallb p s : forallb p (span p s).1 = true.
Proof.
  induction s as [|c s IH]; simpl; [done|]. destruct (p c) eqn:E; simpl; [|done].
  destruct (span p s); simpl in *. by rewrite E.
Qed.

Lemma isdigit_range c : isdigit c = true <-> 48 <= c <= 57.
Proof. unfold isdigit. lia. Qed.

Lemma isdigit_not_space c : isdigit c = true -> isspace c = false.
Proof. rewrite isdigit_range. unfold isspace. lia. Qed.

Definition digits (s : bytes) : Prop := forallb isdigit s = true.

Lemma digits_app s t : digits (s ++ t) <-> digits s /\ digits t.
Proof. unfold digits. by rewrite forallb_app, andb_true_iff. Qed.

Lemma dval_from_app a s t : dval_from a (s ++ t) = dval_from (dval_from a s) t.
Proof. apply foldl_app. Qed.

Lemma dval_snoc s c : dval (s ++ [c]) = dval s * 10 + (c - 48).
Proof. unfold dval. by rewrite dval_from_app. Qed.

Lemma dval_from_ge a s : digits s -> 0 <= a -> a <= dval_from a s.
Proof.
  unfold digits. revert a. induction s as [|c s IH]; intros a; simpl; [lia|].
  intros [Hc Hs]%andb_true_iff Ha. apply isdigit_range in Hc.
  specialize (IH (a * 10 + (c - 48)) Hs). unfold dval_from in *. simpl in *. lia.
Qed.

Lemma dval_nonneg s : digits s -> 0 <= dval s.
Proof. intros. by apply (dval_from_ge 0). Qed.

Lemma dval_lt s : digits s -> dval s < 10 ^ Z.of_nat (length s).
Proof.
  unfold digits. induction s as [|c s IH] using rev_ind; [done|].
  rewrite forallb_app, andb_true_iff, length_app, dval_snoc. simpl.
  intros [Hs Hc]. rewrite andb_true_r, isdigit_range in Hc. specialize (IH Hs).
  replace (Z.of_nat (length s + 1)) with (Z.of_nat (length s) + 1) by lia.
  rewrite Z.pow_add_r by lia. lia.
Qed.

(** [strtol] and [strtoul] on a plain digit string. *)
Lemma strtol_digits ds rest :
  digits ds -> ds <> [] -> isdigit (deref rest) = false -> dval ds <= LONG_MAX ->
  strtol (ds ++ rest) = Strtox (dval ds) rest 0.
Proof.
  intros Hd Hne Hr Hv. destruct ds as [|c ds]; [done|].
  assert (Hc : isdigit c = true) by (unfold digits in Hd; simpl in Hd; by bool_props).
  pose proof (dval_nonneg _ Hd). unfold strtol. simpl.
  rewrite (isdigit_not_space _ Hc). unfold scan_sign. apply isdigit_range in Hc as Hc'.
  ztests. simpl. rewrite Hc.
  pose proof (span_all isdigit (c :: ds) rest Hd Hr eq_refl) as Hs. simpl in Hs.
  rewrite Hc in Hs. rewrite Hs. unfold LONG_MIN. by ztests.
Qed.

Lemma strtoul_digits ds rest :
  digits ds -> ds <> [] -> isdigit (deref rest) = false -> dval ds <= ULONG_MAX ->
  strtoul (ds ++ rest) = Strtox (dval ds) rest 0.
Proof.
  intros Hd Hne Hr Hv. destruct ds as [|c ds]; [done|].
  assert (Hc : isdigit c = true) by (unfold digits in Hd; simpl in Hd; by bool_props).
  unfold strtoul. simpl.
  rewrite (isdigit_not_space _ Hc). unfold scan_sign. apply isdigit_range in Hc as Hc'.
  ztests. simpl. rewrite Hc.
  pose proof (span_all isdigit (c :: ds) rest Hd Hr eq_refl) as Hs. simpl in Hs.
  rewrite Hc in Hs. rewrite Hs. by ztests.
Qed.

(** ** Lemmas: decimal output *)

Lemma dec_fuel_enough f1 f2 n :
  0 <= n -> n < 2 ^ Z.of_nat f1 -> n < 2 ^ Z.of_nat f2 ->
  f1 <> O -> f2 <> O -> dec_fuel f1 n = dec_fuel f2 n.
Proof.
  revert f2 n. induction f1 as [|f1 IH]; intros [|f2] n Hn H1 H2 ??; try done.
  simpl. destruct (Z.ltb_spec n 10); [done|]. f_equal.
  assert (Hp : forall f, n < 2 ^ Z.of_nat (S f) -> n / 10 < 2 ^ Z.of_nat f /\ f <> O).
  { intros f Hf. rewrite Nat2Z.inj_succ, Z.pow_succ_r in Hf by lia. split; [dlia|].
    intros ->. simpl in Hf. lia. }
  destruct (Hp f1), (Hp f2); auto. apply IH; auto. dlia.
Qed.

Lemma log2_fuel n : n < 2 ^ Z.of_nat (S (Z.to_nat (Z.log2 n))).
Proof.
  pose proof (Z.log2_nonneg n). rewrite Nat2Z.inj_succ, Z2Nat.id by done.
  destruct (Z.leb_spec n 0); [|by apply Z.log2_spec].
  assert (0 < 2 ^ Z.succ (Z.log2 n)) by (apply Z.pow_pos_nonneg; lia). lia.
Qed.

Lemma dec_small n : 0 <= n < 10 -> dec n = [48 + n].
Proof. intros. unfold dec. simpl. by ztests. Qed.

Lemma dec_snoc n : 10 <= n -> dec n = dec (n / 10) ++ [48 + n mod 10].
Proof.
  intros. pose proof (log2_fuel n) as Hf. unfold dec at 1. simpl.
  replace (n <? 10) with false by lia. f_equal. unfold dec.
  rewrite Nat2Z.inj_succ, Z.pow_succ_r in Hf by lia.
  apply dec_fuel_enough; [dlia|dlia|apply log2_fuel| |done].
  intros E. rewrite E in Hf. simpl in Hf. lia.
Qed.

(** Induction over the decimal representation. *)
Lemma dec_ind (P : Z -> Prop) :
  (forall n, 0 <= n < 10 -> P n) ->
  (forall n, 10 <= n -> P (n / 10) -> P n) ->
  forall n, 0 <= n -> P n.
Proof.
  intros Hs Hr n Hn. generalize Hn. pattern n. apply Zlt_0_ind; [|done].
  intros x IH Hx _. destruct (Z.ltb_spec x 10); [apply Hs; lia|].
  apply Hr; [lia|]. apply IH; dlia.
Qed.

Lemma dec_digits n : 0 <= n -> digits (dec n).
Proof.
  revert n. apply dec_ind; intros n Hn.
  - rewrite dec_small by done. unfold digits. simpl. unfold isdigit. lia.
  - intros IH. rewrite dec_snoc, digits_app by done. split; [done|].
    unfold digits. simpl. unfold isdigit. dlia.
Qed.

Lemma dval_dec n : 0 <= n -> dval (dec n) = n.
Proof.
  revert n. apply dec_ind; intros n Hn.
  - rewrite dec_small by done. unfold dval, dval_from. simpl. lia.
  - intros IH. rewrite dec_snoc, dval_snoc, IH by done. dlia.
Qed.

Lemma dec_nonnil n : 0 <= n -> dec n <> [].
Proof.
  destruct (Z.ltb_spec n 10); intros.
  - by rewrite dec_small by lia.
  - rewrite dec_snoc by lia. by destruct (dec (n / 10)).
Qed.

(** A digit string with no superfluous leading zero. *)
Definition canonical (ds : bytes) : Prop :=
  digits ds /\ ds <> [] /\ (deref ds = "0"%c -> length ds = 1%nat).

Lemma dec_canonical n : 0 <= n -> canonical (dec n).
Proof.
  intros Hn. split_and!; [by apply dec_digits|by apply dec_nonnil|].
  revert n Hn. apply (dec_ind (fun n => deref (dec n) = 48 -> length (dec n) = 1%nat)); intros n Hn.
  - by rewrite dec_small.
  - intros IH E. exfalso. rewrite dec_snoc in E by done.
    pose proof (dec_nonnil (n / 10) ltac:(dlia)) as Hne.
    destruct (dec (n / 10)) as [|c l] eqn:Ed; [done|]. simpl in E, IH. subst c.
    specialize (IH eq_refl). destruct l; [|done].
    pose proof (dval_dec (n / 10) ltac:(dlia)) as Hv. rewrite Ed in Hv.
    unfold dval, dval_from in Hv. simpl in Hv. dlia.
Qed.

Lemma dec_dval ds : canonical ds -> dec (dval ds) = ds.
Proof.
  intros (Hd & Hne & Hz). induction ds as [|c ds IH] using rev_ind; [done|].
  apply digits_app in Hd as [Hd Hc]. unfold digits in Hc. simpl in Hc.
  rewrite andb_true_r, isdigit_range in Hc. rewrite dval_snoc.
  pose proof (dval_nonneg _ Hd).
  destruct ds as [|d ds].
  - unfold dval, dval_from. simpl. rewrite dec_small by lia. f_equal. lia.
  - assert (1 <= dval (d :: ds)).
    { simpl in Hz. unfold digits in Hd. simpl in Hd. bool_props.
      assert (d <> 48) by (intros ->; specialize (Hz eq_refl); revert Hz; rewrite length_app; simpl; lia).
      rewrite isdigit_range in *. change (dval (d :: ds)) with (dval_from (d - 48) ds).
      pose proof (dval_from_ge (d - 48) ds ltac:(done) ltac:(lia)). lia. }
    rewrite dec_snoc by lia.
    replace ((dval (d :: ds) * 10 + (c - 48)) / 10) with (dval (d :: ds)) by dlia.
    replace ((dval (d :: ds) * 10 + (c - 48)) mod 10) with (c - 48) by dlia.
    rewrite IH; [f_equal; f_equal; lia|done|done|].
    intros E. simpl in Hz. specialize (Hz E). rewrite length_app in Hz. simpl in Hz. lia.
Qed.

Lemma dec_inj n m : 0 <= n -> 0 <= m -> dec n = dec m -> n = m.
Proof. intros Hn Hm E. by rewrite <-(dval_dec n), <-(dval_dec m), E. Qed.

(** ** Lemmas: [inet_pton] and [inet_ntop] are inverse to each other *)

Lemma inet_pton4_digits ds rest octets cur acc :
  digits ds -> 0 <= cur -> (cur = 0 -> ds = []) -> dval_from cur ds <= 255 ->
  inet_pton4 (ds ++ rest) octets true cur acc =
  inet_pton4 rest octets true (dval_from cur ds) acc.
Proof.
  unfold digits. revert cur. induction ds as [|c ds IH]; intros cur; [done|].
  simpl. intros [Hc Hd]%andb_true_iff H0 Hz Hv. rewrite Hc.
  assert (cur <> 0) by (intros ->; by specialize (Hz eq_refl)).
  apply isdigit_range in Hc.
  pose proof (dval_from_ge (cur * 10 + (c - 48)) ds Hd ltac:(lia)).
  change (dval_from cur (c :: ds)) with (dval_from (cur * 10 + (c - 48)) ds) in *.
  ztests. simpl. apply IH; [done|lia|lia|done].
Qed.

Lemma inet_pton4_dec n rest octets acc :
  0 <= n <= 255 -> octets < 4 ->
  inet_pton4 (dec n ++ rest) octets false 0 acc = inet_pton4 rest (octets + 1) true n acc.
Proof.
  intros Hn Ho. destruct (dec_canonical n ltac:(lia)) as (Hd & Hne & Hz).
  pose proof (dval_dec n ltac:(lia)) as Hv.
  destruct (dec n) as [|c ds]; [done|]. unfold digits in Hd. simpl in *.
  apply andb_true_iff in Hd as [Hc Hd]. rewrite Hc. apply isdigit_range in Hc.
  change (dval (c :: ds)) with (dval_from (c - 48) ds) in Hv.
  pose proof (dval_from_ge (c - 48) ds Hd ltac:(lia)). ztests.
  replace (0 * 10 + (c - 48)) with (c - 48) by lia.
  rewrite inet_pton4_digits; [by rewrite Hv|done|lia| |lia].
  intros E. assert (c = 48) as -> by lia. specialize (Hz eq_refl). by destruct ds.
Qed.

Definition dotted (os : list Z) : bytes := concat (map (fun o => "."%c :: dec o) os).

Lemma inet_pton4_inv s octets saw cur acc l :
  0 <= cur <= 255 -> octets <= 4 -> (saw = false -> cur = 0 /\ octets < 4) ->
  inet_pton4 s octets saw cur acc = Some l ->
  exists ds os,
    s = ds ++ dotted os /\ l = rev acc ++ dval_from cur ds :: os /\
    digits ds /\ dval_from cur ds <= 255 /\ Forall (fun o => 0 <= o <= 255) os /\
    octets + (if saw then 0 else 1) + Z.of_nat (length os) = 4 /\
    (if saw then cur = 0 -> ds = [] else canonical ds).
Proof.
  revert octets saw cur acc. induction s as [|c s IH]; intros octets saw cur acc Hc Ho Hs; simpl.
  - destruct (Z.ltb_spec octets 4); [done|]. intros [= <-]. exists [], [].
    destruct saw; [|by destruct (Hs eq_refl); lia].
    split_and!; [done| |done|simpl; lia|constructor|simpl; lia|done].
    done.
  - destruct (isdigit c) eqn:Ec.
    + apply isdigit_range in Ec as Ec'.
      destruct (saw && (cur =? 0)) eqn:E1; [done|].
      destruct (Z.ltb_spec 255 (cur * 10 + (c - 48))); [done|].
      destruct saw.
      * intros Hl. destruct (IH octets true (cur * 10 + (c - 48)) acc ltac:(lia) Ho ltac:(done) Hl)
          as (ds & os & -> & -> & Hd & Hv & Hos & Hlen & Hz).
        exists (c :: ds), os. split_and!; [done|done| |done|done|done|].
        { unfold digits. simpl. by rewrite Ec. }
        { intros ->. done. }
      * destruct (Hs eq_refl) as [-> Ho']. destruct (Z.ltb_spec 4 (octets + 1)); [done|].
        intros Hl. destruct (IH (octets + 1) true (0 * 10 + (c - 48)) acc ltac:(lia) ltac:(lia) ltac:(done) Hl)
          as (ds & os & -> & -> & Hd & Hv & Hos & Hlen & Hz).
        assert (Hdc : digits (c :: ds)) by (unfold digits; simpl; by rewrite Ec).
        exists (c :: ds), os. split_and!; [done|done|done|done|done|lia|].
        split_and!; [done|done|]. simpl. intros ->. by rewrite Hz.
    + destruct ((c =? 46) && saw) eqn:E1; [|done]. apply andb_true_iff in E1 as [E1 ->].
      apply Z.eqb_eq in E1 as ->. destruct (Z.eqb_spec octets 4); [done|]. intros Hl.
      destruct (IH octets false 0 (cur :: acc) ltac:(lia) ltac:(lia) ltac:(lia) Hl)
        as (ds & os & -> & -> & Hd & Hv & Hos & Hlen & Hz).
      exists [], (dval ds :: os). split_and!.
      * unfold dotted. simpl. by rewrite (dec_dval ds).
      * simpl. by rewrite <-app_assoc.
      * done.
      * simpl. lia.
      * constructor; [|done]. pose proof (dval_nonneg ds Hd). unfold dval in *. lia.
      * simpl. lia.
      * done.
Qed.

Lemma octet_range k h : 0 <= octet k h <= 255.
Proof. unfold octet. pose proof (Z.mod_pos_bound (h / 2 ^ (8 * k)) 256). lia. Qed.

Lemma octets_combine a b c d :
  Forall (fun o => 0 <= o <= 255) [a; b; c; d] ->
  let h := be_combine [a; b; c; d] in
  in_u32 h /\ octet 3 h = a /\ octet 2 h = b /\ octet 1 h = c /\ octet 0 h = d.
Proof.
  intros H. repeat (apply Forall_cons in H; destruct H as [? H]). unfold be_combine, octet, in_u32. simpl.
  split_and!; dlia.
Qed.

Lemma combine_octets h : in_u32 h -> be_combine [octet 3 h; octet 2 h; octet 1 h; octet 0 h] = h.
Proof. unfold in_u32, be_combine, octet. simpl. intros. dlia. Qed.

Section inet.
Context `{BO : ByteOrder}.

Lemma inet_pton_range s a : inet_pton s = Some a -> in_u32 a.
Proof. unfold inet_pton. destruct (inet_pton4 _ _ _ _ _); simpl; intros [= <-]; auto with cint. Qed.

Lemma inet_pton_ntop a : in_u32 a -> inet_pton (inet_ntop a) = Some a.
Proof.
  intros Ha. unfold inet_pton, inet_ntop. simpl.
  rewrite inet_pton4_dec by (auto using octet_range; lia). simpl.
  rewrite inet_pton4_dec by (auto using octet_range; lia). simpl.
  rewrite inet_pton4_dec by (auto using octet_range; lia). simpl.
  rewrite <-(app_nil_r (dec (octet 0 _))).
  rewrite inet_pton4_dec by (auto using octet_range; lia). simpl.
  f_equal. etrans; [|by apply htonl_ntohl]. f_equal. apply combine_octets.
  unfold ntohl. auto with cint.
Qed.

Lemma inet_pton_inv s a : inet_pton s = Some a -> s = inet_ntop a.
Proof.
  unfold inet_pton. destruct (inet_pton4 s 0 false 0 []) as [l|] eqn:E; [|done].
  simpl. intros [= <-].
  apply inet_pton4_inv in E as (ds & os & -> & -> & Hd & Hv & Hos & Hlen & Hz); [|lia..].
  destruct os as [|b [|c [|d [|]]]]; simpl in Hlen; try lia. simpl.
  pose proof (dval_nonneg ds Hd). fold (dval ds) in *.
  destruct (octets_combine (dval ds) b c d) as (Hr & H3 & H2 & H1 & H0); [by constructor|].
  unfold inet_ntop. rewrite ntohl_htonl by done. simpl in *. rewrite H3, H2, H1, H0, dec_dval by done.
  unfold dotted. simpl. by rewrite app_nil_r.
Qed.

(** The accepted texts are exactly the canonical dotted quads. *)
Lemma inet_pton_iff s a : inet_pton s = Some a <-> in_u32 a /\ s = inet_ntop a.
Proof.
  split.
  - intros H. eauto using inet_pton_range, inet_pton_inv.
  - intros [? ->]. by apply inet_pton_ntop.
Qed.
End inet.

(** *** Splitting at a character *)

(** The pieces between the occurrences of [c]. *)
Fixpoint split_on (c : Z) (s : bytes) : list bytes :=
  match s with
  | [] => [[]]
  | d :: s' =>
      if d =? c then [] :: split_on c s'
      else match split_on c s' with f :: fs => (d :: f) :: fs | [] => [[d]] end
  end.

Lemma split_on_one c f : c ∉ f -> split_on c f = [f].
Proof.
  induction f as [|d f IH]; simpl; [done|]. intros [Hd Hf]%not_elem_of_cons.
  replace (d =? c) with false by lia. by rewrite IH.
Qed.

Lemma split_on_app c f r : c ∉ f -> split_on c (f ++ c :: r) = f :: split_on c r.
Proof.
  induction f as [|d f IH]; simpl; [by rewrite Z.eqb_refl|]. intros [Hd Hf]%not_elem_of_cons.
  replace (d =? c) with false by lia. by rewrite IH.
Qed.

Lemma strchr_split s c :
  c <> 0 ->
  ((c ∉ s) /\ strchr s c = None) \/
  (exists f r, (c ∉ f) /\ s = f ++ c :: r /\ strchr s c = Some (c :: r)).
Proof.
  intros Hc. induction s as [|d s IH]; simpl.
  - left. split; [by apply not_elem_of_nil|]. by replace (c =? 0) with false by lia.
  - destruct (Z.eqb_spec d c) as [->|Hne].
    + right. exists [], s. split; [by apply not_elem_of_nil|done].
    + destruct IH as [[Hn E]|(f & r & Hf & -> & E)].
      * left. split; [|done]. apply not_elem_of_cons. by split.
      * right. exists (d :: f), r. split; [|done]. apply not_elem_of_cons. by split.
Qed.
