(* ===== verification/Regex.v ===== *)
(** * POSIX extended regular expressions, as far as [parse_cidr] uses them

    [ere] is the compiled form of a pattern ([regcomp] with [REG_EXTENDED]);
    [regexec] looks for the leftmost match and, among those, a longest one,
    and reports the byte offsets of the match and of its groups.  The second
    half of the file characterises the matches of the CIDR pattern. *)

From S2P Require Import Prelude Libc.

(** ** Syntax and matcher *)

Inductive ere :=
| EChr (c : Z)                      (* c            *)
| ECls (lo hi : Z)                  (* [lo-hi]      *)
| ECat (a b : ere)                  (* ab           *)
| ERep (a : ere) (lo hi : nat)      (* a{lo,hi}     *)
| EGrp (k : nat) (a : ere)          (* (a), group k *)
| EBol                              (* ^            *)
| EEol.                             (* $            *)

(** [regmatch_t]: start and end offset, -1 when the group is not set. *)
Record regmatch := Regmatch { rm_so : Z; rm_eo : Z }.

Record mstate := MState { m_pos : Z; m_rest : bytes; m_caps : list regmatch }.

Definition step_char (p : Z -> bool) (st : mstate) : list mstate :=
  match m_rest st with
  | c :: s => if p c then [MState (m_pos st + 1) s (m_caps st)] else []
  | [] => []
  end.

(** All the ways to match [r] from [st], greedy ones first. *)
Fixpoint rmatch (r : ere) (st : mstate) : list mstate :=
  match r with
  | EChr c => step_char (Z.eqb c) st
  | ECls lo hi => step_char (fun c => (lo <=? c) && (c <=? hi)) st
  | ECat a b => rmatch a st ≫= rmatch b
  | ERep a lo hi =>
      (fix reps (n need : nat) (st : mstate) : list mstate :=
         match n with
         | O => [st]
         | S n' =>
             (rmatch a st ≫= reps n' (pred need)) ++
             (match need with O => [st] | S _ => [] end)
         end) hi lo st
  | EGrp k a =>
      st' ← rmatch a st;
      [MState (m_pos st') (m_rest st')
         (<[k := Regmatch (m_pos st) (m_pos st')]> (m_caps st'))]
  | EBol => if m_pos st =? 0 then [st] else []
  | EEol => match m_rest st with [] => [st] | _ => [] end
  end.

Fixpoint longest (best : mstate) (l : list mstate) : mstate :=
  match l with
  | [] => best
  | st :: l' => longest (if m_pos best <? m_pos st then st else best) l'
  end.

(** Leftmost start first; group 0 is the whole match. *)
Fixpoint search_from (r : ere) (nmatch : nat) (pos : Z) (s : bytes) : option (list regmatch) :=
  match rmatch r (MState pos s (replicate nmatch (Regmatch (-1) (-1)))) with
  | st :: l =>
      let best := longest st l in
      Some (<[0%nat := Regmatch pos (m_pos best)]> (m_caps best))
  | [] => match s with [] => None | _ :: s' => search_from r nmatch (pos + 1) s' end
  end.

Definition regexec (r : ere) (s : bytes) (nmatch : nat) : option (list regmatch) :=
  search_from r nmatch 0 s.

(** ** Matches of the matcher's building blocks *)

Definition advance (n : Z) (s : bytes) (st st' : mstate) : Prop :=
  m_rest st = s ++ m_rest st' /\ m_pos st' = m_pos st + n /\ m_caps st' = m_caps st.

Lemma elem_step_char p st st' :
  st' ∈ step_char p st <-> exists c, p c = true /\ advance 1 [c] st st'.
Proof.
  unfold step_char, advance. destruct st as [pos [|c s] caps]; simpl.
  - split; [by intros ?%not_elem_of_nil|]. by intros (c & _ & ? & _).
  - destruct (p c) eqn:E.
    + rewrite list_elem_of_singleton. split.
      * intros ->. eauto.
      * destruct st'; simpl. intros (? & _ & [= -> ->] & -> & ->). done.
    + split; [by intros ?%not_elem_of_nil|]. intros (d & Hd & [= -> ->] & _). congruence.
Qed.

Lemma elem_cat a b st st' :
  st' ∈ rmatch (ECat a b) st <-> exists m, m ∈ rmatch a st /\ st' ∈ rmatch b m.
Proof. simpl. rewrite list_elem_of_bind. split; intros (m & ? & ?); eauto. Qed.

Lemma elem_grp k a st st' :
  st' ∈ rmatch (EGrp k a) st <->
  exists m, m ∈ rmatch a st /\
    st' = MState (m_pos m) (m_rest m) (<[k := Regmatch (m_pos st) (m_pos m)]> (m_caps m)).
Proof.
  simpl. rewrite list_elem_of_bind. split.
  - intros (m & ->%list_elem_of_singleton & ?). eauto.
  - intros (m & ? & ->). exists m. by rewrite list_elem_of_singleton.
Qed.

Definition Digit : ere := ECls "0"%c "9"%c.

Lemma elem_digit_rep lo hi st st' :
  (lo <= hi)%nat ->
  st' ∈ rmatch (ERep Digit lo hi) st <->
  exists ds, digits ds /\ (lo <= length ds <= hi)%nat /\
    advance (Z.of_nat (length ds)) ds st st'.
Proof.
  simpl. revert lo st. induction hi as [|n IH]; intros lo st Hle; simpl.
  - rewrite list_elem_of_singleton. split.
    + intros ->. exists []. unfold advance. split_and!; [done|simpl; lia..|done|simpl; lia|done].
    + intros ([|] & _ & Hl & H1 & H2 & H3); simpl in *; [|lia]. destruct st, st'; simpl in *.
      f_equal; [lia|done|done].
  - rewrite elem_of_app, list_elem_of_bind. split.
    + intros [(m & Hm & (c & Hc & H1 & H2 & H3)%elem_step_char)|H].
      * apply IH in Hm as (ds & Hd & Hl & H1' & H2' & H3'); [|lia].
        exists (c :: ds). unfold advance. rewrite H1, H1', H2', H2, H3', H3. simpl.
        split_and!; [|lia|lia|done|lia|done]. unfold digits. simpl.
        rewrite Hd, andb_true_r. unfold isdigit. lia.
      * destruct lo; [|by apply not_elem_of_nil in H]. apply list_elem_of_singleton in H as ->.
        exists []. unfold advance. split_and!; [done|simpl; lia..|done|simpl; lia|done].
    + intros ([|c ds] & Hd & Hl & H1 & H2 & H3); simpl in *.
      * right. destruct lo; [|lia]. apply list_elem_of_singleton. destruct st, st'; simpl in *.
        f_equal; [lia|done|done].
      * left. unfold digits in Hd. simpl in Hd. apply andb_true_iff in Hd as [Hc Hd].
        exists (MState (m_pos st + 1) (ds ++ m_rest st') (m_caps st)). split.
        -- apply IH; [lia|]. exists ds. unfold advance. simpl. split_and!; [done|lia|lia|done|lia|done].
        -- apply elem_step_char. exists c. unfold advance. simpl.
           split_and!; [by apply isdigit_range in Hc; lia|done|done|done].
Qed.

Lemma longest_elem st l : longest st l ∈ st :: l.
Proof.
  revert st. induction l as [|st' l IH]; intros st; simpl; [by left|].
  specialize (IH (if m_pos st <? m_pos st' then st' else st)).
  rewrite !elem_of_cons in *. destruct (m_pos st <? m_pos st'); tauto.
Qed.
