(* ===== verification/Cidr.v ===== *)
(** * Network configuration from a CIDR (main.c, slirp4netns.h)

    [parse_cidr], [from_regmatch] and [slirp4netns_config_from_cidr]: the
    virtual network and the addresses derived from it.  [s_addr] values are
    in network byte order for either host byte order. *)

From S2P Require Import Prelude Libc Regex.

(** ** Constants of main.c *)

Definition DEFAULT_MTU : Z := 1500.
Definition DEFAULT_CIDR : bytes := b2l "10.0.2.0/24".
Definition DEFAULT_VHOST_OFFSET : Z := 2.
Definition DEFAULT_VDHCPSTART_OFFSET : Z := 15.
Definition DEFAULT_VNAMESERVER_OFFSET : Z := 3.
Definition DEFAULT_RECOMMENDED_VGUEST_OFFSET : Z := 100.
Definition NETWORK_PREFIX_MIN : Z := 1.
Definition NETWORK_PREFIX_MAX : Z := 25.
Definition NB_BOOTP_CLIENTS : Z := 16.

(** ** parse_cidr *)

(** "^(([0-9]{1,3}\.){3}[0-9]{1,3})/([0-9]{1,2})$" *)
Definition cidr_regex : ere :=
  ECat EBol
    (ECat (EGrp 1 (ECat (ERep (EGrp 2 (ECat (ERep Digit 1 3) (EChr "."%c))) 3 3)
                        (ERep Digit 1 3)))
       (ECat (EChr "/"%c) (ECat (EGrp 3 (ERep Digit 1 2)) EEol))).

(** The messages [parse_cidr] fails with. *)
Inductive cidr_error :=
| InvalidCidr             (* "invalid CIDR"                        *)
| InvalidNetworkAddress   (* "invalid network address"             *)
| InvalidPrefixLength     (* "invalid prefix length"               *)
| PrefixOutOfRange        (* "prefix length needs to be 1-25"      *)
| NotANetworkAddress.     (* "CIDR needs to be a network address"  *)

(** Copies the match into a zeroed buffer of [buf_len] bytes; the result is
    the C string in the buffer, [None] the return value -1. *)
Definition from_regmatch (buf_len : Z) (m : regmatch) (orig : bytes) : option bytes :=
  let len := u64 (rm_eo m - rm_so m) in
  if buf_len - 1 <? len then None
  else Some (take (Z.to_nat len) (drop (Z.to_nat (rm_so m)) orig)).

(** [~((1 << (32 - prefix)) - 1)] in [int] arithmetic, as converted to the
    [uint32_t] argument of [htonl]. *)
Definition netmask_host (prefix : Z) : Z :=
  u32 (Z.lnot (i32 (i32 (Z.shiftl 1 (32 - prefix)) - 1))).

(** C11 6.5.7 and 6.5.5: the shift and the subtraction are defined only if
    their mathematical results are values of [int]. *)
Definition netmask_defined (prefix : Z) : Prop :=
  in_i32 (Z.shiftl 1 (32 - prefix)) /\ in_i32 (Z.shiftl 1 (32 - prefix) - 1).

Section cidr.
Context `{BO : ByteOrder}.

(** Success is the pair (network->s_addr, netmask->s_addr). *)
Definition parse_cidr (cidr : bytes) : (Z * Z) + cidr_error :=
  match regexec cidr_regex cidr 4 with
  | None => inr InvalidCidr
  | Some matches =>
      let match_at k := default (Regmatch (-1) (-1)) (matches !! k) in
      match from_regmatch 16 (match_at 1%nat) cidr with
      | None => inr InvalidCidr
      | Some snetwork =>
          match from_regmatch 16 (match_at 3%nat) cidr with
          | None => inr InvalidCidr
          | Some sprefix =>
              match inet_pton snetwork with
              | None => inr InvalidNetworkAddress
              | Some network =>
                  let r := strtoul sprefix in
                  let prefix := i32 (sx_val r) in
                  if negb (sx_errno r =? 0) then inr InvalidPrefixLength
                  else if (prefix <? NETWORK_PREFIX_MIN) || (NETWORK_PREFIX_MAX <? prefix)
                  then inr PrefixOutOfRange
                  else
                    let netmask := htonl (netmask_host prefix) in
                    if negb (Z.land network netmask =? network) then inr NotANetworkAddress
                    else inl (network, netmask)
              end
          end
      end
  end.

(** [htonl(ntohl(network) + offset)] in [uint32_t] arithmetic *)
Definition addr_add (a offset : Z) : Z := htonl (u32 (ntohl a + offset)).

(** The address fields of [struct slirp4netns_config]. *)
Record netaddrs := Netaddrs {
  vnetwork : Z;
  vnetmask : Z;
  vhost : Z;
  vdhcp_start : Z;
  vnameserver : Z;
  recommended_vguest : Z
}.

Definition slirp4netns_config_from_cidr (cidr : bytes) : netaddrs + cidr_error :=
  match parse_cidr cidr with
  | inr e => inr e
  | inl (network, netmask) =>
      inl {|
        vnetwork := network;
        vnetmask := netmask;
        vhost := addr_add network DEFAULT_VHOST_OFFSET;
        vdhcp_start := addr_add network DEFAULT_VDHCPSTART_OFFSET;
        vnameserver := addr_add network DEFAULT_VNAMESERVER_OFFSET;
        recommended_vguest := addr_add network DEFAULT_RECOMMENDED_VGUEST_OFFSET
      |}
  end.

(** [vdhcp_end] of [parent]: the last address libslirp's DHCP server hands out *)
Definition vdhcp_end (cfg : netaddrs) : Z :=
  htonl (u32 (ntohl (vdhcp_start cfg) + NB_BOOTP_CLIENTS - 1)).

End cidr.

(** ** What the pattern matches *)

Definition octet_text (d : bytes) : Prop := digits d /\ (1 <= length d <= 3)%nat.

Definition quad_text (s : bytes) : Prop :=
  exists d1 d2 d3 d4,
    Forall octet_text [d1; d2; d3; d4] /\
    s = d1 ++ "."%c :: d2 ++ "."%c :: d3 ++ "."%c :: d4.

Definition prefix_text (s : bytes) : Prop := digits s /\ (1 <= length s <= 2)%nat.

Lemma elem_rep_S a lo hi st st' :
  st' ∈ rmatch (ERep a (S lo) (S hi)) st <->
  exists m, m ∈ rmatch a st /\ st' ∈ rmatch (ERep a lo hi) m.
Proof.
  simpl. rewrite app_nil_r, list_elem_of_bind. split; intros (m & ? & ?); eauto.
Qed.

Lemma elem_rep3 a st st' :
  st' ∈ rmatch (ERep a 3 3) st <->
  exists m1 m2, m1 ∈ rmatch a st /\ m2 ∈ rmatch a m1 /\ st' ∈ rmatch a m2.
Proof.
  rewrite elem_rep_S. setoid_rewrite elem_rep_S. setoid_rewrite elem_rep_S. split.
  - intros (m1 & ? & m2 & ? & m3 & ? & ->%list_elem_of_singleton). eauto 6.
  - intros (m1 & m2 & ? & ? & ?). exists m1. split; [done|]. exists m2. split; [done|].
    exists st'. split; [done|]. by apply list_elem_of_singleton.
Qed.

Lemma elem_chr c st st' : st' ∈ rmatch (EChr c) st <-> advance 1 [c] st st'.
Proof.
  simpl. rewrite elem_step_char. split; [|intros; exists c; split; [lia|done]].
  intros (d & Hd & ?). by apply Z.eqb_eq in Hd as ->.
Qed.

(** One "([0-9]{1,3}\.)" *)
Lemma elem_dot_group st st' :
  st' ∈ rmatch (EGrp 2 (ECat (ERep Digit 1 3) (EChr "."%c))) st <->
  exists d, octet_text d /\ m_rest st = d ++ "."%c :: m_rest st' /\
    m_pos st' = m_pos st + Z.of_nat (length d) + 1 /\
    m_caps st' = <[2%nat := Regmatch (m_pos st) (m_pos st')]> (m_caps st).
Proof.
  rewrite elem_grp. setoid_rewrite elem_cat. setoid_rewrite elem_chr.
  setoid_rewrite (elem_digit_rep 1 3); [|lia]. unfold advance, octet_text. split.
  - intros (m & (m1 & (d & Hd & Hl & R1 & P1 & C1) & R2 & P2 & C2) & ->). simpl.
    exists d. rewrite R1, R2, P2, P1, C2, C1. split_and!; try done; lia.
  - intros (d & (Hd & Hl) & R & P & C).
    exists (MState (m_pos st') (m_rest st') (m_caps st)). split.
    + exists (MState (m_pos st + Z.of_nat (length d)) ("."%c :: m_rest st') (m_caps st)). simpl.
      split; [exists d; done|done].
    + simpl. destruct st'; simpl in *. by rewrite C.
Qed.

Lemma lookup_caps (k : nat) (m : regmatch) (l : list regmatch) :
  (k < length l)%nat -> <[k := m]> l !! k = Some m.
Proof. apply list_lookup_insert_eq. Qed.

Lemma cidr_match_sound s caps st' :
  length caps = 4%nat ->
  st' ∈ rmatch cidr_regex (MState 0 s caps) ->
  exists net ps, quad_text net /\ prefix_text ps /\ s = net ++ "/"%c :: ps /\
    m_caps st' !! 1%nat = Some (Regmatch 0 (Z.of_nat (length net))) /\
    m_caps st' !! 3%nat =
      Some (Regmatch (Z.of_nat (length net) + 1) (Z.of_nat (length s))) /\
    length (m_caps st') = 4%nat.
Proof.
  intros Hlen. unfold cidr_regex. rewrite elem_cat. intros (m0 & H0 & H). simpl in H0.
  apply list_elem_of_singleton in H0 as ->.
  apply elem_cat in H as (m1 & (m & H1 & ->)%elem_grp & H).
  apply elem_cat in H1 as (m2 & (a1 & a2 & D1 & D2 & D3)%elem_rep3 & D4).
  apply elem_dot_group in D1 as (d1 & O1 & R1 & P1 & C1).
  apply elem_dot_group in D2 as (d2 & O2 & R2 & P2 & C2).
  apply elem_dot_group in D3 as (d3 & O3 & R3 & P3 & C3).
  apply elem_digit_rep in D4 as (d4 & Hd4 & Hl4 & R4 & P4 & C4); [|lia].
  apply elem_cat in H as (m3 & (R5 & P5 & C5)%elem_chr & H).
  apply elem_cat in H as (m4 & (m5 & H6 & ->)%elem_grp & H).
  apply elem_digit_rep in H6 as (p & Hp & Hlp & R6 & P6 & C6); [|lia].
  simpl in H, R1, R2, R3, R4, R5, R6, P1, P5, C1, C5.
  destruct (m_rest m5) eqn:E; [|by apply not_elem_of_nil in H].
  apply list_elem_of_singleton in H as ->. simpl.
  exists (d1 ++ 46 :: d2 ++ 46 :: d3 ++ 46 :: d4), p. rewrite R1, R2, R3, R4, R5, R6, app_nil_r.
  rewrite C6, C5, C4, C3, C2, C1, P6, P5, P4, P3, P2, P1.
  split_and!.
  - exists d1, d2, d3, d4. split; [|done]. by repeat (apply Forall_cons; split; [done|]).
  - done.
  - by repeat (rewrite <-app_assoc; simpl).
  - rewrite list_lookup_insert_ne by done. rewrite lookup_caps by (rewrite !length_insert; lia).
    do 2 f_equal. rewrite !length_app; simpl; rewrite !length_app; simpl; rewrite !length_app; simpl. lia.
  - rewrite lookup_caps by (rewrite !length_insert; lia). do 2 f_equal;
    repeat (rewrite !length_app; simpl); lia.
  - by rewrite !length_insert.
Qed.

Lemma cidr_match_complete net ps caps :
  quad_text net -> prefix_text ps ->
  exists st', st' ∈ rmatch cidr_regex (MState 0 (net ++ "/"%c :: ps) caps).
Proof.
  intros (d1 & d2 & d3 & d4 & HF & ->) (Hp & Hlp).
  repeat (apply Forall_cons in HF; destruct HF as [? HF]).
  assert (Hdot : forall d pos rest cs, octet_text d -> exists pos' cs',
    MState pos' rest cs' ∈ rmatch (EGrp 2 (ECat (ERep Digit 1 3) (EChr "."%c)))
      (MState pos (d ++ "."%c :: rest) cs)).
  { intros d pos rest cs Hd. eexists _, _. apply elem_dot_group. exists d. simpl. eauto. }
  assert (Hrep : forall d lo hi pos rest cs, digits d -> (lo <= length d <= hi)%nat -> exists pos',
    MState pos' rest cs ∈ rmatch (ERep Digit lo hi) (MState pos (d ++ rest) cs)).
  { intros d lo hi pos rest cs Hd Hl. eexists. apply elem_digit_rep; [lia|]. exists d.
    unfold advance. simpl. eauto. }
  destruct (Hdot d1 0 (d2 ++ 46 :: d3 ++ 46 :: d4 ++ 47 :: ps) caps) as (p1 & c1 & M1); [done|].
  destruct (Hdot d2 p1 (d3 ++ 46 :: d4 ++ 47 :: ps) c1) as (p2 & c2 & M2); [done|].
  destruct (Hdot d3 p2 (d4 ++ 47 :: ps) c2) as (p3 & c3 & M3); [done|].
  destruct (Hrep d4 1%nat 3%nat p3 (47 :: ps) c3) as (p4 & M4); [by destruct H2..|].
  set (c4 := <[1%nat:=Regmatch 0 p4]> c3).
  destruct (Hrep ps 1%nat 2%nat (p4 + 1) [] c4) as (p5 & M5); [done..|]. rewrite app_nil_r in M5.
  replace ((d1 ++ 46 :: d2 ++ 46 :: d3 ++ 46 :: d4) ++ 47 :: ps)
    with (d1 ++ 46 :: d2 ++ 46 :: d3 ++ 46 :: d4 ++ 47 :: ps)
    by (repeat (rewrite <-app_assoc; simpl); done).
  eexists. apply elem_cat. eexists. split; [by apply list_elem_of_singleton|].
  apply elem_cat. exists (MState p4 (47 :: ps) c4). split.
  { apply elem_grp. exists (MState p4 (47 :: ps) c3). split; [|done].
    apply elem_cat. eexists. split; [apply elem_rep3; eauto|done]. }
  apply elem_cat. exists (MState (p4 + 1) ps c4). split; [by apply elem_chr|].
  apply elem_cat. eexists. split; [apply elem_grp; eauto|]. simpl. by apply list_elem_of_singleton.
Qed.

(** ** parse_cidr on a text of the pattern's shape *)

Lemma search_from_bol r nmatch pos s :
  0 < pos -> search_from (ECat EBol r) nmatch pos s = None.
Proof.
  revert pos. induction s as [|c s IH]; intros pos Hp; simpl; ztests; simpl; [done|].
  apply IH. lia.
Qed.

Lemma regexec_cidr_sound s ms :
  regexec cidr_regex s 4 = Some ms ->
  exists net ps, quad_text net /\ prefix_text ps /\ s = net ++ "/"%c :: ps /\
    ms !! 1%nat = Some (Regmatch 0 (Z.of_nat (length net))) /\
    ms !! 3%nat = Some (Regmatch (Z.of_nat (length net) + 1) (Z.of_nat (length s))).
Proof.
  unfold regexec. intros H.
  assert (exists st', st' ∈ rmatch cidr_regex (MState 0 s (replicate 4 (Regmatch (-1) (-1)))) /\
    ms = <[0%nat := Regmatch 0 (m_pos st')]> (m_caps st')) as (st' & Hin & ->).
  { destruct s as [|c s]; cbn [search_from] in H;
      destruct (rmatch cidr_regex _) as [|st l] eqn:E.
    - done.
    - injection H as <-. rewrite <-E. exists (longest st l). rewrite E. auto using longest_elem.
    - unfold cidr_regex in H. by rewrite search_from_bol in H by lia.
    - injection H as <-. rewrite <-E. exists (longest st l). rewrite E. auto using longest_elem. }
  apply cidr_match_sound in Hin as (net & ps & ? & ? & ? & H1 & H3 & _); [|done].
  exists net, ps. rewrite !list_lookup_insert_ne by done. done.
Qed.

Lemma regexec_cidr_complete net ps :
  quad_text net -> prefix_text ps ->
  exists ms, regexec cidr_regex (net ++ "/"%c :: ps) 4 = Some ms.
Proof.
  intros Hn Hp. unfold regexec.
  destruct (cidr_match_complete net ps (replicate 4 (Regmatch (-1) (-1))) Hn Hp) as (st' & Hin).
  destruct (net ++ "/"%c :: ps); cbn [search_from];
    destruct (rmatch cidr_regex _); eauto; by apply not_elem_of_nil in Hin.
Qed.

Lemma quad_text_no_slash net : quad_text net -> "/"%c ∉ net.
Proof.
  intros (d1 & d2 & d3 & d4 & HF & ->).
  assert (forall d, octet_text d -> 47 ∉ d) as Hd.
  { intros d [Hd _] Hin. unfold digits in Hd. rewrite forallb_forall in Hd.
    apply list_elem_of_In in Hin. apply Hd, isdigit_range in Hin. lia. }
  repeat (apply Forall_cons in HF; destruct HF as [?%Hd HF]).
  rewrite !elem_of_app, !elem_of_cons, !elem_of_app, !elem_of_cons, !elem_of_app, !elem_of_cons.
  intuition lia.
Qed.

Lemma slash_split (a b p q : bytes) :
  "/"%c ∉ a -> "/"%c ∉ b -> a ++ "/"%c :: p = b ++ "/"%c :: q -> a = b /\ p = q.
Proof.
  revert b. induction a as [|x a IH]; intros [|y b] Ha Hb [=]; subst;
    rewrite ?not_elem_of_cons in *; try (done || tauto).
  destruct Ha, Hb. by destruct (IH b) as [-> ->].
Qed.

Section parse_cidr_facts.
Context `{BO : ByteOrder}.

Lemma from_regmatch_prefix a b : (length a <= 15)%nat ->
  from_regmatch 16 (Regmatch 0 (Z.of_nat (length a))) (a ++ b) = Some a.
Proof.
  intros. unfold from_regmatch, u64. simpl. rewrite Z.mod_small by lia. ztests.
  rewrite Z.sub_0_r, Nat2Z.id, drop_0, take_app_length. done.
Qed.

Lemma from_regmatch_suffix a c b : (length b <= 15)%nat ->
  from_regmatch 16 (Regmatch (Z.of_nat (length a) + 1) (Z.of_nat (length (a ++ c :: b)))) (a ++ c :: b)
  = Some b.
Proof.
  intros. unfold from_regmatch, u64. simpl. rewrite length_app. simpl.
  replace (Z.of_nat (length a + S (length b)) - (Z.of_nat (length a) + 1))
    with (Z.of_nat (length b)) by lia.
  rewrite Z.mod_small by lia. ztests. f_equal.
  replace (Z.to_nat (Z.of_nat (length a) + 1)) with (length a + 1)%nat by lia.
  rewrite <-drop_drop, drop_app_length. simpl. by rewrite Nat2Z.id, firstn_all.
Qed.

Lemma quad_text_length net : quad_text net -> (length net <= 15)%nat.
Proof.
  intros (d1 & d2 & d3 & d4 & HF & ->).
  repeat (apply Forall_cons in HF; destruct HF as [[_ ?] HF]).
  repeat (rewrite length_app; simpl). lia.
Qed.

Lemma prefix_text_dval ps : prefix_text ps -> 0 <= dval ps < 100.
Proof.
  intros [Hd Hl]. split; [by apply dval_nonneg|]. pose proof (dval_lt ps Hd).
  assert (10 ^ Z.of_nat (length ps) <= 10 ^ 2) by (apply Z.pow_le_mono_r; lia). lia.
Qed.

(** Where the pattern matches, the two buffers are large enough and
    [strtoul] cannot fail: what remains are three tests. *)
Lemma parse_cidr_texts net ps :
  quad_text net -> prefix_text ps ->
  parse_cidr (net ++ "/"%c :: ps) =
    match inet_pton net with
    | None => inr InvalidNetworkAddress
    | Some n =>
        if (dval ps <? NETWORK_PREFIX_MIN) || (NETWORK_PREFIX_MAX <? dval ps)
        then inr PrefixOutOfRange
        else if negb (Z.land n (htonl (netmask_host (dval ps))) =? n)
        then inr NotANetworkAddress
        else inl (n, htonl (netmask_host (dval ps)))
    end.
Proof.
  intros Hq Hp. unfold parse_cidr.
  destruct (regexec_cidr_complete net ps Hq Hp) as (ms & E). rewrite E.
  apply regexec_cidr_sound in E as (net' & ps' & Hq' & Hp' & Es & H1 & H3).
  apply slash_split in Es as [<- <-]; [|by apply quad_text_no_slash..].
  rewrite H1, H3. simpl. pose proof Hp as [Hd Hl].
  rewrite from_regmatch_prefix by (by apply quad_text_length).
  rewrite from_regmatch_suffix by lia.
  destruct (inet_pton net) as [n|]; [|done].
  pose proof (prefix_text_dval ps Hp) as Hv.
  assert (strtoul ps = Strtox (dval ps) [] 0) as ->.
  { rewrite <-(app_nil_r ps) at 1.
    apply strtoul_digits; [done|intros ->; simpl in Hl; lia|done|unfold ULONG_MAX; lia]. }
  simpl. by rewrite i32_small by (unfold in_i32; lia).
Qed.
End parse_cidr_facts.

(** ** Netmask arithmetic *)

Lemma netmask_host_val p : 1 <= p <= 25 -> netmask_host p = 2 ^ 32 - 2 ^ (32 - p).
Proof.
  intros Hp. apply Z.eqb_eq.
  apply (check_range (fun p => netmask_host p =? 2 ^ 32 - 2 ^ (32 - p)) 1 25); [vm_compute; done|lia].
Qed.

Lemma pow_prefix_bounds p : 1 <= p <= 25 -> 128 <= 2 ^ (32 - p) <= 2 ^ 31.
Proof. intros. change 128 with (2 ^ 7). split; apply Z.pow_le_mono_r; lia. Qed.

Lemma network_room h p :
  in_u32 h -> 1 <= p <= 25 -> h mod 2 ^ (32 - p) = 0 -> h + 2 ^ (32 - p) <= 2 ^ 32.
Proof.
  intros Hh Hp Hm. pose proof (pow_prefix_bounds p Hp). unfold in_u32 in Hh.
  assert (E : 2 ^ 32 = 2 ^ p * 2 ^ (32 - p)) by (rewrite <-Z.pow_add_r by lia; f_equal; lia).
  rewrite Z.mod_eq in Hm by lia. set (q := h / 2 ^ (32 - p)) in *. set (b := 2 ^ (32 - p)) in *.
  assert (q < 2 ^ p) by nia. nia.
Qed.

Section cidr_theorems.
Context `{BO : ByteOrder}.

Lemma quad_text_inet_ntop a : quad_text (inet_ntop a).
Proof.
  assert (forall k, octet_text (dec (octet k (ntohl a)))) as Ho.
  { intros k. pose proof (octet_range k (ntohl a)) as Hr. split; [apply dec_digits; lia|].
    destruct (dec_canonical _ (proj1 Hr)) as (Hd & Hne & _).
    split; [destruct (dec _); [done|simpl; lia]|].
    revert Hr. generalize (octet k (ntohl a)) as n. clear. intros n Hn.
    assert ((length (dec n) <=? 3)%nat = true) as ?%Nat.leb_le; [|done].
    apply (check_range (fun n => (length (dec n) <=? 3)%nat) 0 256); [vm_compute; done|lia]. }
  unfold inet_ntop. exists (dec (octet 3 (ntohl a))), (dec (octet 2 (ntohl a))),
    (dec (octet 1 (ntohl a))), (dec (octet 0 (ntohl a))).
  split; [|done]. by repeat (apply Forall_cons; split; [apply Ho|]).
Qed.

Lemma land_htonl_netmask h p :
  in_u32 h -> 1 <= p <= 25 ->
  Z.land (htonl h) (htonl (netmask_host p)) = htonl h <-> h mod 2 ^ (32 - p) = 0.
Proof.
  intros Hh Hp. rewrite netmask_host_val by done. pose proof (pow_prefix_bounds p Hp).
  rewrite <-htonl_land by (unfold in_u32 in *; lia). rewrite land_high_mask by (done || lia).
  pose proof (Z.mod_pos_bound h (2 ^ (32 - p)) ltac:(lia)). unfold in_u32 in *.
  pose proof (Z.mod_le h (2 ^ (32 - p)) ltac:(lia) ltac:(lia)).
  split; [|intros ->; f_equal; lia]. intros E%htonl_inj; unfold in_u32; lia.
Qed.

(** The regular expression's match, read back as an address and a prefix. *)
Lemma parse_cidr_split cidr ms :
  regexec cidr_regex cidr 4 = Some ms ->
  exists net ps, quad_text net /\ prefix_text ps /\ cidr = net ++ "/"%c :: ps /\
    match inet_pton net with
    | None => parse_cidr cidr = inr InvalidNetworkAddress
    | Some n =>
        exists h, in_u32 h /\ n = htonl h /\ net = inet_ntop n /\
        (if (dval ps <? NETWORK_PREFIX_MIN) || (NETWORK_PREFIX_MAX <? dval ps)
         then parse_cidr cidr = inr PrefixOutOfRange
         else if h mod 2 ^ (32 - dval ps) =? 0
         then parse_cidr cidr = inl (htonl h, htonl (2 ^ 32 - 2 ^ (32 - dval ps)))
         else parse_cidr cidr = inr NotANetworkAddress)
    end.
Proof.
  intros (net & ps & Hq & Hp & -> & _ & _)%regexec_cidr_sound.
  exists net, ps. split_and!; [done..|]. rewrite parse_cidr_texts by done.
  destruct (inet_pton net) as [n|] eqn:En; [|done].
  apply inet_pton_iff in En as [Hn En].
  exists (ntohl n). rewrite htonl_ntohl by done. split_and!; [apply htonl_range|done|done|].
  destruct ((dval ps <? _) || _) eqn:Er; [done|].
  assert (Hv : 1 <= dval ps <= 25) by (unfold NETWORK_PREFIX_MIN, NETWORK_PREFIX_MAX in Er; lia).
  pose proof (land_htonl_netmask (ntohl n) (dval ps) (htonl_range _) Hv) as Hl.
  rewrite htonl_ntohl, (netmask_host_val _ Hv) in * by done.
  destruct (Z.eqb_spec (ntohl n mod 2 ^ (32 - dval ps)) 0) as [E|E].
  - by rewrite (proj2 Hl E), Z.eqb_refl.
  - destruct (Z.eqb_spec (Z.land n (htonl (2 ^ 32 - 2 ^ (32 - dval ps)))) n); tauto.
Qed.

Lemma parse_cidr_success cidr network netmask :
  parse_cidr cidr = inl (network, netmask) ->
  exists h ps, in_u32 h /\ prefix_text ps /\
    cidr = inet_ntop (htonl h) ++ "/"%c :: ps /\
    NETWORK_PREFIX_MIN <= dval ps <= NETWORK_PREFIX_MAX /\
    h mod 2 ^ (32 - dval ps) = 0 /\
    network = htonl h /\ netmask = htonl (2 ^ 32 - 2 ^ (32 - dval ps)).
Proof.
  intros H. destruct (regexec cidr_regex cidr 4) as [ms|] eqn:E.
  2:{ unfold parse_cidr in H. by rewrite E in H. }
  apply parse_cidr_split in E as (net & ps & Hq & Hp & -> & Hc).
  destruct (inet_pton net) as [n|]; [|congruence]. destruct Hc as (h & Hh & -> & -> & Hc).
  repeat case_match; try congruence. exists h, ps. rewrite H in Hc. injection Hc as -> ->.
  split_and!; try done; lia.
Qed.

(** C9: the texts [parse_cidr] accepts, the addresses it returns for them, and
    what each of its error messages says of the text.  A text is accepted iff
    it is the canonical dotted quad of a 32-bit address, a slash and a one or
    two digit prefix length in 1..25 such that no host bit of the address is
    set; the netmask is then the top [p] bits.  The "invalid prefix length"
    branch is unreachable. *)
Theorem parse_cidr_correct cidr :
  match parse_cidr cidr with
  | inl (network, netmask) =>
      exists h ps, in_u32 h /\ prefix_text ps /\
        cidr = inet_ntop (htonl h) ++ "/"%c :: ps /\
        NETWORK_PREFIX_MIN <= dval ps <= NETWORK_PREFIX_MAX /\
        h mod 2 ^ (32 - dval ps) = 0 /\
        network = htonl h /\ netmask = htonl (2 ^ 32 - 2 ^ (32 - dval ps))
  | inr InvalidCidr =>
      ~ exists net ps, quad_text net /\ prefix_text ps /\ cidr = net ++ "/"%c :: ps
  | inr InvalidNetworkAddress =>
      exists net ps, quad_text net /\ prefix_text ps /\ cidr = net ++ "/"%c :: ps /\
        forall a, in_u32 a -> net <> inet_ntop a
  | inr InvalidPrefixLength => False
  | inr PrefixOutOfRange =>
      exists a ps, in_u32 a /\ prefix_text ps /\ cidr = inet_ntop a ++ "/"%c :: ps /\
        ~ NETWORK_PREFIX_MIN <= dval ps <= NETWORK_PREFIX_MAX
  | inr NotANetworkAddress =>
      exists h ps, in_u32 h /\ prefix_text ps /\
        cidr = inet_ntop (htonl h) ++ "/"%c :: ps /\
        NETWORK_PREFIX_MIN <= dval ps <= NETWORK_PREFIX_MAX /\
        h mod 2 ^ (32 - dval ps) <> 0
  end.
Proof.
  destruct (regexec cidr_regex cidr 4) as [ms|] eqn:E.
  2:{ unfold parse_cidr. rewrite E. intros (net & ps & Hq & Hp & ->).
      destruct (regexec_cidr_complete net ps Hq Hp); congruence. }
  apply parse_cidr_split in E as (net & ps & Hq & Hp & -> & Hc).
  destruct (inet_pton net) as [n|] eqn:En.
  2:{ rewrite Hc. exists net, ps. split_and!; [done..|]. intros a Ha ->.
      by rewrite inet_pton_ntop in En. }
  destruct Hc as (h & Hh & -> & -> & Hc). unfold NETWORK_PREFIX_MIN, NETWORK_PREFIX_MAX in *.
  repeat case_match; simplify_eq; try congruence.
  - exists (htonl h), ps. split_and!; [auto with cint|done|done|lia].
  - exists h, ps. split_and!; done || lia.
  - exists h, ps. split_and!; done || lia.
Qed.

(** C5: every derived address is in the configured network and they are
    pairwise distinct, so that gateway, DNS server, the DHCP pool's ends and
    the recommended guest address never coincide with each other, with the
    network address or with the broadcast address, whatever CIDR was
    accepted; no address computation wraps around. *)
Theorem config_addresses cidr cfg :
  slirp4netns_config_from_cidr cidr = inl cfg ->
  let derived :=
    [vhost cfg; vnameserver cfg; vdhcp_start cfg; vdhcp_end cfg; recommended_vguest cfg] in
  let broadcast := htonl (u32 (ntohl (vnetwork cfg) + (2 ^ 32 - ntohl (vnetmask cfg)) - 1)) in
  Forall (fun a => Z.land a (vnetmask cfg) = vnetwork cfg) (broadcast :: derived) /\
  NoDup (vnetwork cfg :: broadcast :: derived) /\
  map (fun a => ntohl a - ntohl (vnetwork cfg)) derived = [2; 3; 15; 30; 100].
Proof.
  unfold slirp4netns_config_from_cidr.
  destruct (parse_cidr cidr) as [[n m]|] eqn:H; [|done].
  apply parse_cidr_success in H as (h & ps & Hh & _ & _ & Hp & Hm & -> & ->). intros [= <-]. simpl.
  set (p := dval ps) in *. unfold NETWORK_PREFIX_MIN, NETWORK_PREFIX_MAX in Hp.
  pose proof (pow_prefix_bounds p Hp) as Hb. pose proof (network_room h p Hh Hp Hm) as Hr.
  unfold in_u32 in Hh.
  assert (Hadd : forall d, 0 <= d < 2 ^ (32 - p) -> u32 (h + d) = h + d)
    by (intros; apply u32_small; unfold in_u32; lia).
  unfold addr_add, vdhcp_end, addr_add, DEFAULT_VHOST_OFFSET, DEFAULT_VDHCPSTART_OFFSET,
    DEFAULT_VNAMESERVER_OFFSET, DEFAULT_RECOMMENDED_VGUEST_OFFSET, NB_BOOTP_CLIENTS. simpl.
  rewrite !(ntohl_htonl h), !(ntohl_htonl (2 ^ 32 - _)) by (unfold in_u32; lia).
  rewrite !(ntohl_htonl (u32 _)), !Hadd by (auto with cint; lia).
  replace (h + (2 ^ 32 - (2 ^ 32 - 2 ^ (32 - p))) - 1) with (h + (2 ^ (32 - p) - 1)) by lia.
  replace (h + 15 + 16 - 1) with (h + 30) by lia. rewrite !Hadd by lia.
  rewrite ?ntohl_htonl by (unfold in_u32; lia).
  split_and!; [| |repeat f_equal; lia].
  - assert (Hin : forall d, 0 <= d < 2 ^ (32 - p) ->
      Z.land (htonl (h + d)) (htonl (2 ^ 32 - 2 ^ (32 - p))) = htonl h).
    { intros d Hd. rewrite <-htonl_land, land_high_mask by (unfold in_u32; lia). f_equal.
      rewrite Z.add_mod, Hm, Z.add_0_l, Z.mod_mod, Z.mod_small by lia. lia. }
    repeat (apply Forall_cons; split; [apply Hin; lia|]). by constructor.
  - assert (Hne : forall a b, in_u32 a -> in_u32 b -> a <> b -> htonl a <> htonl b)
      by (intros a b ?? Hab E; by apply htonl_inj in E).
    repeat (apply NoDup_cons; split;
      [rewrite ?not_elem_of_cons; split_and?; try (apply Hne; unfold in_u32; lia); apply not_elem_of_nil|]).
    by constructor.
Qed.

(** The netmask computation stays within the values of [int] for every
    accepted prefix length except 1, where the left shift (and then the
    subtraction) overflows, which is undefined behaviour. *)
Theorem netmask_int_overflow p :
  NETWORK_PREFIX_MIN <= p <= NETWORK_PREFIX_MAX -> netmask_defined p <-> p <> 1.
Proof.
  unfold netmask_defined, in_i32, NETWORK_PREFIX_MIN, NETWORK_PREFIX_MAX. intros Hp.
  rewrite Z.shiftl_mul_pow2, Z.mul_1_l by lia. split.
  - intros [H _] ->. change (2 ^ (32 - 1)) with (2 ^ 31) in H. lia.
  - intros. assert (1 <= 2 ^ (32 - p) <= 2 ^ 30); [|lia].
    change 1 with (2 ^ 0) at 1. split; apply Z.pow_le_mono_r; lia.
Qed.

(** Printing a network and a prefix length the way the daemon prints
    addresses and reading it back gives the same network, for every aligned
    network and every supported prefix length. *)
Theorem parse_cidr_roundtrip h p :
  in_u32 h -> NETWORK_PREFIX_MIN <= p <= NETWORK_PREFIX_MAX -> h mod 2 ^ (32 - p) = 0 ->
  parse_cidr (inet_ntop (htonl h) ++ "/"%c :: dec p) =
    inl (htonl h, htonl (2 ^ 32 - 2 ^ (32 - p))).
Proof.
  unfold NETWORK_PREFIX_MIN, NETWORK_PREFIX_MAX. intros Hh Hp Hm.
  assert (Ht : prefix_text (dec p)).
  { split; [apply dec_digits; lia|]. 
    assert (Hl : ((1 <=? length (dec p)) && (length (dec p) <=? 2))%nat = true).
    { apply (check_range (fun p => (1 <=? length (dec p)) && (length (dec p) <=? 2))%nat 1 25);
        [vm_compute; done|lia]. }
    apply andb_true_iff in Hl as [?%Nat.leb_le ?%Nat.leb_le]. lia. }
  rewrite parse_cidr_texts by (done || apply quad_text_inet_ntop).
  rewrite inet_pton_ntop by auto with cint. rewrite dval_dec by lia.
  unfold NETWORK_PREFIX_MIN, NETWORK_PREFIX_MAX. ztests. simpl.
  rewrite netmask_host_val by done. rewrite <-netmask_host_val at 1 by done.
  rewrite (proj2 (land_htonl_netmask h p Hh Hp) Hm), Z.eqb_refl. done.
Qed.
End cidr_theorems.

(** ** Witnesses *)

Lemma config_addresses_witness :
  let BO : ByteOrder := true in
  exists cfg,
    slirp4netns_config_from_cidr (b2l "10.0.135.128/25") = inl cfg /\
    map (fun a => ntohl a - ntohl (vnetwork cfg))
      [vhost cfg; vnameserver cfg; vdhcp_start cfg; vdhcp_end cfg; recommended_vguest cfg]
    = [2; 3; 15; 30; 100].
Proof.
  intros BO. eexists. split; [vm_compute; reflexivity|].
  eapply (config_addresses (b2l "10.0.135.128/25")). vm_compute. reflexivity.
Defined.

Lemma netmask_int_overflow_witness : ~ netmask_defined 1 /\ netmask_defined 24.
Proof.
  split.
  - intros H. apply netmask_int_overflow in H; [done|]. split; vm_compute; discriminate.
  - apply netmask_int_overflow; [split; vm_compute; discriminate|discriminate].
Defined.

Lemma parse_cidr_roundtrip_witness :
  let BO : ByteOrder := true in
  parse_cidr (inet_ntop (htonl (192 * 2 ^ 24 + 168 * 2 ^ 16)) ++ "/"%c :: dec 16)
  = inl (htonl (192 * 2 ^ 24 + 168 * 2 ^ 16), htonl (2 ^ 32 - 2 ^ 16)).
Proof.
  intros BO. apply (parse_cidr_roundtrip _ 16).
  - split; vm_compute; (discriminate || reflexivity).
  - split; vm_compute; discriminate.
  - vm_compute. reflexivity.
Defined.

(** The texts of tests/test-slirp4netns-cidr.sh *)
Example cidr_tests :
  let BO : ByteOrder := true in
  map (fun s => parse_cidr (b2l s))
    ["24"; "foo"; "10.0.2.0"; "10.0.2.100/24"; "10.0.2.100/26"]
  = [inr InvalidCidr; inr InvalidCidr; inr InvalidCidr; inr NotANetworkAddress;
     inr PrefixOutOfRange].
Proof. vm_compute. reflexivity. Qed.
