(* ===== verification/Options.v ===== *)
(** * The command line (main.c: struct options, options_init,
    options_destroy, parse_args)

    [getopt_long] is glibc's, with its argument permutation, clusters of
    short options, abbreviations of long options and "--"; [parse_args] is
    the option loop followed by the checks on the operands.  Whether a path
    exists ([access(path, F_OK)]) is a parameter. *)

From S2P Require Import Prelude Libc.

(** ** struct options *)

Record options := Options {
  tapname : option bytes;
  cidr : option bytes;
  api_socket : option bytes;
  netns_type : option bytes;
  netns_path : option bytes;
  userns_path : option bytes;
  outbound_addr : option bytes;
  outbound_addr6 : option bytes;
  target_pid : Z;
  exit_fd : Z;
  ready_fd : Z;
  mtu : Z;
  do_config_network : bool;
  disable_host_loopback : bool;
  enable_ipv6 : bool;
  enable_sandbox : bool;
  enable_seccomp : bool;
  disable_dns : bool;
  macaddress : option bytes;
  target_type : option bytes;
  bess_socket : option bytes;
  tapfd : Z
}.

Definition options_init : options := {|
  tapname := None; cidr := None; api_socket := None; netns_type := None;
  netns_path := None; userns_path := None; outbound_addr := None;
  outbound_addr6 := None; target_pid := 0; exit_fd := -1; ready_fd := -1;
  mtu := 1500; do_config_network := false; disable_host_loopback := false;
  enable_ipv6 := false; enable_sandbox := false; enable_seccomp := false;
  disable_dns := false; macaddress := None; target_type := None;
  bess_socket := None; tapfd := -1
|}.

(** Frees every string; the other fields keep their values. *)
Definition options_destroy (o : options) : options := {|
  tapname := None; cidr := None; api_socket := None; netns_type := None;
  netns_path := None; userns_path := None; outbound_addr := None;
  outbound_addr6 := None; target_pid := target_pid o; exit_fd := exit_fd o;
  ready_fd := ready_fd o; mtu := mtu o; do_config_network := do_config_network o;
  disable_host_loopback := disable_host_loopback o; enable_ipv6 := enable_ipv6 o;
  enable_sandbox := enable_sandbox o; enable_seccomp := enable_seccomp o;
  disable_dns := disable_dns o; macaddress := None; target_type := None;
  bess_socket := None; tapfd := tapfd o
|}.

(** ** getopt_long *)

Record longopt := Longopt { lo_name : bytes; lo_has_arg : bool; lo_val : Z }.

Definition CIDR : Z := -42.
Definition DISABLE_HOST_LOOPBACK : Z := -43.
Definition NETNS_TYPE : Z := -44.
Definition USERNS_PATH : Z := -45.
Definition ENABLE_SANDBOX : Z := -46.
Definition ENABLE_SECCOMP : Z := -47.
Definition OUTBOUND_ADDR : Z := -48.
Definition OUTBOUND_ADDR6 : Z := -49.
Definition DISABLE_DNS : Z := -50.
Definition MACADDRESS : Z := -51.
Definition TARGET_TYPE : Z := -52.
Definition DEPRECATED_NO_HOST_LOOPBACK : Z := -10043.
Definition DEPRECATED_CREATE_SANDBOX : Z := -10044.

Definition longopts : list longopt := [
  Longopt (b2l "configure") false "c"%c;
  Longopt (b2l "exit-fd") true "e"%c;
  Longopt (b2l "ready-fd") true "r"%c;
  Longopt (b2l "mtu") true "m"%c;
  Longopt (b2l "cidr") true CIDR;
  Longopt (b2l "disable-host-loopback") false DISABLE_HOST_LOOPBACK;
  Longopt (b2l "no-host-loopback") false DEPRECATED_NO_HOST_LOOPBACK;
  Longopt (b2l "netns-type") true NETNS_TYPE;
  Longopt (b2l "userns-path") true USERNS_PATH;
  Longopt (b2l "api-socket") true "a"%c;
  Longopt (b2l "enable-ipv6") false "6"%c;
  Longopt (b2l "enable-sandbox") false ENABLE_SANDBOX;
  Longopt (b2l "create-sandbox") false DEPRECATED_CREATE_SANDBOX;
  Longopt (b2l "enable-seccomp") false ENABLE_SECCOMP;
  Longopt (b2l "help") false "h"%c;
  Longopt (b2l "version") false "v"%c;
  Longopt (b2l "outbound-addr") true OUTBOUND_ADDR;
  Longopt (b2l "outbound-addr6") true OUTBOUND_ADDR6;
  Longopt (b2l "disable-dns") false DISABLE_DNS;
  Longopt (b2l "macaddress") true MACADDRESS;
  Longopt (b2l "target-type") true TARGET_TYPE
].

(** The option string "ce:r:m:a:6hv": each letter with whether it takes an
    argument. *)
Definition shortopts : list (Z * bool) :=
  [("c"%c, false); ("e"%c, true); ("r"%c, true); ("m"%c, true); ("a"%c, true);
   ("6"%c, false); ("h"%c, false); ("v"%c, false)].

(** What [getopt_long] returns ([oe_opt]) and leaves in [optarg]. *)
Record optev := Optev { oe_opt : Z; oe_arg : option bytes }.

#[export] Instance optev_eq_dec : EqDecision optev.
Proof. solve_decision. Defined.

Definition opt_error : optev := Optev "?"%c None.

(** The option a long name denotes: an exact name first, else the unique
    option it abbreviates (several abbreviated options with the same
    argument flag and value count as one). *)
Definition find_long (name : bytes) : option longopt :=
  match filter (fun o => lo_name o = name) longopts with
  | o :: _ => Some o
  | [] =>
      match filter (fun o => take (length name) (lo_name o) = name) longopts with
      | [] => None
      | o :: os =>
          if forallb (fun p => Bool.eqb (lo_has_arg p) (lo_has_arg o) && (lo_val p =? lo_val o)) os
          then Some o else None
      end
  end.

(** A cluster of short options: the events of its letters and, when its last
    option still needs an argument, that option. *)
Fixpoint short_cluster (cs : bytes) : list optev * option Z :=
  match cs with
  | [] => ([], None)
  | c :: cs' =>
      match find (fun p => p.1 =? c) shortopts with
      | None => ([opt_error], None)
      | Some (_, false) =>
          let '(evs, pending) := short_cluster cs' in (Optev c None :: evs, pending)
      | Some (_, true) =>
          match cs' with
          | [] => ([], Some c)
          | _ => ([Optev c (Some cs')], None)
          end
      end
  end.

(** The events of the whole command line (without argv[0]) up to the first
    error, and the operands argv[optind..] it leaves. *)
Fixpoint getopt_long (args : list bytes) : list optev * list bytes :=
  match args with
  | [] => ([], [])
  | a :: rest =>
      match a with
      | c0 :: c1 :: cs =>
          if c0 =? "-"%c then
            if c1 =? "-"%c then
              match cs with
              | [] => ([], rest)
              | _ =>
                  let '(name, eq) := span (fun c => negb (c =? "="%c)) cs in
                  match find_long name with
                  | None => ([opt_error], [])
                  | Some o =>
                      match eq with
                      | _ :: arg =>
                          if lo_has_arg o then
                            let '(evs', ops) := getopt_long rest in
                            (Optev (lo_val o) (Some arg) :: evs', ops)
                          else ([opt_error], [])
                      | [] =>
                          if lo_has_arg o then
                            match rest with
                            | [] => ([opt_error], [])
                            | arg :: rest' =>
                                let '(evs', ops) := getopt_long rest' in
                                (Optev (lo_val o) (Some arg) :: evs', ops)
                            end
                          else
                            let '(evs', ops) := getopt_long rest in
                            (Optev (lo_val o) None :: evs', ops)
                      end
                  end
              end
            else
              match short_cluster (c1 :: cs) with
              | (evs, None) =>
                  if existsb (fun e => oe_opt e =? "?"%c) evs then (evs, [])
                  else let '(evs', ops) := getopt_long rest in (evs ++ evs', ops)
              | (evs, Some c) =>
                  match rest with
                  | [] => (evs ++ [opt_error], [])
                  | arg :: rest' =>
                      let '(evs', ops) := getopt_long rest' in
                      (evs ++ Optev c (Some arg) :: evs', ops)
                  end
              end
          else let '(evs', ops) := getopt_long rest in (evs', a :: ops)
      | _ => let '(evs', ops) := getopt_long rest in (evs', a :: ops)
      end
  end.

(** ** Assignments to the fields of [struct options] *)

Definition set_tapname (x : option bytes) (o : options) : options :=
  {| tapname := x; cidr := cidr o; api_socket := api_socket o; netns_type := netns_type o;
     netns_path := netns_path o; userns_path := userns_path o; outbound_addr := outbound_addr
     o; outbound_addr6 := outbound_addr6 o; target_pid := target_pid o; exit_fd := exit_fd o;
     ready_fd := ready_fd o; mtu := mtu o; do_config_network := do_config_network o;
     disable_host_loopback := disable_host_loopback o; enable_ipv6 := enable_ipv6 o;
     enable_sandbox := enable_sandbox o; enable_seccomp := enable_seccomp o; disable_dns :=
     disable_dns o; macaddress := macaddress o; target_type := target_type o; bess_socket :=
     bess_socket o; tapfd := tapfd o |}.

Definition set_cidr (x : option bytes) (o : options) : options :=
  {| tapname := tapname o; cidr := x; api_socket := api_socket o; netns_type := netns_type o;
     netns_path := netns_path o; userns_path := userns_path o; outbound_addr := outbound_addr
     o; outbound_addr6 := outbound_addr6 o; target_pid := target_pid o; exit_fd := exit_fd o;
     ready_fd := ready_fd o; mtu := mtu o; do_config_network := do_config_network o;
     disable_host_loopback := disable_host_loopback o; enable_ipv6 := enable_ipv6 o;
     enable_sandbox := enable_sandbox o; enable_seccomp := enable_seccomp o; disable_dns :=
     disable_dns o; macaddress := macaddress o; target_type := target_type o; bess_socket :=
     bess_socket o; tapfd := tapfd o |}.

Definition set_api_socket (x : option bytes) (o : options) : options :=
  {| tapname := tapname o; cidr := cidr o; api_socket := x; netns_type := netns_type o;
     netns_path := netns_path o; userns_path := userns_path o; outbound_addr := outbound_addr
     o; outbound_addr6 := outbound_addr6 o; target_pid := target_pid o; exit_fd := exit_fd o;
     ready_fd := ready_fd o; mtu := mtu o; do_config_network := do_config_network o;
     disable_host_loopback := disable_host_loopback o; enable_ipv6 := enable_ipv6 o;
     enable_sandbox := enable_sandbox o; enable_seccomp := enable_seccomp o; disable_dns :=
     disable_dns o; macaddress := macaddress o; target_type := target_type o; bess_socket :=
     bess_socket o; tapfd := tapfd o |}.

Definition set_netns_type (x : option bytes) (o : options) : options :=
  {| tapname := tapname o; cidr := cidr o; api_socket := api_socket o; netns_type := x;
     netns_path := netns_path o; userns_path := userns_path o; outbound_addr := outbound_addr
     o; outbound_addr6 := outbound_addr6 o; target_pid := target_pid o; exit_fd := exit_fd o;
     ready_fd := ready_fd o; mtu := mtu o; do_config_network := do_config_network o;
     disable_host_loopback := disable_host_loopback o; enable_ipv6 := enable_ipv6 o;
     enable_sandbox := enable_sandbox o; enable_seccomp := enable_seccomp o; disable_dns :=
     disable_dns o; macaddress := macaddress o; target_type := target_type o; bess_socket :=
     bess_socket o; tapfd := tapfd o |}.

Definition set_netns_path (x : option bytes) (o : options) : options :=
  {| tapname := tapname o; cidr := cidr o; api_socket := api_socket o; netns_type :=
     netns_type o; netns_path := x; userns_path := userns_path o; outbound_addr :=
     outbound_addr o; outbound_addr6 := outbound_addr6 o; target_pid := target_pid o; exit_fd
     := exit_fd o; ready_fd := ready_fd o; mtu := mtu o; do_config_network :=
     do_config_network o; disable_host_loopback := disable_host_loopback o; enable_ipv6 :=
     enable_ipv6 o; enable_sandbox := enable_sandbox o; enable_seccomp := enable_seccomp o;
     disable_dns := disable_dns o; macaddress := macaddress o; target_type := target_type o;
     bess_socket := bess_socket o; tapfd := tapfd o |}.

Definition set_userns_path (x : option bytes) (o : options) : options :=
  {| tapname := tapname o; cidr := cidr o; api_socket := api_socket o; netns_type :=
     netns_type o; netns_path := netns_path o; userns_path := x; outbound_addr :=
     outbound_addr o; outbound_addr6 := outbound_addr6 o; target_pid := target_pid o; exit_fd
     := exit_fd o; ready_fd := ready_fd o; mtu := mtu o; do_config_network :=
     do_config_network o; disable_host_loopback := disable_host_loopback o; enable_ipv6 :=
     enable_ipv6 o; enable_sandbox := enable_sandbox o; enable_seccomp := enable_seccomp o;
     disable_dns := disable_dns o; macaddress := macaddress o; target_type := target_type o;
     bess_socket := bess_socket o; tapfd := tapfd o |}.

Definition set_outbound_addr (x : option bytes) (o : options) : options :=
  {| tapname := tapname o; cidr := cidr o; api_socket := api_socket o; netns_type :=
     netns_type o; netns_path := netns_path o; userns_path := userns_path o; outbound_addr :=
     x; outbound_addr6 := outbound_addr6 o; target_pid := target_pid o; exit_fd := exit_fd o;
     ready_fd := ready_fd o; mtu := mtu o; do_config_network := do_config_network o;
     disable_host_loopback := disable_host_loopback o; enable_ipv6 := enable_ipv6 o;
     enable_sandbox := enable_sandbox o; enable_seccomp := enable_seccomp o; disable_dns :=
     disable_dns o; macaddress := macaddress o; target_type := target_type o; bess_socket :=
     bess_socket o; tapfd := tapfd o |}.

Definition set_outbound_addr6 (x : option bytes) (o : options) : options :=
  {| tapname := tapname o; cidr := cidr o; api_socket := api_socket o; netns_type :=
     netns_type o; netns_path := netns_path o; userns_path := userns_path o; outbound_addr :=
     outbound_addr o; outbound_addr6 := x; target_pid := target_pid o; exit_fd := exit_fd o;
     ready_fd := ready_fd o; mtu := mtu o; do_config_network := do_config_network o;
     disable_host_loopback := disable_host_loopback o; enable_ipv6 := enable_ipv6 o;
     enable_sandbox := enable_sandbox o; enable_seccomp := enable_seccomp o; disable_dns :=
     disable_dns o; macaddress := macaddress o; target_type := target_type o; bess_socket :=
     bess_socket o; tapfd := tapfd o |}.

Definition set_target_pid (x : Z) (o : options) : options :=
  {| tapname := tapname o; cidr := cidr o; api_socket := api_socket o; netns_type :=
     netns_type o; netns_path := netns_path o; userns_path := userns_path o; outbound_addr :=
     outbound_addr o; outbound_addr6 := outbound_addr6 o; target_pid := x; exit_fd := exit_fd
     o; ready_fd := ready_fd o; mtu := mtu o; do_config_network := do_config_network o;
     disable_host_loopback := disable_host_loopback o; enable_ipv6 := enable_ipv6 o;
     enable_sandbox := enable_sandbox o; enable_seccomp := enable_seccomp o; disable_dns :=
     disable_dns o; macaddress := macaddress o; target_type := target_type o; bess_socket :=
     bess_socket o; tapfd := tapfd o |}.

Definition set_exit_fd (x : Z) (o : options) : options :=
  {| tapname := tapname o; cidr := cidr o; api_socket := api_socket o; netns_type :=
     netns_type o; netns_path := netns_path o; userns_path := userns_path o; outbound_addr :=
     outbound_addr o; outbound_addr6 := outbound_addr6 o; target_pid := target_pid o; exit_fd
     := x; ready_fd := ready_fd o; mtu := mtu o; do_config_network := do_config_network o;
     disable_host_loopback := disable_host_loopback o; enable_ipv6 := enable_ipv6 o;
     enable_sandbox := enable_sandbox o; enable_seccomp := enable_seccomp o; disable_dns :=
     disable_dns o; macaddress := macaddress o; target_type := target_type o; bess_socket :=
     bess_socket o; tapfd := tapfd o |}.

Definition set_ready_fd (x : Z) (o : options) : options :=
  {| tapname := tapname o; cidr := cidr o; api_socket := api_socket o; netns_type :=
     netns_type o; netns_path := netns_path o; userns_path := userns_path o; outbound_addr :=
     outbound_addr o; outbound_addr6 := outbound_addr6 o; target_pid := target_pid o; exit_fd
     := exit_fd o; ready_fd := x; mtu := mtu o; do_config_network := do_config_network o;
     disable_host_loopback := disable_host_loopback o; enable_ipv6 := enable_ipv6 o;
     enable_sandbox := enable_sandbox o; enable_seccomp := enable_seccomp o; disable_dns :=
     disable_dns o; macaddress := macaddress o; target_type := target_type o; bess_socket :=
     bess_socket o; tapfd := tapfd o |}.

Definition set_mtu (x : Z) (o : options) : options :=
  {| tapname := tapname o; cidr := cidr o; api_socket := api_socket o; netns_type :=
     netns_type o; netns_path := netns_path o; userns_path := userns_path o; outbound_addr :=
     outbound_addr o; outbound_addr6 := outbound_addr6 o; target_pid := target_pid o; exit_fd
     := exit_fd o; ready_fd := ready_fd o; mtu := x; do_config_network := do_config_network
     o; disable_host_loopback := disable_host_loopback o; enable_ipv6 := enable_ipv6 o;
     enable_sandbox := enable_sandbox o; enable_seccomp := enable_seccomp o; disable_dns :=
     disable_dns o; macaddress := macaddress o; target_type := target_type o; bess_socket :=
     bess_socket o; tapfd := tapfd o |}.

Definition set_do_config_network (x : bool) (o : options) : options :=
  {| tapname := tapname o; cidr := cidr o; api_socket := api_socket o; netns_type :=
     netns_type o; netns_path := netns_path o; userns_path := userns_path o; outbound_addr :=
     outbound_addr o; outbound_addr6 := outbound_addr6 o; target_pid := target_pid o; exit_fd
     := exit_fd o; ready_fd := ready_fd o; mtu := mtu o; do_config_network := x;
     disable_host_loopback := disable_host_loopback o; enable_ipv6 := enable_ipv6 o;
     enable_sandbox := enable_sandbox o; enable_seccomp := enable_seccomp o; disable_dns :=
     disable_dns o; macaddress := macaddress o; target_type := target_type o; bess_socket :=
     bess_socket o; tapfd := tapfd o |}.

Definition set_disable_host_loopback (x : bool) (o : options) : options :=
  {| tapname := tapname o; cidr := cidr o; api_socket := api_socket o; netns_type :=
     netns_type o; netns_path := netns_path o; userns_path := userns_path o; outbound_addr :=
     outbound_addr o; outbound_addr6 := outbound_addr6 o; target_pid := target_pid o; exit_fd
     := exit_fd o; ready_fd := ready_fd o; mtu := mtu o; do_config_network :=
     do_config_network o; disable_host_loopback := x; enable_ipv6 := enable_ipv6 o;
     enable_sandbox := enable_sandbox o; enable_seccomp := enable_seccomp o; disable_dns :=
     disable_dns o; macaddress := macaddress o; target_type := target_type o; bess_socket :=
     bess_socket o; tapfd := tapfd o |}.

Definition set_enable_ipv6 (x : bool) (o : options) : options :=
  {| tapname := tapname o; cidr := cidr o; api_socket := api_socket o; netns_type :=
     netns_type o; netns_path := netns_path o; userns_path := userns_path o; outbound_addr :=
     outbound_addr o; outbound_addr6 := outbound_addr6 o; target_pid := target_pid o; exit_fd
     := exit_fd o; ready_fd := ready_fd o; mtu := mtu o; do_config_network :=
     do_config_network o; disable_host_loopback := disable_host_loopback o; enable_ipv6 := x;
     enable_sandbox := enable_sandbox o; enable_seccomp := enable_seccomp o; disable_dns :=
     disable_dns o; macaddress := macaddress o; target_type := target_type o; bess_socket :=
     bess_socket o; tapfd := tapfd o |}.

Definition set_enable_sandbox (x : bool) (o : options) : options :=
  {| tapname := tapname o; cidr := cidr o; api_socket := api_socket o; netns_type :=
     netns_type o; netns_path := netns_path o; userns_path := userns_path o; outbound_addr :=
     outbound_addr o; outbound_addr6 := outbound_addr6 o; target_pid := target_pid o; exit_fd
     := exit_fd o; ready_fd := ready_fd o; mtu := mtu o; do_config_network :=
     do_config_network o; disable_host_loopback := disable_host_loopback o; enable_ipv6 :=
     enable_ipv6 o; enable_sandbox := x; enable_seccomp := enable_seccomp o; disable_dns :=
     disable_dns o; macaddress := macaddress o; target_type := target_type o; bess_socket :=
     bess_socket o; tapfd := tapfd o |}.

Definition set_enable_seccomp (x : bool) (o : options) : options :=
  {| tapname := tapname o; cidr := cidr o; api_socket := api_socket o; netns_type :=
     netns_type o; netns_path := netns_path o; userns_path := userns_path o; outbound_addr :=
     outbound_addr o; outbound_addr6 := outbound_addr6 o; target_pid := target_pid o; exit_fd
     := exit_fd o; ready_fd := ready_fd o; mtu := mtu o; do_config_network :=
     do_config_network o; disable_host_loopback := disable_host_loopback o; enable_ipv6 :=
     enable_ipv6 o; enable_sandbox := enable_sandbox o; enable_seccomp := x; disable_dns :=
     disable_dns o; macaddress := macaddress o; target_type := target_type o; bess_socket :=
     bess_socket o; tapfd := tapfd o |}.

Definition set_disable_dns (x : bool) (o : options) : options :=
  {| tapname := tapname o; cidr := cidr o; api_socket := api_socket o; netns_type :=
     netns_type o; netns_path := netns_path o; userns_path := userns_path o; outbound_addr :=
     outbound_addr o; outbound_addr6 := outbound_addr6 o; target_pid := target_pid o; exit_fd
     := exit_fd o; ready_fd := ready_fd o; mtu := mtu o; do_config_network :=
     do_config_network o; disable_host_loopback := disable_host_loopback o; enable_ipv6 :=
     enable_ipv6 o; enable_sandbox := enable_sandbox o; enable_seccomp := enable_seccomp o;
     disable_dns := x; macaddress := macaddress o; target_type := target_type o; bess_socket
     := bess_socket o; tapfd := tapfd o |}.

Definition set_macaddress (x : option bytes) (o : options) : options :=
  {| tapname := tapname o; cidr := cidr o; api_socket := api_socket o; netns_type :=
     netns_type o; netns_path := netns_path o; userns_path := userns_path o; outbound_addr :=
     outbound_addr o; outbound_addr6 := outbound_addr6 o; target_pid := target_pid o; exit_fd
     := exit_fd o; ready_fd := ready_fd o; mtu := mtu o; do_config_network :=
     do_config_network o; disable_host_loopback := disable_host_loopback o; enable_ipv6 :=
     enable_ipv6 o; enable_sandbox := enable_sandbox o; enable_seccomp := enable_seccomp o;
     disable_dns := disable_dns o; macaddress := x; target_type := target_type o; bess_socket
     := bess_socket o; tapfd := tapfd o |}.

Definition set_target_type (x : option bytes) (o : options) : options :=
  {| tapname := tapname o; cidr := cidr o; api_socket := api_socket o; netns_type :=
     netns_type o; netns_path := netns_path o; userns_path := userns_path o; outbound_addr :=
     outbound_addr o; outbound_addr6 := outbound_addr6 o; target_pid := target_pid o; exit_fd
     := exit_fd o; ready_fd := ready_fd o; mtu := mtu o; do_config_network :=
     do_config_network o; disable_host_loopback := disable_host_loopback o; enable_ipv6 :=
     enable_ipv6 o; enable_sandbox := enable_sandbox o; enable_seccomp := enable_seccomp o;
     disable_dns := disable_dns o; macaddress := macaddress o; target_type := x; bess_socket
     := bess_socket o; tapfd := tapfd o |}.

Definition set_bess_socket (x : option bytes) (o : options) : options :=
  {| tapname := tapname o; cidr := cidr o; api_socket := api_socket o; netns_type :=
     netns_type o; netns_path := netns_path o; userns_path := userns_path o; outbound_addr :=
     outbound_addr o; outbound_addr6 := outbound_addr6 o; target_pid := target_pid o; exit_fd
     := exit_fd o; ready_fd := ready_fd o; mtu := mtu o; do_config_network :=
     do_config_network o; disable_host_loopback := disable_host_loopback o; enable_ipv6 :=
     enable_ipv6 o; enable_sandbox := enable_sandbox o; enable_seccomp := enable_seccomp o;
     disable_dns := disable_dns o; macaddress := macaddress o; target_type := target_type o;
     bess_socket := x; tapfd := tapfd o |}.

Definition set_tapfd (x : Z) (o : options) : options :=
  {| tapname := tapname o; cidr := cidr o; api_socket := api_socket o; netns_type :=
     netns_type o; netns_path := netns_path o; userns_path := userns_path o; outbound_addr :=
     outbound_addr o; outbound_addr6 := outbound_addr6 o; target_pid := target_pid o; exit_fd
     := exit_fd o; ready_fd := ready_fd o; mtu := mtu o; do_config_network :=
     do_config_network o; disable_host_loopback := disable_host_loopback o; enable_ipv6 :=
     enable_ipv6 o; enable_sandbox := enable_sandbox o; enable_seccomp := enable_seccomp o;
     disable_dns := disable_dns o; macaddress := macaddress o; target_type := target_type o;
     bess_socket := bess_socket o; tapfd := x |}.

(** ** parse_args *)

Definition DEFAULT_NETNS_TYPE : bytes := b2l "pid".
Definition DEFAULT_TARGET_TYPE : bytes := b2l "netns".

(** The ways [parse_args] ends the process with a failure. *)
Inductive arg_error :=
| BadExitFd | BadReadyFd | BadMtu | NoUsernsPath | BadOption | MacWithoutConfigure
| BessNoOperand | BessTooMany | BessConfigure | BessNetnsType | BessUsernsPath
| BadTargetType | NoOperand | BadPid | BadTapfd | NoNetnsPath | NoTapname.

Inductive parse_result :=
| ExitUsage                   (* -h: usage, exit(EXIT_SUCCESS)   *)
| ExitVersion                 (* -v: version, exit(EXIT_SUCCESS) *)
| ExitFailure (e : arg_error) (* usage, exit(EXIT_FAILURE)       *)
| Parsed (o : options).

(** The option loop's variables: the options and the [optarg_*] pointers. *)
Record argst := Argst {
  as_options : options;
  optarg_cidr : option bytes;
  optarg_netns_type : option bytes;
  optarg_userns_path : option bytes;
  optarg_api_socket : option bytes;
  optarg_outbound_addr : option bytes;
  optarg_outbound_addr6 : option bytes;
  optarg_macaddress : option bytes;
  optarg_target_type : option bytes
}.

Definition argst_init : argst :=
  Argst options_init None None None None None None None None.

Definition on_options (f : options -> options) (st : argst) : argst :=
  match st with Argst o a b c d e g h i => Argst (f o) a b c d e g h i end.

(** [x = strtol(optarg, &strtol_e, 10); if (errno || *strtol_e != '\0' || ...)]:
    [None] when the conversion already fails the test. *)
Definition strtol_whole (s : bytes) : option Z :=
  let r := strtol s in
  if negb (sx_errno r =? 0) || negb (deref (sx_end r) =? 0) then None else Some (sx_val r).

(** An [int] that must not be negative. *)
Definition strtol_nonneg (s : bytes) : option Z :=
  v ← strtol_whole s; if i32 v <? 0 then None else Some (i32 v).

Inductive opt_outcome :=
| Continue (st : argst)
| Stop (r : parse_result).

Section parse_args.
(** [access(path, F_OK) == 0] *)
Variable path_exists : bytes -> bool.

(** The body of the [switch (opt)]. *)
Definition opt_step (st : argst) (ev : optev) : opt_outcome :=
  let opt := oe_opt ev in
  let optarg := default [] (oe_arg ev) in
  if opt =? "c"%c then Continue (on_options (set_do_config_network true) st)
  else if opt =? "e"%c then
    match strtol_nonneg optarg with
    | None => Stop (ExitFailure BadExitFd)
    | Some fd => Continue (on_options (set_exit_fd fd) st)
    end
  else if opt =? "r"%c then
    match strtol_nonneg optarg with
    | None => Stop (ExitFailure BadReadyFd)
    | Some fd => Continue (on_options (set_ready_fd fd) st)
    end
  else if opt =? "m"%c then
    match strtol_whole optarg with
    | None => Stop (ExitFailure BadMtu)
    | Some v =>
        if (u32 v <=? 0) || (65521 <? u32 v) then Stop (ExitFailure BadMtu)
        else Continue (on_options (set_mtu (u32 v)) st)
    end
  else if opt =? CIDR then
    Continue (match st with Argst o _ b c d e g h i => Argst o (Some optarg) b c d e g h i end)
  else if (opt =? DEPRECATED_NO_HOST_LOOPBACK) || (opt =? DISABLE_HOST_LOOPBACK) then
    Continue (on_options (set_disable_host_loopback true) st)
  else if (opt =? DEPRECATED_CREATE_SANDBOX) || (opt =? ENABLE_SANDBOX) then
    Continue (on_options (set_enable_sandbox true) st)
  else if opt =? ENABLE_SECCOMP then
    Continue (on_options (set_enable_seccomp true) st)
  else if opt =? NETNS_TYPE then
    Continue (match st with Argst o a _ c d e g h i => Argst o a (Some optarg) c d e g h i end)
  else if opt =? USERNS_PATH then
    if path_exists optarg then
      Continue (match st with Argst o a b _ d e g h i => Argst o a b (Some optarg) d e g h i end)
    else Stop (ExitFailure NoUsernsPath)
  else if opt =? "a"%c then
    Continue (match st with Argst o a b c _ e g h i => Argst o a b c (Some optarg) e g h i end)
  else if opt =? "6"%c then Continue (on_options (set_enable_ipv6 true) st)
  else if opt =? "h"%c then Stop ExitUsage
  else if opt =? "v"%c then Stop ExitVersion
  else if opt =? OUTBOUND_ADDR then
    Continue (match st with Argst o a b c d _ g h i => Argst o a b c d (Some optarg) g h i end)
  else if opt =? OUTBOUND_ADDR6 then
    Continue (match st with Argst o a b c d e _ h i => Argst o a b c d e (Some optarg) h i end)
  else if opt =? DISABLE_DNS then Continue (on_options (set_disable_dns true) st)
  else if opt =? MACADDRESS then
    Continue (match st with Argst o a b c d e g _ i => Argst o a b c d e g (Some optarg) i end)
  else if opt =? TARGET_TYPE then
    Continue (match st with Argst o a b c d e g h _ => Argst o a b c d e g h (Some optarg) end)
  else Stop (ExitFailure BadOption).

Fixpoint opt_loop (st : argst) (evs : list optev) : opt_outcome :=
  match evs with
  | [] => Continue st
  | ev :: evs' =>
      match opt_step st ev with
      | Continue st' => opt_loop st' evs'
      | Stop r => Stop r
      end
  end.

(** The [strdup]s after the loop. *)
Definition copy_optargs (st : argst) : options + arg_error :=
  let o := as_options st in
  let set_if (f : option bytes -> options -> options) (x : option bytes) (o : options) :=
    match x with Some _ => f x o | None => o end in
  let o := set_if set_cidr (optarg_cidr st) o in
  let o := set_if set_netns_type (optarg_netns_type st) o in
  let o := set_if set_userns_path (optarg_userns_path st) o in
  let o := set_if set_api_socket (optarg_api_socket st) o in
  let o := set_if set_outbound_addr (optarg_outbound_addr st) o in
  let o := set_if set_outbound_addr6 (optarg_outbound_addr6 st) o in
  match optarg_macaddress st with
  | Some _ =>
      if negb (do_config_network o) then inr MacWithoutConfigure
      else inl (set_if set_target_type (optarg_target_type st)
                  (set_macaddress (optarg_macaddress st) o))
  | None => inl (set_if set_target_type (optarg_target_type st) o)
  end.

(** BESS mode: --target-type=bess PATH *)
Definition bess_mode (o : options) (operands : list bytes) : parse_result :=
  match operands with
  | [] => ExitFailure BessNoOperand
  | _ :: _ :: _ => ExitFailure BessTooMany
  | [path] =>
      let o := set_bess_socket (Some path) o in
      if do_config_network o then ExitFailure BessConfigure
      else if bool_decide (netns_type o <> None) then ExitFailure BessNetnsType
      else if bool_decide (userns_path o <> None) then ExitFailure BessUsernsPath
      else Parsed o
  end.

(** NetNS mode: the first operand is a PID, a TAP file descriptor or a path,
    by --netns-type. *)
Definition netns_target (o : options) (arg : bytes) : options + arg_error :=
  if bool_decide (netns_type o = None) || bool_decide (netns_type o = Some DEFAULT_NETNS_TYPE) then
    match strtol_whole arg with
    | None => inr BadPid
    | Some v => if i32 v <=? 0 then inr BadPid else inl (set_target_pid (i32 v) o)
    end
  else if bool_decide (netns_type o = Some (b2l "tapfd")) then
    match strtol_nonneg arg with
    | None => inr BadTapfd
    | Some fd => inl (set_tapfd fd o)
    end
  else if path_exists arg then inl (set_netns_path (Some arg) o)
  else inr NoNetnsPath.

Definition netns_mode (o : options) (operands : list bytes) : parse_result :=
  match operands with
  | [] => ExitFailure NoOperand
  | arg :: more =>
      match netns_target o arg with
      | inr e => ExitFailure e
      | inl o =>
          if 0 <=? tapfd o then Parsed o
          else
            match more with
            | [] => ExitFailure NoTapname
            | tap :: _ => Parsed (set_tapname (Some tap) o)
            end
      end
  end.

(** [argv] without argv[0] *)
Definition parse_args (args : list bytes) : parse_result :=
  let '(evs, operands) := getopt_long args in
  match opt_loop argst_init evs with
  | Stop r => r
  | Continue st =>
      match copy_optargs st with
      | inr e => ExitFailure e
      | inl o =>
          if bool_decide (target_type o = Some (b2l "bess")) then bess_mode o operands
          else if bool_decide (target_type o <> None) && bool_decide (target_type o <> Some (b2l "netns"))
          then ExitFailure BadTargetType
          else netns_mode o operands
      end
  end.
End parse_args.

(** ** What [parse_args] guarantees *)

(** A file descriptor option: -1 when absent, else a non-negative [int]. *)
Definition fd_option (z : Z) : Prop := z = -1 \/ 0 <= z <= INT_MAX.

Section guarantees.
Variable path_exists : bytes -> bool.

(** The four kinds of target; exactly the fields that [main] and its
    children use for the kind are set. *)
Definition bess_target (o : options) : Prop :=
  target_type o = Some (b2l "bess") /\ (exists p, bess_socket o = Some p) /\
  do_config_network o = false /\ netns_type o = None /\ userns_path o = None /\
  macaddress o = None /\
  tapname o = None /\ netns_path o = None /\ target_pid o = 0 /\ tapfd o = -1.

Definition netns_target_type (o : options) : Prop :=
  target_type o = None \/ target_type o = Some (b2l "netns").

Definition pid_target (o : options) : Prop :=
  netns_target_type o /\ (netns_type o = None \/ netns_type o = Some (b2l "pid")) /\
  0 < target_pid o <= INT_MAX /\ (exists t, tapname o = Some t) /\
  netns_path o = None /\ bess_socket o = None /\ tapfd o = -1.

Definition tapfd_target (o : options) : Prop :=
  netns_target_type o /\ netns_type o = Some (b2l "tapfd") /\
  0 <= tapfd o <= INT_MAX /\ tapname o = None /\
  netns_path o = None /\ bess_socket o = None /\ target_pid o = 0.

Definition path_target (o : options) : Prop :=
  netns_target_type o /\
  (exists t, netns_type o = Some t /\ t <> b2l "pid" /\ t <> b2l "tapfd") /\
  (exists p, netns_path o = Some p /\ path_exists p = true) /\
  (exists t, tapname o = Some t) /\
  bess_socket o = None /\ target_pid o = 0 /\ tapfd o = -1.

Record wf_options (o : options) : Prop := {
  wf_exit_fd : fd_option (exit_fd o);
  wf_ready_fd : fd_option (ready_fd o);
  wf_mtu : 1 <= mtu o <= 65521;
  wf_macaddress : macaddress o <> None -> do_config_network o = true;
  wf_userns_path : forall p, userns_path o = Some p -> path_exists p = true;
  wf_target : bess_target o \/ pid_target o \/ tapfd_target o \/ path_target o
}.

(** What holds of the loop's variables between two options. *)
Record loop_inv (st : argst) : Prop := {
  li_exit_fd : fd_option (exit_fd (as_options st));
  li_ready_fd : fd_option (ready_fd (as_options st));
  li_mtu : 1 <= mtu (as_options st) <= 65521;
  li_userns : forall p, optarg_userns_path st = Some p -> path_exists p = true;
  li_unset :
    let o := as_options st in
    tapname o = None /\ cidr o = None /\ api_socket o = None /\ netns_type o = None /\
    netns_path o = None /\ userns_path o = None /\ outbound_addr o = None /\
    outbound_addr6 o = None /\ macaddress o = None /\ target_type o = None /\
    bess_socket o = None /\ target_pid o = 0 /\ tapfd o = -1
}.

Lemma loop_inv_init : loop_inv argst_init.
Proof. split; simpl; unfold fd_option; split_and?; try done; lia. Qed.

Lemma strtol_nonneg_range s v : strtol_nonneg s = Some v -> 0 <= v <= INT_MAX.
Proof.
  unfold strtol_nonneg. destruct (strtol_whole s) as [w|]; simpl; [|done].
  pose proof (i32_range w). unfold in_i32, INT_MAX in *.
  destruct (Z.ltb_spec (i32 w) 0); [done|]. intros [= <-]. lia.
Qed.

Lemma opt_step_inv st ev st' :
  loop_inv st -> opt_step path_exists st ev = Continue st' -> loop_inv st'.
Proof.
  intros [He Hr Hm Hu Ho] H. destruct st as [o a b c d e g h i], o. simpl in *.
  unfold opt_step in H.
  repeat case_in H; simplify_eq/=; split; simpl; try done;
    try (right; by eapply strtol_nonneg_range); try (by intros ? [= <-]).
  pose proof (u32_range z). unfold in_u32 in *. lia.
Qed.

Lemma opt_loop_inv evs st st' :
  loop_inv st -> opt_loop path_exists st evs = Continue st' -> loop_inv st'.
Proof.
  revert st. induction evs as [|ev evs IH]; intros st Hi; simpl; [by intros [= <-]|].
  destruct (opt_step path_exists st ev) eqn:E; [|done]. eauto using opt_step_inv.
Qed.

(** After the [strdup]s: everything but the target is settled. *)
Lemma copy_optargs_inv st o :
  loop_inv st -> copy_optargs st = inl o ->
  fd_option (exit_fd o) /\ fd_option (ready_fd o) /\ 1 <= mtu o <= 65521 /\
  (macaddress o <> None -> do_config_network o = true) /\
  (forall p, userns_path o = Some p -> path_exists p = true) /\
  tapname o = None /\ netns_path o = None /\ bess_socket o = None /\
  target_pid o = 0 /\ tapfd o = -1.
Proof.
  intros [He Hr Hm Hu Ho] H. destruct st as [o0 a b c d e g h i], o0. simpl in *.
  destruct_and!. simplify_eq/=. unfold copy_optargs in H. simpl in H.
  destruct a, b, c, d, e, g, h, i; simpl in *;
    destruct do_config_network0; simplify_eq/=;
    (split_and!; first [done | lia | congruence | by intros ? [= <-]; auto]).
Qed.

Lemma bess_mode_wf st o o' ops :
  loop_inv st -> copy_optargs st = inl o -> target_type o = Some (b2l "bess") ->
  bess_mode o ops = Parsed o' -> wf_options o'.
Proof.
  intros Hi Hc Ht H. 
  destruct (copy_optargs_inv _ _ Hi Hc) as (? & ? & ? & Hmac & ? & ? & ? & ? & ? & ?). destruct o. simpl in *. subst.
  unfold bess_mode in H. destruct ops as [|p [|]]; simplify_eq/=.
  destruct do_config_network0 eqn:Ec; simplify_eq/=.
  repeat (case_bool_decide; simplify_eq/=).
  split; simpl; auto. left. unfold bess_target. simpl. split_and!; eauto.
  destruct macaddress0; [|done]. by specialize (Hmac ltac:(done)).
Qed.

Lemma netns_mode_wf st o o' ops :
  loop_inv st -> copy_optargs st = inl o -> netns_target_type o ->
  netns_mode path_exists o ops = Parsed o' -> wf_options o'.
Proof.
  intros Hi Hc Ht H. 
  destruct (copy_optargs_inv _ _ Hi Hc) as (? & ? & ? & Hmac & ? & ? & ? & ? & ? & ?). destruct o. simpl in *. subst.
  unfold netns_mode in H. destruct ops as [|arg more]; simplify_eq/=.
  unfold netns_target, DEFAULT_NETNS_TYPE in H. simpl in H.
  destruct (bool_decide (netns_type0 = None) || bool_decide (netns_type0 = Some (b2l "pid"))) eqn:E1.
  { destruct (strtol_whole arg) as [v|]; simplify_eq/=.
    destruct (Z.leb_spec (i32 v) 0); simplify_eq/=.
    destruct more as [|tap more]; simplify_eq/=. split; simpl; auto. right; left.
    pose proof (i32_range v). unfold in_i32, INT_MAX in *.
    apply orb_true_iff in E1. rewrite !bool_decide_eq_true in E1.
    unfold pid_target, netns_target_type, INT_MAX. simpl. split_and!; eauto; lia. }
  apply orb_false_iff in E1 as [E1 E2]. apply bool_decide_eq_false in E1, E2.
  case_bool_decide as E3.
  { destruct (strtol_nonneg arg) as [fd|] eqn:Ef; simplify_eq/=.
    apply strtol_nonneg_range in Ef. replace (0 <=? fd) with true in H by lia. simplify_eq/=.
    split; simpl; auto. right; right; left. unfold tapfd_target. simpl. split_and!; eauto; lia. }
  destruct (path_exists arg) eqn:Ep; simplify_eq/=. destruct more as [|tap more]; simplify_eq/=.
  split; simpl; auto. right; right; right. unfold path_target. simpl.
  split_and!; eauto. destruct netns_type0; [|done]. eexists; split_and!; [done|congruence..].
Qed.

(** The loop itself never ends with options. *)
Lemma opt_loop_stops st evs o : opt_loop path_exists st evs <> Stop (Parsed o).
Proof.
  revert st. induction evs as [|ev evs IH]; intros st; simpl; [done|].
  destruct (opt_step path_exists st ev) as [st'|r] eqn:E; [apply IH|].
  intros [= ->]. unfold opt_step in E. repeat case_in E; simplify_eq.
Qed.

Lemma parse_args_ok args o :
  parse_args path_exists args = Parsed o -> wf_options o.
Proof.
  unfold parse_args. destruct (getopt_long args) as [evs ops].
  destruct (opt_loop path_exists argst_init evs) as [st|r] eqn:El.
  2:{ intros ->. by apply opt_loop_stops in El. }
  apply opt_loop_inv in El as Hi; [|apply loop_inv_init].
  destruct (copy_optargs st) as [o1|] eqn:Ec; [|done].
  case_bool_decide as E1; [by apply (bess_mode_wf st)|].
  destruct (bool_decide _ && _) eqn:E2; [done|]. apply (netns_mode_wf st); [done|done|].
  apply andb_false_iff in E2. rewrite !bool_decide_eq_false in E2.
  destruct E2 as [E2|E2]; apply dec_stable in E2; [by left|by right].
Qed.

(** C17: when [parse_args] returns (instead of exiting), the options are
    well-formed: descriptors and MTU are in range, --macaddress comes with
    --configure, given namespace paths exist, and exactly one kind of target
    is selected with precisely the fields that kind uses. *)
Theorem parse_args_wf args o :
  parse_args path_exists args = Parsed o -> wf_options o.
Proof. apply parse_args_ok. Qed.
End guarantees.

(** ** The option table and the [switch] agree *)

(** An event of the option table: the error event, or the code of an entry
    with an argument exactly if the entry takes one. *)
Definition table_event (ev : optev) : Prop :=
  ev = opt_error \/
  exists o, o ∈ longopts /\ oe_opt ev = lo_val o /\
    (if lo_has_arg o then is_Some (oe_arg ev) else oe_arg ev = None).

(** Every short option is an entry of the long option table. *)
Lemma shortopts_in_table c b :
  find (fun p => p.1 =? c) shortopts = Some (c, b) ->
  exists o, o ∈ longopts /\ lo_val o = c /\ lo_has_arg o = b.
Proof.
  intros H. apply find_some in H as [H _].
  assert (forallb (fun p => existsb (fun o => (lo_val o =? p.1) && Bool.eqb (lo_has_arg o) p.2) longopts)
            shortopts = true) as Ht by (vm_compute; reflexivity).
  rewrite forallb_forall in Ht. specialize (Ht _ H). apply existsb_exists in Ht as (o & Ho & Ht).
  apply andb_true_iff in Ht as [Hv%Z.eqb_eq Hb%Bool.eqb_prop].
  exists o. by rewrite list_elem_of_In.
Qed.

Lemma find_short_fst c d b : find (fun p => p.1 =? c) shortopts = Some (d, b) -> d = c.
Proof. intros [_ H]%find_some. simpl in H. by apply Z.eqb_eq in H. Qed.

Lemma find_long_in name o : find_long name = Some o -> o ∈ longopts.
Proof.
  unfold find_long. destruct (filter _ longopts) as [|o1 os] eqn:E.
  - destruct (filter (fun o => take _ _ = _) longopts) as [|o2 os2] eqn:E2; [done|].
    case_match; [|done]. intros [= <-].
    assert (o2 ∈ filter (fun o => take (length name) (lo_name o) = name) longopts) as Hin
      by (rewrite E2; by left).
    by apply list_elem_of_filter in Hin as [_ ?].
  - intros [= <-].
    assert (o1 ∈ filter (fun o => lo_name o = name) longopts) as Hin by (rewrite E; by left).
    by apply list_elem_of_filter in Hin as [_ ?].
Qed.

Lemma table_event_long o arg :
  o ∈ longopts -> (if lo_has_arg o then is_Some arg else arg = None) ->
  table_event (Optev (lo_val o) arg).
Proof. intros. right. by exists o. Qed.

Lemma short_cluster_table cs :
  Forall table_event (short_cluster cs).1 /\
  (forall c arg, (short_cluster cs).2 = Some c -> table_event (Optev c (Some arg))).
Proof.
  induction cs as [|c cs [IH1 IH2]]; cbn [short_cluster]; [by split; [constructor|]|].
  destruct (find _ shortopts) as [[d [|]]|] eqn:Ef.
  - pose proof (find_short_fst _ _ _ Ef) as ->.
    apply shortopts_in_table in Ef as (o & Ho & Hv & Ha). subst c.
    assert (forall arg, table_event (Optev (lo_val o) (Some arg))) as Ht.
    { intros arg. apply table_event_long; [done|]. rewrite Ha. by eexists. }
    destruct cs; simpl; split; try done.
    + intros ? arg [= <-]. apply Ht.
    + by constructor.
  - pose proof (find_short_fst _ _ _ Ef) as ->.
    apply shortopts_in_table in Ef as (o & Ho & Hv & Ha). subst c.
    destruct (short_cluster cs) as [evs pend]; simpl in *. split; [|done].
    constructor; [|done]. apply table_event_long; [done|]. by rewrite Ha.
  - simpl. split; [|done]. constructor; [by left|constructor].
Qed.

Lemma getopt_long_table args : Forall table_event (getopt_long args).1.
Proof.
  remember (length args) as n eqn:En. revert args En.
  induction n as [n IH] using (well_founded_induction lt_wf); intros args ->.
  assert (Hr : forall rest, (length rest < length args)%nat -> Forall table_event (getopt_long rest).1)
    by (intros; by eapply IH).
  assert (He : Forall table_event [opt_error]) by (constructor; [by left|constructor]).
  clear IH. destruct args as [|a rest]; [constructor|]. simpl in Hr.
  pose proof (Hr rest ltac:(lia)) as H1.
  assert (H2 : forall x rest', rest = x :: rest' -> Forall table_event (getopt_long rest').1)
    by (intros x rest' ->; apply Hr; simpl; lia).
  clear Hr. cbn [getopt_long]. destruct (getopt_long rest) as [evs1 ops1]. simpl in H1.
  destruct a as [|c0 [|c1 cs]]; [done..|]. destruct (c0 =? 45); [|done].
  destruct (c1 =? 45).
  - destruct cs as [|c2 cs]; [constructor|].
    destruct (span _ (c2 :: cs)) as [name [|? arg]];
      destruct (find_long name) as [o|] eqn:Ef; try done;
      apply find_long_in in Ef; destruct (lo_has_arg o) eqn:Ea; try done.
    + destruct rest as [|x rest']; [done|]. specialize (H2 _ _ eq_refl).
      destruct (getopt_long rest'). constructor; [|done]. apply table_event_long; [done|].
      rewrite Ea. by eexists.
    + constructor; [|done]. apply table_event_long; [done|]. by rewrite Ea.
    + constructor; [|done]. apply table_event_long; [done|]. rewrite Ea. by eexists.
  - destruct (short_cluster_table (c1 :: cs)) as [Hs Hp].
    destruct (short_cluster (c1 :: cs)) as [evs [c|]]; simpl in *.
    + destruct rest as [|x rest']; simpl; [by apply Forall_app|].
      specialize (H2 _ _ eq_refl). destruct (getopt_long rest').
      apply Forall_app. split; [done|]. constructor; auto.
    + destruct (existsb _ evs); [done|]. by apply Forall_app.
Qed.

(** The [switch] of [parse_args] handles every option of the option
    table, so its [default] branch is taken only for the '?' that
    [getopt_long] returns on an error; and [optarg] is never NULL where the
    [switch] reads it. *)
Theorem switch_covers_table path_exists args ev st :
  ev ∈ (getopt_long args).1 ->
  (opt_step path_exists st ev = Stop (ExitFailure BadOption) <-> oe_opt ev = "?"%c) /\
  (oe_opt ev ∈ lo_val <$> base.filter (fun o => lo_has_arg o = true) longopts ->
   is_Some (oe_arg ev)).
Proof.
  intros Hin. pose proof (getopt_long_table args) as HF.
  rewrite Forall_forall in HF. specialize (HF _ Hin) as [->|(o & Ho & Hv & Ha)].
  { split; [by vm_compute|]. intros H. exfalso. revert H.
    apply (bool_decide_eq_false_1 (_ ∈ _)). vm_compute. reflexivity. }
  destruct ev as [opt arg]. cbn [oe_opt oe_arg] in *. subst opt. split.
  - assert (forallb (fun o => negb (lo_val o =? 63)) longopts = true) as H63 by (vm_compute; reflexivity).
    rewrite forallb_forall in H63. apply list_elem_of_In in Ho as Ho'. specialize (H63 _ Ho').
    split; [|lia]. intros H. exfalso. clear H63 Ho' Ha Hin. unfold longopts in Ho.
    repeat (apply elem_of_cons in Ho as [->|Ho]); [..|by apply not_elem_of_nil in Ho];
      unfold opt_step in H; cbn -[strtol_whole strtol_nonneg u32] in H; repeat case_in H; congruence.
  - intros H. destruct (lo_has_arg o) eqn:E; [done|]. exfalso.
    apply list_elem_of_fmap in H as (o' & Hv & [Hh Ho']%list_elem_of_filter).
    assert (forallb (fun o => forallb (fun o' => negb (lo_val o =? lo_val o') ||
      Bool.eqb (lo_has_arg o) (lo_has_arg o')) longopts) longopts = true) as Ht by (vm_compute; reflexivity).
    rewrite forallb_forall in Ht. apply list_elem_of_In in Ho, Ho'. specialize (Ht _ Ho).
    rewrite forallb_forall in Ht. specialize (Ht _ Ho'). rewrite Hv, Z.eqb_refl, E, Hh in Ht. done.
Qed.

Lemma strtol_whole_dec n : 0 <= n <= LONG_MAX -> strtol_whole (dec n) = Some n.
Proof.
  intros Hn. unfold strtol_whole. rewrite <-(app_nil_r (dec n)).
  rewrite strtol_digits by (auto using dec_digits, dec_nonnil with lia || (rewrite ?dval_dec; lia) || done).
  simpl. by rewrite dval_dec by lia.
Qed.

(** C39: --mtu=N, for every N that fits a [long], is accepted iff N modulo
    2^32 is in 1..65521, and sets the MTU to N modulo 2^32: in range the
    number itself is used, but a number of 2^32 or more is truncated before
    it is checked. *)
Theorem mtu_option path_exists st n :
  0 <= n <= LONG_MAX ->
  opt_step path_exists st (Optev "m"%c (Some (dec n))) =
    if (1 <=? n mod 2 ^ 32) && (n mod 2 ^ 32 <=? 65521)
    then Continue (on_options (set_mtu (n mod 2 ^ 32)) st)
    else Stop (ExitFailure BadMtu).
Proof.
  intros Hn. unfold opt_step. cbn -[strtol_whole u32 dec]. rewrite strtol_whole_dec by done.
  unfold u32. pose proof (Z.mod_pos_bound n (2 ^ 32) ltac:(lia)). set (v := n mod 2 ^ 32) in *.
  destruct (Z.leb_spec 1 v), (Z.leb_spec v 65521); simpl; by ztests.
Qed.

(** ** Witnesses *)

Definition argv (l : list string) : list bytes := map b2l l.

Lemma parse_args_wf_witness :
  exists o, parse_args (fun _ => true) (argv ["-c"; "--mtu=65520"; "1234"; "tap0"]) = Parsed o /\
    wf_options (fun _ => true) o /\ mtu o = 65520 /\ target_pid o = 1234.
Proof.
  eexists. split; [vm_compute; reflexivity|]. split; [|done].
  apply (parse_args_wf _ (argv ["-c"; "--mtu=65520"; "1234"; "tap0"])).
  vm_compute. reflexivity.
Defined.

Lemma switch_covers_table_witness :
  let ev := Optev "e"%c (Some (b2l "3")) in
  ev ∈ (getopt_long (argv ["-ce"; "3"; "1234"; "tap0"])).1 /\ is_Some (oe_arg ev).
Proof.
  split; [apply (bool_decide_eq_true_1 (_ ∈ _)); vm_compute; reflexivity|].
  apply (switch_covers_table (fun _ => true) (argv ["-ce"; "3"; "1234"; "tap0"]) _ argst_init).
  - apply (bool_decide_eq_true_1 (_ ∈ _)). vm_compute. reflexivity.
  - apply (bool_decide_eq_true_1 (_ ∈ _)). vm_compute. reflexivity.
Defined.

Lemma mtu_option_witness :
  opt_step (fun _ => true) argst_init (Optev "m"%c (Some (dec 4294968796)))
  = Continue (on_options (set_mtu 1500) argst_init).
Proof. rewrite mtu_option; [reflexivity|]. split; vm_compute; discriminate. Defined.

(** Command lines of the manual page and the tests *)
Example command_lines :
  parse_args (fun _ => true) (argv ["--macaddress=aa"; "1"; "tap0"]) = ExitFailure MacWithoutConfigure /\
  parse_args (fun _ => true) (argv ["--target-type=bess"; "-c"; "/tmp/b"]) = ExitFailure BessConfigure /\
  parse_args (fun _ => true) (argv ["--enable-s"; "1"; "tap0"]) = ExitFailure BadOption /\
  parse_args (fun _ => true) (argv ["--"; "-1"; "tap0"]) = ExitFailure BadPid /\
  parse_args (fun _ => false) (argv ["--netns-type=path"; "/nope"; "tap0"]) = ExitFailure NoNetnsPath.
Proof. vm_compute. done. Qed.
