(* ===== verification/Usage.v ===== *)
(** * What the command line prints (main.c: usage, version, the warnings of
    parse_args)

    [parse_args] prints warnings for some options and, when it ends the
    process, the usage or the version.  The lines are those given to [printf],
    without the newline that ends them.  The strings the build defines and the
    versions the libraries report are parameters. *)

From S2P Require Import Prelude Libc Cidr Options.

Record build := Build {
  VERSION : option bytes;
  PACKAGE_VERSION : bytes;
  COMMIT : option bytes;
  slirp_version_string : bytes;
  seccomp_version : option (Z * Z * Z)
}.

Definition usage (SLIRP_CONFIG_VERSION_MAX : Z) (argv0 : bytes) : list bytes :=
  [b2l "Usage: " ++ argv0 ++ b2l " [OPTION]... PID|PATH|FD [TAPNAME]";
   b2l "User-mode networking for unprivileged network namespaces." ++ [10];
   b2l "-c, --configure          bring up the interface";
   b2l "-e, --exit-fd=FD         specify the FD for terminating slirp4netns";
   b2l "-r, --ready-fd=FD        specify the FD to write to when the network is configured";
   b2l "-m, --mtu=MTU            specify MTU (default=" ++ dec DEFAULT_MTU ++ b2l ", max=65521)";
   b2l "-6, --enable-ipv6        enable IPv6 (experimental)";
   b2l "-a, --api-socket=PATH    specify API socket path";
   b2l "--cidr=CIDR              specify network address CIDR (default=" ++ DEFAULT_CIDR ++ b2l ")";
   b2l "--disable-host-loopback  prohibit connecting to 127.0.0.1:* on the host namespace";
   b2l "--netns-type=TYPE 	 specify network namespace type ([path|pid|tapfd], default=" ++ DEFAULT_NETNS_TYPE ++ b2l ")";
   b2l "--userns-path=PATH	 specify user namespace path";
   b2l "--enable-sandbox         create a new mount namespace (and drop all caps except CAP_NET_BIND_SERVICE if running as the root)";
   b2l "--enable-seccomp         enable seccomp to limit syscalls (experimental)"] ++
  (if 2 <=? SLIRP_CONFIG_VERSION_MAX then
     [b2l "--outbound-addr=IPv4     sets outbound ipv4 address to bound to (experimental)";
      b2l "--outbound-addr6=IPv6    sets outbound ipv6 address to bound to (experimental)"]
   else []) ++
  (if 3 <=? SLIRP_CONFIG_VERSION_MAX then
     [b2l "--disable-dns            disables 10.0.2.3 (or configured internal ip) to host dns redirect (experimental)"]
   else []) ++
  [b2l "--macaddress=MAC         specify the MAC address of the TAP (only valid with -c)";
   b2l "--target-type=TYPE       specify the target type ([netns|bess], default=" ++ DEFAULT_TARGET_TYPE ++ b2l ")";
   b2l "-h, --help               show this help and exit";
   b2l "-v, --version            show version and exit"].

Definition version (SLIRP_CONFIG_VERSION_MAX : Z) (b : build) : list bytes :=
  [b2l "slirp4netns version " ++ default (PACKAGE_VERSION b) (VERSION b)] ++
  match COMMIT b with Some c => [b2l "commit: " ++ c] | None => [] end ++
  [b2l "libslirp: " ++ slirp_version_string b;
   b2l "SLIRP_CONFIG_VERSION_MAX: " ++ dec_signed SLIRP_CONFIG_VERSION_MAX] ++
  match seccomp_version b with
  | Some (major, minor, micro) =>
      [b2l "libseccomp: " ++ dec_signed major ++ "."%c :: dec_signed minor ++ "."%c :: dec_signed micro]
  | None => []
  end.

(** ** The warnings of [parse_args] *)

Definition opt_warnings (ev : optev) : list bytes :=
  let opt := oe_opt ev in
  if opt =? DEPRECATED_NO_HOST_LOOPBACK then
    [b2l "WARNING: --no-host-loopback is deprecated and will be removed in future releases, please use --disable-host-loopback instead."]
  else if opt =? DEPRECATED_CREATE_SANDBOX then
    [b2l "WARNING: --create-sandbox is deprecated and will be removed in future releases, please use --enable-sandbox instead."]
  else if opt =? ENABLE_SECCOMP then [b2l "WARNING: Support for seccomp is experimental"]
  else if opt =? "6"%c then [b2l "WARNING: Support for IPv6 is experimental"]
  else if opt =? OUTBOUND_ADDR then [b2l "WARNING: Support for --outbound-addr is experimental"]
  else if opt =? OUTBOUND_ADDR6 then [b2l "WARNING: Support for --outbound-addr6 is experimental"]
  else [].

Section stdout.
Variable path_exists : bytes -> bool.
Variable SLIRP_CONFIG_VERSION_MAX : Z.
Variable b : build.

(** Up to the option that ends the loop. *)
Fixpoint loop_warnings (st : argst) (evs : list optev) : list bytes :=
  match evs with
  | [] => []
  | ev :: evs' =>
      opt_warnings ev ++
      match opt_step path_exists st ev with
      | Continue st' => loop_warnings st' evs'
      | Stop _ => []
      end
  end.

(** The warnings on the operands, once they are accepted. *)
Definition operand_warnings (o : options) (operands : list bytes) : list bytes :=
  if bool_decide (target_type o = Some (b2l "bess")) then [b2l "WARNING: BESS mode is experimental"]
  else if 0 <=? tapfd o then
    if (1 <? length operands)%nat then [b2l "WARNING: too many arguments"] else []
  else if (2 <? length operands)%nat then [b2l "WARNING: too many arguments"] else [].

(** Everything [parse_args] writes to standard output. *)
Definition parse_args_stdout (argv0 : bytes) (args : list bytes) : list bytes :=
  let '(evs, operands) := getopt_long args in
  loop_warnings argst_init evs ++
  match parse_args path_exists args with
  | ExitUsage => usage SLIRP_CONFIG_VERSION_MAX argv0
  | ExitVersion => version SLIRP_CONFIG_VERSION_MAX b
  | ExitFailure _ => usage SLIRP_CONFIG_VERSION_MAX argv0
  | Parsed o => operand_warnings o operands
  end.
End stdout.

(** ** The usage and the option table agree *)

(** The option a line of the usage announces: its letter, its long name and
    whether it takes an argument. *)
Definition announced (l : bytes) : option (option Z * bytes * bool) :=
  let long (short : option Z) (l : bytes) :=
    let '(name, rest) := span (fun c => negb (c =? "="%c) && negb (c =? " "%c)) l in
    Some (short, name, bool_decide (head rest = Some "="%c)) in
  match l with
  | c0 :: c1 :: l' =>
      if c0 =? "-"%c then
        if c1 =? "-"%c then long None l'
        else if bool_decide (take 4 l' = b2l ", --") then long (Some c1) (drop 4 l') else None
      else None
  | _ => None
  end.

Definition described (o : longopt) : option Z * bytes * bool :=
  (if 0 <? lo_val o then Some (lo_val o) else None, lo_name o, lo_has_arg o).

(** The options a user should know of: all but the deprecated ones and those
    libslirp is too old for. *)
Definition advertised (version_max : Z) (o : longopt) : bool :=
  negb (bool_decide (lo_val o ∈ [DEPRECATED_NO_HOST_LOOPBACK; DEPRECATED_CREATE_SANDBOX])) &&
  ((2 <=? version_max) || negb (bool_decide (lo_val o ∈ [OUTBOUND_ADDR; OUTBOUND_ADDR6]))) &&
  ((3 <=? version_max) || negb (lo_val o =? DISABLE_DNS)).

(** C35: the usage documents the options.  Its lines announce, each once, the
    entries of the option table with their letters and whether they take an
    argument, but for the two deprecated names and the options libslirp is too
    old for; and the letters announced are those of the option string. *)
Theorem usage_documents_options version_max argv0 :
  let shown := omap announced (usage version_max argv0) in
  shown ≡ₚ map described (List.filter (advertised version_max) longopts) /\
  omap (fun s => option_map (fun c => (c, s.2)) s.1.1) shown ≡ₚ shortopts.
Proof.
  cbv zeta. unfold usage, advertised.
  change (omap announced (?l :: ?ls)) with (omap announced ls).
  destruct (2 <=? version_max), (3 <=? version_max);
    (split; [apply (bool_decide_eq_true_1 (_ ≡ₚ _))|apply (bool_decide_eq_true_1 (_ ≡ₚ _))]; vm_compute; reflexivity).
Qed.

(** ** The warnings and the options agree *)

(** An experimental feature with a warning: the option that turns it on, where
    the option loop and [struct options] record it, and its warning. *)
Record experiment := Experiment {
  x_opt : Z;
  x_loop : argst -> bool;
  x_on : options -> bool;
  x_warning : bytes
}.

Definition experiments : list experiment := [
  Experiment ENABLE_SECCOMP (fun st => enable_seccomp (as_options st)) enable_seccomp
    (b2l "WARNING: Support for seccomp is experimental");
  Experiment "6"%c (fun st => enable_ipv6 (as_options st)) enable_ipv6
    (b2l "WARNING: Support for IPv6 is experimental");
  Experiment OUTBOUND_ADDR (fun st => bool_decide (is_Some (optarg_outbound_addr st)))
    (fun o => bool_decide (is_Some (outbound_addr o)))
    (b2l "WARNING: Support for --outbound-addr is experimental");
  Experiment OUTBOUND_ADDR6 (fun st => bool_decide (is_Some (optarg_outbound_addr6 st)))
    (fun o => bool_decide (is_Some (outbound_addr6 o)))
    (b2l "WARNING: Support for --outbound-addr6 is experimental")
].

Definition bess_warning : bytes := b2l "WARNING: BESS mode is experimental".

(** The other lines printed for a command line that is accepted. *)
Definition other_warnings : list bytes := [
  bess_warning;
  b2l "WARNING: --no-host-loopback is deprecated and will be removed in future releases, please use --disable-host-loopback instead.";
  b2l "WARNING: --create-sandbox is deprecated and will be removed in future releases, please use --enable-sandbox instead.";
  b2l "WARNING: too many arguments"
].

(** The option of a line of the usage that ends in "(experimental)". *)
Definition marked (l : bytes) : option bytes :=
  if bool_decide (drop (length l - 14) l = b2l "(experimental)") then (fun a => a.1.2) <$> announced l else None.

Section announce.
Variable path_exists : bytes -> bool.

Lemma loop_warnings_all st evs st' :
  opt_loop path_exists st evs = Continue st' -> loop_warnings path_exists st evs = evs ≫= opt_warnings.
Proof.
  revert st. induction evs as [|ev evs IH]; intros st H; simpl in *; [done|].
  destruct (opt_step path_exists st ev) as [st1|r]; [|done]. by rewrite (IH st1 H).
Qed.

Lemma experiments_step x st ev st' :
  x ∈ experiments -> opt_step path_exists st ev = Continue st' ->
  x_loop x st' = x_loop x st || (oe_opt ev =? x_opt x).
Proof.
  intros Hx H. destruct st as [o a b c d e g h i], o. unfold opt_step in H.
  unfold experiments in Hx. rewrite !elem_of_cons, elem_of_nil in Hx.
  unfold CIDR, DEPRECATED_NO_HOST_LOOPBACK, DISABLE_HOST_LOOPBACK, DEPRECATED_CREATE_SANDBOX, ENABLE_SANDBOX,
    ENABLE_SECCOMP, NETNS_TYPE, USERNS_PATH, OUTBOUND_ADDR, OUTBOUND_ADDR6, DISABLE_DNS, MACADDRESS, TARGET_TYPE in *.
  repeat case_in H; simplify_eq/=; destruct_or?; subst; cbn; ztests; by rewrite ?orb_false_r, ?orb_true_r.
Qed.

Lemma experiments_loop x st evs st' :
  x ∈ experiments -> opt_loop path_exists st evs = Continue st' ->
  x_loop x st' = x_loop x st || existsb (fun ev => oe_opt ev =? x_opt x) evs.
Proof.
  intros Hx. revert st. induction evs as [|ev evs IH]; intros st H; simpl in *.
  { simplify_eq. by rewrite orb_false_r. }
  destruct (opt_step path_exists st ev) as [st1|r] eqn:E; [|done].
  by rewrite (IH _ H), (experiments_step x st ev st1), orb_assoc.
Qed.

Lemma experiments_warn x ev : x ∈ experiments -> x_warning x ∈ opt_warnings ev <-> oe_opt ev = x_opt x.
Proof.
  intros Hx. unfold experiments in Hx. rewrite !elem_of_cons, elem_of_nil in Hx. unfold opt_warnings.
  repeat match goal with |- context [oe_opt ev =? ?c] => destruct (Z.eqb_spec (oe_opt ev) c) as [->|] end.
  all: destruct_or?; subst; try done; cbn [x_warning x_opt];
    first [apply (bool_decide_eq_true_1 (_ <-> _)); vm_compute; reflexivity
          |split; [by intros ?%not_elem_of_nil|congruence]].
Qed.

Lemma experiments_copied x st o :
  x ∈ experiments -> loop_inv path_exists st -> copy_optargs st = inl o -> x_on x o = x_loop x st.
Proof.
  intros Hx [_ _ _ _ Ho] H. unfold experiments in Hx. rewrite !elem_of_cons, elem_of_nil in Hx.
  destruct st as [o0 a b c d e g h i], o0. simpl in *. destruct_and!. simplify_eq/=.
  unfold copy_optargs in H. simpl in H.
  destruct a, b, c, d, e, g, h, i; simpl in *; destruct do_config_network; simplify_eq/=; by destruct_or?; subst.
Qed.

Lemma experiments_bess x o ops o' : x ∈ experiments -> bess_mode o ops = Parsed o' -> x_on x o' = x_on x o.
Proof.
  intros Hx H. unfold experiments in Hx. rewrite !elem_of_cons, elem_of_nil in Hx. unfold bess_mode in H.
  repeat case_in H; simplify_eq; by destruct_or?; subst.
Qed.

Lemma experiments_netns x o ops o' :
  x ∈ experiments -> netns_mode path_exists o ops = Parsed o' -> x_on x o' = x_on x o.
Proof.
  intros Hx H. unfold experiments in Hx. rewrite !elem_of_cons, elem_of_nil in Hx. unfold netns_mode, netns_target in H.
  repeat case_in H; simplify_eq; by destruct_or?; subst.
Qed.

Lemma experiments_operands x o ops : x ∈ experiments -> x_warning x ∉ operand_warnings o ops.
Proof.
  intros Hx. unfold experiments in Hx. rewrite !elem_of_cons, elem_of_nil in Hx. unfold operand_warnings.
  repeat case_goal; destruct_or?; subst; try done; apply (bool_decide_eq_true_1 (_ ∉ _)); vm_compute; reflexivity.
Qed.

Lemma parsed_steps args o :
  parse_args path_exists args = Parsed o ->
  exists evs ops st o1, getopt_long args = (evs, ops) /\ opt_loop path_exists argst_init evs = Continue st /\
    copy_optargs st = inl o1 /\ (bess_mode o1 ops = Parsed o \/ netns_mode path_exists o1 ops = Parsed o).
Proof.
  unfold parse_args. destruct (getopt_long args) as [evs ops] eqn:Eg.
  destruct (opt_loop path_exists argst_init evs) as [st|r] eqn:El; [|intros ->; by apply opt_loop_stops in El].
  destruct (copy_optargs st) as [o1|] eqn:Ec; [|done]. intros H. exists evs, ops, st, o1. split_and!; try done.
  case_bool_decide; [by left|]. destruct (_ && _); [done|]. by right.
Qed.

Definition known_warning (l : bytes) : Prop := l ∈ map x_warning experiments ++ other_warnings.

Lemma opt_warnings_are ev : Forall known_warning (opt_warnings ev).
Proof.
  unfold opt_warnings. repeat case_goal; repeat constructor; apply (bool_decide_eq_true_1 (_ ∈ _)); vm_compute; reflexivity.
Qed.

Lemma operand_warnings_are o ops : Forall known_warning (operand_warnings o ops).
Proof.
  unfold operand_warnings.
  repeat case_goal; repeat constructor; apply (bool_decide_eq_true_1 (_ ∈ _)); vm_compute; reflexivity.
Qed.

Lemma usage_marks version_max argv0 :
  omap marked (usage version_max argv0) ≡ₚ
  map lo_name (List.filter (fun o => advertised version_max o &&
    bool_decide (lo_val o ∈ map x_opt experiments ++ [DISABLE_DNS])) longopts).
Proof.
  unfold usage, advertised.
  assert (forall l ls, announced l = None -> omap marked (l :: ls) = omap marked ls) as Hskip.
  { intros l ls Hl. simpl. unfold marked at 1. rewrite Hl. by case_bool_decide. }
  rewrite <-app_comm_cons, Hskip by reflexivity.
  destruct (2 <=? version_max), (3 <=? version_max); apply (bool_decide_eq_true_1 (_ ≡ₚ _)); vm_compute; reflexivity.
Qed.

Lemma bess_warning_only ev : bess_warning ∉ opt_warnings ev.
Proof.
  unfold opt_warnings. repeat case_goal; apply (bool_decide_eq_true_1 (_ ∉ _)); vm_compute; reflexivity.
Qed.

Lemma bess_warning_operands o ops : bess_warning ∈ operand_warnings o ops <-> target_type o = Some (b2l "bess").
Proof.
  unfold operand_warnings. case_bool_decide as E; [split; [done|by left]|].
  split; [|done]. intros H. exfalso. revert H.
  repeat case_goal; apply (bool_decide_eq_true_1 (_ ∉ _)); vm_compute; reflexivity.
Qed.

(** C36: the warnings on experimental features.  The options the usage marks
    as experimental are those of IPv6, seccomp and the outbound addresses, and
    --disable-dns.  On a command line that is accepted, IPv6, seccomp, an
    outbound address or BESS mode is on in the options iff its warning is
    printed; --disable-dns has no warning: whatever is printed is one of the
    warnings of the other features, a deprecation or "too many arguments". *)
Theorem experiments_announced version_max bd argv0 args o :
  parse_args path_exists args = Parsed o ->
  let out := parse_args_stdout path_exists version_max bd argv0 args in
  omap marked (usage version_max argv0) ≡ₚ
    map lo_name (List.filter (fun o => advertised version_max o &&
      bool_decide (lo_val o ∈ map x_opt experiments ++ [DISABLE_DNS])) longopts) /\
  Forall (fun w => w ∈ map x_warning experiments ++ other_warnings) out /\
  Forall (fun x => x_on x o = true <-> x_warning x ∈ out) experiments /\
  (target_type o = Some (b2l "bess") <-> bess_warning ∈ out).
Proof.
  intros Hp out. destruct (parsed_steps _ _ Hp) as (evs & ops & st & o1 & Hg & Hl & Hc & Hm).
  assert (out = (evs ≫= opt_warnings) ++ operand_warnings o ops) as ->.
  { unfold out, parse_args_stdout. by rewrite Hg, Hp, (loop_warnings_all _ _ _ Hl). }
  assert (forall w, w ∈ evs ≫= opt_warnings <-> exists ev, w ∈ opt_warnings ev /\ ev ∈ evs) as Hin
    by (intros; apply list_elem_of_bind).
  split_and!; [apply usage_marks| | |].
  - apply Forall_app. split; [|apply operand_warnings_are]. apply Forall_bind, Forall_forall.
    intros ev _. apply opt_warnings_are.
  - apply Forall_forall. intros x Hx. rewrite elem_of_app, Hin.
    assert (x_on x o = x_loop x st) as ->.
    { rewrite <-(experiments_copied x st o1); [|done| |done].
      - destruct Hm; [by eapply experiments_bess|by eapply experiments_netns].
      - eapply opt_loop_inv; [apply loop_inv_init|exact Hl]. }
    rewrite (experiments_loop x _ _ _ Hx Hl).
    replace (x_loop x argst_init) with false by (revert Hx; clear; intros; set_solver).
    simpl. rewrite existsb_exists. split.
    + intros (ev & Hev & Ho). left. exists ev. rewrite experiments_warn, list_elem_of_In by done. split; [lia|done].
    + intros [(ev & Hw & Hev)|Hw]; [|by apply experiments_operands in Hw]. exists ev.
      rewrite <-list_elem_of_In. rewrite experiments_warn in Hw by done. split; [done|lia].
  - rewrite elem_of_app, bess_warning_operands, Hin. split; [by right|].
    intros [(ev & Hw & _)|?]; [by apply bess_warning_only in Hw|done].
Qed.
End announce.

Lemma experiments_announced_witness :
  let args := argv ["--disable-dns"; "-6"; "1234"; "tap0"] in
  let out := parse_args_stdout (fun _ => true) 4 (Build None [] None [] None) (b2l "slirp4netns") args in
  exists o, parse_args (fun _ => true) args = Parsed o /\ disable_dns o = true /\ enable_ipv6 o = true /\
    out = [b2l "WARNING: Support for IPv6 is experimental"] /\
    Forall (fun w => w ∈ map x_warning experiments ++ other_warnings) out.
Proof.
  cbv zeta. eexists. split; [vm_compute; reflexivity|]. split; [reflexivity|]. split; [reflexivity|].
  split; [vm_compute; reflexivity|].
  eapply experiments_announced. vm_compute. reflexivity.
Defined.
