(* ===== verification/Inet6.v ===== *)
(** * [inet_pton(AF_INET6, ...)], as glibc implements it

    The 16 bytes are collected in [tp]; [colonp] is the index where "::"
    stood. *)

From S2P Require Import Prelude Libc.

Fixpoint inet_pton6_loop (src curtok : bytes) (xdigits_seen val : Z) (tp : bytes)
    (colonp : option nat) : option (Z * Z * bytes * option nat) :=
  match src with
  | [] => Some (xdigits_seen, val, tp, colonp)
  | ch :: src' =>
      match hexdigit ch with
      | Some digit =>
          if xdigits_seen =? 4 then None
          else
            let val := Z.lor (Z.shiftl val 4) digit in
            if 65535 <? val then None
            else inet_pton6_loop src' curtok (xdigits_seen + 1) val tp colonp
      | None =>
          if ch =? ":"%c then
            if xdigits_seen =? 0 then
              match colonp with
              | Some _ => None
              | None => inet_pton6_loop src' src' 0 val tp (Some (length tp))
              end
            else
              match src' with
              | [] => None
              | _ =>
                  if (16 <? length tp + 2)%nat then None
                  else inet_pton6_loop src' src' 0 0
                         (tp ++ [Z.shiftr val 8; Z.land val 255]) colonp
              end
          else if (ch =? "."%c) && (length tp + 4 <=? 16)%nat then
            match inet_pton4 curtok 0 false 0 [] with
            | Some l => Some (0, val, tp ++ l, colonp)
            | None => None
            end
          else None
      end
  end.

Definition inet_pton6 (s : bytes) : option bytes :=
  let start :=
    match s with
    | [] => None
    | c :: s' =>
        if c =? ":"%c then
          match s' with
          | c' :: _ => if c' =? ":"%c then Some s' else None
          | [] => None
          end
        else Some s
    end in
  match start with
  | None => None
  | Some src =>
      match inet_pton6_loop src src 0 0 [] None with
      | None => None
      | Some (xdigits_seen, val, tp, colonp) =>
          let tp' :=
            if 0 <? xdigits_seen then
              if (16 <? length tp + 2)%nat then None
              else Some (tp ++ [Z.shiftr val 8; Z.land val 255])
            else Some tp in
          match tp', colonp with
          | None, _ => None
          | Some tp, Some c =>
              if (length tp =? 16)%nat then None
              else Some (take c tp ++ replicate (16 - length tp) 0 ++ drop c tp)
          | Some tp, None => if (length tp =? 16)%nat then Some tp else None
          end
      end
  end.

(** The number of bytes written never exceeds the 16 of the destination. *)
Lemma inet_pton6_loop_length src curtok seen val tp colonp r :
  (length tp <= 16)%nat -> (forall c, colonp = Some c -> (c <= length tp)%nat) ->
  inet_pton6_loop src curtok seen val tp colonp = Some r ->
  (length r.1.2 <= 16)%nat /\ (forall c, r.2 = Some c -> (c <= length r.1.2)%nat).
Proof.
  revert curtok seen val tp colonp. induction src as [|ch src IH];
    intros curtok seen val tp colonp Hl Hc H; simpl in H.
  { injection H as <-. done. }
  destruct (hexdigit ch) as [d|].
  { repeat case_match; try done. by eapply IH. }
  destruct (ch =? 58).
  - destruct (seen =? 0).
    + destruct colonp; [done|]. eapply IH; [| |done]; [done|]. by intros c [= <-].
    + destruct src as [|c src]; [done|]. case_match; [done|].
      apply Nat.ltb_ge in H0. apply IH in H; [done|rewrite length_app; simpl; lia|].
      intros c' Hc'%Hc. rewrite length_app. lia.
  - destruct ((ch =? 46) && (length tp + 4 <=? 16)%nat) eqn:E; [|done].
    apply andb_true_iff in E as [_ E%Nat.leb_le].
    destruct (inet_pton4 curtok 0 false 0 []) as [l|] eqn:E4; [|done]. injection H as <-. simpl.
    apply inet_pton4_inv in E4 as (ds & os & _ & -> & _ & _ & _ & Hn & _); [|lia..].
    rewrite length_app. simpl in *. split; [lia|]. intros c Hc'%Hc. lia.
Qed.

Lemma inet_pton6_length s a : inet_pton6 s = Some a -> length a = 16%nat.
Proof.
  unfold inet_pton6. destruct (match s with [] => None | _ :: _ => _ end) as [src|]; [|done].
  destruct (inet_pton6_loop src src 0 0 [] None) as [[[[seen val] tp] colonp]|] eqn:E; [|done].
  apply inet_pton6_loop_length in E as [Hl Hc]; [|simpl; lia|done]. simpl in *.
  destruct (0 <? seen).
  - destruct (Nat.ltb_spec 16 (length tp + 2)); [done|].
    assert (Hl2 : length (tp ++ [val ≫ 8; Z.land val 255]) = (length tp + 2)%nat)
      by (rewrite length_app; done).
    destruct colonp as [c|].
    + destruct (Nat.eqb_spec (length (tp ++ [val ≫ 8; Z.land val 255])) 16); [done|].
      intros [= <-]. specialize (Hc _ eq_refl). rewrite Hl2 in *.
      rewrite !length_app, length_take, length_replicate, length_drop, Hl2. lia.
    + destruct (Nat.eqb_spec (length (tp ++ [val ≫ 8; Z.land val 255])) 16); [|done].
      by intros [= <-].
  - destruct colonp as [c|].
    + destruct (Nat.eqb_spec (length tp) 16); [done|]. intros [= <-]. specialize (Hc _ eq_refl).
      rewrite !length_app, length_take, length_replicate, length_drop. lia.
    + destruct (Nat.eqb_spec (length tp) 16); [|done]. by intros [= <-].
Qed.

Example inet_pton6_examples :
  inet_pton6 (b2l "fd00::2") = Some (253 :: replicate 14 0 ++ [2]) /\
  inet_pton6 (b2l "fd00::") = Some (253 :: replicate 15 0) /\
  inet_pton6 (b2l "::ffff:10.0.2.3") = Some (replicate 10 0 ++ [255; 255; 10; 0; 2; 3]) /\
  inet_pton6 (b2l "1:2:3:4:5:6:7:8:9") = None /\
  inet_pton6 (b2l "eth0") = None.
Proof. vm_compute. done. Qed.
