(* ===== verification/Config.v ===== *)
(** * The configuration (main.c, slirp4netns.h)

    [slirp4netns_macaddr_hexstring_to_data], [get_interface_addr] and
    [slirp4netns_config_from_options]: from [struct options] to
    [struct slirp4netns_config].  The list of the host's interface addresses
    ([getifaddrs]) and the version of the libslirp headers
    ([SLIRP_CONFIG_VERSION_MAX]) are parameters. *)

From S2P Require Import Prelude Libc Cidr Options Inet6.

Definition AF_LOCAL : Z := 1.
Definition AF_INET : Z := 2.
Definition AF_INET6 : Z := 10.

(** ** MAC addresses *)

(** The [for] loop: [room] slots are left in the data buffer, [ptr] is
    [macaddr_ptr] ([first]: it is still [macaddr]), [data] what was stored so
    far.  [None]: a field is invalid. *)
Fixpoint macaddr_loop (room : nat) (first : bool) (ptr : option bytes) (data : bytes)
  : option (option bytes * bytes) :=
  match ptr, room with
  | None, _ => Some (None, data)
  | Some _, O => Some (ptr, data)
  | Some p, S room' =>
      let p := if first then p else drop 1 p in
      match sscanf_x p with
      | Some temp =>
          if (temp <? 0) || (255 <? temp) then None
          else macaddr_loop room' false (strchr p ":"%c) (data ++ [temp])
      | None => None
      end
  end.

(** [None] is the return value -1; [Some data]: the bytes stored, whose
    number is returned. *)
Definition slirp4netns_macaddr_hexstring_to_data (macaddr : bytes) : option bytes :=
  match macaddr_loop 6 true (Some macaddr) [] with
  | None => None
  | Some (Some _, _) => None
  | Some (None, data) => Some data
  end.

(** ** Interface addresses *)

Inductive sockaddr_any :=
| SaIn (sin_addr : Z)
| SaIn6 (sin6_addr : bytes)
| SaOther (family : Z).

Definition sa_family_of (a : sockaddr_any) : Z :=
  match a with SaIn _ => AF_INET | SaIn6 _ => AF_INET6 | SaOther f => f end.

Record ifaddr := Ifaddr { ifa_name : option bytes; ifa_addr : option sockaddr_any }.

Fixpoint find_interface (ifs : list ifaddr) (interface : bytes) (af : Z) : option sockaddr_any :=
  match ifs with
  | [] => None
  | ifa :: ifs' =>
      match ifa_addr ifa, ifa_name ifa with
      | Some a, Some name =>
          if (sa_family_of a =? af) && bool_decide (name = interface) then Some a
          else find_interface ifs' interface af
      | _, _ => find_interface ifs' interface af
      end
  end.

(** [getifaddrs] as its result list, [None] when it fails.  [None]: -1. *)
Definition get_interface_addr (getifaddrs : option (list ifaddr)) (interface : option bytes)
    (af : Z) : option sockaddr_any :=
  match interface with
  | None => None
  | Some i => match getifaddrs with None => None | Some ifs => find_interface ifs i af end
  end.

(** ** struct slirp4netns_config *)

Record sockaddr_in := SockaddrIn { sin_family : Z; sin_port : Z; sin_addr : Z }.
Record sockaddr_in6 := SockaddrIn6 { sin6_family : Z; sin6_port : Z; sin6_addr : bytes }.
Record sockaddr := Sockaddr { sa_family : Z; sa_data : bytes }.

Record slirp4netns_config := Config {
  cfg_mtu : Z;
  cfg_net : netaddrs;
  cfg_enable_ipv6 : bool;
  cfg_disable_host_loopback : bool;
  cfg_enable_sandbox : bool;
  cfg_enable_seccomp : bool;
  cfg_enable_outbound_addr : bool;
  cfg_outbound_addr : option sockaddr_in;       (* meaningful if enabled *)
  cfg_enable_outbound_addr6 : bool;
  cfg_outbound_addr6 : option sockaddr_in6;     (* meaningful if enabled *)
  cfg_disable_dns : bool;
  cfg_vmacaddress : sockaddr;
  cfg_vmacaddress_len : Z
}.

Inductive config_error :=
| CidrError (e : cidr_error)
| BadOutboundAddr | BadOutboundAddr6
| NeedsLibslirp_4_2 | NeedsLibslirp_4_3
| BadMacAddress.

Section config.
Context `{BO : ByteOrder}.
Variable SLIRP_CONFIG_VERSION_MAX : Z.
Variable getifaddrs : option (list ifaddr).

Definition resolve_outbound_addr (opt : options) : option sockaddr_in + config_error :=
  match outbound_addr opt with
  | None => inl None
  | Some s =>
      if 2 <=? SLIRP_CONFIG_VERSION_MAX then
        match inet_pton s with
        | Some a => inl (Some (SockaddrIn AF_INET 0 a))
        | None =>
            match get_interface_addr getifaddrs (outbound_addr opt) AF_INET with
            | Some (SaIn a) => inl (Some (SockaddrIn AF_INET 0 a))
            | _ => inr BadOutboundAddr
            end
        end
      else inr NeedsLibslirp_4_2
  end.

(** The interface looked up when [outbound_addr6] is not an IPv6 address is
    the one named by [outbound_addr]. *)
Definition resolve_outbound_addr6 (opt : options) : option sockaddr_in6 + config_error :=
  match outbound_addr6 opt with
  | None => inl None
  | Some s =>
      if 2 <=? SLIRP_CONFIG_VERSION_MAX then
        match inet_pton6 s with
        | Some a => inl (Some (SockaddrIn6 AF_INET6 0 a))
        | None =>
            match get_interface_addr getifaddrs (outbound_addr opt) AF_INET6 with
            | Some (SaIn6 a) => inl (Some (SockaddrIn6 AF_INET6 0 a))
            | _ => inr BadOutboundAddr6
            end
        end
      else inr NeedsLibslirp_4_2
  end.

Definition slirp4netns_config_from_options (opt : options) : slirp4netns_config + config_error :=
  match slirp4netns_config_from_cidr (default DEFAULT_CIDR (cidr opt)) with
  | inr e => inr (CidrError e)
  | inl net =>
      match resolve_outbound_addr opt with
      | inr e => inr e
      | inl out4 =>
          match resolve_outbound_addr6 opt with
          | inr e => inr e
          | inl out6 =>
              if (SLIRP_CONFIG_VERSION_MAX <? 3) && disable_dns opt then inr NeedsLibslirp_4_3
              else
                let mac :=
                  match macaddress opt with
                  | None => Some (Sockaddr 0 (replicate 14 0), 0)
                  | Some s =>
                      match slirp4netns_macaddr_hexstring_to_data s with
                      | None => None
                      | Some data =>
                          Some (Sockaddr AF_LOCAL (data ++ replicate (14 - length data) 0),
                                Z.of_nat (length data))
                      end
                  end in
                match mac with
                | None => inr BadMacAddress
                | Some (vmacaddress, vmacaddress_len) =>
                    inl {|
                      cfg_mtu := mtu opt;
                      cfg_net := net;
                      cfg_enable_ipv6 := enable_ipv6 opt;
                      cfg_disable_host_loopback := disable_host_loopback opt;
                      cfg_enable_sandbox := enable_sandbox opt;
                      cfg_enable_seccomp := enable_seccomp opt;
                      cfg_enable_outbound_addr := bool_decide (is_Some out4);
                      cfg_outbound_addr := out4;
                      cfg_enable_outbound_addr6 := bool_decide (is_Some out6);
                      cfg_outbound_addr6 := out6;
                      cfg_disable_dns := disable_dns opt;
                      cfg_vmacaddress := vmacaddress;
                      cfg_vmacaddress_len := vmacaddress_len
                    |}
                end
          end
      end
  end.
End config.

(** ** MAC addresses: the printed form *)

Definition hexchar (d : Z) : Z := if d <? 10 then "0"%c + d else "a"%c + (d - 10).

(** "%02x" of an [unsigned char] *)
Definition hex2 (b : Z) : bytes := [hexchar (b / 16); hexchar (b mod 16)].

(** "%02x:%02x:...", the address line of [parent] *)
Fixpoint mac_print (bs : bytes) : bytes :=
  match bs with
  | [] => []
  | [b] => hex2 b
  | b :: bs' => hex2 b ++ ":"%c :: mac_print bs'
  end.

(** ** MAC addresses: specification

    The fields between the colons, each read on its own. *)
Abbreviation split_colon := (split_on ":"%c).

Definition mac_field (f : bytes) : option Z :=
  v ← sscanf_x f; if (v <? 0) || (255 <? v) then None else Some v.

Definition mac_spec (s : bytes) : option bytes :=
  if (length (split_colon s) <=? 6)%nat then mapM mac_field (split_colon s) else None.

(** ** Lemmas: scanning up to a colon *)

Lemma skip_ws_colon f r : skip_ws (f ++ ":"%c :: r) = skip_ws f ++ ":"%c :: r.
Proof. induction f as [|c f IH]; simpl; [done|]. by destruct (isspace c). Qed.

Lemma skip_ws_in c f : c ∈ skip_ws f -> c ∈ f.
Proof.
  induction f as [|d f IH]; simpl; [done|]. destruct (isspace d); [|done].
  intros. right. auto.
Qed.

Lemma scan_sign_colon f r :
  scan_sign (f ++ ":"%c :: r) = ((scan_sign f).1, (scan_sign f).2 ++ ":"%c :: r).
Proof. destruct f as [|c f]; simpl; [done|]. by repeat case_match. Qed.

Lemma span_colon p f r :
  p ":"%c = false -> (span p (f ++ ":"%c :: r)).1 = (span p f).1.
Proof.
  intros Hp. induction f as [|c f IH]; simpl; [by rewrite Hp|].
  destruct (p c); [|done]. destruct (span p f), (span p (f ++ _)). simpl in *. by subst.
Qed.

Definition skip_0x (p : bytes) : bytes :=
  match p with
  | c0 :: cx :: q => if (c0 =? "0"%c) && ((cx =? "x"%c) || (cx =? "X"%c)) then q else p
  | _ => p
  end.

Lemma skip_0x_colon f r : skip_0x (f ++ ":"%c :: r) = skip_0x f ++ ":"%c :: r.
Proof.
  destruct f as [|c0 [|cx f]]; simpl; [by destruct r|by rewrite andb_false_r|].
  by case_match.
Qed.

(** [sscanf] never reads past the colon that ends the field. *)
Lemma sscanf_x_colon f r : sscanf_x (f ++ ":"%c :: r) = sscanf_x f.
Proof.
  unfold sscanf_x. rewrite skip_ws_colon, scan_sign_colon.
  destruct (scan_sign (skip_ws f)) as [neg p]. cbn [fst snd].
  fold (skip_0x p). fold (skip_0x (p ++ 58 :: r)). rewrite skip_0x_colon.
  pose proof (span_colon isxdigit (skip_0x p) r eq_refl) as Hs.
  destruct (span isxdigit (skip_0x p ++ 58 :: r)) as [ds1 ?].
  destruct (span isxdigit (skip_0x p)) as [ds2 ?]. simpl in Hs. by subst.
Qed.

Definition loop_result (r : option (option bytes * bytes)) : option bytes :=
  match r with Some (None, data) => Some data | _ => None end.

Lemma macaddr_loop_colon room r data :
  loop_result (macaddr_loop room false (Some (":"%c :: r)) data) =
  loop_result (macaddr_loop room true (Some r) data).
Proof. by destruct room. Qed.

Lemma macaddr_loop_spec room p data :
  loop_result (macaddr_loop room true (Some p) data) =
  if (length (split_colon p) <=? room)%nat
  then app data <$> mapM mac_field (split_colon p) else None.
Proof.
  revert p data. induction room as [|room IH]; intros p data.
  { destruct (strchr_split p 58 ltac:(done)) as [[Hn _]|(f & r & Hf & -> & _)];
      [by rewrite split_on_one|by rewrite split_on_app]. }
  destruct (strchr_split p 58 ltac:(done)) as [[Hn E]|(f & r & Hf & -> & E)];
    cbn [macaddr_loop]; rewrite E.
  - rewrite split_on_one by done. simpl. unfold mac_field. destruct (sscanf_x p) as [v|]; [|done].
    simpl. destruct ((v <? 0) || (255 <? v)); [done|]. by destruct room.
  - rewrite split_on_app, sscanf_x_colon by done.
    assert (mac_field f = v ← sscanf_x f; if (v <? 0) || (255 <? v) then None else Some v) as Hm
      by done.
    simpl. rewrite Hm. destruct (sscanf_x f) as [v|]; simpl; [|by destruct (_ <=? _)%nat].
    destruct ((v <? 0) || (255 <? v)); simpl; [by destruct (_ <=? _)%nat|].
    rewrite macaddr_loop_colon, IH. case_match; [|done].
    destruct (mapM mac_field (split_colon r)); simpl; [|done]. by rewrite <-app_assoc.
Qed.

Lemma macaddr_mac_spec s : slirp4netns_macaddr_hexstring_to_data s = mac_spec s.
Proof.
  unfold slirp4netns_macaddr_hexstring_to_data, mac_spec.
  pose proof (macaddr_loop_spec 6 s []) as H.
  destruct (macaddr_loop 6 true (Some s) []) as [[[|] data]|]; simpl in H; rewrite H;
    case_match; simpl; try done; by destruct (mapM mac_field _).
Qed.

(** ** Lemmas: hexadecimal output *)

Lemma hexdigit_hexchar d : 0 <= d < 16 -> hexdigit (hexchar d) = Some d.
Proof.
  intros Hd.
  assert ((if hexdigit (hexchar d) is Some e then e =? d else false) = true) as H.
  { apply (check_range (fun d => if hexdigit (hexchar d) is Some e then e =? d else false) 0 16);
      [vm_compute; done|lia]. }
  destruct (hexdigit (hexchar d)); [|done]. by apply Z.eqb_eq in H as ->.
Qed.

Lemma mac_field_hex2 b : is_byte b -> mac_field (hex2 b) = Some b.
Proof.
  intros Hb.
  assert ((if mac_field (hex2 b) is Some e then e =? b else false) = true) as H.
  { apply (check_range (fun b => if mac_field (hex2 b) is Some e then e =? b else false) 0 256);
      [vm_compute; done|unfold is_byte in Hb; lia]. }
  destruct (mac_field (hex2 b)); [|done]. by apply Z.eqb_eq in H as ->.
Qed.

Lemma hex2_no_colon b : is_byte b -> ":"%c ∉ hex2 b.
Proof.
  intros Hb. unfold hex2.
  assert (forall d, 0 <= d < 16 -> hexchar d <> 58) as Hc.
  { intros d Hd E. pose proof (hexdigit_hexchar d Hd) as Hx. rewrite E in Hx. done. }
  unfold is_byte in Hb. rewrite !not_elem_of_cons. split_and!.
  - apply not_eq_sym, Hc. dlia.
  - apply not_eq_sym, Hc. dlia.
  - apply not_elem_of_nil.
Qed.

Lemma split_colon_mac_print bs :
  bs <> [] -> Forall is_byte bs -> split_colon (mac_print bs) = map hex2 bs.
Proof.
  intros Hne HF. induction HF as [|b bs Hb HF IH]; [done|]. destruct bs as [|b' bs].
  - cbn [mac_print map]. rewrite split_on_one by (by apply hex2_no_colon). done.
  - cbn [mac_print map]. rewrite split_on_app by (by apply hex2_no_colon). f_equal. by apply IH.
Qed.

(** C34: the MAC parser is equivalent to its specification: split the text at
    the colons, accept it iff there are at most six fields and each reads as
    one byte in hexadecimal (as [sscanf] "%x" reads it), and return the bytes
    in order.  In particular at most six bytes are written. *)
Theorem macaddr_equiv s :
  slirp4netns_macaddr_hexstring_to_data s =
  (if (length (split_colon s) <=? 6)%nat then mapM mac_field (split_colon s) else None) /\
  (forall data, slirp4netns_macaddr_hexstring_to_data s = Some data ->
     (1 <= length data <= 6)%nat /\ Forall is_byte data).
Proof.
  split; [apply macaddr_mac_spec|]. intros data. rewrite macaddr_mac_spec. unfold mac_spec.
  destruct (Nat.leb_spec (length (split_colon s)) 6) as [Hl|]; [|done]. intros HM.
  pose proof (length_mapM _ _ _ HM) as Hlen.
  assert (1 <= length (split_colon s))%nat.
  { destruct s as [|c s]; simpl; [lia|]. repeat case_match; simpl; lia. }
  split; [lia|]. apply mapM_Some_1 in HM. clear -HM.
  induction HM as [|f v fs vs Hf _ IH]; [constructor|]. constructor; [|done].
  unfold mac_field in Hf. destruct (sscanf_x f) as [w|]; simplify_eq/=.
  destruct ((w <? 0) || (255 <? w)) eqn:E; simplify_eq/=. unfold is_byte. lia.
Qed.

(** A MAC address printed the way the daemon prints it is read back as
    the same bytes.  The documentation asks for six bytes, but every list of
    one to six bytes is accepted. *)
Theorem macaddr_roundtrip bs :
  (1 <= length bs <= 6)%nat -> Forall is_byte bs ->
  slirp4netns_macaddr_hexstring_to_data (mac_print bs) = Some bs.
Proof.
  intros Hl HF. rewrite macaddr_mac_spec. unfold mac_spec.
  assert (bs <> []) by (intros ->; simpl in Hl; lia).
  rewrite split_colon_mac_print, length_map by done.
  replace (length bs <=? 6)%nat with true by (symmetry; apply Nat.leb_le; lia).
  clear H Hl. induction HF as [|b bs Hb HF IH]; [done|].
  cbn [map mapM]. by rewrite mac_field_hex2, IH.
Qed.

Lemma macaddr_roundtrip_witness :
  slirp4netns_macaddr_hexstring_to_data (mac_print [82; 85; 10]) = Some [82; 85; 10].
Proof.
  apply (macaddr_roundtrip [82; 85; 10]); [simpl; lia|].
  repeat constructor; done.
Defined.

(** ** Lemmas: interfaces *)

(** The address [a] is one of those the host reports for the interface. *)
Definition reported (getifaddrs : option (list ifaddr)) (name : bytes) (a : sockaddr_any) : Prop :=
  exists ifs, getifaddrs = Some ifs /\ Ifaddr (Some name) (Some a) ∈ ifs.

Lemma find_interface_Some ifs i af a :
  find_interface ifs i af = Some a ->
  sa_family_of a = af /\ Ifaddr (Some i) (Some a) ∈ ifs.
Proof.
  induction ifs as [|[n b] ifs IH]; simpl; [done|].
  assert (find_interface ifs i af = Some a ->
          sa_family_of a = af /\ Ifaddr (Some i) (Some a) ∈ Ifaddr n b :: ifs).
  { intros H. destruct (IH H). split; [done|]. by right. }
  destruct b as [b|]; [|done]. destruct n as [n|]; [|done].
  destruct (_ && _) eqn:E; [|done]. intros [= ->].
  apply andb_true_iff in E as [E1%Z.eqb_eq E2%bool_decide_eq_true]. subst.
  split; [done|]. by left.
Qed.

Lemma find_interface_None ifs i af a :
  find_interface ifs i af = None -> sa_family_of a = af -> Ifaddr (Some i) (Some a) ∉ ifs.
Proof.
  intros HN Ha. induction ifs as [|[n b] ifs IH]; [by apply not_elem_of_nil|].
  simpl in HN. apply not_elem_of_cons. split.
  - intros [= <- <-]. rewrite Ha, Z.eqb_refl, bool_decide_eq_true_2 in HN by done. done.
  - apply IH. repeat case_match; done.
Qed.

Lemma get_interface_addr_Some g i af a :
  get_interface_addr g (Some i) af = Some a -> sa_family_of a = af /\ reported g i a.
Proof.
  unfold get_interface_addr. destruct g as [ifs|]; [|done].
  intros [Hf Hin]%find_interface_Some. split; [done|]. by exists ifs.
Qed.

Lemma get_interface_addr_None g i af a :
  get_interface_addr g (Some i) af = None -> sa_family_of a = af -> ~ reported g i a.
Proof.
  unfold get_interface_addr. intros HN Ha (ifs & -> & Hin).
  by eapply find_interface_None in Hin.
Qed.

(** A [struct sockaddr] of family [AF_INET] is a [sockaddr_in] and one of
    family [AF_INET6] a [sockaddr_in6]: [getifaddrs] returns such lists. *)
Definition well_tagged (getifaddrs : option (list ifaddr)) : Prop :=
  forall ifs ifa f, getifaddrs = Some ifs -> ifa ∈ ifs -> ifa_addr ifa = Some (SaOther f) ->
  f <> AF_INET /\ f <> AF_INET6.

Section config_lemmas.
Context `{BO : ByteOrder}.
Variable version : Z.
Variable getifaddrs : option (list ifaddr).
Hypothesis ifaddrs_tagged : well_tagged getifaddrs.

(** What the resolved IPv4 source address means. *)
Definition outbound_ok (opt : options) (out : option sockaddr_in) : Prop :=
  match outbound_addr opt, out with
  | None, None => True
  | Some s, Some sa =>
      2 <= version /\ sin_family sa = AF_INET /\ sin_port sa = 0 /\
      (inet_pton s = Some (sin_addr sa) \/
       inet_pton s = None /\ reported getifaddrs s (SaIn (sin_addr sa)))
  | _, _ => False
  end.

Definition outbound6_ok (opt : options) (out : option sockaddr_in6) : Prop :=
  match outbound_addr6 opt, out with
  | None, None => True
  | Some s, Some sa =>
      2 <= version /\ sin6_family sa = AF_INET6 /\ sin6_port sa = 0 /\
      (inet_pton6 s = Some (sin6_addr sa) \/
       inet_pton6 s = None /\
       exists i, outbound_addr opt = Some i /\ reported getifaddrs i (SaIn6 (sin6_addr sa)))
  | _, _ => False
  end.

(** The meaning of each error message. *)
Definition config_error_ok (opt : options) (e : config_error) : Prop :=
  match e with
  | CidrError e => slirp4netns_config_from_cidr (default DEFAULT_CIDR (cidr opt)) = inr e
  | BadOutboundAddr =>
      exists s, outbound_addr opt = Some s /\ inet_pton s = None /\
      forall a, ~ reported getifaddrs s (SaIn a)
  | BadOutboundAddr6 =>
      exists s, outbound_addr6 opt = Some s /\ inet_pton6 s = None /\
      forall i a, outbound_addr opt = Some i -> ~ reported getifaddrs i (SaIn6 a)
  | NeedsLibslirp_4_2 =>
      version < 2 /\ (is_Some (outbound_addr opt) \/ is_Some (outbound_addr6 opt))
  | NeedsLibslirp_4_3 => version < 3 /\ disable_dns opt = true
  | BadMacAddress =>
      exists s, macaddress opt = Some s /\ slirp4netns_macaddr_hexstring_to_data s = None
  end.

Definition macaddress_ok (opt : options) (cfg : slirp4netns_config) : Prop :=
  match macaddress opt with
  | None => cfg_vmacaddress_len cfg = 0 /\ cfg_vmacaddress cfg = Sockaddr 0 (replicate 14 0)
  | Some s =>
      exists data, slirp4netns_macaddr_hexstring_to_data s = Some data /\
      cfg_vmacaddress_len cfg = Z.of_nat (length data) /\
      sa_family (cfg_vmacaddress cfg) = AF_LOCAL /\
      take (length data) (sa_data (cfg_vmacaddress cfg)) = data
  end.

Lemma resolve_outbound_ok opt :
  match resolve_outbound_addr version getifaddrs opt with
  | inl out => outbound_ok opt out
  | inr e => config_error_ok opt e
  end.
Proof.
  unfold resolve_outbound_addr, outbound_ok.
  destruct (outbound_addr opt) as [s|] eqn:Es; [|done].
  destruct (Z.leb_spec 2 version) as [Hv|Hv]; [|simpl; rewrite Es; eauto].
  destruct (inet_pton s) as [a|] eqn:Ep; [by eauto 6|].
  destruct (get_interface_addr getifaddrs (Some s) AF_INET) as [a|] eqn:Eg.
  - destruct (get_interface_addr_Some _ _ _ _ Eg) as [Hf Hr].
    destruct a as [a|a|f]; simpl in *; [by eauto 8|done|].
    destruct Hr as (ifs & Hg & Hin). by destruct (ifaddrs_tagged _ _ f Hg Hin eq_refl).
  - exists s. split_and!; [done|done|]. intros a. by eapply get_interface_addr_None.
Qed.

Lemma resolve_outbound6_ok opt :
  match resolve_outbound_addr6 version getifaddrs opt with
  | inl out => outbound6_ok opt out
  | inr e => config_error_ok opt e
  end.
Proof.
  unfold resolve_outbound_addr6, outbound6_ok.
  destruct (outbound_addr6 opt) as [s|] eqn:Es; [|done].
  destruct (Z.leb_spec 2 version) as [Hv|Hv]; [|simpl; rewrite Es; eauto].
  destruct (inet_pton6 s) as [a|] eqn:Ep; [by eauto 6|].
  destruct (outbound_addr opt) as [i|] eqn:Ei; [|exists s; rewrite Ei; by split_and!].
  destruct (get_interface_addr getifaddrs (Some i) AF_INET6) as [a|] eqn:Eg.
  - destruct (get_interface_addr_Some _ _ _ _ Eg) as [Hf Hr].
    destruct a as [a|a|f]; simpl in *; [done|by eauto 12|].
    destruct Hr as (ifs & Hg & Hin). by destruct (ifaddrs_tagged _ _ f Hg Hin eq_refl).
  - exists s. split_and!; [done|done|]. rewrite Ei. intros i' a [= <-].
    by eapply get_interface_addr_None.
Qed.

(** C18: what [slirp4netns_config_from_options] computes on every branch: on
    success each field is the option's value, the addresses are those of the
    CIDR (or of the default one), an outbound address is the literal given or
    one the host reports for the interface, and the MAC address bytes are
    those of the option; on failure the message given is the one that
    applies. *)
Theorem config_from_options_correct opt :
  match slirp4netns_config_from_options version getifaddrs opt with
  | inl cfg =>
      slirp4netns_config_from_cidr (default DEFAULT_CIDR (cidr opt)) = inl (cfg_net cfg) /\
      cfg_mtu cfg = mtu opt /\ cfg_enable_ipv6 cfg = enable_ipv6 opt /\
      cfg_disable_host_loopback cfg = disable_host_loopback opt /\
      cfg_enable_sandbox cfg = enable_sandbox opt /\
      cfg_enable_seccomp cfg = enable_seccomp opt /\
      cfg_disable_dns cfg = disable_dns opt /\ (disable_dns opt = true -> 3 <= version) /\
      (cfg_enable_outbound_addr cfg = true <-> is_Some (outbound_addr opt)) /\
      outbound_ok opt (cfg_outbound_addr cfg) /\
      (cfg_enable_outbound_addr6 cfg = true <-> is_Some (outbound_addr6 opt)) /\
      outbound6_ok opt (cfg_outbound_addr6 cfg) /\
      macaddress_ok opt cfg
  | inr e => config_error_ok opt e
  end.
Proof.
  unfold slirp4netns_config_from_options.
  destruct (slirp4netns_config_from_cidr _) as [net|e] eqn:En; [|done].
  pose proof (resolve_outbound_ok opt) as H4. destruct (resolve_outbound_addr _ _ opt) as [o4|e]; [|done].
  pose proof (resolve_outbound6_ok opt) as H6. destruct (resolve_outbound_addr6 _ _ opt) as [o6|e]; [|done].
  destruct ((version <? 3) && disable_dns opt) eqn:Ed.
  { simpl. split; [lia|by destruct (disable_dns opt); [|lia]]. }
  assert (disable_dns opt = true -> 3 <= version) as Hd.
  { intros E. rewrite E in Ed. lia. }
  assert (forall {A} (o : option A) (s : option bytes),
    match s, o with None, None => True | Some _, Some _ => True | _, _ => False end ->
    (bool_decide (is_Some o) = true <-> is_Some s)) as Hen.
  { intros A [?|] [?|]; simpl; intros; try done. }
  assert (bool_decide (is_Some o4) = true <-> is_Some (outbound_addr opt)).
  { apply Hen. unfold outbound_ok in H4. by destruct (outbound_addr opt), o4. }
  assert (bool_decide (is_Some o6) = true <-> is_Some (outbound_addr6 opt)).
  { apply Hen. unfold outbound6_ok in H6. by destruct (outbound_addr6 opt), o6. }
  assert (forall cfg data, cfg_vmacaddress cfg =
    Sockaddr AF_LOCAL (data ++ replicate (14 - length data) 0) ->
    take (length data) (sa_data (cfg_vmacaddress cfg)) = data) as Ht.
  { intros cfg data ->. simpl. by rewrite take_app_length. }
  destruct (macaddress opt) as [s|] eqn:Em.
  - destruct (slirp4netns_macaddr_hexstring_to_data s) as [data|] eqn:Eh; [|by exists s].
    split_and!; try done. unfold macaddress_ok. rewrite Em. exists data. split_and!; try done.
    by apply Ht.
  - split_and!; try done. unfold macaddress_ok. by rewrite Em.
Qed.

(** C40: the interface looked up for [--outbound-addr6] is the one given with
    [--outbound-addr]: without that option an interface name for
    [--outbound-addr6] is refused whatever addresses the host reports. *)
Theorem outbound_addr6_interface_refused opt s cfg :
  outbound_addr opt = None -> outbound_addr6 opt = Some s -> inet_pton6 s = None ->
  slirp4netns_config_from_options version getifaddrs opt <> inl cfg.
Proof.
  intros H4 H6 Hp. unfold slirp4netns_config_from_options.
  pose proof (resolve_outbound6_ok opt) as H. unfold outbound6_ok in H. rewrite H4, H6 in H.
  destruct (resolve_outbound_addr6 _ _ opt) as [[o6|]|].
  - destruct H as (_ & _ & _ & [E|(_ & i & [=] & _)]). by rewrite Hp in E.
  - done.
  - by repeat case_match.
Qed.
End config_lemmas.

(** ** The types of the fields *)

Record typed_config (version : Z) (cfg : slirp4netns_config) : Prop := {
  ty_mtu : 1 <= cfg_mtu cfg <= 65521;
  ty_net : Forall in_u32 [vnetwork (cfg_net cfg); vnetmask (cfg_net cfg); vhost (cfg_net cfg);
             vdhcp_start (cfg_net cfg); vnameserver (cfg_net cfg); recommended_vguest (cfg_net cfg)];
  ty_outbound : if cfg_enable_outbound_addr cfg
                then exists a, cfg_outbound_addr cfg = Some (SockaddrIn AF_INET 0 a) /\ in_u32 a /\ 2 <= version
                else cfg_outbound_addr cfg = None;
  ty_outbound6 : if cfg_enable_outbound_addr6 cfg
                 then exists a, cfg_outbound_addr6 cfg = Some (SockaddrIn6 AF_INET6 0 a) /\ length a = 16%nat /\ 2 <= version
                 else cfg_outbound_addr6 cfg = None;
  ty_dns : cfg_disable_dns cfg = true -> 3 <= version;
  ty_mac : length (sa_data (cfg_vmacaddress cfg)) = 14%nat /\ Forall is_byte (sa_data (cfg_vmacaddress cfg));
  ty_mac_len : 0 <= cfg_vmacaddress_len cfg <= 6
}.

(** The addresses [getifaddrs] reports have the width of their family. *)
Definition typed_ifaddrs (getifaddrs : option (list ifaddr)) : Prop := forall name a,
  reported getifaddrs name a ->
  match a with SaIn x => in_u32 x | SaIn6 b => length b = 16%nat | SaOther _ => True end.

Lemma macaddr_typed s data :
  slirp4netns_macaddr_hexstring_to_data s = Some data -> (length data <= 6)%nat /\ Forall is_byte data.
Proof.
  rewrite macaddr_mac_spec. unfold mac_spec. destruct (Nat.leb_spec (length (split_colon s)) 6); [|done].
  intros Hm%mapM_Some_1. split; [by rewrite <-(Forall2_length _ _ _ Hm)|].
  induction Hm as [|f v fs vs Hf _ IH]; [constructor|]. simpl in *. constructor; [|apply IH; lia].
  unfold mac_field in Hf. destruct (sscanf_x f) as [w|]; simpl in Hf; [|done].
  destruct ((w <? 0) || (255 <? w)) eqn:Eb; simplify_eq. unfold is_byte. lia.
Qed.

Section typed.
Context `{BO : ByteOrder}.
Variable version : Z.
Variable getifaddrs : option (list ifaddr).
Hypothesis Hifs : typed_ifaddrs getifaddrs.

Lemma config_from_cidr_typed cidr net :
  slirp4netns_config_from_cidr cidr = inl net ->
  Forall in_u32 [vnetwork net; vnetmask net; vhost net; vdhcp_start net; vnameserver net; recommended_vguest net].
Proof.
  unfold slirp4netns_config_from_cidr. destruct (parse_cidr cidr) as [[n m]|] eqn:E; [|done].
  apply parse_cidr_success in E as (h & ps & Hh & _ & _ & _ & _ & -> & ->). intros [= <-]. simpl.
  unfold addr_add. repeat (constructor; [apply htonl_range|]). constructor.
Qed.

Lemma resolve_outbound_typed opt out :
  resolve_outbound_addr version getifaddrs opt = inl out ->
  match out with Some o => exists a, o = SockaddrIn AF_INET 0 a /\ in_u32 a /\ 2 <= version | None => True end.
Proof.
  unfold resolve_outbound_addr. destruct (outbound_addr opt) as [s|]; [|by intros [= <-]].
  destruct (Z.leb_spec 2 version); [|done]. destruct (inet_pton s) as [a|] eqn:Ep.
  - intros [= <-]. exists a. split_and!; [done|by eapply inet_pton_range|done].
  - destruct (get_interface_addr getifaddrs (Some s) AF_INET) as [[a|a|f]|] eqn:Eg; try done. intros [= <-].
    apply get_interface_addr_Some in Eg as [_ Hr]. exists a. split_and!; [done|by apply (Hifs s (SaIn a))|done].
Qed.

Lemma resolve_outbound6_typed opt out :
  resolve_outbound_addr6 version getifaddrs opt = inl out ->
  match out with
  | Some o => exists a, o = SockaddrIn6 AF_INET6 0 a /\ length a = 16%nat /\ 2 <= version
  | None => True
  end.
Proof.
  unfold resolve_outbound_addr6. destruct (outbound_addr6 opt) as [s|]; [|by intros [= <-]].
  destruct (Z.leb_spec 2 version); [|done]. destruct (inet_pton6 s) as [a|] eqn:Ep.
  - intros [= <-]. exists a. split_and!; [done|by eapply inet_pton6_length|done].
  - destruct (outbound_addr opt) as [i|]; [|done].
    destruct (get_interface_addr getifaddrs (Some i) AF_INET6) as [[a|a|f]|] eqn:Eg; try done. intros [= <-].
    apply get_interface_addr_Some in Eg as [_ Hr]. exists a. split_and!; [done|by apply (Hifs i (SaIn6 a))|done].
Qed.

Lemma config_typed opt cfg :
  1 <= mtu opt <= 65521 -> slirp4netns_config_from_options version getifaddrs opt = inl cfg -> typed_config version cfg.
Proof.
  intros Hmtu. unfold slirp4netns_config_from_options.
  destruct (slirp4netns_config_from_cidr _) as [net|e] eqn:En; [|done].
  destruct (resolve_outbound_addr _ _ opt) as [o4|e] eqn:E4; [|done]. apply resolve_outbound_typed in E4.
  destruct (resolve_outbound_addr6 _ _ opt) as [o6|e] eqn:E6; [|done]. apply resolve_outbound6_typed in E6.
  destruct ((version <? 3) && disable_dns opt) eqn:Ed; [done|].
  assert (forall mac len, length (sa_data mac) = 14%nat -> Forall is_byte (sa_data mac) -> 0 <= len <= 6 ->
    typed_config version (Config (mtu opt) net (enable_ipv6 opt) (disable_host_loopback opt) (enable_sandbox opt)
      (enable_seccomp opt) (bool_decide (is_Some o4)) o4 (bool_decide (is_Some o6)) o6 (disable_dns opt) mac len)) as Hcfg.
  { intros mac len H1 H2 H3. split; simpl; try done.
    - by eapply config_from_cidr_typed.
    - destruct o4 as [o|]; [|done]. destruct E4 as (a & -> & ? & ?). by exists a.
    - destruct o6 as [o|]; [|done]. destruct E6 as (a & -> & ? & ?). by exists a.
    - intros E. rewrite E in Ed. lia. }
  assert (forall n, Forall is_byte (replicate n 0)) as Hz by (intros n; apply Forall_replicate; unfold is_byte; lia).
  destruct (macaddress opt) as [s|].
  - destruct (slirp4netns_macaddr_hexstring_to_data s) as [data|] eqn:Eh; [|done]. intros [= <-].
    apply macaddr_typed in Eh as [Hlen Hb]. apply Hcfg; simpl; [rewrite length_app, length_replicate; lia| |lia].
    by apply Forall_app.
  - intros [= <-]. apply Hcfg; simpl; [done|apply (Hz 14%nat)|lia].
Qed.

(** C26: the configuration is well typed.  Whatever command line was accepted,
    every field of the configuration made from it has a value of its C type and
    of the kind the rest of the program relies on: the MTU in 1..65521, 32-bit
    addresses, an outbound address exactly if it is enabled, of its own family
    and only with a libslirp that knows outbound addresses, 14 bytes of which at
    most six are a MAC address, and [disable_dns] only with a libslirp that has
    it. *)
Theorem config_from_options_typed path_exists args opt cfg :
  parse_args path_exists args = Parsed opt ->
  slirp4netns_config_from_options version getifaddrs opt = inl cfg ->
  typed_config version cfg.
Proof. intros Hp. apply config_typed. exact (wf_mtu _ _ (parse_args_ok path_exists args opt Hp)). Qed.
End typed.

Definition eth0 : bytes := b2l "eth0".

Definition demo_ifs : option (list ifaddr) :=
  Some [Ifaddr (Some (b2l "lo")) (Some (SaIn 16777343));
        Ifaddr (Some eth0) (Some (SaOther 17));
        Ifaddr (Some eth0) (Some (SaIn 84281354));
        Ifaddr (Some eth0) (Some (SaIn6 (replicate 16 7)))].

Lemma demo_ifs_tagged : well_tagged demo_ifs.
Proof.
  intros ifs ifa f [= <-]. rewrite !elem_of_cons, elem_of_nil.
  intros [-> | [-> | [-> | [-> | []]]]]; simpl; intros E; simplify_eq. split; by vm_compute.
Qed.

Lemma config_from_options_correct_witness :
  let BO : ByteOrder := true in
  let opt := set_outbound_addr (Some eth0) (set_outbound_addr6 (Some eth0) options_init) in
  exists cfg, slirp4netns_config_from_options 4 demo_ifs opt = inl cfg /\
  outbound_ok 4 demo_ifs opt (cfg_outbound_addr cfg) /\
  outbound6_ok 4 demo_ifs opt (cfg_outbound_addr6 cfg).
Proof.
  intros BO opt. pose proof (config_from_options_correct 4 demo_ifs demo_ifs_tagged opt) as H.
  assert (exists cfg, slirp4netns_config_from_options 4 demo_ifs opt = inl cfg) as [cfg E]
    by (eexists; vm_compute; reflexivity).
  exists cfg. rewrite E in H. destruct H as (_ & _ & _ & _ & _ & _ & _ & _ & _ & H4 & _ & H6 & _).
  split_and!; assumption.
Defined.

Lemma outbound_addr6_interface_refused_witness :
  let BO : ByteOrder := true in
  let opt := set_outbound_addr6 (Some eth0) options_init in
  reported demo_ifs eth0 (SaIn6 (replicate 16 7)) /\
  forall cfg, slirp4netns_config_from_options 4 demo_ifs opt <> inl cfg.
Proof.
  intros BO opt. split.
  - eexists. split; [reflexivity|]. rewrite !elem_of_cons. auto 6.
  - intros cfg. apply (outbound_addr6_interface_refused 4 demo_ifs demo_ifs_tagged opt eth0);
      reflexivity.
Defined.

Lemma demo_ifs_typed : typed_ifaddrs demo_ifs.
Proof.
  intros name a (ifs & [= <-] & Hin). rewrite !elem_of_cons, elem_of_nil in Hin.
  destruct Hin as [E|[E|[E|[E|[]]]]]; injection E as _ E; subst a; simpl; try done; split; done.
Qed.

Lemma config_from_options_typed_witness :
  let BO : ByteOrder := true in
  exists opt cfg,
    parse_args (fun _ => true) (argv ["-c"; "--macaddress=aa:bb"; "--outbound-addr=eth0"; "1234"; "tap0"]) = Parsed opt /\
    slirp4netns_config_from_options 4 demo_ifs opt = inl cfg /\ cfg_vmacaddress_len cfg = 2 /\ typed_config 4 cfg.
Proof.
  intros BO. eexists _, _. split; [vm_compute; reflexivity|]. split; [vm_compute; reflexivity|].
  split; [reflexivity|].
  apply (config_from_options_typed 4 demo_ifs demo_ifs_typed (fun _ => true)
    (argv ["-c"; "--macaddress=aa:bb"; "--outbound-addr=eth0"; "1234"; "tap0"]) _ _ ltac:(vm_compute; reflexivity)).
  vm_compute. reflexivity.
Defined.
