(* ===== verification/OS.v ===== *)
(** * System calls and library calls

    The stateful parts of the program (main.c, slirp4netns.c, api.c,
    sandbox.c, seccompfilter.c) act on the world through calls into the kernel
    and into libraries whose sources are not part of the program (libslirp,
    libseccomp, glib).  A run is its trace: the calls made, in order, each
    with the answer it got.

    The environment that answers is the parameter [Env]: an arbitrary function
    of the calls made so far, so every theorem holds for every behaviour of
    the kernel and of the libraries.  What a theorem needs of them is a
    hypothesis of the theorem.

    A program is a function from the history to the events it adds and its
    outcome: a value, [exit], undefined behaviour, or the end of the fuel that
    bounds the retry loops. *)

From S2P Require Import Prelude.

(** ** Calls *)

(** The argument of an [ioctl]: the fields the program sets of [struct ifreq]
    (the name and the member of the union the request reads) and of
    [struct rtentry]. *)
Inductive ioctl_arg :=
| IfrFlags (ifr_name : bytes) (ifr_flags : Z)
| IfrMtu (ifr_name : bytes) (ifr_mtu : Z)
| IfrHwaddr (ifr_name : bytes) (sa_family : Z) (sa_data : bytes)
| IfrAddr (ifr_name : bytes) (sin_family sin_port sin_addr : Z)
| Rtentry (rt_gateway rt_dst rt_genmask : Z) (rt_flags rt_metric : Z) (rt_dev : bytes).

Record GPollFD := Pfd { pfd_fd : Z; pfd_events : Z; pfd_revents : Z }.

(** The fields of libslirp's [SlirpConfig] the program sets to something other
    than NULL; an outbound address is the family, the port and the address. *)
Record SlirpConfig := SlirpCfg {
  sc_version : Z;
  sc_restricted : Z;
  sc_in_enabled : bool;
  sc_vnetwork : Z;
  sc_vnetmask : Z;
  sc_vhost : Z;
  sc_in6_enabled : bool;
  sc_vprefix_addr6 : bytes;
  sc_vprefix_len : Z;
  sc_vhost6 : bytes;
  sc_vdhcp_start : Z;
  sc_vnameserver : Z;
  sc_vnameserver6 : bytes;
  sc_if_mtu : Z;
  sc_if_mru : Z;
  sc_disable_host_loopback : bool;
  sc_outbound_addr : option (Z * Z * Z);
  sc_outbound_addr6 : option (Z * Z * bytes);
  sc_disable_dns : bool
}.

Inductive call :=
(* files and descriptors *)
| Open (path : bytes) (flags : Z)
| Creat (path : bytes) (mode : Z)
| Close (fd : Z)
| Read (fd : Z) (count : Z)
| Write (fd : Z) (data : bytes)
| Ioctl (fd : Z) (request : Z) (arg : ioctl_arg)
| Unlink (path : bytes)
| Mkdir (path : bytes) (mode : Z)
| MkdirWithParents (path : bytes) (mode : Z)
| Rmdir (path : bytes)
| Chdir (path : bytes)
| Realpath (path : bytes)
(* sockets *)
| Socket (domain type protocol : Z)
| Socketpair (domain type protocol : Z)
| Bind (fd : Z) (family : Z) (sun_path : bytes)
| Listen (fd backlog : Z)
| Accept (fd : Z)
| Shutdown (fd how : Z)
| Sendmsg (fd : Z) (payload : bytes) (rights : Z)
| Recvmsg (fd : Z) (iov_len : Z)
| Poll (fds : list GPollFD) (timeout : Z)
(* processes, namespaces, privileges *)
| Fork
| Waitpid (pid : Z)
| Setns (fd nstype : Z)
| Unshare (flags : Z)
| Geteuid
| Setegid (gid : Z)
| Seteuid (uid : Z)
| Signal (signum : Z) (ignore : bool)
| Prctl (option a2 : Z)
| Capset (version : Z) (data : list (Z * Z * Z))
| Mount (source target fstype : bytes) (flags : Z) (data : option bytes)
| Umount2 (target : bytes) (flags : Z)
| PivotRoot (new_root put_old : bytes)
| ClockGettime
(* memory *)
| Malloc (size : Z)
| Free (ptr : Z)
| GArrayNew
| GArrayFree (array : Z)
| GListFreeFull (entries : list (Z * (Z * Z * Z * Z * Z)))
| Asprintf (result : bytes)
(* standard output *)
| Printf (line : bytes)
(* libseccomp and seccomp(2) *)
| SeccompGetActionAvail (action : Z)
| SeccompInit (action : Z)
| SeccompArchAdd (arch : Z)
| SeccompResolveName (name : bytes)
| SeccompRuleAdd (action num : Z)
| SeccompLoad
(* libslirp: calls into the library that may call back, and its timers *)
| SlirpNew (cfg : SlirpConfig)
| SlirpPollfdsFill (timeout : Z)
| SlirpPollfdsPoll (select_error : bool)
| SlirpInput (pkt : bytes)
| TimerCb (cb cb_opaque : Z)
(* libslirp calls that make no callback *)
| SlirpAddHostfwd (is_udp host_addr host_port guest_addr guest_port : Z)
| SlirpRemoveHostfwd (is_udp host_addr host_port : Z).

(** What a call answers: the return value, [errno], bytes and integers
    written to output parameters. *)
Record answer := Ans { ret : Z; errno : Z; out : bytes; outz : list Z }.

Definition event : Type := call * answer.
Definition history := list event.

Class Env := env : history -> call -> answer.

(** ** Programs *)

Inductive outcome (A : Type) :=
| Done (a : A)
| Exited (status : Z)
| Undefined
| OutOfFuel.
Arguments Done {A}.
Arguments Exited {A}.
Arguments Undefined {A}.
Arguments OutOfFuel {A}.

Definition M (A : Type) : Type := history -> list event * outcome A.

#[global] Instance M_ret : MRet M := fun A a _ => ([], Done a).

#[global] Instance M_bind : MBind M := fun A B k m h =>
  match m h with
  | (d, Done a) => let '(d', o) := k a (h ++ d) in (d ++ d', o)
  | (d, Exited s) => (d, Exited s)
  | (d, Undefined) => (d, Undefined)
  | (d, OutOfFuel) => (d, OutOfFuel)
  end.

Definition exit_ {A} (status : Z) : M A := fun _ => ([], Exited status).
Definition undefined {A} : M A := fun _ => ([], Undefined).
Definition out_of_fuel {A} : M A := fun _ => ([], OutOfFuel).

(** A step that is undefined when there is no value. *)
Definition lift_opt {A} (o : option A) : M A :=
  match o with Some a => mret a | None => undefined end.

Section programs.
Context `{E : Env}.

(** One call. *)
Definition sys (c : call) : M answer := fun h => ([(c, env h c)], Done (env h c)).

(** The common uses: the return value, or nothing. *)
Definition sys_ret (c : call) : M Z := a ← sys c; mret (ret a).
Definition sys_ (c : call) : M unit := _ ← sys c; mret tt.

(** [do rc = call; while (rc < 0 && errno == err)] *)
Fixpoint retry (fuel : nat) (err : Z) (c : call) : M answer :=
  match fuel with
  | O => out_of_fuel
  | S fuel =>
      a ← sys c;
      if (ret a <? 0) && (errno a =? err) then retry fuel err c else mret a
  end.

(** ** Reasoning about runs

    [wp m h Q]: running [m] after the history [h] adds events and ends with an
    outcome such that [Q] holds of them. *)
Definition wp {A} (m : M A) (h : history) (Q : list event -> outcome A -> Prop) : Prop :=
  Q (m h).1 (m h).2.

Lemma wp_ret {A} (a : A) h (Q : list event -> outcome A -> Prop) :
  Q [] (Done a) -> wp (mret a) h Q.
Proof. done. Qed.

Lemma wp_sys c h (Q : list event -> outcome answer -> Prop) :
  (forall a, env h c = a -> Q [(c, a)] (Done a)) -> wp (sys c) h Q.
Proof. intros H. by apply H. Qed.

Definition bind_post {A B} (k : A -> M B) (h : history)
    (Q : list event -> outcome B -> Prop) (d : list event) (o : outcome A) : Prop :=
  match o with
  | Done a => wp (k a) (h ++ d) (fun d' o' => Q (d ++ d') o')
  | Exited s => Q d (Exited s)
  | Undefined => Q d Undefined
  | OutOfFuel => Q d OutOfFuel
  end.

Lemma wp_bind {A B} (m : M A) (k : A -> M B) h Q :
  wp m h (bind_post k h Q) <-> wp (m ≫= k) h Q.
Proof.
  unfold wp, mbind, M_bind, bind_post. destruct (m h) as [d [a|s| |]]; simpl; try done.
  unfold wp. by destruct (k a (h ++ d)) as [d' o'].
Qed.

Lemma wp_mono {A} (m : M A) h (Q Q' : list event -> outcome A -> Prop) :
  wp m h Q -> (forall d o, Q d o -> Q' d o) -> wp m h Q'.
Proof. unfold wp. auto. Qed.

Lemma wp_exit {A} s h (Q : list event -> outcome A -> Prop) : Q [] (Exited s) -> wp (exit_ s) h Q.
Proof. done. Qed.

Lemma wp_undefined {A} h (Q : list event -> outcome A -> Prop) : Q [] Undefined -> wp undefined h Q.
Proof. done. Qed.

Lemma lift_opt_Some {A} (o : option A) a h (Q : list event -> outcome A -> Prop) :
  o = Some a -> Q [] (Done a) -> wp (lift_opt o) h Q.
Proof. by intros ->. Qed.

Lemma wp_bind_opt {A B} (o : option A) a (k : A -> M B) h Q :
  o = Some a -> wp (k a) h Q -> wp (lift_opt o ≫= k) h Q.
Proof.
  intros -> H. apply wp_bind, wp_ret. cbn [bind_post]. rewrite app_nil_r. exact H.
Qed.

Lemma wp_nop {B} (k : unit -> M B) h Q : wp (k tt) h Q -> wp (mret tt ≫= k) h Q.
Proof. intros H. apply wp_bind, wp_ret. cbn [bind_post]. rewrite app_nil_r. exact H. Qed.

Lemma wp_bind_sys {B} c (k : answer -> M B) h Q :
  (forall a, env h c = a -> wp (k a) (h ++ [(c, a)]) (fun d o => Q ((c, a) :: d) o)) ->
  wp (sys c ≫= k) h Q.
Proof. intros H. apply wp_bind, wp_sys. intros a Ha. simpl. by apply H. Qed.

Lemma wp_bind_sys_ret {B} c (k : Z -> M B) h Q :
  (forall a, env h c = a -> wp (k (ret a)) (h ++ [(c, a)]) (fun d o => Q ((c, a) :: d) o)) ->
  wp (sys_ret c ≫= k) h Q.
Proof.
  intros H. apply wp_bind. unfold sys_ret. apply wp_bind_sys. intros a Ha.
  apply wp_ret. simpl. by apply H.
Qed.

Lemma wp_bind_sys_ {B} c (k : unit -> M B) h Q :
  (forall a, env h c = a -> wp (k tt) (h ++ [(c, a)]) (fun d o => Q ((c, a) :: d) o)) ->
  wp (sys_ c ≫= k) h Q.
Proof.
  intros H. apply wp_bind. unfold sys_. apply wp_bind_sys. intros a Ha.
  apply wp_ret. simpl. by apply H.
Qed.
End programs.

#[global] Arguments wp {A} m h Q : simpl never.

(** One step of symbolic execution: the next call is answered by a fresh
    answer [a] (with the equation [Ha] that says where it comes from), or the
    program returns. *)
Ltac wp_step :=
  lazymatch goal with
  | |- wp (sys _ ≫= _) _ _ => apply wp_bind_sys; let a := fresh "a" in let Ha := fresh "Ha" in intros a Ha
  | |- wp (sys_ret _ ≫= _) _ _ => apply wp_bind_sys_ret; let a := fresh "a" in let Ha := fresh "Ha" in intros a Ha
  | |- wp (sys_ _ ≫= _) _ _ => apply wp_bind_sys_; let a := fresh "a" in let Ha := fresh "Ha" in intros a Ha
  | |- wp (mret _) _ _ => apply wp_ret
  | |- wp (exit_ _) _ _ => apply wp_exit
  | |- wp undefined _ _ => apply wp_undefined
  | |- wp (if ?b then _ else _) _ _ => let Hb := fresh "Hb" in destruct b eqn:Hb
  end.

(** ** Traces

    [calls_of d]: the calls of a trace. *)
Definition calls_of (d : list event) : list call := map fst d.

(** The descriptors a call creates. *)
Definition opened (e : event) : list Z :=
  match e.1 with
  | Open _ _ | Creat _ _ | Socket _ _ _ | Accept _ => if 0 <=? ret e.2 then [ret e.2] else []
  | Recvmsg _ _ =>
      (* the type of the control message (SCM_RIGHTS is 1) and the descriptor *)
      match outz e.2 with 1 :: fd :: _ => if 0 <? ret e.2 then [fd] else [] | _ => [] end
  | Socketpair _ _ _ => if 0 <=? ret e.2 then outz e.2 else []
  | _ => []
  end.

Definition closed (e : event) : list Z :=
  match e.1 with Close fd => [fd] | _ => [] end.

(** ** Fail-stop sequences

    Many functions of the program make calls one after the other and return
    the value of the first call that fails.  [runs s d r] says that the events
    [d] are a run of the sequence [s]: each call of [s] in order, each with an
    answer its step goes on with, up to the end (then [r] is 0) or up to the
    first answer that stops the sequence (then [r] is the value that call
    returned). *)
Record step := Step { step_call : call; goes_on : answer -> Prop; stops : answer -> Prop }.

Inductive runs : list step -> list event -> Z -> Prop :=
| runs_done : runs [] [] 0
| runs_go s a l d r : goes_on s a -> runs l d r -> runs (s :: l) ((step_call s, a) :: d) r
| runs_stop s a l : stops s a -> runs (s :: l) [(step_call s, a)] (ret a).

(** A call that has to succeed, one whose answer does not matter, one that may
    also fail with [err], one that must fail with [err], and one that answers
    [a]. *)
Definition must (c : call) : step := Step c (fun a => 0 <= ret a) (fun a => ret a < 0).
Definition ignored (c : call) : step := Step c (fun _ => True) (fun _ => False).
Definition tolerant (c : call) (err : Z) : step :=
  Step c (fun a => 0 <= ret a \/ errno a = err) (fun a => ret a < 0 /\ errno a <> err).
Definition unless (c : call) (err : Z) : step :=
  Step c (fun a => 0 <= ret a) (fun a => ret a < 0 /\ errno a <> err).
Definition refused (c : call) (err : Z) : step :=
  Step c (fun a => ret a < 0 /\ errno a = err) (fun _ => False).
Definition answers (c : call) (a : answer) : step := Step c (fun a' => a' = a) (fun _ => False).

(** A step whose answer stops it has a negative answer. *)
Definition proper_step (s : step) : Prop := forall a, stops s a -> ret a < 0.

Lemma must_proper c : proper_step (must c).
Proof. by intros a. Qed.
Lemma ignored_proper c : proper_step (ignored c).
Proof. by intros a. Qed.
Lemma tolerant_proper c e : proper_step (tolerant c e).
Proof. by intros a [H _]. Qed.
Lemma unless_proper c e : proper_step (unless c e).
Proof. by intros a [H _]. Qed.
Lemma refused_proper c e : proper_step (refused c e).
Proof. by intros a. Qed.
Lemma answers_proper c a : proper_step (answers c a).
Proof. by intros a'. Qed.

Create HintDb steps.
#[export] Hint Resolve must_proper ignored_proper tolerant_proper unless_proper refused_proper
  answers_proper : steps.

(** A run ends with 0 or a negative value; with 0 it made all the calls. *)
Lemma runs_result l d r : Forall proper_step l -> runs l d r -> r <= 0.
Proof.
  intros Hl Hr. induction Hr as [|s a l d r Hg Hr IH|s a l Hs]; [done| |].
  - apply IH. by apply Forall_cons in Hl as [_ ?].
  - apply Forall_cons in Hl as [Hp _]. apply Hp in Hs. lia.
Qed.

Lemma runs_complete l d : Forall proper_step l -> runs l d 0 -> calls_of d = map step_call l.
Proof.
  intros Hl Hr. remember 0 as r eqn:E. induction Hr as [|s a l d r Hg Hr IH|s a l Hs]; [done| |].
  - simpl. f_equal. apply IH; [|done]. by apply Forall_cons in Hl as [_ ?].
  - apply Forall_cons in Hl as [Hp _]. apply Hp in Hs. lia.
Qed.

(** Whatever its result, a run made a prefix of the calls. *)
Lemma runs_prefix l d r : runs l d r -> calls_of d `prefix_of` map step_call l.
Proof.
  induction 1 as [|s a l d r Hg Hr IH|s a l Hs]; simpl.
  - done.
  - by apply prefix_cons.
  - apply prefix_cons, prefix_nil.
Qed.

Lemma runs_app l1 l2 d1 d2 r : runs l1 d1 0 -> Forall proper_step l1 -> runs l2 d2 r -> runs (l1 ++ l2) (d1 ++ d2) r.
Proof.
  intros H1 Hp H2. remember 0 as z eqn:E. induction H1 as [|s a l d z Hg Hr IH|s a l Hs]; [done| |].
  - simpl. apply Forall_cons in Hp as [_ Hp]. constructor; auto.
  - apply Forall_cons in Hp as [Hp _]. apply Hp in Hs. lia.
Qed.

Lemma runs_app_stop l1 l2 d r : runs l1 d r -> r <> 0 -> runs (l1 ++ l2) d r.
Proof.
  induction 1 as [|s a l d r Hg Hr IH|s a l Hs]; intros Hr0; simpl; [done| |].
  - constructor; auto.
  - by constructor.
Qed.

(** An event of a complete run is the event of a step that went on. *)
Lemma runs_event l d c a :
  Forall proper_step l -> runs l d 0 -> (c, a) ∈ d -> exists s, s ∈ l /\ step_call s = c /\ goes_on s a.
Proof.
  intros Hl Hr. remember 0 as r eqn:E. induction Hr as [|s b l d r Hg Hr IH|s b l Hs].
  - by intros ?%elem_of_nil.
  - apply Forall_cons in Hl as [_ Hl]. intros [[= -> ->]|Hin]%elem_of_cons.
    + exists s. by split; [left|].
    + destruct (IH Hl E Hin) as (s' & ? & ?). exists s'. by split; [right|].
  - apply Forall_cons in Hl as [Hp _]. apply Hp in Hs. lia.
Qed.

(** Every step of a complete run left its event. *)
Lemma runs_step l d s :
  Forall proper_step l -> runs l d 0 -> s ∈ l -> exists a, (step_call s, a) ∈ d /\ goes_on s a.
Proof.
  intros Hl Hr. remember 0 as r eqn:E. induction Hr as [|s' b l d r Hg Hr IH|s' b l Hs].
  - by intros ?%elem_of_nil.
  - apply Forall_cons in Hl as [_ Hl]. intros [->|Hin]%elem_of_cons.
    + exists b. by split; [left|].
    + destruct (IH Hl E Hin) as (a & ? & ?). exists a. by split; [right|].
  - apply Forall_cons in Hl as [Hp _]. apply Hp in Hs. lia.
Qed.

Lemma runs_split l1 l2 d :
  Forall proper_step l1 -> runs (l1 ++ l2) d 0 -> exists d1 d2, d = d1 ++ d2 /\ runs l1 d1 0 /\ runs l2 d2 0.
Proof.
  revert d. induction l1 as [|s l1 IH]; intros d Hl Hr; simpl in *.
  - exists [], d. by split_and!; [|constructor|].
  - apply Forall_cons in Hl as [Hp Hl]. inversion Hr as [|? a ? d' ? Hg Hr'|? a ? Hs Heq]; subst.
    + destruct (IH d' Hl Hr') as (d1 & d2 & -> & H1 & H2). exists ((step_call s, a) :: d1), d2.
      by split_and!; [|constructor|].
    + apply Hp in Hs. lia.
Qed.

(** The program of a fail-stop sequence: [returns l] is the postcondition. *)
Definition returns {A} (P : list event -> A -> Prop) (d : list event) (o : outcome A) : Prop :=
  match o with Done a => P d a | _ => False end.

Section sequences.
Context `{E : Env}.

(** [ret = call; if (ret < 0) return ret;] *)
Definition checked (c : call) (k : M Z) : M Z :=
  ret ← sys_ret c; if ret <? 0 then mret ret else k.

Lemma wp_checked c k h (P : list event -> Z -> Prop) :
  (forall a, ret a < 0 -> P [(c, a)] (ret a)) ->
  (forall a, 0 <= ret a -> wp k (h ++ [(c, a)]) (returns (fun d r => P ((c, a) :: d) r))) ->
  wp (checked c k) h (returns P).
Proof.
  intros H1 H2. unfold checked. apply wp_bind_sys_ret. intros a Ha.
  destruct (Z.ltb_spec (ret a) 0).
  - apply wp_ret. by apply H1.
  - eapply wp_mono; [by apply H2|]. done.
Qed.

Lemma wp_checked_runs c k h l :
  (forall h', wp k h' (returns (runs l))) -> wp (checked c k) h (returns (runs (must c :: l))).
Proof.
  intros H. apply wp_checked.
  - intros a Ha. by apply (runs_stop (must c)).
  - intros a Ha. eapply wp_mono; [apply H|]. intros d [r| | |] Hr; simpl in *; try done.
    by apply (runs_go (must c)).
Qed.

(** [ret = f(); if (ret < 0) return ret;] *)
Definition checked_call (m k : M Z) : M Z := ret ← m; if ret <? 0 then mret ret else k.

Lemma wp_checked_call m k h (P Q : list event -> Z -> Prop) :
  wp m h (returns P) ->
  (forall d r, P d r -> r < 0 -> Q d r) ->
  (forall d r, P d r -> 0 <= r -> wp k (h ++ d) (returns (fun d' r' => Q (d ++ d') r'))) ->
  wp (checked_call m k) h (returns Q).
Proof.
  intros Hm H1 H2. unfold checked_call. apply wp_bind. eapply wp_mono; [exact Hm|].
  intros d [r| | |] Hr; simpl in *; try done. destruct (Z.ltb_spec r 0).
  - apply wp_ret. simpl. rewrite app_nil_r. auto.
  - eapply wp_mono; [by eapply H2|]. intros d' [r'| | |]; simpl; auto.
Qed.

(** The run of some sequence of the family [S]. *)
Definition follows (S : list step -> Prop) : list event -> outcome Z -> Prop :=
  returns (fun d r => exists l, S l /\ runs l d r).

Lemma wp_checked_follows c k h (S : list step -> Prop) :
  (exists l, S (must c :: l)) ->
  (forall h', wp k h' (follows (fun l => S (must c :: l)))) -> wp (checked c k) h (follows S).
Proof.
  intros [l0 H0] H. apply wp_checked.
  - intros a Ha. exists (must c :: l0). split; [done|]. by apply (runs_stop (must c)).
  - intros a Ha. eapply wp_mono; [apply H|]. intros d [r| | |] Hr; simpl in *; try done.
    destruct Hr as (l & Hl & Hr). eexists. split; [exact Hl|]. by apply (runs_go (must c)).
Qed.

Lemma wp_ignored_follows c k h (S : list step -> Prop) :
  (forall h', wp k h' (follows (fun l => S (ignored c :: l)))) -> wp (_ ← sys_ c; k) h (follows S).
Proof.
  intros H. apply wp_bind_sys_. intros a Ha. eapply wp_mono; [apply H|].
  intros d [r| | |] Hr; simpl in *; try done. destruct Hr as (l & Hl & Hr).
  eexists. split; [exact Hl|]. by apply (runs_go (ignored c)).
Qed.

Lemma wp_call_follows m k h (S1 S : list step -> Prop) :
  wp m h (follows S1) -> (forall l, S1 l -> Forall proper_step l) ->
  (forall l1, S1 l1 -> exists l2, S (l1 ++ l2)) ->
  (forall l1 h', S1 l1 -> wp k h' (follows (fun l2 => S (l1 ++ l2)))) ->
  wp (checked_call m k) h (follows S).
Proof.
  intros Hm Hp H0 Hk. eapply wp_checked_call; [exact Hm| |].
  - intros d r (l1 & Hl1 & Hr) Hneg. destruct (H0 l1 Hl1) as [l2 Hl2]. exists (l1 ++ l2). split; [done|].
    apply runs_app_stop; [done|lia].
  - intros d r (l1 & Hl1 & Hr) Hpos. eapply wp_mono; [by apply (Hk l1)|].
    intros d' [r'| | |] Hr'; simpl in *; try done. destruct Hr' as (l2 & Hl2 & Hr').
    exists (l1 ++ l2). split; [done|]. pose proof (runs_result _ _ _ (Hp l1 Hl1) Hr).
    replace r with 0 in Hr by lia. apply runs_app; auto.
Qed.

Lemma wp_done_follows h (S : list step -> Prop) : S [] -> wp (mret 0) h (follows S).
Proof. intros H. apply wp_ret. exists []. by split; [|constructor]. Qed.
End sequences.

(** ** Programs that emit only certain events *)

Definition emits {A} (P : event -> Prop) (m : M A) : Prop := forall h, Forall P (m h).1.

Section emits.
Context `{E : Env} (P : event -> Prop).

Lemma emits_ret {A} (a : A) : emits P (mret a).
Proof. intros h. constructor. Qed.
Lemma emits_exit {A} s : emits P (exit_ (A := A) s).
Proof. intros h. constructor. Qed.
Lemma emits_undefined {A} : emits P (undefined (A := A)).
Proof. intros h. constructor. Qed.
Lemma emits_out_of_fuel {A} : emits P (out_of_fuel (A := A)).
Proof. intros h. constructor. Qed.

Lemma emits_bind {A B} (m : M A) (k : A -> M B) : emits P m -> (forall a, emits P (k a)) -> emits P (m ≫= k).
Proof.
  intros Hm Hk h. specialize (Hm h). unfold mbind, M_bind. destruct (m h) as [d [a|s| |]]; simpl in *; try done.
  specialize (Hk a (h ++ d)). destruct (k a (h ++ d)) as [d' o]. simpl in *. by apply Forall_app.
Qed.

Lemma emits_sys c : (forall h, P (c, env h c)) -> emits P (sys c).
Proof. intros H h. constructor; [apply H|constructor]. Qed.
Lemma emits_sys_ret c : (forall h, P (c, env h c)) -> emits P (sys_ret c).
Proof. intros H. apply emits_bind; [by apply emits_sys|]. intros a. apply emits_ret. Qed.
Lemma emits_sys_ c : (forall h, P (c, env h c)) -> emits P (sys_ c).
Proof. intros H. apply emits_bind; [by apply emits_sys|]. intros a. apply emits_ret. Qed.

Lemma emits_lift {A} (o : option A) : emits P (lift_opt o).
Proof. destruct o; intros h; constructor. Qed.

Lemma emits_retry n err c : (forall h, P (c, env h c)) -> emits P (retry n err c).
Proof.
  intros H. induction n as [|n IH]; cbn [retry]; [apply emits_out_of_fuel|].
  apply emits_bind; [by apply emits_sys|]. intros a. case_match; [done|apply emits_ret].
Qed.

(** What a program emits may be added to its postcondition. *)
Lemma wp_emits {A} (m : M A) h Q : emits P m -> wp m h Q -> wp m h (fun d o => Forall P d /\ Q d o).
Proof. intros Hm Hq. split; [apply Hm|exact Hq]. Qed.
End emits.

Lemma emits_mono {A} (P P' : event -> Prop) (m : M A) : emits P m -> (forall e, P e -> P' e) -> emits P' m.
Proof. intros Hm HP h. eapply Forall_impl; [apply Hm|exact HP]. Qed.

(** The event is a call with an answer of the environment. *)
Definition from_env `{E : Env} (e : event) : Prop := exists h, e.2 = env h e.1.

(** Follows the structure of a program; the calls are left. *)
Ltac emits_step :=
  lazymatch goal with
  | |- emits _ (mret _) => apply emits_ret
  | |- emits _ (exit_ _) => apply emits_exit
  | |- emits _ undefined => apply emits_undefined
  | |- emits _ out_of_fuel => apply emits_out_of_fuel
  | |- emits _ (sys _) => apply emits_sys; intros ?
  | |- emits _ (sys_ret _) => apply emits_sys_ret; intros ?
  | |- emits _ (sys_ _) => apply emits_sys_; intros ?
  | |- emits _ (lift_opt _) => apply emits_lift
  | |- emits _ (retry _ _ _) => apply emits_retry; intros ?
  | |- emits _ (_ ≫= _) => apply emits_bind; [|intros ?]
  | |- emits _ (let _ := _ in _) => cbv zeta
  | |- emits _ (match ?x with _ => _ end) => destruct x
  end.
