(* ===== verification/Glue.v ===== *)
(** * The glue around libslirp (slirp4netns.c, up to check_ra_timeout)

    The callbacks slirp4netns hands to libslirp ([libslirp_cb]), the timers
    behind them and the conversion of poll events.  libslirp itself is the
    parameter [Libslirp]: what a call into it does is a program that calls
    back ([cbprog]); it is an arbitrary function of the history. *)

From S2P Require Import Prelude OS.

(** ** Poll events

    The positions of the bits of [SLIRP_POLL_IN] etc. (libslirp.h) and of
    [G_IO_IN] etc. (glib.h). *)
Record poll_bits := PollBits { b_in : Z; b_out : Z; b_pri : Z; b_err : Z; b_hup : Z }.

Definition bits_list (b : poll_bits) : list Z := [b_in b; b_out b; b_pri b; b_err b; b_hup b].

(** Distinct bits of a 16-bit word. *)
Definition wf_bits (b : poll_bits) : Prop :=
  NoDup (bits_list b) /\ Forall (fun i => 0 <= i < 16) (bits_list b).

Definition flag (i : Z) : Z := Z.shiftl 1 i.

Class PollFlags := { SLIRP_POLL : poll_bits; G_IO : poll_bits }.

Definition convert (from to : poll_bits) (events : Z) : Z :=
  let ret := 0 in
  let ret := if Z.land events (flag (b_in from)) =? 0 then ret else Z.lor ret (flag (b_in to)) in
  let ret := if Z.land events (flag (b_out from)) =? 0 then ret else Z.lor ret (flag (b_out to)) in
  let ret := if Z.land events (flag (b_pri from)) =? 0 then ret else Z.lor ret (flag (b_pri to)) in
  let ret := if Z.land events (flag (b_err from)) =? 0 then ret else Z.lor ret (flag (b_err to)) in
  let ret := if Z.land events (flag (b_hup from)) =? 0 then ret else Z.lor ret (flag (b_hup to)) in
  ret.

Section poll_events.
Context `{PF : PollFlags}.

Definition libslirp_poll_to_gio (events : Z) : Z := convert SLIRP_POLL G_IO events.
Definition libslirp_gio_to_poll (events : Z) : Z := convert G_IO SLIRP_POLL events.

(** The array is shared: the new length is the length of the result; the
    index of the new entry is returned. [events] is a [gushort]. *)
Definition libslirp_add_poll (pollfds : list GPollFD) (fd events : Z) : list GPollFD * Z :=
  let pfd := Pfd fd (u16 (libslirp_poll_to_gio events)) 0 in
  let idx := Z.of_nat (length pollfds) in
  (pollfds ++ [pfd], idx).

(** [slirp_os_socket] is converted to [int]. *)
Definition libslirp_add_poll_socket (pollfds : list GPollFD) (sock events : Z) : list GPollFD * Z :=
  libslirp_add_poll pollfds (i32 sock) events.

Lemma add_poll_socket_same pollfds sock events :
  in_i32 sock -> libslirp_add_poll_socket pollfds sock events = libslirp_add_poll pollfds sock events.
Proof. intros H. unfold libslirp_add_poll_socket. by rewrite i32_small. Qed.

(** [None]: the index is out of range (undefined behaviour). *)
Definition libslirp_get_revents (pollfds : list GPollFD) (idx : Z) : option Z :=
  if idx <? 0 then None
  else libslirp_gio_to_poll ∘ pfd_revents <$> pollfds !! Z.to_nat idx.
End poll_events.

(** ** Timers *)

Record timer := Timer { t_cb : Z; t_cb_opaque : Z; expire_timer_msec : Z }.

(** [struct libslirp_data] and the timers it points to.  [timers] is the
    list of pointers, [heap] the allocated [struct timer]s, [next] the next
    address [g_malloc0] returns. *)
Record libslirp_data := Data {
  tapfd : Z;
  timers : list Z;
  heap : gmap Z timer;
  next : Z
}.

Definition libslirp_data_init (fd : Z) : libslirp_data := Data fd [] ∅ 1.

Definition set_heap (hp : gmap Z timer) (d : libslirp_data) : libslirp_data :=
  Data (tapfd d) (timers d) hp (next d).

Definition libslirp_timer_new (cb cb_opaque : Z) (d : libslirp_data) : libslirp_data * Z :=
  let t := next d in
  (Data (tapfd d) (timers d ++ [t]) (<[t := Timer cb cb_opaque (-1)]> (heap d)) (t + 1), t).

(** [g_slist_remove]: the first occurrence. *)
Fixpoint g_slist_remove (l : list Z) (x : Z) : list Z :=
  match l with
  | [] => []
  | y :: l' => if y =? x then l' else y :: g_slist_remove l' x
  end.

(** [None]: [g_free] of something that is not allocated. *)
Definition libslirp_timer_free (t : Z) (d : libslirp_data) : option libslirp_data :=
  match heap d !! t with
  | None => None
  | Some _ => Some (Data (tapfd d) (g_slist_remove (timers d) t) (delete t (heap d)) (next d))
  end.

(** [None]: the pointer is dangling. *)
Definition libslirp_timer_mod (t expire : Z) (d : libslirp_data) : option libslirp_data :=
  tm ← heap d !! t;
  Some (set_heap (<[t := Timer (t_cb tm) (t_cb_opaque tm) expire]> (heap d)) d).

(** ** Programs that call back *)

Inductive cbprog (A : Type) :=
| CbRet (a : A)
| CbSendPacket (pkt : bytes) (k : Z -> cbprog A)
| CbGuestError (msg : bytes) (k : cbprog A)
| CbClockGetNs (k : Z -> cbprog A)
| CbTimerNew (cb cb_opaque : Z) (k : Z -> cbprog A)
| CbTimerFree (t : Z) (k : cbprog A)
| CbTimerMod (t expire : Z) (k : cbprog A)
| CbRegisterPollFd (fd : Z) (k : cbprog A)
| CbUnregisterPollFd (fd : Z) (k : cbprog A)
| CbNotify (k : cbprog A)
| CbAddPoll (fd events : Z) (k : Z -> cbprog A)
| CbGetRevents (idx : Z) (k : Z -> cbprog A).
Arguments CbRet {A}.
Arguments CbSendPacket {A}.
Arguments CbGuestError {A}.
Arguments CbClockGetNs {A}.
Arguments CbTimerNew {A}.
Arguments CbTimerFree {A}.
Arguments CbTimerMod {A}.
Arguments CbRegisterPollFd {A}.
Arguments CbUnregisterPollFd {A}.
Arguments CbNotify {A}.
Arguments CbAddPoll {A}.
Arguments CbGetRevents {A}.

Class Libslirp := {
  slirp_new : history -> SlirpConfig -> cbprog Z;
  slirp_pollfds_fill : history -> Z -> cbprog Z;
  slirp_pollfds_poll : history -> bool -> cbprog unit;
  slirp_input : history -> bytes -> cbprog unit;
  timer_cb : history -> Z -> Z -> cbprog unit
}.

(** The state the callbacks share. *)
Record gstate := G { g_data : libslirp_data; g_pollfds : list GPollFD }.

Definition with_data (g : gstate) (d : libslirp_data) : gstate := G d (g_pollfds g).
Definition with_pollfds (g : gstate) (p : list GPollFD) : gstate := G (g_data g) p.

Section glue.
Context `{E : Env} `{PF : PollFlags} `{SL : Libslirp}.

Definition libslirp_send_packet (d : libslirp_data) (pkt : bytes) : M Z :=
  sys_ret (Write (tapfd d) pkt).

(** [int64_t]: a product or sum out of range is undefined. *)
Definition libslirp_clock_get_ns : M Z :=
  a ← sys ClockGettime;
  let ns := nth 0 (outz a) 0 * 1000000000 + nth 1 (outz a) 0 in
  if (- 2 ^ 63 <=? nth 0 (outz a) 0 * 1000000000) && (nth 0 (outz a) 0 * 1000000000 <? 2 ^ 63) &&
     (- 2 ^ 63 <=? ns) && (ns <? 2 ^ 63)
  then mret ns else undefined.

(** The message goes to standard error. *)
Definition libslirp_guest_error (msg : bytes) : M unit := mret tt.

(** Nothing is registered; the functions for sockets (libslirp 4.9) pass the
    socket on as a descriptor. *)
Definition libslirp_register_poll_fd (fd : Z) : M unit := mret tt.
Definition libslirp_register_poll_socket (sock : Z) : M unit := libslirp_register_poll_fd (i32 sock).
Definition libslirp_unregister_poll_fd (fd : Z) : M unit := mret tt.
Definition libslirp_unregister_poll_socket (sock : Z) : M unit := libslirp_unregister_poll_fd (i32 sock).
Definition libslirp_notify : M unit := mret tt.

(** The callbacks of [libslirp_cb] and the two functions passed with the poll
    array. *)
Fixpoint run_cb {A} (p : cbprog A) (g : gstate) : M (gstate * A) :=
  match p with
  | CbRet a => mret (g, a)
  | CbSendPacket pkt k => r ← libslirp_send_packet (g_data g) pkt; run_cb (k r) g
  | CbGuestError msg k => _ ← libslirp_guest_error msg; run_cb k g
  | CbClockGetNs k => ns ← libslirp_clock_get_ns; run_cb (k ns) g
  | CbTimerNew cb op k =>
      let '(d, t) := libslirp_timer_new cb op (g_data g) in run_cb (k t) (with_data g d)
  | CbTimerFree t k =>
      d ← lift_opt (libslirp_timer_free t (g_data g)); run_cb k (with_data g d)
  | CbTimerMod t e k =>
      d ← lift_opt (libslirp_timer_mod t e (g_data g)); run_cb k (with_data g d)
  | CbRegisterPollFd fd k => _ ← libslirp_register_poll_fd fd; run_cb k g
  | CbUnregisterPollFd fd k => _ ← libslirp_unregister_poll_fd fd; run_cb k g
  | CbNotify k => _ ← libslirp_notify; run_cb k g
  | CbAddPoll fd ev k =>
      let '(pfds, idx) := libslirp_add_poll (g_pollfds g) fd ev in
      run_cb (k idx) (with_pollfds g pfds)
  | CbGetRevents idx k =>
      r ← lift_opt (libslirp_get_revents (g_pollfds g) idx); run_cb (k r) g
  end.

(** ** The timeout of the poll *)

(** [None]: a dangling timer or an [int64_t] overflow. *)
Fixpoint ra_timeout_loop (now_msec : Z) (f : list Z) (hp : gmap Z timer) (timeout : Z) : option Z :=
  match f with
  | [] => Some timeout
  | p :: f' =>
      match hp !! p with
      | None => None
      | Some t =>
          if expire_timer_msec t =? -1 then ra_timeout_loop now_msec f' hp timeout
          else
            let diff := expire_timer_msec t - now_msec in
            if (- 2 ^ 63 <=? diff) && (diff <? 2 ^ 63) then
              let diff := if diff <? 0 then 0 else diff in
              ra_timeout_loop now_msec f' hp (if diff <? timeout then u32 diff else timeout)
            else None
      end
  end.

Definition update_ra_timeout (timeout_msec : Z) (d : libslirp_data) : M Z :=
  ns ← libslirp_clock_get_ns;
  lift_opt (ra_timeout_loop (Z.quot ns 1000000) (timers d) (heap d) timeout_msec).

(** The node after the one that holds [p]; [None]: the node is no longer in
    the list (it was freed). *)
Fixpoint next_node (l : list Z) (p : Z) : option (option Z) :=
  match l with
  | [] => None
  | x :: l' => if x =? p then Some (head l') else next_node l' p
  end.

(** A call into libslirp is an event followed by what it calls back. *)
Definition enter {A} (c : call) (p : history -> cbprog A) (g : gstate) : M (gstate * A) :=
  let body : M (gstate * A) := fun h => run_cb (p h) g h in
  _ ← sys_ c; body.

(** The body of the loop of [check_ra_timeout] for the timer [p]. *)
Definition check_ra_timer (now_msec : Z) (p : Z) (g : gstate) : M gstate :=
  t ← lift_opt (heap (g_data g) !! p);
  if expire_timer_msec t =? -1 then mret g
  else
    let diff := expire_timer_msec t - now_msec in
    if (- 2 ^ 63 <=? diff) && (diff <? 2 ^ 63) then
      if diff <=? 0 then
        d ← lift_opt (libslirp_timer_mod p (-1) (g_data g));
        r ← enter (TimerCb (t_cb t) (t_cb_opaque t))
              (fun h => timer_cb h (t_cb t) (t_cb_opaque t)) (with_data g d);
        mret r.1
      else mret g
    else undefined.

(** The loop: [f] is the current node.  The callback may change the list; the
    next node is read after it. *)
Fixpoint check_ra_loop (fuel : nat) (now_msec : Z) (f : option Z) (g : gstate) : M gstate :=
  match f with
  | None => mret g
  | Some p =>
      match fuel with
      | O => out_of_fuel
      | S fuel =>
          g ← check_ra_timer now_msec p g;
          f ← lift_opt (next_node (timers (g_data g)) p);
          check_ra_loop fuel now_msec f g
      end
  end.

Definition check_ra_timeout (fuel : nat) (g : gstate) : M gstate :=
  ns ← libslirp_clock_get_ns;
  check_ra_loop fuel (Z.quot ns 1000000) (head (timers (g_data g))) g.
End glue.

(** ** Poll events: correctness *)

Lemma testbit_flag i j : 0 <= i -> 0 <= j -> Z.testbit (flag i) j = (j =? i).
Proof.
  intros Hi Hj. unfold flag. rewrite Z.shiftl_1_l, Z.pow2_bits_eqb by lia.
  destruct (Z.eqb_spec i j), (Z.eqb_spec j i); congruence.
Qed.

Lemma land_flag_eqb e i : 0 <= i -> (Z.land e (flag i) =? 0) = negb (Z.testbit e i).
Proof.
  intros Hi. destruct (Z.testbit e i) eqn:E; simpl.
  - apply Z.eqb_neq. intros H. apply (f_equal (fun z => Z.testbit z i)) in H.
    rewrite Z.land_spec, E, testbit_flag, Z.eqb_refl, Z.bits_0 in H by lia. done.
  - apply Z.eqb_eq, Z.bits_inj'. intros j Hj.
    rewrite Z.land_spec, testbit_flag, Z.bits_0 by lia.
    destruct (Z.eqb_spec j i) as [->|]; [by rewrite E|by rewrite andb_false_r].
Qed.

Lemma testbit_if_flag (b : bool) r i j :
  0 <= i -> 0 <= j ->
  Z.testbit (if negb b then r else Z.lor r (flag i)) j = Z.testbit r j || (b && (j =? i)).
Proof.
  intros. destruct b; simpl; [by rewrite Z.lor_spec, testbit_flag|by rewrite orb_false_r].
Qed.

Lemma wf_bits_nonneg b i : wf_bits b -> i ∈ bits_list b -> 0 <= i < 16.
Proof. intros [_ H]. rewrite Forall_forall in H. apply H. Qed.

Ltac bits_nonneg :=
  match goal with
  | H : wf_bits ?b |- 0 <= ?i => apply (wf_bits_nonneg b i H); unfold bits_list; set_solver
  end.

Lemma testbit_convert from to e j :
  wf_bits from -> wf_bits to -> 0 <= j ->
  Z.testbit (convert from to e) j =
    (Z.testbit e (b_in from) && (j =? b_in to)) ||
    ((Z.testbit e (b_out from) && (j =? b_out to)) ||
     ((Z.testbit e (b_pri from) && (j =? b_pri to)) ||
      ((Z.testbit e (b_err from) && (j =? b_err to)) ||
       (Z.testbit e (b_hup from) && (j =? b_hup to))))).
Proof.
  intros Hf Ht Hj. unfold convert. rewrite !land_flag_eqb by bits_nonneg.
  rewrite !testbit_if_flag by first [done | bits_nonneg].
  rewrite Z.bits_0. simpl. by rewrite !orb_assoc.
Qed.

(** A converted word fits the [gushort] of a [GPollFD]. *)
Lemma u16_convert from to e : wf_bits from -> wf_bits to -> u16 (convert from to e) = convert from to e.
Proof.
  intros Hf Ht. apply Z.bits_inj'. intros j Hj. unfold u16.
  rewrite <-Z.land_ones, Z.land_spec, Z.testbit_ones by lia.
  destruct (Z.ltb_spec j 16) as [|Hge]; [by replace (0 <=? j) with true by lia; rewrite andb_true_r|].
  rewrite andb_false_r, testbit_convert by done. symmetry.
  assert (forall i, i ∈ bits_list to -> (j =? i) = false) as Hno.
  { intros i Hi. apply Z.eqb_neq. pose proof (wf_bits_nonneg to i Ht Hi). lia. }
  rewrite !Hno by (unfold bits_list; set_solver). by rewrite !andb_false_r.
Qed.

Lemma eqb_bool_decide (i j : Z) : (i =? j) = bool_decide (i = j).
Proof. destruct (Z.eqb_spec i j); [by rewrite bool_decide_true|by rewrite bool_decide_false]. Qed.

Lemma NoDup_eqb (a b : Z) : a <> b -> (a =? b) = false.
Proof. apply Z.eqb_neq. Qed.

(** What a converted word says about the source bits: each of the five flags
    is translated, nothing else is set. *)
Lemma convert_back from to e j :
  wf_bits from -> wf_bits to -> 0 <= j ->
  Z.testbit (convert to from (convert from to e)) j =
  Z.testbit e j && bool_decide (j ∈ bits_list from).
Proof.
  intros Hf Ht Hj. rewrite testbit_convert by done.
  assert (forall k, k ∈ bits_list to -> 0 <= k) as Hk by (intros k; apply wf_bits_nonneg, Ht).
  rewrite !testbit_convert by first [done | (apply Hk; unfold bits_list; set_solver)].
  destruct Ht as [Ht _]. unfold bits_list in *. rewrite !NoDup_cons, !not_elem_of_cons in Ht.
  destruct_and!.
  repeat match goal with
  | H : ?a <> ?b |- _ =>
      rewrite (NoDup_eqb a b H), (NoDup_eqb b a (not_eq_sym H)); clear H
  end.
  rewrite !Z.eqb_refl, !andb_false_r, !andb_true_r, !orb_false_l, !orb_false_r.
  rewrite (bool_decide_ext _ (j = b_in from \/ j = b_out from \/ j = b_pri from \/
             j = b_err from \/ j = b_hup from)) by (rewrite !elem_of_cons, elem_of_nil; tauto).
  rewrite !bool_decide_or, !andb_orb_distrib_r, <-!eqb_bool_decide.
  assert (forall k, Z.testbit e k && (j =? k) = Z.testbit e j && (j =? k)) as Hs.
  { intros k. destruct (Z.eqb_spec j k) as [->|]; [done|by rewrite !andb_false_r]. }
  by rewrite !Hs.
Qed.

Section poll_theorems.
Context `{PF : PollFlags}.

(** C37: the events libslirp asks for survive the detour through glib: the
    entry [libslirp_add_poll] appends is found at the index it returns, leaves
    the others alone, and if every event asked for happens,
    [libslirp_get_revents] reports exactly the [SLIRP_POLL_*] bits of the
    request (other bits are dropped). *)
Theorem add_poll_get_revents pollfds fd events polled :
  wf_bits SLIRP_POLL -> wf_bits G_IO ->
  let '(pollfds', idx) := libslirp_add_poll pollfds fd events in
  take (length pollfds) pollfds' = pollfds /\
  (forall e, pollfds' !! Z.to_nat idx = Some e ->
     pfd_fd e = fd /\
     (polled !! Z.to_nat idx = Some (Pfd fd (pfd_events e) (pfd_events e)) ->
      exists r, libslirp_get_revents polled idx = Some r /\
      forall j, 0 <= j ->
        Z.testbit r j = Z.testbit events j && bool_decide (j ∈ bits_list SLIRP_POLL))) /\
  is_Some (pollfds' !! Z.to_nat idx).
Proof.
  intros HS HG. simpl. rewrite Nat2Z.id, take_app_length. split_and!; [done| |].
  - intros e He. rewrite lookup_app_r, Nat.sub_diag in He by lia. injection He as <-. simpl.
    split; [done|]. intros Hp. unfold libslirp_get_revents.
    destruct (Z.ltb_spec (Z.of_nat (length pollfds)) 0); [lia|].
    rewrite Nat2Z.id, Hp. eexists. split; [done|]. intros j Hj. simpl.
    unfold libslirp_gio_to_poll, libslirp_poll_to_gio. rewrite u16_convert by done.
    by apply convert_back.
  - rewrite lookup_app_r, Nat.sub_diag by lia. by eexists.
Qed.
End poll_theorems.

Definition linux_flags : PollFlags :=
  {| SLIRP_POLL := PollBits 0 2 1 3 4; G_IO := PollBits 0 2 1 3 4 |}.

Lemma linux_flags_wf : wf_bits (PollBits 0 2 1 3 4).
Proof. split; [by apply (bool_decide_unpack _)|]. repeat constructor; done. Qed.

Lemma add_poll_get_revents_witness :
  let PF := linux_flags in
  let '(pollfds', idx) := libslirp_add_poll [Pfd 5 1 0] 7 12 in
  take 1 pollfds' = [Pfd 5 1 0] /\ is_Some (pollfds' !! Z.to_nat idx) /\
  libslirp_get_revents [Pfd 5 1 1; Pfd 7 12 12] idx = Some 12.
Proof.
  intros PF.
  destruct (add_poll_get_revents (PF := linux_flags) [Pfd 5 1 0] 7 12 [] linux_flags_wf
              linux_flags_wf) as (H1 & _ & H2).
  split_and!; [exact H1|exact H2|reflexivity].
Defined.

(** ** Timers: lemmas *)

Definition glue_inv (d : libslirp_data) : Prop :=
  NoDup (timers d) /\ (forall p, p ∈ timers d <-> is_Some (heap d !! p)) /\
  (forall p, p ∈ timers d -> p < next d).

Lemma glue_inv_init fd : glue_inv (libslirp_data_init fd).
Proof.
  split_and!; simpl; [constructor| |by intros p ?%elem_of_nil].
  intros p. rewrite elem_of_nil, lookup_empty. split; [done|by intros [? ?]].
Qed.

Lemma glue_inv_new cb op d : glue_inv d -> glue_inv (libslirp_timer_new cb op d).1.
Proof.
  intros (Hnd & Hdom & Hlt). unfold glue_inv. simpl. split_and!.
  - apply NoDup_app. split_and!; [done| |apply NoDup_singleton].
    intros p Hp ->%list_elem_of_singleton. specialize (Hlt _ Hp). lia.
  - intros p. rewrite elem_of_app, list_elem_of_singleton, lookup_insert_is_Some, Hdom.
    destruct (decide (next d = p)); intuition congruence.
  - intros p [Hp| ->%list_elem_of_singleton]%elem_of_app; [|lia]. specialize (Hlt _ Hp). lia.
Qed.

Lemma elem_of_g_slist_remove l x p :
  NoDup l -> (p ∈ g_slist_remove l x <-> p ∈ l /\ p <> x).
Proof.
  induction l as [|y l IH]; simpl.
  { intros _. rewrite elem_of_nil. naive_solver. }
  intros [Hy Hl]%NoDup_cons. destruct (Z.eqb_spec y x) as [->|Hne].
  - rewrite elem_of_cons. split; [|naive_solver]. intros Hp. split; [by right|]. by intros ->.
  - rewrite !elem_of_cons, IH by done. naive_solver.
Qed.

Lemma NoDup_g_slist_remove l x : NoDup l -> NoDup (g_slist_remove l x).
Proof.
  induction l as [|y l IH]; simpl; [done|]. intros [Hy Hl]%NoDup_cons.
  destruct (y =? x); [done|]. apply NoDup_cons. split; [|auto].
  rewrite elem_of_g_slist_remove by done. naive_solver.
Qed.

Lemma glue_inv_free t d d' : glue_inv d -> libslirp_timer_free t d = Some d' -> glue_inv d'.
Proof.
  intros (Hnd & Hdom & Hlt). unfold libslirp_timer_free.
  destruct (heap d !! t); [|done]. intros [= <-]. unfold glue_inv. simpl. split_and!.
  - by apply NoDup_g_slist_remove.
  - intros p. rewrite elem_of_g_slist_remove, Hdom, lookup_delete_is_Some by done. naive_solver.
  - intros p [Hp _]%elem_of_g_slist_remove; auto.
Qed.

Lemma glue_inv_mod t e d d' :
  glue_inv d -> libslirp_timer_mod t e d = Some d' -> glue_inv d'.
Proof.
  intros (Hnd & Hdom & Hlt). unfold libslirp_timer_mod.
  destruct (heap d !! t) eqn:Et; [|done]. intros [= <-]. unfold glue_inv. simpl.
  split_and!; [done| |done]. intros p. rewrite lookup_insert_is_Some, Hdom.
  destruct (decide (t = p)) as [->|]; [rewrite Et|]; intuition eauto.
Qed.

(** ** Programs that use the callbacks as libslirp documents

    [live]: the timers that exist; [nfds]: the length of the poll array.
    A program frees and modifies only timers it was given and did not free,
    and asks only for entries that exist. *)
Fixpoint cb_safe {A} (live : gset Z) (nfds : Z) (p : cbprog A) : Prop :=
  match p with
  | CbRet _ => True
  | CbSendPacket _ k => forall r, cb_safe live nfds (k r)
  | CbGuestError _ k => cb_safe live nfds k
  | CbClockGetNs k => forall ns, cb_safe live nfds (k ns)
  | CbTimerNew _ _ k => forall t, cb_safe ({[t]} ∪ live) nfds (k t)
  | CbTimerFree t k => t ∈ live /\ cb_safe (live ∖ {[t]}) nfds k
  | CbTimerMod t _ k => t ∈ live /\ cb_safe live nfds k
  | CbRegisterPollFd _ k => cb_safe live nfds k
  | CbUnregisterPollFd _ k => cb_safe live nfds k
  | CbNotify k => cb_safe live nfds k
  | CbAddPoll _ _ k => cb_safe live (nfds + 1) (k nfds)
  | CbGetRevents idx k => 0 <= idx < nfds /\ forall r, cb_safe live nfds (k r)
  end.

(** A timer callback that re-arms its own timer [p] at most. *)
Fixpoint rearms {A} (p : Z) (prog : cbprog A) : Prop :=
  match prog with
  | CbRet _ => True
  | CbSendPacket _ k => forall r, rearms p (k r)
  | CbGuestError _ k => rearms p k
  | CbClockGetNs k => forall ns, rearms p (k ns)
  | CbTimerMod t _ k => t = p /\ rearms p k
  | CbRegisterPollFd _ k => rearms p k
  | CbUnregisterPollFd _ k => rearms p k
  | CbNotify k => rearms p k
  | CbTimerNew _ _ _ | CbTimerFree _ _ | CbAddPoll _ _ _ | CbGetRevents _ _ => False
  end.

Definition clock_ns (a : answer) : Z := nth 0 (outz a) 0 * 1000000000 + nth 1 (outz a) 0.

(** What [clock_gettime] answers: a time since boot whose nanoseconds fit
    [int64_t] (292 years). *)
Definition clock_ok (E : Env) : Prop :=
  forall h, 0 <= nth 0 (outz (env h ClockGettime)) 0 < 2 ^ 33 /\
            0 <= nth 1 (outz (env h ClockGettime)) 0 < 1000000000.

(** The callbacks of timers that a trace shows. *)
Definition fired (d : list event) : list (Z * Z) :=
  omap (fun e => match e.1 with TimerCb cb op => Some (cb, op) | _ => None end) d.

Lemma fired_app d1 d2 : fired (d1 ++ d2) = fired d1 ++ fired d2.
Proof. apply omap_app. Qed.

(** What run_cb itself may do to the world: write packets to the TAP device
    and read the clock. *)
Definition glue_event (fd : Z) (e : event) : Prop :=
  match e.1 with Write f _ => f = fd | ClockGettime => True | _ => False end.

Lemma glue_events_fired fd d : Forall (glue_event fd) d -> fired d = [].
Proof.
  induction 1 as [|[c a] d He _ IH]; [done|]. unfold fired in *. simpl.
  unfold glue_event in He. simpl in He. by destruct c.
Qed.

Section timer_lemmas.
Context `{E : Env} `{PF : PollFlags}.
Hypothesis Hclock : clock_ok E.

Lemma wp_clock h (Q : list event -> outcome Z -> Prop) :
  (forall a, env h ClockGettime = a -> Q [(ClockGettime, a)] (Done (clock_ns a))) ->
  wp libslirp_clock_get_ns h Q.
Proof.
  intros H. unfold libslirp_clock_get_ns. apply wp_bind_sys. intros a Ha.
  destruct (Hclock h) as [H1 H2]. rewrite Ha in H1, H2.
  destruct (_ && _) eqn:Eb; [apply wp_ret; by apply H|exfalso; lia].
Qed.

(** A safe program ends, keeps the invariant, the TAP descriptor and the
    entries of the poll array, and touches the world only through the TAP
    device and the clock. *)
Definition cb_post {A} (g : gstate) (d : list event) (o : outcome (gstate * A)) : Prop :=
  exists g' a, o = Done (g', a) /\
    glue_inv (g_data g') /\ tapfd (g_data g') = tapfd (g_data g) /\
    (g_pollfds g `prefix_of` g_pollfds g') /\
    Forall (glue_event (tapfd (g_data g))) d.

Lemma cb_post_event {A} g e d (o : outcome (gstate * A)) :
  glue_event (tapfd (g_data g)) e -> cb_post g d o -> cb_post g (e :: d) o.
Proof. intros He (g' & a & -> & H). exists g', a. split_and!; try apply H; try done. constructor; [done|apply H]. Qed.

Lemma cb_post_trans {A} g g1 d (o : outcome (gstate * A)) :
  tapfd (g_data g1) = tapfd (g_data g) -> (g_pollfds g `prefix_of` g_pollfds g1) ->
  cb_post g1 d o -> cb_post g d o.
Proof.
  intros Ht Hp (g' & a & -> & ? & ? & ? & ?). exists g', a. rewrite <-Ht.
  split_and!; try done. by etrans.
Qed.

Lemma run_cb_safe {A} (p : cbprog A) g h :
  glue_inv (g_data g) ->
  cb_safe (dom (heap (g_data g))) (Z.of_nat (length (g_pollfds g))) p ->
  wp (run_cb p g) h (cb_post g).
Proof.
  revert g h.
  induction p as [a|pkt k IH|msg k IH|k IH|cb op k IH|t k IH|t e k IH|fd k IH|fd k IH|k IH
                 |fd ev k IH|idx k IH]; intros g h Hinv Hs; simpl in Hs |- *; try (apply wp_nop; by apply IH).
  - apply wp_ret. exists g, a. by split_and!.
  - apply wp_bind_sys_ret. intros r Hr. eapply wp_mono; [by apply IH|].
    intros d o Ho. by apply cb_post_event.
  - apply wp_bind, wp_clock. intros a Ha. simpl. eapply wp_mono; [by apply IH|].
    intros d o Ho. by apply cb_post_event.
  - eapply wp_mono; [apply IH|].
    + by apply (glue_inv_new cb op (g_data g)).
    + simpl. rewrite dom_insert_L. apply Hs.
    + intros d o. by apply cb_post_trans.
  - destruct Hs as [[tm Ht]%elem_of_dom Hs].
    assert (libslirp_timer_free t (g_data g) = Some (Data (tapfd (g_data g))
      (g_slist_remove (timers (g_data g)) t) (delete t (heap (g_data g))) (next (g_data g)))) as Hf
      by (unfold libslirp_timer_free; by rewrite Ht).
    apply wp_bind. eapply lift_opt_Some; [done|]. simpl. eapply wp_mono; [apply IH|].
    + by eapply glue_inv_free.
    + simpl. by rewrite dom_delete_L.
    + intros d o. by apply cb_post_trans.
  - destruct Hs as [[tm Ht]%elem_of_dom Hs].
    assert (libslirp_timer_mod t e (g_data g) = Some (set_heap
      (<[t := Timer (t_cb tm) (t_cb_opaque tm) e]> (heap (g_data g))) (g_data g))) as Hf
      by (unfold libslirp_timer_mod; by rewrite Ht).
    apply wp_bind. eapply lift_opt_Some; [done|]. simpl. eapply wp_mono; [apply IH|].
    + by eapply glue_inv_mod.
    + simpl. rewrite dom_insert_lookup_L by by eexists. done.
    + intros d o. by apply cb_post_trans.
  - eapply wp_mono; [apply IH|]; simpl; [done| |].
    + by rewrite length_app, Nat2Z.inj_add.
    + intros d o. apply cb_post_trans; simpl; [done|by eexists].
  - destruct Hs as [Hi Hs]. destruct (lookup_lt_is_Some_2 (g_pollfds g) (Z.to_nat idx)) as [e He]; [lia|].
    apply wp_bind. eapply lift_opt_Some.
    { unfold libslirp_get_revents. destruct (Z.ltb_spec idx 0); [lia|]. by rewrite He. }
    simpl. by apply IH.
Qed.
End timer_lemmas.

(** ** The timeout: lemmas *)

(** The wait a timer asks for at time [now]; [None]: it is not armed. *)
Definition timer_wait (now : Z) (t : timer) : option Z :=
  if expire_timer_msec t =? -1 then None else Some (Z.max 0 (expire_timer_msec t - now)).

(** The waits of the listed timers. *)
Definition waits (now : Z) (l : list Z) (hp : gmap Z timer) : list Z :=
  omap (fun p => t ← hp !! p; timer_wait now t) l.

Definition min_list (m : Z) (l : list Z) : Z := fold_left Z.min l m.

(** The timers exist and their distance to [now] fits [int64_t]. *)
Definition timers_ok (now : Z) (l : list Z) (hp : gmap Z timer) : Prop :=
  Forall (fun p => exists t, hp !! p = Some t /\
    (expire_timer_msec t <> -1 -> - 2 ^ 63 <= expire_timer_msec t - now < 2 ^ 63)) l.

Lemma ra_timeout_loop_min now l hp timeout :
  timers_ok now l hp -> in_u32 timeout ->
  ra_timeout_loop now l hp timeout = Some (min_list timeout (waits now l hp)).
Proof.
  intros Hok. revert timeout. induction Hok as [|p l (t & Ht & Hr) Hok IH]; intros timeout Hu; [done|].
  simpl. rewrite Ht. simpl. unfold timer_wait.
  destruct (Z.eqb_spec (expire_timer_msec t) (-1)) as [|Hne]; [by apply IH|].
  specialize (Hr Hne). destruct (_ && _) eqn:Eb; [|exfalso; lia].
  rewrite IH.
  - simpl. f_equal. f_equal. unfold u32, in_u32 in *.
    destruct (Z.ltb_spec (expire_timer_msec t - now) 0).
    all: case_match; rewrite ?Z.mod_small; lia.
  - unfold u32, in_u32 in *. case_match; [|done]. apply Z.mod_pos_bound. lia.
Qed.

Lemma min_list_le m l : min_list m l <= m /\ Forall (fun x => min_list m l <= x) l.
Proof.
  revert m. induction l as [|x l IH]; intros m; unfold min_list in *; simpl; [split; [lia|constructor]|].
  destruct (IH (Z.min m x)) as [H1 H2]. split; [lia|]. constructor; [lia|done].
Qed.

Lemma min_list_in m l : min_list m l = m \/ min_list m l ∈ l.
Proof.
  revert m. induction l as [|x l IH]; intros m; unfold min_list in *; simpl; [by left|].
  destruct (IH (Z.min m x)) as [->|H]; [|by right; right].
  destruct (Z.min_spec m x) as [[_ ->]|[_ ->]]; [by left|right; by left].
Qed.

(** ** check_ra_timeout: lemmas *)

Definition expired (now : Z) (t : timer) : bool :=
  negb (expire_timer_msec t =? -1) && (expire_timer_msec t <=? now).

(** The callbacks due at [now], in the order of the list. *)
Definition due (now : Z) (l : list Z) (hp : gmap Z timer) : list (Z * Z) :=
  omap (fun p => t ← hp !! p; if expired now t then Some (t_cb t, t_cb_opaque t) else None) l.

Lemma next_node_app pre p suf : p ∉ pre -> next_node (pre ++ p :: suf) p = Some (head suf).
Proof.
  induction pre as [|x pre IH]; simpl; [by rewrite Z.eqb_refl|].
  intros [Hx Hp]%not_elem_of_cons. destruct (Z.eqb_spec x p); [congruence|auto].
Qed.

(** [g'] differs from [g] at most in the expiry time of the timer [p]. *)
Definition only_timer (p : Z) (g g' : gstate) : Prop :=
  timers (g_data g') = timers (g_data g) /\ g_pollfds g' = g_pollfds g /\
  tapfd (g_data g') = tapfd (g_data g) /\ next (g_data g') = next (g_data g) /\
  exists t e, heap (g_data g) !! p = Some t /\
    heap (g_data g') = <[p := Timer (t_cb t) (t_cb_opaque t) e]> (heap (g_data g)).

Lemma only_timer_refl p g : is_Some (heap (g_data g) !! p) -> only_timer p g g.
Proof.
  intros [t Ht]. split_and!; try done. exists t, (expire_timer_msec t). split; [done|].
  rewrite insert_id; [done|]. by destruct t.
Qed.

Lemma only_timer_trans p g1 g2 g3 : only_timer p g1 g2 -> only_timer p g2 g3 -> only_timer p g1 g3.
Proof.
  intros (H1 & H2 & H3 & H4 & t & e & Ht & He) (K1 & K2 & K3 & K4 & t' & e' & Kt & Ke).
  split_and!; try congruence. exists t, e'. split; [done|].
  rewrite He, lookup_insert_eq in Kt. injection Kt as <-. simpl in Ke.
  by rewrite Ke, He, insert_insert_eq.
Qed.

Lemma only_timer_mod p e g d :
  libslirp_timer_mod p e (g_data g) = Some d -> only_timer p g (with_data g d).
Proof.
  unfold libslirp_timer_mod. destruct (heap (g_data g) !! p) as [t|] eqn:Et; [|done].
  intros [= <-]. split_and!; try done. exists t, e. by split.
Qed.

(** The expiry time a callback can leave a timer with that had [e0] before it:
    the one of the last [timer_mod] it makes, whatever the calls it makes
    answer, and [e0] if it makes none. *)
Fixpoint leaves_armed {A} (e0 : Z) (prog : cbprog A) (e : Z) : Prop :=
  match prog with
  | CbRet _ => e = e0
  | CbSendPacket _ k => exists r, leaves_armed e0 (k r) e
  | CbClockGetNs k => exists ns, leaves_armed e0 (k ns) e
  | CbTimerMod _ e1 k => leaves_armed e1 k e
  | CbGuestError _ k | CbRegisterPollFd _ k | CbUnregisterPollFd _ k | CbNotify k => leaves_armed e0 k e
  | CbTimerNew _ _ _ | CbTimerFree _ _ | CbAddPoll _ _ _ | CbGetRevents _ _ => False
  end.

Definition expires (p : Z) (g : gstate) (e : Z) : Prop :=
  expire_timer_msec <$> heap (g_data g) !! p = Some e.

(** In the run [d] after [h] the callback of the timer [t] was called, with the
    timer disarmed (-1) before, and [e] is the expiry time it left. *)
Definition called_disarmed `{SL : Libslirp} (h : history) (d : list event) (t : timer) (e : Z) : Prop :=
  exists d1 a d2, let ev := (TimerCb (t_cb t) (t_cb_opaque t), a) in
    d = d1 ++ ev :: d2 /\ leaves_armed (-1) (timer_cb (h ++ d1 ++ [ev]) (t_cb t) (t_cb_opaque t)) e.

Lemma called_disarmed_l `{SL : Libslirp} h d d' t e : called_disarmed h d t e -> called_disarmed h (d ++ d') t e.
Proof. intros (d1 & a & d2 & -> & H). exists d1, a, (d2 ++ d'). split; [by rewrite <-app_assoc|done]. Qed.

Lemma called_disarmed_r `{SL : Libslirp} h d0 d t e :
  called_disarmed (h ++ d0) d t e -> called_disarmed h (d0 ++ d) t e.
Proof.
  intros (d1 & a & d2 & -> & H). exists (d0 ++ d1), a, d2. split; [by rewrite <-app_assoc|]. by rewrite <-!app_assoc in *.
Qed.

Section check_lemmas.
Context `{E : Env} `{PF : PollFlags} `{SL : Libslirp}.
Hypothesis Hclock : clock_ok E.

Lemma run_cb_rearms {A} (prog : cbprog A) p t0 g h :
  heap (g_data g) !! p = Some t0 -> rearms p prog ->
  wp (run_cb prog g) h (fun d o => exists g' a, o = Done (g', a) /\ only_timer p g g' /\ fired d = [] /\
    exists e, expires p g' e /\ leaves_armed (expire_timer_msec t0) prog e).
Proof.
  revert t0 g h.
  induction prog as [a|pkt k IH|msg k IH|k IH|cb op k IH|t k IH|t e k IH|fd k IH|fd k IH|k IH
                 |fd ev k IH|idx k IH]; intros t0 g h Hp Hs; simpl in Hs |- *; try done; try (apply wp_nop; by apply IH).
  - apply wp_ret. exists g, a. split_and!; [done|apply only_timer_refl; by eexists|done|].
    exists (expire_timer_msec t0). split; [|done]. unfold expires. by rewrite Hp.
  - apply wp_bind_sys_ret. intros r Hr. eapply wp_mono; [by apply (IH (ret r) t0)|].
    intros d o (g' & a & -> & Ho & Hf & e & He & Hl). exists g', a. split_and!; try done. exists e. eauto.
  - apply wp_bind, wp_clock; [done|]. intros a Ha. simpl. eapply wp_mono; [by apply (IH (clock_ns a) t0)|].
    intros d o (g' & b & -> & Ho & Hf & e & He & Hl). exists g', b. split_and!; try done. exists e. eauto.
  - destruct Hs as [-> Hs].
    assert (libslirp_timer_mod p e (g_data g) =
      Some (set_heap (<[p := Timer (t_cb t0) (t_cb_opaque t0) e]> (heap (g_data g))) (g_data g))) as Ed
      by (unfold libslirp_timer_mod; by rewrite Hp).
    pose proof (only_timer_mod _ _ _ _ Ed) as Hm.
    apply wp_bind. eapply lift_opt_Some; [exact Ed|]. simpl.
    eapply wp_mono; [apply (IH (Timer (t_cb t0) (t_cb_opaque t0) e)); [apply lookup_insert_eq|done]|].
    intros d' o (g' & a & -> & Ho & Hf & He). exists g', a. split_and!; try done. by eapply only_timer_trans.
Qed.

Lemma wp_enter {A} c (p : history -> cbprog A) g h Q :
  (forall a, env h c = a ->
    wp (run_cb (p (h ++ [(c, a)])) g) (h ++ [(c, a)]) (fun d o => Q ((c, a) :: d) o)) ->
  wp (enter c p g) h Q.
Proof. intros H. unfold enter. apply wp_bind_sys_. intros a Ha. exact (H a Ha). Qed.

(** One timer: it is fired if it is due, and nothing else changes. *)
Lemma check_ra_timer_correct now p t g h :
  heap (g_data g) !! p = Some t ->
  (expire_timer_msec t <> -1 -> - 2 ^ 63 <= expire_timer_msec t - now < 2 ^ 63) ->
  (forall h', rearms p (timer_cb h' (t_cb t) (t_cb_opaque t))) ->
  wp (check_ra_timer now p g) h (fun d o => exists g', o = Done g' /\ only_timer p g g' /\
    (expired now t = false -> g' = g) /\
    (expired now t = true -> exists e, expires p g' e /\ called_disarmed h d t e) /\
    fired d = if expired now t then [(t_cb t, t_cb_opaque t)] else []).
Proof.
  intros Ht Hr Hcb. unfold check_ra_timer, expired.
  pose proof (only_timer_refl p g ltac:(by eexists)) as Hrefl.
  eapply wp_bind_opt; [exact Ht|].
  destruct (Z.eqb_spec (expire_timer_msec t) (-1)) as [|Hne]; simpl.
  { apply wp_ret. exists g. by split_and!. }
  specialize (Hr Hne). destruct (_ && _) eqn:Eb; [|exfalso; lia].
  destruct (Z.leb_spec (expire_timer_msec t - now) 0), (Z.leb_spec (expire_timer_msec t) now); try lia.
  2:{ apply wp_ret. exists g. by split_and!. }
  assert (libslirp_timer_mod p (-1) (g_data g) =
    Some (set_heap (<[p := Timer (t_cb t) (t_cb_opaque t) (-1)]> (heap (g_data g))) (g_data g))) as Ed
    by (unfold libslirp_timer_mod; by rewrite Ht).
  pose proof (only_timer_mod _ _ _ _ Ed) as Hm.
  eapply wp_bind_opt; [exact Ed|]. apply wp_bind, wp_enter. intros a Ha.
  eapply wp_mono; [apply (run_cb_rearms _ p (Timer (t_cb t) (t_cb_opaque t) (-1))); [apply lookup_insert_eq|apply Hcb]|].
  intros d' o (g' & [] & -> & Ho & Hf & e & He & Hl). simpl. apply wp_ret. exists g'. rewrite app_nil_r. split_and!; try done.
  - by eapply only_timer_trans.
  - intros _. exists e. split; [done|]. exists [], a, d'. split; [done|exact Hl].
  - unfold fired in *. simpl. by rewrite Hf.
Qed.

Lemma check_ra_loop_correct fuel now pre suf g h :
  timers (g_data g) = pre ++ suf -> NoDup (pre ++ suf) -> (length suf <= fuel)%nat ->
  timers_ok now suf (heap (g_data g)) ->
  (forall h' p t, heap (g_data g) !! p = Some t -> rearms p (timer_cb h' (t_cb t) (t_cb_opaque t))) ->
  wp (check_ra_loop fuel now (head suf) g) h (fun d o => exists g', o = Done g' /\
    fired d = due now suf (heap (g_data g)) /\
    timers (g_data g') = timers (g_data g) /\ g_pollfds g' = g_pollfds g /\
    forall p t, heap (g_data g) !! p = Some t ->
      exists e, heap (g_data g') !! p = Some (Timer (t_cb t) (t_cb_opaque t) e) /\
      ((p ∉ suf) \/ expired now t = false -> e = expire_timer_msec t) /\
      (p ∈ suf -> expired now t = true -> called_disarmed h d t e)).
Proof.
  revert pre suf g h. induction fuel as [|fuel IH]; intros pre suf g h Hl Hnd Hfuel Hok Hcb.
  - destruct suf; [|simpl in Hfuel; lia]. apply wp_ret. exists g. split_and!; try done.
    intros p t Ht. exists (expire_timer_msec t). split_and!; [by destruct t|done|by intros ?%elem_of_nil].
  - destruct suf as [|p suf].
    { apply wp_ret. exists g. split_and!; try done.
      intros p t Ht. exists (expire_timer_msec t). split_and!; [by destruct t|done|by intros ?%elem_of_nil]. }
    apply Forall_cons in Hok as [(t & Ht & Hr) Hok].
    assert ((p ∉ pre) /\ p ∉ suf) as [Hpre Hsuf].
    { apply NoDup_app in Hnd as (_ & Hd & [Hs _]%NoDup_cons). split; [|done].
      intros Hin. apply (Hd p Hin). by left. }
    cbn [check_ra_loop head]. apply wp_bind.
    eapply wp_mono; [apply (check_ra_timer_correct now p t); auto|].
    intros d o (g1 & -> & Hone & Hsame & Hcall & Hf). cbn [bind_post].
    destruct Hone as (H1 & H2 & _ & _ & t' & e & Ht' & He).
    rewrite Ht in Ht'. injection Ht' as <-.
    eapply wp_bind_opt; [rewrite H1, Hl; by apply next_node_app|].
    assert (forall q, q <> p -> heap (g_data g1) !! q = heap (g_data g) !! q) as Hq.
    { intros q Hne. rewrite He. by apply lookup_insert_ne. }
    eapply wp_mono; [apply (IH (pre ++ [p]))|].
    + by rewrite H1, Hl, <-app_assoc.
    + by rewrite <-app_assoc.
    + simpl in Hfuel. lia.
    + apply Forall_forall. intros q Hin. unfold timers_ok in Hok. rewrite Forall_forall in Hok.
      destruct (Hok q Hin) as (u & Hu & Hur). exists u. rewrite Hq; [done|]. by intros ->.
    + intros h' q u Hu. destruct (decide (q = p)) as [->|Hne].
      * rewrite He, lookup_insert_eq in Hu. injection Hu as <-. simpl. by eapply Hcb.
      * rewrite Hq in Hu by done. by apply Hcb.
    + intros d' o' (g' & -> & Hf' & HT & HP & Hh). exists g'. split_and!; [done| |congruence|congruence|].
      * rewrite fired_app, Hf, Hf'. unfold due. cbn [omap list_omap]. rewrite Ht. simpl.
        assert (due now suf (heap (g_data g1)) = due now suf (heap (g_data g))) as Hd.
        { apply list_omap_ext, Forall_Forall2_diag, Forall_forall. intros q Hin. rewrite Hq; [done|]. by intros ->. }
        unfold due in Hd. rewrite Hd. by destruct (expired now t).
      * intros q u Hu. destruct (decide (q = p)) as [->|Hne].
        -- rewrite Ht in Hu. injection Hu as <-. destruct (Hh p (Timer (t_cb t) (t_cb_opaque t) e)) as (e2 & Ha & Hb & _).
           { by rewrite He, lookup_insert_eq. }
           exists e2. rewrite Hb in Ha |- * by (by left). cbn [expire_timer_msec]. split_and!; [done| |].
           ++ intros [Hn|Hx]; [by destruct Hn; left|]. specialize (Hsame Hx). subst.
              rewrite He, lookup_insert_eq in Ht. by injection Ht as <-.
           ++ intros _ Hx. destruct (Hcall Hx) as (e3 & He3 & Hdis). unfold expires in He3.
              rewrite He, lookup_insert_eq in He3. injection He3 as ->. by apply called_disarmed_l.
        -- destruct (Hh q u) as (e2 & Ha & Hb & Hc); [by rewrite Hq|]. exists e2. split_and!; [done| |].
           ++ intros [Hn|Hx]; apply Hb; [left; by intros ?; apply Hn; right|by right].
           ++ intros Hin Hx. apply called_disarmed_r, Hc; [|done]. by apply elem_of_cons in Hin as [?|?].
Qed.
End check_lemmas.

Section glue_theorems.
Context `{E : Env} `{PF : PollFlags} `{SL : Libslirp}.
Hypothesis Hclock : clock_ok E.

(** C22: whatever libslirp does with the callbacks, as long as it frees and
    modifies only its own live timers and asks only for poll entries it added,
    no callback touches a dangling timer or an entry out of range: the call
    ends, the timer list stays consistent with the allocated timers, entries
    of the poll array keep their index, and the only effects are packets
    written to the TAP device and clock reads. *)
Theorem callbacks_memory_safe {A} (p : cbprog A) g h :
  glue_inv (g_data g) ->
  cb_safe (dom (heap (g_data g))) (Z.of_nat (length (g_pollfds g))) p ->
  exists d g' a, run_cb p g h = (d, Done (g', a)) /\
    glue_inv (g_data g') /\ tapfd (g_data g') = tapfd (g_data g) /\
    (g_pollfds g `prefix_of` g_pollfds g') /\
    Forall (glue_event (tapfd (g_data g))) d.
Proof.
  intros Hi Hs. destruct (run_cb_safe Hclock p g h Hi Hs) as (g' & a & Ho & H).
  exists (run_cb p g h).1, g', a. split; [|done]. rewrite <-Ho. by destruct (run_cb p g h).
Qed.

(** C24: [update_ra_timeout] lowers the poll timeout to the time until the
    first armed timer expires: the result is at most the old timeout and at
    most the wait of every armed timer (0 if it is overdue), and it is one of
    them. *)
Theorem update_ra_timeout_min timeout (d : libslirp_data) h :
  let now := Z.quot (clock_ns (env h ClockGettime)) 1000000 in
  in_u32 timeout -> timers_ok now (timers d) (heap d) ->
  exists ev r, update_ra_timeout timeout d h = (ev, Done r) /\
    r <= timeout /\
    (forall p t w, p ∈ timers d -> heap d !! p = Some t -> timer_wait now t = Some w -> r <= w) /\
    (r = timeout \/
     exists p t, p ∈ timers d /\ heap d !! p = Some t /\ timer_wait now t = Some r).
Proof.
  intros now Hu Hok. set (r := min_list timeout (waits now (timers d) (heap d))).
  assert (wp (update_ra_timeout timeout d) h (fun _ o => o = Done r)) as H.
  { apply wp_bind, wp_clock; [done|]. intros a Ha. eapply lift_opt_Some; [|done].
    rewrite <-Ha. by apply ra_timeout_loop_min. }
  exists (update_ra_timeout timeout d h).1, r. split_and!.
  - unfold wp in H. rewrite <-H. by destruct (update_ra_timeout timeout d h).
  - apply min_list_le.
  - intros p t w Hp Ht Hw. pose proof (proj2 (min_list_le timeout (waits now (timers d) (heap d)))) as Hle.
    rewrite Forall_forall in Hle. apply Hle, list_elem_of_omap. exists p. by rewrite Ht.
  - destruct (min_list_in timeout (waits now (timers d) (heap d))) as [He|Hin]; [by left|right].
    apply list_elem_of_omap in Hin as (p & Hp & Hw). exists p.
    destruct (heap d !! p) as [t|]; [|done]. by exists t.
Qed.

(** C23: [check_ra_timeout] calls the callback of exactly the timers that are
    armed and whose time has come, once each, in the order of their creation,
    and disarms each of them before its callback: afterwards it has the expiry
    time the callback set, and -1 if the callback set none.  The other timers
    keep their expiry time and no timer is lost.  This is for callbacks that
    modify no timer but their own and create and free none; as many steps as
    there are timers are enough. *)
Theorem check_ra_timeout_correct fuel g h :
  let now := Z.quot (clock_ns (env h ClockGettime)) 1000000 in
  glue_inv (g_data g) -> (length (timers (g_data g)) <= fuel)%nat ->
  timers_ok now (timers (g_data g)) (heap (g_data g)) ->
  (forall h' p t, heap (g_data g) !! p = Some t -> rearms p (timer_cb h' (t_cb t) (t_cb_opaque t))) ->
  exists d g', check_ra_timeout fuel g h = (d, Done g') /\
    fired d = due now (timers (g_data g)) (heap (g_data g)) /\
    timers (g_data g') = timers (g_data g) /\
    forall p t, heap (g_data g) !! p = Some t ->
      exists e, heap (g_data g') !! p = Some (Timer (t_cb t) (t_cb_opaque t) e) /\
      if expired now t then called_disarmed h d t e else e = expire_timer_msec t.
Proof.
  intros now (Hnd & Hdom & _) Hf Hok Hcb.
  assert (wp (check_ra_timeout fuel g) h (fun d o => exists g', o = Done g' /\
    fired d = due now (timers (g_data g)) (heap (g_data g)) /\
    timers (g_data g') = timers (g_data g) /\
    forall p t, heap (g_data g) !! p = Some t ->
      exists e, heap (g_data g') !! p = Some (Timer (t_cb t) (t_cb_opaque t) e) /\
      if expired now t then called_disarmed h d t e else e = expire_timer_msec t)) as (g' & Ho & H).
  { apply wp_bind, wp_clock; [done|]. intros a Ha. cbn [bind_post]. rewrite <-Ha.
    eapply wp_mono; [by apply (check_ra_loop_correct Hclock fuel now [])|].
    intros d o (g' & -> & H1 & H2 & _ & H3). exists g'. split_and!; try done.
    intros p t Ht. destruct (H3 p t Ht) as (e & He & Hx & Hc). exists e. split; [done|].
    destruct (expired now t); [|auto]. apply (called_disarmed_r h [_] d), Hc; [|done].
    apply Hdom. by eexists. }
  exists (check_ra_timeout fuel g h).1, g'. split; [|done]. rewrite <-Ho.
  by destruct (check_ra_timeout fuel g h).
Qed.
End glue_theorems.

(** ** Witnesses *)

(** A world whose clock shows 5 s, and a libslirp with one timer: the
    callback sends a packet and re-arms timer 1. *)
Definition demo_env : Env := fun _ c =>
  match c with ClockGettime => Ans 0 0 [] [5; 0] | _ => Ans 0 0 [] [] end.

Definition demo_slirp : Libslirp := {|
  slirp_new := fun _ _ => CbRet 1;
  slirp_pollfds_fill := fun _ t => CbAddPoll 9 1 (fun _ => CbRet t);
  slirp_pollfds_poll := fun _ _ => CbRet tt;
  slirp_input := fun _ _ => CbTimerNew 40 41 (fun t => CbTimerMod t 6000 (CbRet tt));
  timer_cb := fun _ _ _ => CbSendPacket [1] (fun _ => CbTimerMod 1 9000 (CbRet tt))
|}.

Lemma demo_clock_ok : clock_ok demo_env.
Proof. intros h. vm_compute. split; split; (discriminate || reflexivity). Qed.

Definition demo_data : libslirp_data :=
  Data 3 [1] {[ 1 := Timer 40 41 4900 ]} 2.

Lemma demo_data_inv : glue_inv demo_data.
Proof.
  split_and!; simpl; [apply NoDup_singleton| |].
  - intros p. rewrite list_elem_of_singleton, lookup_singleton_is_Some. naive_solver.
  - intros p ->%list_elem_of_singleton. lia.
Qed.

Lemma demo_timers_ok now : 0 <= now <= 5000 -> timers_ok now (timers demo_data) (heap demo_data).
Proof.
  intros Hn. repeat constructor. eexists. split; [reflexivity|]. intros _. simpl. lia.
Qed.

Lemma callbacks_memory_safe_witness :
  exists d g' a, run_cb (E := demo_env) (PF := linux_flags)
    (slirp_input (Libslirp := demo_slirp) [] [7]) (G demo_data []) [] = (d, Done (g', a)) /\
    glue_inv (g_data g').
Proof.
  destruct (callbacks_memory_safe (E := demo_env) (PF := linux_flags) demo_clock_ok
    (slirp_input (Libslirp := demo_slirp) [] [7]) (G demo_data []) [] demo_data_inv)
    as (d & g' & a & H & Hi & _).
  - simpl. intros t. set_solver.
  - exists d, g', a. by split.
Defined.

Lemma update_ra_timeout_min_witness :
  exists ev r, update_ra_timeout (E := demo_env) 4294967295 demo_data [] = (ev, Done r) /\ r <= 0.
Proof.
  destruct (update_ra_timeout_min (E := demo_env) demo_clock_ok 4294967295 demo_data [])
    as (ev & r & H & _ & Hle & _).
  - unfold in_u32. lia.
  - apply demo_timers_ok. vm_compute. split; discriminate.
  - exists ev, r. split; [done|]. by apply (Hle 1 (Timer 40 41 4900) 0); [left|..].
Defined.

Lemma check_ra_timeout_correct_witness :
  exists d g', check_ra_timeout (E := demo_env) (PF := linux_flags) (SL := demo_slirp) 1
    (G demo_data []) [] = (d, Done g') /\ fired d = [(40, 41)].
Proof.
  destruct (check_ra_timeout_correct (E := demo_env) (PF := linux_flags) (SL := demo_slirp)
    demo_clock_ok 1 (G demo_data []) []) as (d & g' & H & Hf & _).
  - exact demo_data_inv.
  - simpl. lia.
  - apply demo_timers_ok. vm_compute. split; discriminate.
  - intros h' p t Ht. simpl in Ht. apply lookup_singleton_Some in Ht as [<- <-]. simpl. auto.
  - exists d, g'. by split.
Defined.
