(* ===== verification/JsonObject.v ===== *)
(** * JSON objects: parson's hash table (vendor/parson/parson.c)

    [struct json_object_t]: an open-addressing hash table with linear probing.
    The items are kept in insertion order in [names], [values], [hashes] and
    [cell_ixs]; [cells] maps hash slots to items.  Allocations succeed; an
    access out of the bounds of an array is the result [Undef]. *)

From S2P Require Import Prelude Libc.

Definition STARTING_CAPACITY : Z := 16.
Definition OBJECT_INVALID_IX : Z := 2 ^ 64 - 1.

(** [JSON_Status] with the new object. *)
Inductive result (A : Type) := Success (a : A) | Failure | Undef.
Arguments Success {A}.
Arguments Failure {A}.
Arguments Undef {A}.

(** In [cells], [None] is [OBJECT_INVALID_IX]. The four item arrays hold the
    initialised part, [count] elements of [item_capacity]. *)
Record json_object (V : Type) := Obj {
  cells : list (option nat);
  hashes : list Z;
  names : list bytes;
  values : list V;
  cell_ixs : list Z;
  count : Z;
  item_capacity : Z;
  cell_capacity : Z
}.
Arguments Obj {V}.
Arguments cells {V}.
Arguments hashes {V}.
Arguments names {V}.
Arguments values {V}.
Arguments cell_ixs {V}.
Arguments count {V}.
Arguments item_capacity {V}.
Arguments cell_capacity {V}.

(** [unsigned long hash], [unsigned char c] *)
Fixpoint hash_loop (n : nat) (string : bytes) (hash : Z) : Z :=
  match n with
  | O => hash
  | S n =>
      let c := deref string in
      if c =? 0 then hash
      else hash_loop n (drop 1 string) (u64 (u64 (u64 (Z.shiftl hash 5) + hash) + c))
  end.

Definition hash_string (string : bytes) (n : Z) : Z := hash_loop (Z.to_nat n) string 5381.

(** [strncmp(a, b, n) == 0] *)
Fixpoint strncmp_eq (n : nat) (a b : bytes) : bool :=
  match n with
  | O => true
  | S n =>
      (deref a =? deref b) && ((deref a =? 0) || strncmp_eq n (drop 1 a) (drop 1 b))
  end.

Definition strlen (s : bytes) : Z := Z.of_nat (length s).

Section object.
Context {V : Type}.
Implicit Types o : json_object V.

Definition json_object_init (capacity : Z) : json_object V :=
  Obj (replicate (Z.to_nat capacity) None) [] [] [] [] 0 (u32 (capacity * 7 / 10)) capacity.

Definition json_object_make : json_object V := json_object_init 0.

(** The loop over [i]; [None] is an access out of bounds. *)
Fixpoint probe (n : nat) o (key : bytes) (key_len hash cell_ix i : Z) : option (Z * bool) :=
  match n with
  | O => Some (OBJECT_INVALID_IX, false)
  | S n =>
      let ix := Z.land (u64 (cell_ix + i)) (u64 (cell_capacity o - 1)) in
      cell ← cells o !! Z.to_nat ix;
      match cell with
      | None => Some (ix, false)
      | Some cell =>
          hash_to_check ← hashes o !! cell;
          if negb (hash =? hash_to_check) then probe n o key key_len hash cell_ix (i + 1)
          else
            key_to_check ← names o !! cell;
            if (strlen key_to_check =? key_len) &&
               strncmp_eq (Z.to_nat key_len) key key_to_check
            then Some (ix, true)
            else probe n o key key_len hash cell_ix (i + 1)
      end
  end.

Definition json_object_get_cell_ix o (key : bytes) (key_len hash : Z) : option (Z * bool) :=
  let cell_ix := Z.land hash (u64 (cell_capacity o - 1)) in
  probe (Z.to_nat (cell_capacity o)) o key key_len hash cell_ix 0.

(** The stores at the end of [json_object_add] and of
    [json_object_set_value]. *)
Definition put o (name : bytes) (value : V) (hash cell_ix : Z) : result (json_object V) :=
  if (count o <? item_capacity o) && (0 <=? cell_ix) && (cell_ix <? Z.of_nat (length (cells o))) then
    Success (Obj (<[Z.to_nat cell_ix := Some (Z.to_nat (count o))]> (cells o))
               (hashes o ++ [hash]) (names o ++ [name]) (values o ++ [value])
               (cell_ixs o ++ [cell_ix]) (count o + 1) (item_capacity o) (cell_capacity o))
  else Undef.

Fixpoint add_all (add : json_object V -> bytes -> V -> result (json_object V))
    (items : list (bytes * V)) o : result (json_object V) :=
  match items with
  | [] => Success o
  | (key, value) :: items' =>
      match add o key value with
      | Success o' => add_all add items' o'
      | Failure => Failure
      | Undef => Undef
      end
  end.

(** [add] is [json_object_add]; on failure the object is unchanged. *)
Definition grow_and_rehash (add : json_object V -> bytes -> V -> result (json_object V)) o
  : result (json_object V) :=
  let new_capacity := Z.max (u64 (cell_capacity o * 2)) STARTING_CAPACITY in
  add_all add (zip (names o) (values o)) (json_object_init new_capacity).

(** [json_object_add] and [json_object_grow_and_rehash] call each other;
    [depth] bounds the growths in progress. *)
Fixpoint json_object_add_depth (depth : nat) o (name : bytes) (value : V)
  : result (json_object V) :=
  let hash := hash_string name (strlen name) in
  match json_object_get_cell_ix o name (strlen name) hash with
  | None => Undef
  | Some (_, true) => Failure
  | Some (cell_ix, false) =>
      if count o <? item_capacity o then put o name value hash cell_ix
      else
        match depth with
        | O => Undef
        | S depth =>
            match grow_and_rehash (json_object_add_depth depth) o with
            | Success o' =>
                match json_object_get_cell_ix o' name (strlen name) hash with
                | None => Undef
                | Some (cell_ix, _) => put o' name value hash cell_ix
                end
            | Failure => Failure
            | Undef => Undef
            end
        end
  end.

Definition json_object_add o name value := json_object_add_depth 1 o name value.

Definition json_object_grow_and_rehash o : result (json_object V) :=
  grow_and_rehash (json_object_add_depth 0) o.

(** [None]: out of bounds; [Some None]: NULL. *)
Definition json_object_getn_value o (name : bytes) (name_len : Z) : option (option V) :=
  let hash := hash_string name name_len in
  '(cell_ix, found) ← json_object_get_cell_ix o name name_len hash;
  if (found : bool) then
    item ← cells o !! Z.to_nat cell_ix;
    item_ix ← item;
    v ← values o !! item_ix;
    Some (Some v)
  else Some None.

Definition json_object_get_value o (name : bytes) : option (option V) :=
  json_object_getn_value o name (strlen name).

(** The value replaced is freed; the new value has no parent yet. *)
Definition json_object_set_value o (name : bytes) (value : V) : result (json_object V) :=
  let hash := hash_string name (strlen name) in
  match json_object_get_cell_ix o name (strlen name) hash with
  | None => Undef
  | Some (cell_ix, true) =>
      match cells o !! Z.to_nat cell_ix with
      | Some (Some item_ix) =>
          if (item_ix <? length (values o))%nat then
            Success (Obj (cells o) (hashes o) (names o) (<[item_ix := value]> (values o))
                       (cell_ixs o) (count o) (item_capacity o) (cell_capacity o))
          else Undef
      | _ => Undef
      end
  | Some (cell_ix, false) =>
      if count o <? item_capacity o then put o name value hash cell_ix
      else
        match json_object_grow_and_rehash o with
        | Success o' =>
            match json_object_get_cell_ix o' name (strlen name) hash with
            | None => Undef
            | Some (cell_ix, _) => put o' name value hash cell_ix
            end
        | Failure => Failure
        | Undef => Undef
        end
  end.

Definition json_object_get_count o : Z := count o.

(** [None]: NULL. *)
Definition json_object_get_name o (index : Z) : option bytes :=
  if json_object_get_count o <=? index then None else names o !! Z.to_nat index.

Definition json_object_get_value_at o (index : Z) : option V :=
  if json_object_get_count o <=? index then None else values o !! Z.to_nat index.
End object.

(** ** Specification

    An object is the list of its entries in insertion order, without
    duplicate names. *)
Definition entries {V} (o : json_object V) : list (bytes * V) := zip (names o) (values o).

Fixpoint assoc {V} (k : bytes) (l : list (bytes * V)) : option V :=
  match l with
  | [] => None
  | (k', v) :: l' => if bool_decide (k = k') then Some v else assoc k l'
  end.

Fixpoint assoc_set {V} (k : bytes) (v : V) (l : list (bytes * V)) : list (bytes * V) :=
  match l with
  | [] => [(k, v)]
  | (k', v') :: l' => if bool_decide (k = k') then (k, v) :: l' else (k', v') :: assoc_set k v l'
  end.

Example object_demo :
  let add o k v := match o with Success o => json_object_add o (b2l k) v | r => r end in
  let o := foldl (fun o k => add o k (b2l k)) (Success json_object_make)
             ["a"; "b"; "c"; "d"; "e"; "f"; "g"; "h"; "i"; "j"; "k"; "l"; "m"]%string in
  match o with
  | Success o =>
      cell_capacity o = 32 /\ count o = 13 /\
      json_object_get_value o (b2l "m") = Some (Some (b2l "m")) /\
      json_object_get_value o (b2l "z") = Some None /\
      json_object_add o (b2l "c") [] = Failure
  | _ => False
  end.
Proof. vm_compute. auto. Qed.

(** ** Lemmas: keys *)

Lemma wf_cstr_cons c s : wf_cstr (c :: s) <-> is_char c /\ wf_cstr s.
Proof. apply Forall_cons. Qed.

Lemma strncmp_eq_spec n a b :
  wf_cstr a -> wf_cstr b -> strncmp_eq n a b = bool_decide (take n a = take n b).
Proof.
  revert a b. induction n as [|n IH]; intros a b Ha Hb; [done|]. cbn [strncmp_eq].
  destruct a as [|x a], b as [|y b]; cbn [deref take]; [done|..].
  - apply wf_cstr_cons in Hb as [Hy _]. unfold is_char in Hy.
    destruct (Z.eqb_spec 0 y); [lia|]. by rewrite bool_decide_false.
  - apply wf_cstr_cons in Ha as [Hx _]. unfold is_char in Hx.
    destruct (Z.eqb_spec x 0); [lia|]. by rewrite bool_decide_false.
  - apply wf_cstr_cons in Ha as [Hx Ha], Hb as [Hy Hb]. unfold is_char in Hx.
    destruct (Z.eqb_spec x 0); [lia|]. simpl. rewrite !drop_0, IH by done.
    destruct (Z.eqb_spec x y) as [->|Hne]; simpl.
    + apply bool_decide_ext. split; [by intros ->|by intros [=]].
    + rewrite bool_decide_false; [done|]. by intros [=].
Qed.

(** The comparison of [json_object_get_cell_ix]. *)
Lemma key_matches_spec key n k :
  wf_cstr key -> wf_cstr k -> 0 <= n <= strlen key ->
  (strlen k =? n) && strncmp_eq (Z.to_nat n) key k = bool_decide (take (Z.to_nat n) key = k).
Proof.
  intros Hkey Hk Hn. unfold strlen in *. rewrite strncmp_eq_spec by done.
  destruct (Z.eqb_spec (Z.of_nat (length k)) n) as [Hl|Hl]; simpl.
  - apply bool_decide_ext. by rewrite (take_ge k) by lia.
  - symmetry. apply bool_decide_eq_false. intros <-. apply Hl. rewrite length_take. lia.
Qed.

Lemma hash_loop_take n s h : wf_cstr s -> hash_loop n s h = hash_loop (length (take n s)) (take n s) h.
Proof.
  intros Hs. revert s h Hs. induction n as [|n IH]; intros s h Hs; [done|].
  destruct s as [|c s]; [done|]. apply wf_cstr_cons in Hs as [Hc Hs]. unfold is_char in Hc. simpl.
  destruct (Z.eqb_spec c 0); [lia|]. rewrite !drop_0. by apply IH.
Qed.

Definition key_hash (k : bytes) : Z := hash_string k (strlen k).

Lemma hash_string_take name n :
  wf_cstr name -> 0 <= n -> hash_string name n = key_hash (take (Z.to_nat n) name).
Proof.
  intros Hw Hn. unfold key_hash, hash_string, strlen. rewrite Nat2Z.id. by apply hash_loop_take.
Qed.

Lemma u64_range z : 0 <= u64 z < 2 ^ 64.
Proof. unfold u64. apply Z.mod_pos_bound. lia. Qed.

Lemma hash_loop_range n s h : 0 <= h < 2 ^ 64 -> 0 <= hash_loop n s h < 2 ^ 64.
Proof.
  revert s h. induction n as [|n IH]; intros s h Hh; simpl; [done|].
  case_match; [done|]. apply IH, u64_range.
Qed.

Lemma key_hash_range k : 0 <= key_hash k < 2 ^ 64.
Proof. apply hash_loop_range. lia. Qed.

(** ** Invariant *)

Section invariant.
Context {V : Type}.
Implicit Types o : json_object V.

(** The [d]-th slot of the probe sequence of a hash. *)
Definition slot o (h : Z) (d : nat) : nat := Z.to_nat ((h + Z.of_nat d) mod cell_capacity o).

Definition occupied o (ix : nat) : Prop := exists i, cells o !! ix = Some (Some i).

(** The items and the cells point to each other, and no empty slot comes
    before an item on its probe sequence. *)
Record table_ok o : Prop := {
  ok_len_hashes : length (hashes o) = length (names o);
  ok_len_values : length (values o) = length (names o);
  ok_len_ixs : length (cell_ixs o) = length (names o);
  ok_count : count o = Z.of_nat (length (names o));
  ok_cells : Z.of_nat (length (cells o)) = cell_capacity o;
  ok_wf : Forall wf_cstr (names o);
  ok_nodup : NoDup (names o);
  ok_hash : forall i k, names o !! i = Some k -> hashes o !! i = Some (key_hash k);
  ok_item : forall i ix, cell_ixs o !! i = Some ix -> 0 <= ix /\ cells o !! Z.to_nat ix = Some (Some i);
  ok_cell : forall ix i, cells o !! ix = Some (Some i) -> cell_ixs o !! i = Some (Z.of_nat ix);
  ok_path : forall i k ix, names o !! i = Some k -> cell_ixs o !! i = Some ix ->
    exists d, Z.of_nat d < cell_capacity o /\ slot o (key_hash k) d = Z.to_nat ix /\
      forall d', (d' < d)%nat -> occupied o (slot o (key_hash k) d')
}.

Record obj_inv o : Prop := {
  inv_table : table_ok o;
  inv_cap : cell_capacity o = 0 \/ exists k, 4 <= k <= 31 /\ cell_capacity o = 2 ^ k;
  inv_item_cap : item_capacity o = cell_capacity o * 7 / 10;
  inv_count : count o <= item_capacity o
}.

Lemma capacity_pos k : 4 <= k -> 16 <= 2 ^ k.
Proof. intros. change 16 with (2 ^ 4). apply Z.pow_le_mono_r; lia. Qed.

Lemma json_object_init_table c : 0 <= c -> table_ok (json_object_init (V := V) c).
Proof.
  intros Hc. split; simpl; try done.
  - rewrite length_replicate. lia.
  - by constructor.
  - intros ix i [H _]%lookup_replicate. done.
Qed.

Lemma item_capacity_u32 k : 4 <= k <= 31 -> u32 (2 ^ k * 7 / 10) = 2 ^ k * 7 / 10.
Proof.
  intros Hk. unfold u32. apply Z.mod_small. pose proof (Z.pow_le_mono_r 2 k 31).
  change (2 ^ 31) with 2147483648 in *. change (2 ^ 32) with 4294967296. dlia.
Qed.

Lemma json_object_init_inv k :
  4 <= k <= 31 -> obj_inv (json_object_init (V := V) (2 ^ k)).
Proof.
  intros Hk. pose proof (capacity_pos k). split; simpl.
  - apply json_object_init_table. lia.
  - right. by exists k.
  - by apply item_capacity_u32.
  - rewrite item_capacity_u32 by done. dlia.
Qed.

Lemma json_object_make_inv : obj_inv (json_object_make (V := V)).
Proof. split; simpl; try done; [by apply json_object_init_table|by left]. Qed.

(** The mask is the remainder by the capacity. *)
Lemma land_mask z k : 0 <= k <= 63 -> Z.land z (u64 (2 ^ k - 1)) = z mod 2 ^ k.
Proof.
  intros Hk. unfold u64. rewrite Z.mod_small.
  - rewrite Z.sub_1_r, <-Z.ones_equiv. apply Z.land_ones. lia.
  - pose proof (Z.pow_le_mono_r 2 k 63). pose proof (Z.pow_pos_nonneg 2 k). lia.
Qed.

Lemma mask_slot o h d k :
  cell_capacity o = 2 ^ k -> 0 <= k <= 31 -> 0 <= h -> Z.of_nat d < cell_capacity o ->
  Z.to_nat (Z.land (u64 (Z.land h (u64 (cell_capacity o - 1)) + Z.of_nat d)) (u64 (cell_capacity o - 1)))
  = slot o h d.
Proof.
  intros Hc Hk Hh Hd. unfold slot. rewrite Hc, !land_mask by lia. f_equal.
  pose proof (Z.pow_pos_nonneg 2 k ltac:(lia) ltac:(lia)).
  assert (0 <= h mod 2 ^ k < 2 ^ k) by (apply Z.mod_pos_bound; lia).
  assert (2 ^ k <= 2 ^ 31) by (apply Z.pow_le_mono_r; lia).
  unfold u64. rewrite (Z.mod_small (_ + _)) by lia.
  by rewrite Z.add_mod_idemp_l by lia.
Qed.

Lemma slot_lt o h d : 0 < cell_capacity o -> Z.of_nat (slot o h d) < cell_capacity o.
Proof. intros H. unfold slot. pose proof (Z.mod_pos_bound (h + Z.of_nat d) _ H). lia. Qed.
End invariant.

(** ** Lemmas: probing *)

Lemma first_such (P : nat -> Prop) `{!forall d, Decision (P d)} d :
  P d -> exists d0, (d0 <= d)%nat /\ P d0 /\ forall d', (d' < d0)%nat -> ~ P d'.
Proof.
  induction d as [d IH] using lt_wf_ind. intros HP.
  destruct (decide (Exists P (seq 0 d))) as [(d1 & Hd1%elem_of_seq & HP1)%Exists_exists|Hno].
  - destruct (IH d1 ltac:(lia) HP1) as (d0 & H0 & Hd0). exists d0. split; [lia|done].
  - exists d. split_and!; [lia|done|]. intros d' Hd' HP'. apply Hno, Exists_exists.
    exists d'. split; [apply elem_of_seq; lia|done].
Qed.

Section probing.
Context {V : Type}.
Implicit Types o : json_object V.
Variable o : json_object V.
Variable k : Z.
Hypothesis Hk : 4 <= k <= 31.
Hypothesis Hcap : cell_capacity o = 2 ^ k.
Hypothesis Hok : table_ok o.

#[local] Lemma cap_pos : 0 < cell_capacity o.
Proof. rewrite Hcap. pose proof (capacity_pos k). lia. Qed.

Variables (key : bytes) (n : Z).
Hypothesis Hkey : wf_cstr key.
Hypothesis Hn : 0 <= n <= strlen key.
Let K := take (Z.to_nat n) key.
Let h := key_hash K.

#[local] Lemma cells_slot d : is_Some (cells o !! slot o h d).
Proof.
  apply lookup_lt_is_Some. pose proof (slot_lt o h d cap_pos). pose proof (ok_cells o Hok). lia.
Qed.

#[local] Lemma cell_item ix j :
  cells o !! ix = Some (Some j) ->
  exists nm, names o !! j = Some nm /\ hashes o !! j = Some (key_hash nm) /\ wf_cstr nm.
Proof.
  intros Hc. pose proof (ok_cell o Hok _ _ Hc) as Hi. apply lookup_lt_Some in Hi.
  rewrite (ok_len_ixs o Hok) in Hi. apply lookup_lt_is_Some in Hi as [nm Hnm].
  exists nm. split_and!; [done|by apply (ok_hash o Hok)|].
  pose proof (ok_wf o Hok) as Hw. rewrite Forall_lookup in Hw. by eapply Hw.
Qed.

#[local] Lemma probe_step m d c :
  Z.of_nat d < cell_capacity o -> cells o !! slot o h d = Some c ->
  probe (S m) o key n h (Z.land h (u64 (cell_capacity o - 1))) (Z.of_nat d) =
  match c with
  | None => Some (Z.of_nat (slot o h d), false)
  | Some j =>
      if bool_decide (names o !! j = Some K) then Some (Z.of_nat (slot o h d), true)
      else probe m o key n h (Z.land h (u64 (cell_capacity o - 1))) (Z.of_nat (S d))
  end.
Proof.
  intros Hd Hc. cbn [probe].
  assert (0 <= h) as Hh by apply key_hash_range.
  pose proof (mask_slot o h d k Hcap ltac:(lia) Hh Hd) as Hm.
  set (ix := Z.land (u64 _) _) in *.
  assert (Z.of_nat (slot o h d) = ix) as Hix.
  { rewrite <-Hm. apply Z2Nat.id. unfold ix. rewrite Hcap, land_mask by lia.
    apply Z.mod_pos_bound. apply Z.pow_pos_nonneg; lia. }
  rewrite Hm, Hc. simpl. rewrite Hix. destruct c as [j|]; [|done].
  destruct (cell_item _ _ Hc) as (nm & Hnm & Hh' & Hw). rewrite Hh', Hnm. simpl.
  rewrite key_matches_spec by done. fold K.
  replace (Z.of_nat d + 1) with (Z.pos (Pos.of_succ_nat d)) by lia.
  destruct (Z.eqb_spec h (key_hash nm)) as [He|Hne]; simpl.
  - by rewrite (bool_decide_ext (K = nm) (Some nm = Some K)) by naive_solver.
  - rewrite bool_decide_false; [done|]. intros [= ->]. done.
Qed.

#[local] Lemma probe_found i ix d0 :
  names o !! i = Some K -> cell_ixs o !! i = Some ix -> Z.of_nat d0 < cell_capacity o ->
  slot o h d0 = Z.to_nat ix -> (forall d', (d' < d0)%nat -> occupied o (slot o h d')) ->
  forall m d, (d <= d0)%nat -> (d0 < d + m)%nat ->
  probe m o key n h (Z.land h (u64 (cell_capacity o - 1))) (Z.of_nat d) = Some (ix, true).
Proof.
  intros Hi Hix Hd0 Hs Hpath. induction m as [|m IH]; intros d Hd Hm; [lia|].
  destruct (ok_item o Hok _ _ Hix) as [Hnn Hc].
  destruct (decide (d = d0)) as [->|Hne].
  - rewrite (probe_step m d0 (Some i)) by (try done; by rewrite Hs).
    rewrite bool_decide_true by done. rewrite Hs. by rewrite Z2Nat.id.
  - destruct (Hpath d) as [j Hj]; [lia|]. rewrite (probe_step m d (Some j)) by (try done; lia).
    destruct (bool_decide (names o !! j = Some K)) eqn:Eb; [|apply IH; lia].
    apply bool_decide_eq_true in Eb.
    assert (j = i) as -> by (eapply NoDup_lookup; [apply (ok_nodup o Hok)|done|done]).
    pose proof (ok_cell o Hok _ _ Hj) as Hcx. rewrite Hix in Hcx. injection Hcx as ->. done.
Qed.

#[local] Lemma probe_absent d0 :
  K ∉ names o -> Z.of_nat d0 < cell_capacity o -> cells o !! slot o h d0 = Some None ->
  (forall d', (d' < d0)%nat -> occupied o (slot o h d')) ->
  forall m d, (d <= d0)%nat -> (d0 < d + m)%nat ->
  probe m o key n h (Z.land h (u64 (cell_capacity o - 1))) (Z.of_nat d)
  = Some (Z.of_nat (slot o h d0), false).
Proof.
  intros Hnot Hd0 Hemp Hpath. induction m as [|m IH]; intros d Hd Hm; [lia|].
  destruct (decide (d = d0)) as [->|Hne].
  - by rewrite (probe_step m d0 None).
  - destruct (Hpath d) as [j Hj]; [lia|]. rewrite (probe_step m d (Some j)) by (try done; lia).
    rewrite bool_decide_false; [apply IH; lia|].
    intros Hl. by apply list_elem_of_lookup_2 in Hl.
Qed.

(** The probe sequence visits every cell. *)
#[local] Lemma slot_surj ix : Z.of_nat ix < cell_capacity o ->
  exists d, Z.of_nat d < cell_capacity o /\ slot o h d = ix.
Proof.
  intros Hix. pose proof cap_pos as Hp.
  exists (Z.to_nat ((Z.of_nat ix - h) mod cell_capacity o)).
  pose proof (Z.mod_pos_bound (Z.of_nat ix - h) _ Hp).
  split; [lia|]. unfold slot. rewrite Z2Nat.id by lia. rewrite Z.add_mod_idemp_r by lia.
  replace (h + (Z.of_nat ix - h)) with (Z.of_nat ix) by lia. rewrite Z.mod_small by lia. lia.
Qed.

(** A table that is not full has an empty cell. *)
#[local] Lemma empty_cell : count o < cell_capacity o -> exists ix, cells o !! ix = Some None.
Proof.
  intros Hlt. destruct (decide (None ∈ cells o)) as [Hin|Hno].
  { by apply list_elem_of_lookup_1 in Hin. }
  exfalso.
  assert (forall ix, (ix < length (cells o))%nat -> occupied o ix) as Hocc.
  { intros ix Hix. apply lookup_lt_is_Some in Hix as [[j|] Hj]; [by exists j|].
    destruct Hno. by eapply list_elem_of_lookup_2. }
  assert (length (cells o) <= length (names o))%nat; [|pose proof (ok_cells o Hok);
    pose proof (ok_count o Hok); lia].
  rewrite <-(length_seq (length (cells o)) 0), <-(length_map Z.of_nat), <-(ok_len_ixs o Hok).
  apply NoDup_incl_length.
  - apply NoDup_ListNoDup, NoDup_fmap_2; [intros ???; lia|apply NoDup_seq].
  - intros z Hz. apply in_map_iff in Hz as (ix & <- & Hix%in_seq).
    destruct (Hocc ix) as [j Hj]; [lia|]. apply list_elem_of_In.
    eapply list_elem_of_lookup_2, (ok_cell o Hok), Hj.
Qed.

Lemma get_cell_ix_found i ix :
  names o !! i = Some K -> cell_ixs o !! i = Some ix ->
  json_object_get_cell_ix o key n h = Some (ix, true).
Proof.
  intros Hi Hix. destruct (ok_path o Hok _ _ _ Hi Hix) as (d & Hd & Hs & Hp).
  apply (probe_found i ix d Hi Hix Hd Hs Hp _ 0%nat); lia.
Qed.

Lemma get_cell_ix_absent :
  K ∉ names o -> count o < cell_capacity o ->
  exists d, Z.of_nat d < cell_capacity o /\
    json_object_get_cell_ix o key n h = Some (Z.of_nat (slot o h d), false) /\
    cells o !! slot o h d = Some None /\
    forall d', (d' < d)%nat -> occupied o (slot o h d').
Proof.
  intros Hnot Hlt. destruct (empty_cell Hlt) as [ix Hix].
  destruct (slot_surj ix) as (d1 & Hd1 & <-).
  { pose proof (ok_cells o Hok). apply lookup_lt_Some in Hix. lia. }
  destruct (first_such (fun d => cells o !! slot o h d = Some None) d1 Hix)
    as (d & Hd & He & Hfirst).
  assert (forall d', (d' < d)%nat -> occupied o (slot o h d')) as Hocc.
  { intros d' Hd'. destruct (cells_slot d') as [[j|] Hj]; [by exists j|]. by destruct (Hfirst d' Hd'). }
  exists d. split_and!; [lia| |done|done].
  apply (probe_absent d Hnot ltac:(lia) He Hocc _ 0%nat); lia.
Qed.
End probing.

(** ** Lemmas: insertion *)

Section insertion.
Context {V : Type}.
Implicit Types o : json_object V.

Definition put_at o name (value : V) (ix : nat) : json_object V :=
  Obj (<[ix := Some (Z.to_nat (count o))]> (cells o))
    (hashes o ++ [key_hash name]) (names o ++ [name]) (values o ++ [value])
    (cell_ixs o ++ [Z.of_nat ix]) (count o + 1) (item_capacity o) (cell_capacity o).

Lemma occupied_insert o ix j ix' :
  occupied o ix' -> cells o !! ix = Some None ->
  exists i, <[ix := Some j]> (cells o) !! ix' = Some (Some i).
Proof.
  intros [i Hi] He. exists i. rewrite list_lookup_insert_ne; [done|]. intros ->. congruence.
Qed.

Lemma put_at_ok o name value d :
  table_ok o -> wf_cstr name -> name ∉ names o -> Z.of_nat d < cell_capacity o ->
  cells o !! slot o (key_hash name) d = Some None ->
  (forall d', (d' < d)%nat -> occupied o (slot o (key_hash name) d')) ->
  table_ok (put_at o name value (slot o (key_hash name) d)).
Proof.
  intros Hok Hw Hnot Hd He Hp. set (ix := slot o (key_hash name) d) in *.
  pose proof (lookup_lt_Some _ _ _ He) as Hlt.
  assert (Z.to_nat (count o) = length (names o)) as Hcnt by (rewrite (ok_count o Hok); lia).
  split; unfold put_at; cbn [hashes names values cell_ixs count cells cell_capacity].
  - rewrite !length_app, (ok_len_hashes o Hok). done.
  - rewrite !length_app, (ok_len_values o Hok). done.
  - rewrite !length_app, (ok_len_ixs o Hok). done.
  - rewrite length_app, (ok_count o Hok). simpl. lia.
  - rewrite length_insert. apply (ok_cells o Hok).
  - apply Forall_app. split; [apply (ok_wf o Hok)|by constructor].
  - apply NoDup_app. split_and!; [apply (ok_nodup o Hok)| |apply NoDup_singleton].
    intros x Hx ->%list_elem_of_singleton. done.
  - intros i k [Hi|[Hge Hi]]%lookup_app_Some.
    + apply lookup_app_l_Some, (ok_hash o Hok), Hi.
    + apply list_lookup_singleton_Some in Hi as [Hi <-].
      rewrite lookup_app_r by (rewrite (ok_len_hashes o Hok); lia).
      by rewrite (ok_len_hashes o Hok), Hi.
  - intros i z [Hi|[Hge Hi]]%lookup_app_Some.
    + destruct (ok_item o Hok _ _ Hi) as [Hz Hc]. split; [done|].
      rewrite list_lookup_insert_ne; [done|]. intros E. rewrite <-E in Hc. congruence.
    + apply list_lookup_singleton_Some in Hi as [Hi <-]. split; [lia|].
      rewrite Nat2Z.id, list_lookup_insert_eq by done. rewrite (ok_len_ixs o Hok) in Hi, Hge.
      do 2 f_equal. lia.
  - intros x i Hx. destruct (decide (x = ix)) as [->|Hne].
    + rewrite list_lookup_insert_eq in Hx by done. injection Hx as <-.
      rewrite Hcnt, <-(ok_len_ixs o Hok), lookup_app_r, Nat.sub_diag by lia. done.
    + rewrite list_lookup_insert_ne in Hx by done. apply lookup_app_l_Some, (ok_cell o Hok), Hx.
  - intros i k z Hi Hz.
    assert (forall d', slot (put_at o name value ix) (key_hash k) d' = slot o (key_hash k) d') as Hslot
      by done.
    unfold put_at in Hslot. setoid_rewrite Hslot.
    apply lookup_app_Some in Hi as [Hi|[Hge Hi]].
    + rewrite lookup_app_l in Hz by (apply lookup_lt_Some in Hi; rewrite (ok_len_ixs o Hok); lia).
      destruct (ok_path o Hok _ _ _ Hi Hz) as (d1 & Hd1 & Hs1 & Hp1).
      exists d1. split_and!; [done|done|]. intros d' Hd'. by apply occupied_insert, He; auto.
    + apply list_lookup_singleton_Some in Hi as [Hi <-].
      rewrite lookup_app_r, (ok_len_ixs o Hok), Hi in Hz by (rewrite (ok_len_ixs o Hok); lia).
      injection Hz as <-. exists d. split_and!; [done|by rewrite Nat2Z.id|].
      intros d' Hd'. by apply occupied_insert, He; auto.
Qed.

Lemma inv_lt_capacity o : obj_inv o -> count o <= cell_capacity o /\
  (cell_capacity o <> 0 -> count o < cell_capacity o).
Proof.
  intros [_ Hcap Hic Hc]. destruct Hcap as [H0|(k & Hk & Hcap)]; [rewrite Hic in Hc; dlia|].
  pose proof (capacity_pos k). rewrite Hic in Hc. dlia.
Qed.

Lemma entries_put_at o name value ix :
  table_ok o -> entries (put_at o name value ix) = entries o ++ [(name, value)].
Proof.
  intros Hok. unfold entries, put_at. cbn [names values].
  rewrite zip_with_app by (by rewrite (ok_len_values o Hok)). done.
Qed.

(** An insertion when there is room. *)
Lemma put_room o name value :
  obj_inv o -> wf_cstr name -> name ∉ names o -> count o < item_capacity o ->
  exists ix o', json_object_get_cell_ix o name (strlen name) (key_hash name) = Some (ix, false) /\
    put o name value (key_hash name) ix = Success o' /\
    obj_inv o' /\ entries o' = entries o ++ [(name, value)] /\ names o' = names o ++ [name] /\
    cell_capacity o' = cell_capacity o /\ count o' = count o + 1.
Proof.
  intros Hinv Hw Hnot Hroom. destruct (inv_lt_capacity o Hinv) as [_ Hlt].
  destruct Hinv as [Hok [H0|(k & Hk & Hcap)] Hic Hc].
  { rewrite Hic in Hroom. pose proof (ok_count o Hok). dlia. }
  pose proof (capacity_pos k ltac:(lia)).
  assert (take (Z.to_nat (strlen name)) name = name) as Ht.
  { apply take_ge. unfold strlen. lia. }
  destruct (get_cell_ix_absent o k Hk Hcap Hok name (strlen name) Hw) as (d & Hd & Hg & He & Hp).
  { unfold strlen. lia. }
  { by rewrite Ht. }
  { apply Hlt. lia. }
  rewrite Ht in *. eexists _, (put_at o name value (slot o (key_hash name) d)).
  split; [exact Hg|].
  split_and!.
  - unfold put. replace (_ && _ && _) with true.
    + by rewrite Nat2Z.id.
    + symmetry. pose proof (lookup_lt_Some _ _ _ He). lia.
  - split; simpl; [by apply put_at_ok|right; by exists k|done|lia].
  - by apply entries_put_at.
  - done.
  - done.
  - done.
Qed.

Lemma add_room depth o name value :
  obj_inv o -> wf_cstr name -> name ∉ names o -> count o < item_capacity o ->
  exists o', json_object_add_depth depth o name value = Success o' /\
    obj_inv o' /\ entries o' = entries o ++ [(name, value)] /\ names o' = names o ++ [name] /\
    cell_capacity o' = cell_capacity o /\ count o' = count o + 1.
Proof.
  intros Hinv Hw Hnot Hroom.
  destruct (put_room o name value Hinv Hw Hnot Hroom) as (ix & o' & Hg & Hp & H).
  exists o'. split; [|done]. destruct depth; simpl; unfold key_hash in *; rewrite Hg, Hp;
    by destruct (Z.ltb_spec (count o) (item_capacity o)); [|lia].
Qed.

(** Re-inserting a list of items into a table that is large enough. *)
Lemma add_all_room depth items o :
  obj_inv o -> Forall wf_cstr (map fst items) -> NoDup (names o ++ map fst items) ->
  count o + Z.of_nat (length items) < item_capacity o ->
  exists o', add_all (json_object_add_depth depth) items o = Success o' /\
    obj_inv o' /\ entries o' = entries o ++ items /\ names o' = names o ++ map fst items /\
    cell_capacity o' = cell_capacity o /\ count o' = count o + Z.of_nat (length items).
Proof.
  revert o. induction items as [|[key value] items IH]; intros o Hinv Hw Hnd Hroom; simpl.
  { exists o. rewrite !app_nil_r. split_and!; try done. lia. }
  simpl in *. apply Forall_cons in Hw as [Hwk Hw].
  assert (key ∉ names o).
  { apply NoDup_app in Hnd as (_ & Hd & _). intros Hin. apply (Hd key Hin). by left. }
  destruct (add_room depth o key value) as (o1 & -> & Hi1 & He1 & Hn1 & Hc1 & Hk1); [done|done|done|lia|].
  destruct (IH o1) as (o2 & -> & Hi2 & He2 & Hn2 & Hc2 & Hk2); [done|done| | |].
  - rewrite Hn1, <-app_assoc. done.
  - rewrite (inv_item_cap o1 Hi1), Hc1, <-(inv_item_cap o Hinv), Hk1. lia.
  - exists o2. rewrite He2, He1, Hn2, Hn1, <-!app_assoc, Hc2, Hk2. split_and!; try done. lia.
Qed.

Lemma grow_spec depth o :
  obj_inv o -> count o < 2 ^ 30 -> item_capacity o <= count o ->
  exists o', grow_and_rehash (json_object_add_depth depth) o = Success o' /\
    obj_inv o' /\ entries o' = entries o /\ names o' = names o /\
    count o' = count o /\ count o' < item_capacity o'.
Proof.
  intros Hinv Hsmall Hfull. destruct Hinv as [Hok Hcap Hic Hc]. unfold grow_and_rehash, STARTING_CAPACITY.
  assert (exists k, 4 <= k <= 31 /\ Z.max (u64 (cell_capacity o * 2)) 16 = 2 ^ k /\
    count o < 2 ^ k * 7 / 10) as (k & Hk & -> & Hbig).
  { pose proof (ok_count o Hok). destruct Hcap as [H0|(k & Hk & Hcap)].
    - exists 4. rewrite H0 in *. change (0 * 7 / 10) with 0 in Hic.
      split_and!; [lia|lia|reflexivity|change (2 ^ 4 * 7 / 10) with 11; lia].
    - exists (k + 1). pose proof (capacity_pos k ltac:(lia)). rewrite Z.pow_add_r by lia.
      rewrite Hcap in *. change (2 ^ 1) with 2.
      assert (2 ^ k < 2 ^ 31) as Hlt by (rewrite Hic in Hfull; change (2 ^ 31) with (2 * 2 ^ 30); dlia).
      assert (k < 31) by (apply Z.pow_lt_mono_r_iff in Hlt; lia).
      unfold u64. rewrite Z.mod_small by lia. split_and!; [lia|lia|lia|dlia]. }
  assert (map fst (zip (names o) (values o)) = names o) as Hfst.
  { change (map fst) with (fmap (M := list) (fst (A := bytes) (B := V))). apply fst_zip.
    rewrite (ok_len_values o Hok). lia. }
  destruct (add_all_room depth (zip (names o) (values o)) (json_object_init (2 ^ k)))
    as (o' & -> & Hi' & He' & Hn' & Hc' & Hk').
  - by apply json_object_init_inv.
  - rewrite Hfst. apply (ok_wf o Hok).
  - rewrite Hfst. apply (ok_nodup o Hok).
  - simpl. rewrite item_capacity_u32 by done. rewrite length_zip_with, (ok_len_values o Hok).
    rewrite (ok_count o Hok) in Hbig. lia.
  - exists o'. rewrite Hfst in Hn'. split_and!; try done.
    + simpl in Hk'. rewrite Hk', length_zip_with, (ok_len_values o Hok), (ok_count o Hok). lia.
    + rewrite (inv_item_cap o' Hi'), Hc'. simpl in Hk' |- *.
      rewrite Hk', length_zip_with, (ok_len_values o Hok). rewrite (ok_count o Hok) in Hbig. lia.
Qed.
End insertion.

(** ** Lemmas: the operations *)

Section operations.
Context {V : Type}.
Implicit Types o : json_object V.

Lemma assoc_zip_found (ks : list bytes) (vs : list V) i K v :
  NoDup ks -> ks !! i = Some K -> vs !! i = Some v -> assoc K (zip ks vs) = Some v.
Proof.
  revert vs i. induction ks as [|k ks IH]; intros [|w vs] [|i] Hnd Hk Hv; simplify_eq/=.
  - by rewrite bool_decide_true.
  - apply NoDup_cons in Hnd as [Hnot Hnd]. rewrite bool_decide_false; [by eapply IH|].
    intros ->. apply Hnot. by eapply list_elem_of_lookup_2.
Qed.

Lemma assoc_zip_absent (ks : list bytes) (vs : list V) K : K ∉ ks -> assoc K (zip ks vs) = None.
Proof.
  revert vs. induction ks as [|k ks IH]; intros [|w vs] Hnot; simpl; try done.
  apply not_elem_of_cons in Hnot as [Hne Hnot]. rewrite bool_decide_false by done. auto.
Qed.

Lemma assoc_set_absent (ks : list bytes) (vs : list V) K v :
  K ∉ ks -> assoc_set K v (zip ks vs) = zip ks vs ++ [(K, v)].
Proof.
  revert vs. induction ks as [|k ks IH]; intros [|w vs] Hnot; simpl; try done.
  apply not_elem_of_cons in Hnot as [Hne Hnot]. rewrite bool_decide_false by done. by rewrite IH.
Qed.

Lemma assoc_set_found (ks : list bytes) (vs : list V) i K v :
  NoDup ks -> ks !! i = Some K -> (i < length vs)%nat ->
  assoc_set K v (zip ks vs) = zip ks (<[i := v]> vs).
Proof.
  revert vs i. induction ks as [|k ks IH]; intros [|w vs] [|i] Hnd Hk Hv; simplify_eq/=; try lia.
  - by rewrite bool_decide_true.
  - apply NoDup_cons in Hnd as [Hnot Hnd]. rewrite bool_decide_false.
    + f_equal. apply IH; [done|done|lia].
    + intros ->. apply Hnot. by eapply list_elem_of_lookup_2.
Qed.

(** Where a name is found. *)
Lemma get_cell_ix_spec o key n :
  obj_inv o -> wf_cstr key -> 0 <= n <= strlen key ->
  let K := take (Z.to_nat n) key in
  (exists i ix v, names o !! i = Some K /\ values o !! i = Some v /\
     cells o !! Z.to_nat ix = Some (Some i) /\
     json_object_get_cell_ix o key n (key_hash K) = Some (ix, true)) \/
  ((K ∉ names o) /\ exists ix, json_object_get_cell_ix o key n (key_hash K) = Some (ix, false)).
Proof.
  intros Hinv Hw Hn K. destruct (inv_lt_capacity o Hinv) as [_ Hlt].
  destruct Hinv as [Hok [H0|(k & Hk & Hcap)] Hic Hc].
  - right. rewrite Hic, H0 in Hc. change (0 * 7 / 10) with 0 in Hc. split.
    + pose proof (ok_count o Hok). destruct (names o); [apply not_elem_of_nil|simpl in *; lia].
    + unfold json_object_get_cell_ix. rewrite H0. by eexists.
  - destruct (decide (K ∈ names o)) as [[i Hi]%list_elem_of_lookup_1|Hnot]; [left|right].
    + assert (i < length (names o))%nat as Hil by (by eapply lookup_lt_Some).
      destruct (lookup_lt_is_Some_2 (cell_ixs o) i) as [ix Hix]; [by rewrite (ok_len_ixs o Hok)|].
      destruct (lookup_lt_is_Some_2 (values o) i) as [v Hv]; [by rewrite (ok_len_values o Hok)|].
      exists i, ix, v. split_and!; [done|done|by apply (ok_item o Hok)|].
      by eapply get_cell_ix_found.
    + split; [done|]. pose proof (capacity_pos k ltac:(lia)).
      destruct (get_cell_ix_absent o k Hk Hcap Hok key n Hw Hn Hnot) as (d & _ & Hg & _);
        [apply Hlt; lia|by eexists].
Qed.

Lemma take_strlen (name : bytes) : take (Z.to_nat (strlen name)) name = name.
Proof. apply take_ge. unfold strlen. lia. Qed.

Lemma strlen_range (name : bytes) : 0 <= strlen name <= strlen name.
Proof. unfold strlen. lia. Qed.

Lemma getn_value_spec o key n :
  obj_inv o -> wf_cstr key -> 0 <= n <= strlen key ->
  json_object_getn_value o key n = Some (assoc (take (Z.to_nat n) key) (entries o)).
Proof.
  intros Hinv Hw Hn. unfold json_object_getn_value. rewrite hash_string_take by (done || lia).
  destruct (get_cell_ix_spec o key n Hinv Hw Hn) as [(i & ix & v & Hi & Hv & Hc & ->)|[Hnot [ix ->]]].
  - simpl. rewrite Hc. simpl. rewrite Hv. simpl. f_equal. symmetry.
    eapply assoc_zip_found; [apply (ok_nodup o (inv_table o Hinv))|done|done].
  - simpl. f_equal. symmetry. by apply assoc_zip_absent.
Qed.

Lemma get_cell_ix_key o name :
  obj_inv o -> wf_cstr name ->
  (exists i ix v, names o !! i = Some name /\ values o !! i = Some v /\
     cells o !! Z.to_nat ix = Some (Some i) /\
     json_object_get_cell_ix o name (strlen name) (hash_string name (strlen name)) = Some (ix, true)) \/
  ((name ∉ names o) /\
   exists ix, json_object_get_cell_ix o name (strlen name) (hash_string name (strlen name)) = Some (ix, false)).
Proof.
  intros Hinv Hw. pose proof (get_cell_ix_spec o name (strlen name) Hinv Hw (strlen_range name)) as H.
  cbv zeta in H. rewrite take_strlen in H. exact H.
Qed.

Lemma json_object_add_eq o name value :
  json_object_add o name value =
  match json_object_get_cell_ix o name (strlen name) (key_hash name) with
  | None => Undef
  | Some (_, true) => Failure
  | Some (cell_ix, false) =>
      if count o <? item_capacity o then put o name value (key_hash name) cell_ix
      else
        match json_object_grow_and_rehash o with
        | Success o' =>
            match json_object_get_cell_ix o' name (strlen name) (key_hash name) with
            | None => Undef
            | Some (cell_ix, _) => put o' name value (key_hash name) cell_ix
            end
        | Failure => Failure
        | Undef => Undef
        end
  end.
Proof. reflexivity. Qed.

Lemma add_spec o name value :
  obj_inv o -> wf_cstr name -> count o < 2 ^ 30 ->
  (name ∈ names o -> json_object_add o name value = Failure) /\
  (name ∉ names o -> exists o', json_object_add o name value = Success o' /\ obj_inv o' /\
     entries o' = entries o ++ [(name, value)] /\ names o' = names o ++ [name] /\
     count o' = count o + 1).
Proof.
  intros Hinv Hw Hsmall.
  destruct (get_cell_ix_key o name Hinv Hw) as [(i & ix & v & Hi & Hv & Hc & Hg)|[Hnot [ix Hg]]].
  - split; [|intros []; by eapply list_elem_of_lookup_2].
    intros _. rewrite json_object_add_eq. unfold key_hash. by rewrite Hg.
  - split; [by intros ?|]. intros _.
    destruct (decide (count o < item_capacity o)) as [Hroom|Hfull].
    + destruct (add_room 1 o name value Hinv Hw Hnot Hroom) as (o' & ? & ? & ? & ? & ? & ?). eauto 10.
    + destruct (grow_spec 0 o Hinv Hsmall ltac:(lia)) as (o1 & Hgr & Hi1 & He1 & Hn1 & Hc1 & Hr1).
      destruct (put_room o1 name value Hi1 Hw ltac:(by rewrite Hn1) Hr1)
        as (ix1 & o' & Hg1 & Hp & Hi' & He' & Hn' & _ & Hc').
      exists o'. rewrite He', He1, Hn', Hn1, Hc', Hc1. split; [|done].
      rewrite json_object_add_eq, (Hg : json_object_get_cell_ix o name (strlen name) (key_hash name) = _).
      destruct (Z.ltb_spec (count o) (item_capacity o)); [lia|].
      unfold json_object_grow_and_rehash. by rewrite Hgr, Hg1, Hp.
Qed.

Lemma set_value_spec o name value :
  obj_inv o -> wf_cstr name -> count o < 2 ^ 30 ->
  exists o', json_object_set_value o name value = Success o' /\ obj_inv o' /\
    entries o' = assoc_set name value (entries o) /\ count o' <= count o + 1.
Proof.
  intros Hinv Hw Hsmall. unfold json_object_set_value.
  destruct (get_cell_ix_key o name Hinv Hw) as [(i & ix & v & Hi & Hv & Hc & Hg)|[Hnot [ix Hg]]].
  - rewrite Hg, Hc. apply lookup_lt_Some in Hv. destruct (Nat.ltb_spec i (length (values o))); [|lia].
    eexists. split; [done|]. unfold entries. simpl. split_and!; [|symmetry; apply assoc_set_found|lia].
    + destruct Hinv as [[] ? ? ?]. split; simpl; try done. split; simpl; try done.
      by rewrite length_insert.
    + apply (ok_nodup o (inv_table o Hinv)).
    + done.
    + done.
  - rewrite Hg. unfold entries at 2. rewrite assoc_set_absent by done. fold (entries o).
    destruct (Z.ltb_spec (count o) (item_capacity o)) as [Hroom|Hfull].
    + destruct (put_room o name value Hinv Hw Hnot Hroom) as (ix1 & o' & Hg1 & Hp & Hi' & He' & _ & _ & Hc').
      unfold key_hash in Hg1, Hp. rewrite Hg1 in Hg. injection Hg as ->. exists o'. split_and!; try done. lia.
    + destruct (grow_spec 0 o Hinv Hsmall ltac:(lia)) as (o1 & Hgr & Hi1 & He1 & Hn1 & Hc1 & Hr1).
      destruct (put_room o1 name value Hi1 Hw ltac:(by rewrite Hn1) Hr1)
        as (ix1 & o' & Hg1 & Hp & Hi' & He' & _ & _ & Hc').
      unfold json_object_grow_and_rehash. rewrite Hgr. unfold key_hash in Hg1, Hp. rewrite Hg1, Hp.
      exists o'. rewrite He', He1, Hc', Hc1. by split_and!.
Qed.
End operations.
