(* ===== verification/JsonRemove.v ===== *)
(** * JSON objects: removal (vendor/parson/parson.c)

    Removing a name moves the last item into its place and then closes the gap
    in the probe sequences: cells behind it are shifted back until an empty
    one is met.  The theorem at the end is on all operations of the table. *)

From S2P Require Import Prelude Libc JsonObject.

Section removal.
Context {V : Type}.
Implicit Types o : json_object V.

(** The last item takes the place of [item_ix]; [object->count--]. *)
Definition move_last o (item_ix : nat) : option (json_object V) :=
  let last_item_ix := Z.to_nat (count o - 1) in
  if (item_ix <? last_item_ix)%nat then
    name ← names o !! last_item_ix;
    value ← values o !! last_item_ix;
    cell_ix ← cell_ixs o !! last_item_ix;
    hash ← hashes o !! last_item_ix;
    if (0 <=? cell_ix) && (cell_ix <? Z.of_nat (length (cells o))) then
      Some (Obj (<[Z.to_nat cell_ix := Some item_ix]> (cells o))
              (take last_item_ix (<[item_ix := hash]> (hashes o)))
              (take last_item_ix (<[item_ix := name]> (names o)))
              (take last_item_ix (<[item_ix := value]> (values o)))
              (take last_item_ix (<[item_ix := cell_ix]> (cell_ixs o)))
              (count o - 1) (item_capacity o) (cell_capacity o))
    else None
  else
    Some (Obj (cells o) (take last_item_ix (hashes o)) (take last_item_ix (names o))
            (take last_item_ix (values o)) (take last_item_ix (cell_ixs o))
            (count o - 1) (item_capacity o) (cell_capacity o)).

(** [object->cells[i] = c] *)
Definition set_cell o (i : Z) (c : option nat) : json_object V :=
  Obj (<[Z.to_nat i := c]> (cells o)) (hashes o) (names o) (values o) (cell_ixs o)
    (count o) (item_capacity o) (cell_capacity o).

(** [object->cell_ixs[c] = i] *)
Definition set_cell_ix o (c : nat) (i : Z) : json_object V :=
  Obj (cells o) (hashes o) (names o) (values o) (<[c := i]> (cell_ixs o))
    (count o) (item_capacity o) (cell_capacity o).

(** The loop over [x], with the rounds left; the object and [i] at its end. *)
Fixpoint shift_back (x : nat) o (i j : Z) : option (json_object V * Z) :=
  match x with
  | O => Some (o, i)
  | S x =>
      let j := Z.land (u64 (j + 1)) (u64 (cell_capacity o - 1)) in
      cell ← cells o !! Z.to_nat j;
      match cell with
      | None => Some (o, i)
      | Some c =>
          hash ← hashes o !! c;
          let k := Z.land hash (u64 (cell_capacity o - 1)) in
          if (i <? j) && ((k <=? i) || (j <? k)) || (j <? i) && ((k <=? i) && (j <? k)) then
            _ ← cell_ixs o !! c;
            _ ← cells o !! Z.to_nat i;
            shift_back x (set_cell (set_cell_ix o c i) i (Some c)) j j
          else shift_back x o i j
      end
  end.

(** [free_value] decides whether the value is freed. *)
Definition json_object_remove_internal o (name : bytes) : result (json_object V) :=
  let hash := hash_string name (strlen name) in
  match json_object_get_cell_ix o name (strlen name) hash with
  | None => Undef
  | Some (_, false) => Failure
  | Some (cell, true) =>
      match cells o !! Z.to_nat cell with
      | Some (Some item_ix) =>
          match (o1 ← move_last o item_ix; shift_back (Z.to_nat (cell_capacity o1 - 1)) o1 cell cell) with
          | Some (o2, i) => Success (set_cell o2 i None)
          | None => Undef
          end
      | _ => Undef
      end
  end.

Definition json_object_remove o (name : bytes) : result (json_object V) := json_object_remove_internal o name.

Definition json_object_clear o : json_object V :=
  Obj (replicate (length (cells o)) None) [] [] [] [] 0 (item_capacity o) (cell_capacity o).
End removal.

Example remove_demo :
  let add o k := match o with Success o => json_object_add o (b2l k) (b2l k) | r => r end in
  let remove o k := match o with Success o => json_object_remove o (b2l k) | r => r end in
  let o := foldl add (Success json_object_make) ["a"; "q"; "b"; "c"; "r"; "d"]%string in
  match foldl remove o ["a"; "b"; "d"]%string with
  | Success o => names o = map b2l ["c"; "q"; "r"]%string /\ count o = 3 /\
                 json_object_get_value o (b2l "q") = Some (Some (b2l "q")) /\
                 json_object_get_value o (b2l "r") = Some (Some (b2l "r")) /\
                 json_object_remove o (b2l "b") = Failure
  | _ => False
  end.
Proof. vm_compute. auto. Qed.

(** ** Taking an item out of a list: the last one takes its place *)

Definition swap_remove {A} (i : nat) (l : list A) : list A :=
  match last l with
  | Some x => take (length l - 1) (<[i := x]> l)
  | None => []
  end.

(** Where an item of the new list was. *)
Definition origin (L i n : nat) : nat := if (n =? i)%nat then L else n.

Lemma length_swap_remove {A} i (l : list A) : length (swap_remove i l) = (length l - 1)%nat.
Proof.
  unfold swap_remove. destruct (last l) eqn:E; [|by apply last_None in E as ->].
  rewrite length_take, length_insert. lia.
Qed.

Lemma lookup_swap_remove {A} i (l : list A) L n :
  length l = S L -> (i <= L)%nat ->
  swap_remove i l !! n = if (n <? L)%nat then l !! origin L i n else None.
Proof.
  intros HL Hi. unfold swap_remove, origin. rewrite last_lookup, HL. cbn [pred].
  destruct (lookup_lt_is_Some_2 l L) as [x Hx]; [lia|]. rewrite Hx. replace (S L - 1)%nat with L by lia.
  destruct (Nat.ltb_spec n L); [|by apply lookup_ge_None; rewrite length_take, length_insert; lia].
  rewrite lookup_take_lt by done. destruct (Nat.eqb_spec n i) as [->|Hne].
  - rewrite list_lookup_insert_eq by lia. done.
  - by rewrite list_lookup_insert_ne.
Qed.

Lemma zip_swap_remove {A B} i (l : list A) (k : list B) :
  length k = length l -> (i < length l)%nat -> zip (swap_remove i l) (swap_remove i k) = swap_remove i (zip l k).
Proof.
  intros Hlen Hi. destruct (length l) as [|L] eqn:HL; [lia|].
  assert (length (zip l k) = S L) as Hz by (rewrite length_zip_with; lia).
  apply list_eq. intros n. rewrite (lookup_swap_remove i (zip l k) L n) by lia.
  pose proof (lookup_swap_remove i l L n HL ltac:(lia)) as H1.
  pose proof (lookup_swap_remove i k L n ltac:(lia) ltac:(lia)) as H2.
  rewrite lookup_zip_with, H1, H2. destruct (n <? L)%nat; [|done]. by rewrite lookup_zip_with.
Qed.

Lemma origin_inj L i n n' : (n < L)%nat -> (n' < L)%nat -> origin L i n = origin L i n' -> n = n'.
Proof. unfold origin. destruct (Nat.eqb_spec n i), (Nat.eqb_spec n' i); lia. Qed.

(** ** Distances around the table *)

Definition dist (C : Z) (a b : nat) : Z := (Z.of_nat b - Z.of_nat a) mod C.

Lemma mod_diff C a b : 0 <= a < C -> 0 <= b < C -> (b - a) mod C = if a <=? b then b - a else b - a + C.
Proof.
  intros Ha Hb. destruct (Z.leb_spec a b).
  - apply Z.mod_small. lia.
  - rewrite <-(Z_mod_plus_full (b - a) 1 C). rewrite Z.mod_small; lia.
Qed.

(** The condition of the loop: from the slot [k], cell [i] comes before cell
    [j]. *)
Lemma shift_condition C i j k :
  0 <= i < C -> 0 <= j < C -> 0 <= k < C -> i <> j ->
  (i <? j) && ((k <=? i) || (j <? k)) || (j <? i) && ((k <=? i) && (j <? k)) = ((i - k) mod C <? (j - k) mod C).
Proof.
  intros Hi Hj Hk Hne. rewrite !mod_diff by done.
  destruct (Z.ltb_spec i j), (Z.ltb_spec j i), (Z.leb_spec k i), (Z.leb_spec k j), (Z.ltb_spec j k); simpl; lia.
Qed.

Section hole.
Context {V : Type}.
Implicit Types o : json_object V.

(** The parts of [table_ok] on the items. *)
Record items_ok o : Prop := {
  it_len_hashes : length (hashes o) = length (names o);
  it_len_values : length (values o) = length (names o);
  it_len_ixs : length (cell_ixs o) = length (names o);
  it_count : count o = Z.of_nat (length (names o));
  it_cells : Z.of_nat (length (cells o)) = cell_capacity o;
  it_wf : Forall wf_cstr (names o);
  it_nodup : NoDup (names o);
  it_hash : forall i k, names o !! i = Some k -> hashes o !! i = Some (key_hash k)
}.

(** The table but for the cell [hole], which is stale: it may lie on the probe
    sequence of an item, but not of one in the [m] cells after it. *)
Record hole_ok o (hole : nat) (m : Z) : Prop := {
  ho_items : items_ok o;
  ho_item : forall i ix, cell_ixs o !! i = Some ix ->
    0 <= ix /\ Z.to_nat ix <> hole /\ cells o !! Z.to_nat ix = Some (Some i);
  ho_cell : forall ix i, cells o !! ix = Some (Some i) -> ix <> hole -> cell_ixs o !! i = Some (Z.of_nat ix);
  ho_path : forall i k ix, names o !! i = Some k -> cell_ixs o !! i = Some ix ->
    exists d, Z.of_nat d < cell_capacity o /\ slot o (key_hash k) d = Z.to_nat ix /\
      forall d', (d' < d)%nat -> occupied o (slot o (key_hash k) d') /\
        (slot o (key_hash k) d' = hole -> m < dist (cell_capacity o) hole (Z.to_nat ix))
}.

Lemma slot_range o h d : 0 < cell_capacity o -> 0 <= Z.of_nat (slot o h d) < cell_capacity o.
Proof. intros H. pose proof (slot_lt o h d H). lia. Qed.

(** How far a slot of a probe sequence is from an earlier one. *)
Lemma dist_slots o h d d' :
  0 < cell_capacity o -> (d' <= d)%nat -> Z.of_nat d < cell_capacity o ->
  dist (cell_capacity o) (slot o h d') (slot o h d) = Z.of_nat (d - d').
Proof.
  intros HC Hd Hlt. unfold dist, slot.
  pose proof (Z.mod_pos_bound (h + Z.of_nat d) _ HC). pose proof (Z.mod_pos_bound (h + Z.of_nat d') _ HC).
  rewrite !Z2Nat.id by lia. rewrite <-Zminus_mod. rewrite Z.mod_small; lia.
Qed.

(** The distance of a slot from the home slot. *)
Lemma dist_home o h d :
  0 < cell_capacity o -> Z.of_nat d < cell_capacity o ->
  (Z.of_nat (slot o h d) - h mod cell_capacity o) mod cell_capacity o = Z.of_nat d.
Proof.
  intros HC Hd. unfold slot. pose proof (Z.mod_pos_bound (h + Z.of_nat d) _ HC).
  rewrite Z2Nat.id by lia. rewrite <-Zminus_mod. rewrite Z.mod_small; lia.
Qed.

(** The cell [m] further on. *)
Definition further o (i : nat) (m : Z) : nat := Z.to_nat ((Z.of_nat i + m) mod cell_capacity o).

Lemma further_slot o h d m :
  0 < cell_capacity o -> 0 <= m -> further o (slot o h d) m = slot o h (d + Z.to_nat m).
Proof.
  intros HC Hm. unfold further, slot. pose proof (Z.mod_pos_bound (h + Z.of_nat d) _ HC).
  rewrite Z2Nat.id by lia. rewrite Z.add_mod_idemp_l by lia. do 2 f_equal. lia.
Qed.

(** At an empty cell: the hole is on no probe sequence any more. *)
Lemma hole_close o hole m :
  0 < cell_capacity o -> hole_ok o hole m -> (hole < length (cells o))%nat ->
  0 <= m < cell_capacity o - 1 -> cells o !! further o hole (m + 1) = Some None ->
  table_ok (set_cell o (Z.of_nat hole) None).
Proof.
  intros HC [[] Hitem Hcell Hpath] Hh Hm He. split; unfold set_cell; cbn [hashes names values cell_ixs count cells cell_capacity];
    try done.
  - by rewrite length_insert.
  - intros i ix Hi. destruct (Hitem i ix Hi) as (? & ? & ?). split; [done|].
    rewrite list_lookup_insert_ne; [done|]. rewrite Nat2Z.id. congruence.
  - intros ix i Hi. rewrite Nat2Z.id in Hi. destruct (decide (ix = hole)) as [->|Hne].
    { rewrite list_lookup_insert_eq in Hi by done. congruence. }
    rewrite list_lookup_insert_ne in Hi by done. by apply Hcell.
  - intros i k ix Hi Hix. destruct (Hpath i k ix Hi Hix) as (d & Hd & Hs & Hp). exists d. split_and!; [done|done|].
    intros d' Hd'. destruct (Hp d' Hd') as [[j Hj] Hcross]. exists j. cbn [cells]. rewrite Nat2Z.id.
    change (slot _ (key_hash k) d') with (slot o (key_hash k) d').
    rewrite list_lookup_insert_ne; [done|]. intros ->. specialize (Hcross eq_refl).
    rewrite <-Hs, dist_slots in Hcross by lia.
    rewrite further_slot in He by lia.
    destruct (decide (d = d' + Z.to_nat (m + 1))%nat) as [E|Hne].
    + rewrite <-E, Hs in He. destruct (Hitem i ix Hix) as (_ & _ & ?). congruence.
    + destruct (Hp (d' + Z.to_nat (m + 1))%nat) as [[j' Hj'] _]; [lia|]. congruence.
Qed.

Lemma further_lt o i m : 0 < cell_capacity o -> 0 <= Z.of_nat (further o i m) < cell_capacity o.
Proof. intros HC. unfold further. pose proof (Z.mod_pos_bound (Z.of_nat i + m) _ HC). lia. Qed.

Lemma further_dist o a b :
  0 < cell_capacity o -> Z.of_nat b < cell_capacity o -> further o a (dist (cell_capacity o) a b) = b.
Proof.
  intros HC Hb. unfold further, dist. rewrite Z.add_mod_idemp_r by lia.
  replace (Z.of_nat a + (Z.of_nat b - Z.of_nat a)) with (Z.of_nat b) by lia. rewrite Z.mod_small; lia.
Qed.

Lemma further_ne o a m : Z.of_nat a < cell_capacity o -> 0 < m < cell_capacity o -> further o a m <> a.
Proof.
  intros Ha Hm E. pose proof (Z.mod_pos_bound (Z.of_nat a + m) (cell_capacity o) ltac:(lia)) as Hb.
  assert ((Z.of_nat a + m) mod cell_capacity o = Z.of_nat a) as H by (unfold further in E; lia).
  destruct (decide (Z.of_nat a + m < cell_capacity o)); [rewrite Z.mod_small in H; lia|].
  rewrite <-(Z_mod_plus_full _ (-1)), Z.mod_small in H; lia.
Qed.

(** The slot of the home of [h] at the distance of a cell. *)
Lemma slot_home o h p :
  0 < cell_capacity o -> Z.of_nat p < cell_capacity o ->
  let d := Z.to_nat ((Z.of_nat p - h mod cell_capacity o) mod cell_capacity o) in
  slot o h d = p /\ Z.of_nat d < cell_capacity o.
Proof.
  intros HC Hp d. pose proof (Z.mod_pos_bound (Z.of_nat p - h mod cell_capacity o) _ HC) as Hd. unfold slot, d.
  split; [|lia]. rewrite Z2Nat.id, Z.add_mod_idemp_r by lia. rewrite <-Z.add_mod_idemp_l by lia.
  replace (h mod cell_capacity o + (Z.of_nat p - h mod cell_capacity o)) with (Z.of_nat p) by lia.
  rewrite Z.mod_small; lia.
Qed.

(** What is in a cell other than the hole. *)
Lemma hole_cell o hole m p c :
  hole_ok o hole m -> cells o !! p = Some (Some c) -> p <> hole ->
  exists nm, names o !! c = Some nm /\ hashes o !! c = Some (key_hash nm) /\ cell_ixs o !! c = Some (Z.of_nat p).
Proof.
  intros [[] Hitem Hcell Hpath] Hc Hne. pose proof (Hcell _ _ Hc Hne) as Hix.
  destruct (lookup_lt_is_Some_2 (names o) c) as [nm Hnm].
  { apply lookup_lt_Some in Hix. lia. }
  exists nm. auto.
Qed.

(** The item of the cell does not have to move. *)
Lemma hole_skip o hole m c nm :
  0 < cell_capacity o -> hole_ok o hole m -> Z.of_nat hole < cell_capacity o -> 0 <= m -> m + 1 < cell_capacity o ->
  let p := further o hole (m + 1) in
  cells o !! p = Some (Some c) -> names o !! c = Some nm ->
  (Z.of_nat p - key_hash nm mod cell_capacity o) mod cell_capacity o <=
    (Z.of_nat hole - key_hash nm mod cell_capacity o) mod cell_capacity o ->
  hole_ok o hole (m + 1).
Proof.
  intros HC Hok Hh Hm Hm1 p Hc Hnm Hle. pose proof Hok as [Hits Hitem Hcell Hpath]. split; [done|done|done|].
  intros i k ix Hi Hix. destruct (Hpath i k ix Hi Hix) as (d & Hd & Hs & Hp). exists d. split_and!; [done|done|].
  intros d' Hd'. destruct (Hp d' Hd') as [Hocc Hcross]. split; [done|]. intros Hd0. specialize (Hcross Hd0).
  set (r := dist (cell_capacity o) hole (Z.to_nat ix)) in *.
  destruct (decide (r = m + 1)) as [Er|Hne]; [|lia]. exfalso.
  assert (Z.to_nat ix = p) as Eix.
  { unfold p. rewrite <-Er. symmetry. apply further_dist; [done|]. rewrite <-Hs. by apply slot_lt. }
  destruct (Hitem i ix Hix) as (_ & _ & Hci). rewrite Eix, Hc in Hci. injection Hci as ->.
  assert (k = nm) as -> by congruence.
  rewrite <-Eix, <-Hs, <-Hd0, !dist_home in Hle by lia. lia.
Qed.

(** The item of the cell moves into the hole, and its cell is the new hole. *)
Lemma hole_move o hole m c nm :
  0 < cell_capacity o -> hole_ok o hole m -> Z.of_nat hole < cell_capacity o -> 0 <= m -> m + 1 < cell_capacity o ->
  let p := further o hole (m + 1) in
  cells o !! p = Some (Some c) -> names o !! c = Some nm ->
  (Z.of_nat hole - key_hash nm mod cell_capacity o) mod cell_capacity o <
    (Z.of_nat p - key_hash nm mod cell_capacity o) mod cell_capacity o ->
  hole_ok (set_cell (set_cell_ix o c (Z.of_nat hole)) (Z.of_nat hole) (Some c)) p 0.
Proof.
  intros HC Hok Hh Hm Hm1 p Hc Hnm Hlt. pose proof Hok as [[] Hitem Hcell Hpath].
  assert (p <> hole) as Hne by (apply further_ne; lia).
  pose proof (Hcell _ _ Hc Hne) as Hcix. pose proof (lookup_lt_Some _ _ _ Hcix) as Hclt.
  assert (hole < length (cells o))%nat as Hhl by lia.
  assert (forall ix, occupied o ix -> occupied (set_cell (set_cell_ix o c (Z.of_nat hole)) (Z.of_nat hole) (Some c)) ix)
    as Hocc.
  { intros ix [j Hj]. unfold occupied, set_cell. cbn [cells set_cell_ix]. rewrite Nat2Z.id.
    destruct (decide (ix = hole)) as [->|?]; [exists c; by rewrite list_lookup_insert_eq|].
    exists j. by rewrite list_lookup_insert_ne. }
  assert (forall i ix, <[c := Z.of_nat hole]> (cell_ixs o) !! i = Some ix ->
    (i = c /\ ix = Z.of_nat hole) \/ (i <> c /\ cell_ixs o !! i = Some ix)) as Hixs.
  { intros i ix [(-> & <- & _)|[? ?]]%list_lookup_insert_Some; auto. }
  split.
  - split; cbn [set_cell set_cell_ix hashes names values cell_ixs count cells cell_capacity]; try done;
      by rewrite length_insert.
  - cbn [set_cell set_cell_ix cells cell_ixs]. rewrite Nat2Z.id. intros i ix [[-> ->]|[Hi Hix]]%Hixs.
    + rewrite Nat2Z.id, list_lookup_insert_eq by done. split_and!; [lia|done|done].
    + destruct (Hitem i ix Hix) as (H1 & H2 & H3). rewrite list_lookup_insert_ne by done. split_and!; [done| |done].
      intros E. rewrite E in H3. congruence.
  - cbn [set_cell set_cell_ix cells cell_ixs]. rewrite Nat2Z.id. intros ix i Hi Hip.
    destruct (decide (ix = hole)) as [->|Hix].
    + rewrite list_lookup_insert_eq in Hi by done. injection Hi as <-. by rewrite list_lookup_insert_eq.
    + rewrite list_lookup_insert_ne in Hi by done. pose proof (Hcell _ _ Hi Hix) as Hci.
      rewrite list_lookup_insert_ne; [done|]. intros <-. rewrite Hcix in Hci. injection Hci as Hci. lia.
  - cbn [set_cell set_cell_ix names cell_ixs cell_capacity]. intros i k ix Hi Hix.
    set (o' := set_cell _ _ _) in *.
    assert (forall d, slot o' (key_hash k) d = slot o (key_hash k) d) as Hslot by done. setoid_rewrite Hslot.
    assert (exists d, Z.of_nat d < cell_capacity o /\ slot o (key_hash k) d = Z.to_nat ix /\
      forall d', (d' < d)%nat -> occupied o (slot o (key_hash k) d')) as (d & Hd & Hs & Hp).
    { apply Hixs in Hix as [[-> ->]|[Hic Hix]].
      - assert (k = nm) as -> by congruence. rewrite Nat2Z.id.
        destruct (Hpath _ _ _ Hnm Hcix) as (d & Hd & Hs & Hp). rewrite Nat2Z.id in Hs.
        rewrite <-Hs, dist_home in Hlt by lia.
        destruct (slot_home o (key_hash nm) hole HC Hh) as [Hs0 Hd0].
        eexists. split_and!; [exact Hd0|exact Hs0|]. intros d' Hd'. apply Hp. lia.
      - destruct (Hpath i k ix Hi Hix) as (d & Hd & Hs & Hp). exists d. split_and!; [done|done|]. intros d' Hd'.
        by apply Hp. }
    exists d. split_and!; [done|done|]. intros d' Hd'. split; [by apply Hocc, Hp|]. intros <-.
    change (cell_capacity o') with (cell_capacity o). rewrite <-Hs, dist_slots by lia. lia.
Qed.

(** [shift_back] changes neither the items nor the capacities. *)
Definition same_items o o' : Prop :=
  names o' = names o /\ values o' = values o /\ count o' = count o /\
  item_capacity o' = item_capacity o /\ cell_capacity o' = cell_capacity o.

Lemma next_cell o k i m :
  cell_capacity o = 2 ^ k -> 0 <= k <= 31 -> 0 <= m ->
  Z.land (u64 (Z.of_nat (further o i m) + 1)) (u64 (cell_capacity o - 1)) = Z.of_nat (further o i (m + 1)).
Proof.
  intros Hc Hk Hm. assert (0 < cell_capacity o) as HC by (rewrite Hc; apply Z.pow_pos_nonneg; lia).
  pose proof (further_lt o i m HC). assert (cell_capacity o <= 2 ^ 31) by (rewrite Hc; apply Z.pow_le_mono_r; lia).
  rewrite Hc, land_mask, <-Hc by lia. unfold u64. rewrite (Z.mod_small (_ + 1)) by lia.
  unfold further. pose proof (Z.mod_pos_bound (Z.of_nat i + m) _ HC). pose proof (Z.mod_pos_bound (Z.of_nat i + (m + 1)) _ HC).
  rewrite !Z2Nat.id by lia. rewrite Z.add_mod_idemp_l by lia. f_equal. lia.
Qed.

Lemma further_further o i m s :
  0 < cell_capacity o -> further o (further o i m) s = further o i (m + s).
Proof.
  intros HC. unfold further. pose proof (Z.mod_pos_bound (Z.of_nat i + m) _ HC). rewrite Z2Nat.id by lia.
  rewrite Z.add_mod_idemp_l by lia. do 2 f_equal. lia.
Qed.

(** The loop: the next empty cell is [s] cells after [j]. *)
Lemma shift_back_ok k x o hole m s :
  cell_capacity o = 2 ^ k -> 4 <= k <= 31 -> hole_ok o hole m -> occupied o hole ->
  Z.of_nat hole < cell_capacity o -> 0 <= m -> 1 <= s <= Z.of_nat x -> m + s < cell_capacity o ->
  cells o !! further o hole (m + s) = Some None ->
  exists o' i, shift_back x o (Z.of_nat hole) (Z.of_nat (further o hole m)) = Some (o', i) /\
    table_ok (set_cell o' i None) /\ same_items o o'.
Proof.
  revert o hole m s. induction x as [|x IH]; intros o hole m s Hcap Hk Hok Hocc Hh Hm Hs Hms He; [lia|].
  assert (0 < cell_capacity o) as HC by (rewrite Hcap; apply Z.pow_pos_nonneg; lia).
  cbn [shift_back]. rewrite (next_cell o k) by lia. cbv zeta.
  set (p := further o hole (m + 1)). pose proof (further_lt o hole (m + 1) HC) as Hp. fold p in Hp.
  destruct (ho_items _ _ _ Hok) as [H1 H2 H3 H4 H5 H6 H7 H8].
  destruct (lookup_lt_is_Some_2 (cells o) p) as [[c|] Hc]; [lia| |]; rewrite (Nat2Z.id p), Hc; cbn [mbind option_bind].
  2:{ exists o, (Z.of_nat hole). split; [done|]. split; [|done]. eapply hole_close; [done|exact Hok|lia|lia|exact Hc]. }
  assert (s <> 1) as Hs1 by (intros ->; fold p in He; congruence).
  assert (p <> hole) as Hne by (apply further_ne; lia).
  destruct (hole_cell o hole m p c Hok Hc Hne) as (nm & Hnm & Hhash & Hcix). rewrite Hhash. cbn [mbind option_bind].
  replace (Z.land (key_hash nm) (u64 (cell_capacity o - 1))) with (key_hash nm mod cell_capacity o)
    by (by rewrite Hcap, land_mask by lia).
  rewrite (shift_condition (cell_capacity o)) by (try lia; by apply Z.mod_pos_bound).
  destruct (Z.ltb_spec ((Z.of_nat hole - key_hash nm mod cell_capacity o) mod cell_capacity o)
    ((Z.of_nat p - key_hash nm mod cell_capacity o) mod cell_capacity o)) as [Hlt|Hge].
  - rewrite Hcix. cbn [mbind option_bind]. rewrite Nat2Z.id.
    destruct Hocc as [g Hg]. rewrite Hg. cbn [mbind option_bind].
    set (o' := set_cell _ _ _).
    assert (further o' p 0 = p) as Hp0 by (unfold further; cbn [cell_capacity o' set_cell set_cell_ix]; rewrite Z.mod_small; lia).
    destruct (IH o' p 0 (s - 1)) as (o2 & i & Hrun & Htab & Hsame); try done;
      try (change (cell_capacity o') with (cell_capacity o); lia); try lia.
    + apply (hole_move o hole m c nm); try done; lia.
    + exists c. unfold o'. cbn [cells set_cell set_cell_ix]. rewrite Nat2Z.id, list_lookup_insert_ne by done. done.
    + replace (further o' p (0 + (s - 1))) with (further o hole (m + s))
        by (unfold p; change (further o') with (further o); rewrite further_further by done; f_equal; lia).
      unfold o'. cbn [cells set_cell set_cell_ix]. rewrite Nat2Z.id.
      rewrite list_lookup_insert_ne; [done|]. intros E. rewrite <-E in He. congruence.
    + rewrite Hp0 in Hrun. exists o2, i. by split_and!.
  - destruct (IH o hole (m + 1) (s - 1)) as (o2 & i & Hrun & Htab & Hsame); try done; try lia.
    + by apply (hole_skip o hole m c nm); try lia.
    + by replace (m + 1 + (s - 1)) with (m + s) by lia.
    + by exists o2, i.
Qed.

(** *** The last item moves *)

Definition moved o (item cell : nat) : json_object V :=
  Obj (<[cell := Some item]> (cells o)) (swap_remove item (hashes o)) (swap_remove item (names o))
    (swap_remove item (values o)) (swap_remove item (cell_ixs o)) (count o - 1) (item_capacity o) (cell_capacity o).

Lemma swap_remove_eq {A} i (l : list A) L x :
  length l = S L -> l !! L = Some x -> swap_remove i l = take L (<[i := x]> l).
Proof.
  intros HL Hx. unfold swap_remove. rewrite last_lookup, HL. cbn [pred]. rewrite Hx. do 2 f_equal. lia.
Qed.

Lemma swap_remove_last {A} (l : list A) L : length l = S L -> swap_remove L l = take L l.
Proof.
  intros HL. destruct (lookup_lt_is_Some_2 l L) as [x Hx]; [lia|].
  rewrite (swap_remove_eq L l L x) by done. by rewrite list_insert_id.
Qed.

Lemma move_last_eq o item name :
  table_ok o -> names o !! item = Some name ->
  exists ix, cell_ixs o !! (length (names o) - 1)%nat = Some ix /\ move_last o item = Some (moved o item (Z.to_nat ix)).
Proof.
  intros Hok Hn. destruct (length (names o)) as [|L] eqn:HL.
  { apply lookup_lt_Some in Hn. lia. }
  pose proof (ok_len_hashes o Hok) as Hlh. pose proof (ok_len_values o Hok) as Hlv. pose proof (ok_len_ixs o Hok) as Hli.
  rewrite HL in *. replace (S L - 1)%nat with L by lia.
  destruct (lookup_lt_is_Some_2 (cell_ixs o) L) as [ix Hix]; [lia|]. exists ix. split; [done|].
  destruct (ok_item o Hok _ _ Hix) as [Hix0 Hcell]. apply lookup_lt_Some in Hcell as Hlt.
  unfold move_last, moved. rewrite (ok_count o Hok), HL. replace (Z.to_nat (Z.of_nat (S L) - 1)) with L by lia.
  destruct (Nat.ltb_spec item L).
  - destruct (lookup_lt_is_Some_2 (names o) L) as [nm Hnm]; [lia|].
    destruct (lookup_lt_is_Some_2 (values o) L) as [v Hv]; [lia|].
    destruct (lookup_lt_is_Some_2 (hashes o) L) as [h Hh]; [lia|].
    rewrite Hnm, Hv, Hix, Hh. cbn [mbind option_bind]. destruct (Z.leb_spec 0 ix); [|lia].
    destruct (Z.ltb_spec ix (Z.of_nat (length (cells o)))); [|lia]. cbn [andb].
    rewrite (swap_remove_eq item (hashes o) L h), (swap_remove_eq item (names o) L nm),
      (swap_remove_eq item (values o) L v), (swap_remove_eq item (cell_ixs o) L ix) by (done || lia). done.
  - assert (item = L) as -> by (apply lookup_lt_Some in Hn; lia).
    rewrite !swap_remove_last by lia. by rewrite list_insert_id.
Qed.

Lemma moved_items o item cell :
  table_ok o -> (item < length (names o))%nat -> items_ok (moved o item cell).
Proof.
  intros Hok Hlt. destruct Hok as [H1 H2 H3 H4 H5 H6 H7 H8 _ _ _]. destruct (length (names o)) as [|L] eqn:HL; [lia|].
  assert (forall i k, swap_remove item (names o) !! i = Some k -> (i < L)%nat /\ names o !! origin L item i = Some k) as Hn.
  { intros i k Hi. rewrite (lookup_swap_remove item (names o) L i) in Hi by lia.
    destruct (Nat.ltb_spec i L); [done|]. congruence. }
  split; cbn [moved names hashes values cell_ixs count cells cell_capacity]; rewrite ?length_swap_remove, ?length_insert.
  1-5: lia.
  - apply Forall_lookup. intros i k Hi. apply Hn in Hi as [_ Hi]. by eapply Forall_lookup_1 in Hi.
  - apply NoDup_alt. intros i j x [Hi Hi']%Hn [Hj Hj']%Hn. apply (origin_inj L item); [done|done|].
    by eapply NoDup_lookup.
  - intros i k [Hi Hi']%Hn. rewrite (lookup_swap_remove item (hashes o) L i) by lia.
    destruct (Nat.ltb_spec i L); [|lia]. by apply H8.
Qed.

End hole.

(** The removed item was in [cell]; the last item, in [cL], moves. *)
Section moved.
Context {V : Type} (o : json_object V) (item cell L : nat) (cL : Z).
Hypothesis Hok : table_ok o.
Hypothesis HL : length (names o) = S L.
Hypothesis Hitem : (item <= L)%nat.
Hypothesis Hcell : cells o !! cell = Some (Some item).
Hypothesis HcL : cell_ixs o !! L = Some cL.

Let o1 := moved o item (Z.to_nat cL).

#[local] Lemma last_cell : 0 <= cL /\ cells o !! Z.to_nat cL = Some (Some L).
Proof. apply (ok_item o Hok _ _ HcL). Qed.

#[local] Lemma moved_ix i z :
  cell_ixs o1 !! i = Some z -> (i < L)%nat /\ cell_ixs o !! origin L item i = Some z.
Proof.
  unfold o1. cbn [moved cell_ixs]. pose proof (ok_len_ixs o Hok).
  rewrite (lookup_swap_remove item (cell_ixs o) L i) by lia. by destruct (Nat.ltb_spec i L).
Qed.

#[local] Lemma moved_occupied x : occupied o x -> occupied o1 x.
Proof.
  destruct last_cell as [_ Hlast]. intros [j Hj]. unfold occupied, o1. cbn [moved cells].
  destruct (decide (x = Z.to_nat cL)) as [->|?].
  - exists item. rewrite list_lookup_insert_eq; [done|]. by eapply lookup_lt_Some.
  - exists j. by rewrite list_lookup_insert_ne.
Qed.

#[local] Lemma moved_item i z :
  cell_ixs o1 !! i = Some z -> 0 <= z /\ Z.to_nat z <> cell /\ cells o1 !! Z.to_nat z = Some (Some i).
Proof.
  destruct last_cell as [_ Hlast]. intros [Hi Hz]%moved_ix. destruct (ok_item o Hok _ _ Hz) as [Hz0 Hcz].
  unfold origin, o1 in *. cbn [moved cells]. destruct (Nat.eqb_spec i item) as [->|Hne].
  - assert (z = cL) as -> by congruence. split_and!; [done| |].
    + intros E. rewrite E in Hlast. assert (item = L) by congruence. lia.
    + rewrite list_lookup_insert_eq; [done|]. by eapply lookup_lt_Some.
  - split_and!; [done|intros E; rewrite E in Hcz; congruence|].
    rewrite list_lookup_insert_ne; [done|]. intros E. rewrite E in Hlast. assert (i = L) by congruence. lia.
Qed.

#[local] Lemma moved_cell x i :
  cells o1 !! x = Some (Some i) -> x <> cell -> cell_ixs o1 !! i = Some (Z.of_nat x).
Proof.
  destruct last_cell as [Hpos Hlast]. unfold o1. cbn [moved cells cell_ixs]. intros Hx Hxc.
  pose proof (ok_len_ixs o Hok). rewrite (lookup_swap_remove item (cell_ixs o) L i) by lia.
  destruct (decide (x = Z.to_nat cL)) as [->|Hne].
  - rewrite list_lookup_insert_eq in Hx by (by eapply lookup_lt_Some). injection Hx as <-.
    assert (item <> L) by (intros ->; pose proof (ok_cell o Hok _ _ Hcell) as E; rewrite HcL in E; injection E; lia).
    unfold origin. rewrite Nat.eqb_refl. destruct (Nat.ltb_spec item L); [|lia]. rewrite HcL. f_equal. lia.
  - rewrite list_lookup_insert_ne in Hx by done. pose proof (ok_cell o Hok _ _ Hx) as Hix.
    assert (i <> L) by (intros ->; rewrite HcL in Hix; injection Hix; lia).
    assert (i <> item) by (intros ->; pose proof (ok_cell o Hok _ _ Hcell) as E; rewrite Hix in E; injection E; lia).
    apply lookup_lt_Some in Hix as Hlt. destruct (Nat.ltb_spec i L); [|lia].
    unfold origin. by destruct (Nat.eqb_spec i item).
Qed.

Lemma moved_hole : 0 < cell_capacity o -> hole_ok o1 cell 0.
Proof.
  intros HC. split; [apply moved_items; [done|lia]|apply moved_item|apply moved_cell|].
  intros i k ix Hi Hix. destruct (moved_item i ix Hix) as (Hpos & Hne & _). apply moved_ix in Hix as [Hlt Hix].
  unfold o1 in Hi. cbn [moved names] in Hi. rewrite (lookup_swap_remove item (names o) L i) in Hi by lia.
  destruct (Nat.ltb_spec i L); [|lia].
  destruct (ok_path o Hok _ _ _ Hi Hix) as (d & Hd & Hs & Hp). exists d.
  change (cell_capacity o1) with (cell_capacity o). change (slot o1) with (slot o). split_and!; [done|done|].
  intros d' Hd'. split; [by apply moved_occupied, Hp|]. intros <-. rewrite <-Hs. rewrite dist_slots by lia. lia.
Qed.

(** From the hole the loop reaches an empty cell, and the table is whole
    again. *)
Lemma gap_closes k :
  4 <= k <= 31 -> cell_capacity o = 2 ^ k -> count o < cell_capacity o ->
  exists o2 j, shift_back (Z.to_nat (cell_capacity o - 1)) o1 (Z.of_nat cell) (Z.of_nat cell) = Some (o2, j) /\
    table_ok (set_cell o2 j None) /\ same_items o1 o2.
Proof.
  intros Hk Hcap Hlt. destruct (JsonObject.empty_cell o k Hk Hok [] 0 Hlt) as [e He].
  assert (0 < cell_capacity o) as HC by (rewrite Hcap; apply Z.pow_pos_nonneg; lia).
  pose proof (ok_cells o Hok) as Hlen. apply lookup_lt_Some in He as Hel. apply lookup_lt_Some in Hcell as Hcl.
  pose proof (Z.mod_pos_bound (Z.of_nat e - Z.of_nat cell) _ HC) as Hdist.
  fold (dist (cell_capacity o) cell e) in Hdist. set (s := dist _ _ _) in Hdist.
  assert (further o1 cell s = e) as Hfe by (apply (further_dist o1); change (cell_capacity o1) with (cell_capacity o); lia).
  assert (further o1 cell 0 = cell) as Hf0
    by (unfold further; change (cell_capacity o1) with (cell_capacity o); rewrite Z.mod_small; lia).
  assert (s <> 0) by (intros E; rewrite E, Hf0 in Hfe; subst e; congruence).
  destruct last_cell as [_ Hlast].
  destruct (shift_back_ok k (Z.to_nat (cell_capacity o - 1)) o1 cell 0 s) as (o2 & j & Hrun & Htab & Hsame);
    change (cell_capacity o1) with (cell_capacity o) in *; try done; try lia.
  - by apply moved_hole.
  - apply moved_occupied. by exists item.
  - rewrite Z.add_0_l, Hfe. unfold o1. cbn [moved cells]. rewrite list_lookup_insert_ne; [done|]. congruence.
  - rewrite Hf0 in Hrun. by exists o2, j.
Qed.
End moved.

(** ** The operations *)

Section operations.
Context {V : Type}.
Implicit Types o : json_object V.

Lemma probe_nonneg n o key len h c i ix : probe n o key len h c i = Some (ix, true) -> 0 <= ix.
Proof.
  revert i. induction n as [|n IH]; intros i; cbn [probe]; [done|]. set (x := Z.land _ _).
  assert (0 <= x) by (apply Z.land_nonneg; left; apply u64_range). destruct (cells o !! _) as [[c'|]|]; simpl; [|congruence|done].
  destruct (hashes o !! c') as [h'|]; simpl; [|done]. destruct (h =? h'); simpl; [|apply IH].
  destruct (names o !! c') as [nm|]; simpl; [|done]. destruct (_ && _); [congruence|apply IH].
Qed.

Lemma remove_spec o name :
  obj_inv o -> wf_cstr name ->
  (exists i o', names o !! i = Some name /\ json_object_remove o name = Success o' /\ obj_inv o' /\
     entries o' = swap_remove i (entries o)) \/
  ((name ∉ names o) /\ json_object_remove o name = Failure).
Proof.
  intros Hinv Hw. unfold json_object_remove, json_object_remove_internal.
  destruct (get_cell_ix_key o name Hinv Hw) as [(i & ix & v & Hi & Hv & Hc & Hg)|[Hnot [ix Hg]]]; [left|right; by rewrite Hg].
  rewrite Hg, Hc. apply probe_nonneg in Hg. destruct (inv_lt_capacity o Hinv) as [_ Hlt].
  destruct Hinv as [Hok [H0|(k & Hk & Hcap)] Hic Hcnt].
  { pose proof (ok_cells o Hok). apply lookup_lt_Some in Hc. lia. }
  destruct (move_last_eq o i name Hok Hi) as (cL & HcL & Hmove). rewrite Hmove. cbn [mbind option_bind].
  pose proof (lookup_lt_Some _ _ _ Hi) as Hil. destruct (length (names o)) as [|L] eqn:HL; [lia|].
  replace (S L - 1)%nat with L in HcL by lia.
  destruct (gap_closes o i (Z.to_nat ix) L cL Hok HL ltac:(lia) Hc HcL k Hk Hcap) as (o2 & j & Hrun & Htab & Hsame).
  { apply Hlt. rewrite Hcap. pose proof (capacity_pos k). lia. }
  rewrite Z2Nat.id in Hrun by done. change (cell_capacity (moved _ _ _)) with (cell_capacity o). rewrite Hrun.
  destruct Hsame as (Hsn & Hsv & Hsc & Hsi & Hscc). cbn [moved names values count item_capacity cell_capacity] in *.
  eexists i, _. split_and!; [done|done| |].
  - split; [done| | |]; unfold set_cell; cbn [cell_capacity item_capacity count].
    + right. exists k. by rewrite Hscc.
    + by rewrite Hsi, Hscc.
    + rewrite Hsc, Hsi. lia.
  - unfold entries, set_cell. cbn [names values]. rewrite Hsn, Hsv. apply zip_swap_remove; [|lia].
    rewrite HL. by rewrite <-HL; apply (ok_len_values o Hok).
Qed.
End operations.

(** ** The specification: association lists *)

Lemma assoc_Some {V} (l : list (bytes * V)) k v : NoDup (map fst l) -> assoc k l = Some v <-> (k, v) ∈ l.
Proof.
  induction l as [|[k' v'] l IH]; simpl; intros Hnd; [by rewrite elem_of_nil|].
  apply NoDup_cons in Hnd as [Hk Hnd]. rewrite elem_of_cons. case_bool_decide as E.
  - subst k'. split; [intros [= ->]; by left|]. intros [[= ->]|Hin]; [done|].
    destruct Hk. apply list_elem_of_fmap. by exists (k, v).
  - rewrite IH by done. split; [by right|]. intros [[=]|?]; done.
Qed.

Lemma swap_remove_elem {A} (l : list A) i y x :
  NoDup l -> l !! i = Some y -> x ∈ swap_remove i l <-> x ∈ l /\ x <> y.
Proof.
  intros Hnd Hy. pose proof (lookup_lt_Some _ _ _ Hy) as Hi. destruct (length l) as [|L] eqn:HL; [lia|].
  assert (forall n, swap_remove i l !! n = if (n <? L)%nat then l !! origin L i n else None) as Hl
    by (intros; apply lookup_swap_remove; lia).
  rewrite !list_elem_of_lookup. setoid_rewrite Hl. unfold origin. split.
  - intros [n Hn]. destruct (Nat.ltb_spec n L); [|done]. split; [by eexists|]. intros ->.
    pose proof (NoDup_lookup _ _ _ _ Hnd Hn Hy). destruct (Nat.eqb_spec n i); lia.
  - intros [[n Hn] Hne]. assert (n <> i) by congruence. pose proof (lookup_lt_Some _ _ _ Hn).
    destruct (decide (n = L)) as [->|].
    + exists i. destruct (Nat.ltb_spec i L); [|lia]. by rewrite Nat.eqb_refl.
    + exists n. destruct (Nat.ltb_spec n L); [|lia]. by destruct (Nat.eqb_spec n i).
Qed.

Section object_theorems.
Context {V : Type}.
Implicit Types o : json_object V.

Lemma entries_keys o : obj_inv o -> map fst (entries o) = names o.
Proof.
  intros Hinv. unfold entries. change (map fst) with (fmap (M := list) (@fst bytes V)). apply fst_zip.
  rewrite (ok_len_values o (inv_table o Hinv)). lia.
Qed.

Lemma entries_nodup o : obj_inv o -> NoDup (map fst (entries o)).
Proof. intros Hinv. rewrite entries_keys by done. apply (ok_nodup o (inv_table o Hinv)). Qed.

(** Looking up a name after a removal. *)
Lemma assoc_removed o o' i name v k :
  obj_inv o -> obj_inv o' -> entries o !! i = Some (name, v) -> entries o' = swap_remove i (entries o) ->
  assoc k (entries o') = if bool_decide (k = name) then None else assoc k (entries o).
Proof.
  intros Hinv Hinv' Hi He. pose proof (entries_nodup o Hinv) as Hnd. pose proof (entries_nodup o' Hinv') as Hnd'.
  assert (NoDup (entries o)) as Hnde by (by eapply NoDup_fmap_1).
  assert (forall w, (k, w) ∈ entries o' <-> (k, w) ∈ entries o /\ k <> name) as Hin.
  { intros w. rewrite He, swap_remove_elem by done. split; [|naive_solver]. intros [Hw Hne]. split; [done|].
    intros ->. apply Hne. f_equal. apply assoc_Some in Hw; [|done]. apply list_elem_of_lookup_2 in Hi.
    apply assoc_Some in Hi; [|done]. congruence. }
  apply option_eq. intros w. rewrite assoc_Some, Hin by done. case_bool_decide as E; [naive_solver|].
  rewrite assoc_Some by done. naive_solver.
Qed.

Lemma clear_inv o : obj_inv o -> obj_inv (json_object_clear o).
Proof.
  intros [Hok Hcap Hic Hc]. pose proof (ok_cells o Hok). pose proof (ok_count o Hok).
  split; [|done|done|simpl; lia]. split; simpl; try done.
  - rewrite length_replicate. lia.
  - by constructor.
  - intros ix i [H' _]%lookup_replicate. done.
Qed.

(** C11: the hash table refines the ordered association list of its entries:
    looking up a name (a prefix of a string of the given length) finds the
    value entered under it or nothing, adding fails exactly on a name that is
    present and otherwise appends the entry, setting replaces the value in
    place or appends; removing fails exactly on a name that is absent, and
    otherwise the last entry takes the place of the removed one and every
    other name keeps its value; clearing leaves no entry.  No operation leaves
    the bounds of an array, at any load and across every growth, and the table
    invariant is kept. *)
Theorem object_refines_assoc (o : json_object V) name value :
  obj_inv o -> wf_cstr name -> count o < 2 ^ 30 ->
  (forall n, 0 <= n <= strlen name ->
     json_object_getn_value o name n = Some (assoc (take (Z.to_nat n) name) (entries o))) /\
  match json_object_add o name value with
  | Success o' => assoc name (entries o) = None /\ obj_inv o' /\ entries o' = entries o ++ [(name, value)]
  | Failure => assoc name (entries o) <> None
  | Undef => False
  end /\
  match json_object_set_value o name value with
  | Success o' => obj_inv o' /\ entries o' = assoc_set name value (entries o)
  | _ => False
  end /\
  match json_object_remove o name with
  | Success o' =>
      obj_inv o' /\
      (exists i v, entries o !! i = Some (name, v) /\ entries o' = swap_remove i (entries o)) /\
      (forall k, assoc k (entries o') = if bool_decide (k = name) then None else assoc k (entries o))
  | Failure => assoc name (entries o) = None
  | Undef => False
  end /\
  obj_inv (json_object_clear o) /\ entries (json_object_clear o) = [].
Proof.
  intros Hinv Hw Hsmall.
  assert (forall i, names o !! i = Some name -> exists v, entries o !! i = Some (name, v)) as Hent.
  { intros i Hi. destruct (lookup_lt_is_Some_2 (values o) i) as [v Hv].
    { rewrite (ok_len_values o (inv_table o Hinv)). by eapply lookup_lt_Some. }
    exists v. unfold entries. by rewrite lookup_zip_with, Hi, Hv. }
  split_and!.
  - intros n Hn. by apply getn_value_spec.
  - destruct (add_spec o name value Hinv Hw Hsmall) as [Hin Hout].
    destruct (decide (name ∈ names o)) as [Hi|Hi].
    + rewrite Hin by done. apply list_elem_of_lookup_1 in Hi as [i [v Hv]%Hent].
      apply list_elem_of_lookup_2, assoc_Some in Hv; [congruence|by apply entries_nodup].
    + destruct (Hout Hi) as (o' & -> & ? & ? & _). split_and!; try done. by apply assoc_zip_absent.
  - destruct (set_value_spec o name value Hinv Hw Hsmall) as (o' & -> & ? & ? & _). done.
  - destruct (remove_spec o name Hinv Hw) as [(i & o' & Hi & -> & Hinv' & He)|[Hnot ->]];
      [|by apply assoc_zip_absent].
    destruct (Hent i Hi) as [v Hv]. split_and!; [done|by exists i, v|]. intros k. by eapply assoc_removed.
  - by apply clear_inv.
  - done.
Qed.
End object_theorems.

Lemma object_refines_assoc_witness :
  match json_object_add (json_object_make (V := Z)) (b2l "id") 7 with
  | Success o' => obj_inv o' /\ entries o' = [(b2l "id", 7)] /\ json_object_remove o' (b2l "id") <> Failure
  | _ => False
  end.
Proof.
  assert (wf_cstr (b2l "id")) as Hw by (repeat constructor; unfold is_char; lia).
  destruct (object_refines_assoc (json_object_make (V := Z)) (b2l "id") 7) as (_ & H & _).
  - apply json_object_make_inv.
  - exact Hw.
  - reflexivity.
  - destruct (json_object_add _ _ _) as [o'| |] eqn:Eo; [|by apply H|exact H]. destruct H as (_ & H1 & H2).
    split; [exact H1|]. split; [exact H2|]. intros Hr.
    destruct (object_refines_assoc o' (b2l "id") 7 H1 Hw) as (_ & _ & _ & H3 & _).
    + vm_compute in Eo. injection Eo as <-. reflexivity.
    + rewrite Hr, H2 in H3. discriminate H3.
Defined.
