(* ===== verification/Double.v ===== *)
(** * Doubles: strtod, the cast to int and printf("%1.17g")

    What the program uses of C's [double] (IEEE 754 binary64, round to
    nearest even), with exact rational arithmetic on [Z]. *)

From S2P Require Import Prelude Libc.

(** [DFin neg m e] is (-1)^neg * m * 2^e with [0 <= m < 2^53]. *)
Inductive double :=
| DFin (neg : bool) (m e : Z)
| DInf (neg : bool)
| DNan.

#[global] Instance double_eq_dec : EqDecision double.
Proof. solve_decision. Defined.

(** [num / den] to the nearest integer, ties to even. *)
Definition div_rne (num den : Z) : Z :=
  let q := num / den in
  let r := num mod den in
  if (den <? 2 * r) || ((2 * r =? den) && Z.odd q) then q + 1 else q.

(** [x * 2^e] as a fraction *)
Definition scale2 (num den e : Z) : Z * Z :=
  if 0 <=? e then (num * 2 ^ e, den) else (num, den * 2 ^ (- e)).

Definition scale10 (num den e : Z) : Z * Z :=
  if 0 <=? e then (num * 10 ^ e, den) else (num, den * 10 ^ (- e)).

(** The double nearest to [num / den], for [0 <= num] and [0 < den]: the
    exponent is chosen so that the quotient has 53 bits, or is the least
    one, -1074. *)
Definition round_double (neg : bool) (num den : Z) : double :=
  if num =? 0 then DFin neg 0 0
  else
    let l := Z.log2 num - Z.log2 den in
    let e := l - 52 in
    let '(n, d) := scale2 num den (- e) in
    let e := if n <? d * 2 ^ 52 then e - 1 else e in
    let e := Z.max e (-1074) in
    let '(n, d) := scale2 num den (- e) in
    let q := div_rne n d in
    let '(q, e) := if q =? 2 ^ 53 then (2 ^ 52, e + 1) else (q, e) in
    if 971 <? e then DInf neg else DFin neg q e.

(** Conversion from [int] *)
Definition of_int (n : Z) : double := round_double (n <? 0) (Z.abs n) 1.

(** [m * 2^e] truncated *)
Definition trunc (m e : Z) : Z := if 0 <=? e then m * 2 ^ e else m / 2 ^ (- e).

(** The cast to [int]; [None]: the integral part does not fit, the behaviour
    is undefined (C11 6.3.1.4). *)
Definition cast_int (x : double) : option Z :=
  match x with
  | DFin neg m e =>
      let v := if (neg : bool) then - trunc m e else trunc m e in
      if (- 2 ^ 31 <=? v) && (v <=? INT_MAX) then Some v else None
  | _ => None
  end.

Definition isinf (x : double) : bool := match x with DInf _ => true | _ => false end.
Definition isnan (x : double) : bool := match x with DNan => true | _ => false end.

(** ** strtod *)

Definition toupper (c : Z) : Z := if ("a"%c <=? c) && (c <=? "z"%c) then c - 32 else c.

(** [s] begins with the upper-case word [w], ignoring case: the rest. *)
Fixpoint match_word (w s : bytes) : option bytes :=
  match w, s with
  | [], _ => Some s
  | c :: w', d :: s' => if toupper d =? c then match_word w' s' else None
  | _ :: _, [] => None
  end.

(** An exponent part: [mark], an optional sign and digits; without digits
    nothing is consumed. *)
Definition scan_exp (mark : Z) (s : bytes) : Z * bytes :=
  match s with
  | c :: p =>
      if toupper c =? mark then
        let '(neg, q) := scan_sign p in
        match span isdigit q with
        | ([], _) => (0, s)
        | (ds, rest) => (if (neg : bool) then - dval ds else dval ds, rest)
        end
      else (0, s)
  | [] => (0, s)
  end.

(** Digits with an optional point: the integral and the fractional digits,
    and the rest; [None] without a digit. *)
Definition scan_mantissa (p : Z -> bool) (s : bytes) : option (bytes * bytes * bytes) :=
  let '(ip, r) := span p s in
  let '(fp, r') :=
    match r with
    | c :: r1 =>
        if c =? "."%c then
          match ip, span p r1 with
          | [], ([], _) => ([], r)
          | _, fr => fr
          end
        else ([], r)
    | [] => ([], r)
    end in
  match ip, fp with [], [] => None | _, _ => Some (ip, fp, r') end.

(** The decimal number [m * 10^e10], [m] of [nd] digits.  Far outside the
    range of doubles the power of ten is not computed. *)
Definition decimal (neg : bool) (m nd e10 : Z) : double :=
  if m =? 0 then DFin neg 0 0
  else if 400 <? e10 + nd then DInf neg
  else if e10 + nd <? -400 then DFin neg 0 0
  else let '(n, d) := scale10 m 1 e10 in round_double neg n d.

Record strtod_result := Strtod { sd_val : double; sd_end : bytes; sd_erange : bool }.

(** "nan" may be followed by a parenthesised word. *)
Definition skip_nan_payload (s : bytes) : bytes :=
  match s with
  | c :: p =>
      if c =? "("%c then
        match (span (fun c => isdigit c || (("A"%c <=? toupper c) && (toupper c <=? "Z"%c))
                              || (c =? "_"%c)) p).2 with
        | d :: r => if d =? ")"%c then r else s
        | [] => s
        end
      else s
  | [] => s
  end.

Definition strtod_decimal (s : bytes) (neg : bool) (p : bytes) : strtod_result :=
  match scan_mantissa isdigit p with
  | None => Strtod (DFin false 0 0) s false
  | Some (ip, fp, r) =>
      let '(ex, r') := scan_exp "E"%c r in
      let m := dval (ip ++ fp) in
      let x := decimal neg m (Z.of_nat (length (ip ++ fp))) (ex - Z.of_nat (length fp)) in
      Strtod x r' (isinf x || (match x with DFin _ q _ => q <? 2 ^ 52 | _ => false end && negb (m =? 0)))
  end.

Definition strtod_hex (neg : bool) (p : bytes) : option strtod_result :=
  '(ip, fp, r) ← scan_mantissa isxdigit p;
  let '(ex, r') := scan_exp "P"%c r in
  let m := hval (ip ++ fp) in
  let '(n, d) := scale2 m 1 (Z.max (-5000) (Z.min 5000 (ex - 4 * Z.of_nat (length fp)))) in
  let x := round_double neg n d in
  Some (Strtod x r' (isinf x)).

Definition strtod (s : bytes) : strtod_result :=
  let '(neg, p) := scan_sign (skip_ws s) in
  match match_word (b2l "INFINITY") p, match_word (b2l "INF") p, match_word (b2l "NAN") p with
  | Some r, _, _ => Strtod (DInf neg) r false
  | None, Some r, _ => Strtod (DInf neg) r false
  | None, None, Some r => Strtod DNan (skip_nan_payload r) false
  | None, None, None =>
      let hex :=
        match p with
        | c0 :: cx :: q =>
            if (c0 =? "0"%c) && (toupper cx =? "X"%c) then strtod_hex neg q else None
        | _ => None
        end in
      match hex with
      | Some r => r
      | None => strtod_decimal s neg p
      end
  end.

(** ** printf("%1.17g") *)

Fixpoint strip_zeros_rev (s : bytes) : bytes :=
  match s with c :: s' => if c =? "0"%c then strip_zeros_rev s' else s | [] => [] end.

Definition strip_zeros (s : bytes) : bytes := rev (strip_zeros_rev (rev s)).

(** The least [k] with [10^k * num >= den]. *)
Fixpoint leading_zeros (fuel : nat) (num den k : Z) : Z :=
  match fuel with
  | O => k
  | S fuel => if den <=? num then k else leading_zeros fuel (10 * num) den (k + 1)
  end.

(** The decimal exponent of [num / den > 0]; a positive double is at least
    2^-1074 > 10^-324. *)
Definition exponent10 (num den : Z) : Z :=
  if den <=? num then Z.of_nat (length (dec (num / den))) - 1
  else - leading_zeros 330 num den 0.

(** The digits [ds] with the point after the first [k] of them. *)
Definition with_point (k : nat) (ds : bytes) : bytes :=
  let fp := strip_zeros (drop k ds) in
  take k ds ++ match fp with [] => [] | _ => "."%c :: fp end.

Definition format_g17 (x : double) : bytes :=
  match x with
  | DNan => b2l "nan"
  | DInf neg => if neg then b2l "-inf" else b2l "inf"
  | DFin neg m e =>
      (if neg then ["-"%c] else []) ++
      if m =? 0 then ["0"%c]
      else
        let '(n, d) := scale2 m 1 e in
        let x10 := exponent10 n d in
        let '(n', d') := scale10 n d (16 - x10) in
        let q := div_rne n' d' in
        let '(q, x10) := if q =? 10 ^ 17 then (10 ^ 16, x10 + 1) else (q, x10) in
        let ds := dec q in
        if (-4 <=? x10) && (x10 <? 17) then
          if 0 <=? x10 then with_point (Z.to_nat (x10 + 1)) ds
          else with_point 1 (replicate (Z.to_nat (- x10)) "0"%c ++ ds)
        else
          with_point 1 ds ++
          "e"%c :: (if x10 <? 0 then "-"%c else "+"%c) ::
          (if Z.abs x10 <? 10 then ["0"%c] else []) ++ dec (Z.abs x10)
  end.

Example double_tests :
  map (fun s => format_g17 (sd_val (strtod (b2l s))))
    ["8080"; "0.1"; "-12.5e3x"; "1e22"; "1e23"; "4.9e-324"; "1.7976931348623157e308"; "1e309";
     "123456789012345678"; "-0"; "0x1F"; "0.00001"; "65535.9"; "9007199254740993"; "2e-400"]%string
  = map b2l
    ["8080"; "0.10000000000000001"; "-12500"; "1e+22"; "9.9999999999999992e+22";
     "4.9406564584124654e-324"; "1.7976931348623157e+308"; "inf"; "1.2345678901234568e+17"; "-0"; "31";
     "1.0000000000000001e-05"; "65535.900000000001"; "9007199254740992"; "0"]%string /\
  map (fun s => sd_end (strtod (b2l s))) ["12.e5}"; ".5"; "-"; "1e+"; "-.e1"; "0xg"; "-inFx"]%string
  = map b2l ["}"; ""; "-"; "e+"; "-.e1"; "xg"; "x"]%string /\
  map (fun s => cast_int (sd_val (strtod (b2l s)))) ["8080"; "-1.9"; "2147483648"; "0.99"]%string
  = [Some 8080; Some (-1); None; Some 0].
Proof. vm_compute. auto. Qed.

(** ** Integers as doubles *)

Lemma div_rne_exact n : div_rne n 1 = n.
Proof. unfold div_rne. rewrite Z.div_1_r, Z.mod_1_r. by destruct (Z.odd n). Qed.

Lemma log2_bounds n : 0 < n -> 2 ^ Z.log2 n <= n < 2 * 2 ^ Z.log2 n.
Proof. intros H. pose proof (Z.log2_spec n H). rewrite Z.pow_succ_r in * by apply Z.log2_nonneg. lia. Qed.

(** An integer below 2^53 is a double: its bits, shifted to the left. *)
Lemma round_double_int neg n :
  0 < n < 2 ^ 53 ->
  round_double neg n 1 = DFin neg (n * 2 ^ (52 - Z.log2 n)) (Z.log2 n - 52).
Proof.
  intros [Hpos Hlt]. pose proof (log2_bounds n Hpos) as [Hl Hu].
  pose proof (Z.log2_nonneg n).
  assert (Z.log2 n <= 52) by (apply Z.log2_lt_pow2 in Hlt; lia).
  assert (2 ^ (52 - Z.log2 n) * 2 ^ Z.log2 n = 2 ^ 52) as Hpow by (rewrite <-Z.pow_add_r by lia; f_equal; lia).
  assert (0 < 2 ^ (52 - Z.log2 n)) by (apply Z.pow_pos_nonneg; lia).
  unfold round_double, scale2. change (Z.log2 1) with 0.
  destruct (Z.eqb_spec n 0); [lia|].
  replace (- (Z.log2 n - 0 - 52)) with (52 - Z.log2 n) by lia.
  destruct (Z.leb_spec 0 (52 - Z.log2 n)); [|lia].
  destruct (Z.ltb_spec (n * 2 ^ (52 - Z.log2 n)) (1 * 2 ^ 52)); [nia|].
  replace (Z.max (Z.log2 n - 0 - 52) (-1074)) with (Z.log2 n - 52) by lia.
  replace (- (Z.log2 n - 52)) with (52 - Z.log2 n) by lia.
  destruct (Z.leb_spec 0 (52 - Z.log2 n)); [|lia]. rewrite div_rne_exact.
  destruct (Z.eqb_spec (n * 2 ^ (52 - Z.log2 n)) (2 ^ 53)) as [E|_]; [exfalso; change (2 ^ 53) with (2 * 2 ^ 52) in E; nia|].
  by destruct (Z.ltb_spec 971 (Z.log2 n - 52)); [lia|].
Qed.

(** The value of that double, as an integral fraction. *)
Lemma int_scale n :
  0 < n < 2 ^ 53 ->
  let '(num, den) := scale2 (n * 2 ^ (52 - Z.log2 n)) 1 (Z.log2 n - 52) in num = n * den /\ 0 < den.
Proof.
  intros [Hpos Hlt]. pose proof (Z.log2_nonneg n).
  assert (Z.log2 n <= 52) by (apply Z.log2_lt_pow2 in Hlt; lia). unfold scale2.
  destruct (Z.leb_spec 0 (Z.log2 n - 52)).
  - replace (Z.log2 n) with 52 by lia. simpl. lia.
  - replace (- (Z.log2 n - 52)) with (52 - Z.log2 n) by lia. split; [lia|].
    assert (0 < 2 ^ (52 - Z.log2 n)) by (apply Z.pow_pos_nonneg; lia). lia.
Qed.

Lemma trunc_int n :
  0 < n < 2 ^ 53 -> trunc (n * 2 ^ (52 - Z.log2 n)) (Z.log2 n - 52) = n.
Proof.
  intros H. pose proof (int_scale n H) as Hs. unfold scale2, trunc in *.
  destruct (0 <=? Z.log2 n - 52).
  - destruct Hs. lia.
  - destruct Hs as [-> Hd]. rewrite Z.mul_1_l in *. by apply Z.div_mul; lia.
Qed.

Lemma cast_round neg n :
  0 <= n < 2 ^ 31 -> cast_int (round_double neg n 1) = Some (if neg then - n else n).
Proof.
  intros Hn. destruct (decide (n = 0)) as [->|Hne]; [by destruct neg|].
  rewrite round_double_int by lia. unfold cast_int. rewrite trunc_int by lia. unfold INT_MAX.
  destruct neg; (destruct (_ && _) eqn:E; [done|exfalso; lia]).
Qed.

Lemma cast_of_int n : - 2 ^ 31 < n < 2 ^ 31 -> cast_int (of_int n) = Some n.
Proof.
  intros Hn. unfold of_int. rewrite cast_round by lia. f_equal.
  destruct (Z.ltb_spec n 0); lia.
Qed.

(** ** Integers as text *)

Lemma strip_zeros_replicate k : strip_zeros (replicate k "0"%c) = [].
Proof.
  unfold strip_zeros. rewrite <-(reverse_replicate k). unfold reverse.
  rewrite <-rev_alt, rev_involutive. by induction k.
Qed.

Lemma dec_mul_pow n k :
  0 < n -> dec (n * 10 ^ Z.of_nat k) = dec n ++ replicate k "0"%c.
Proof.
  intros Hn. induction k as [|k IH]; [by rewrite Z.mul_1_r, app_nil_r|].
  rewrite Nat2Z.inj_succ, Z.pow_succ_r by lia.
  assert (0 < 10 ^ Z.of_nat k) by (apply Z.pow_pos_nonneg; lia).
  rewrite dec_snoc by nia.
  replace (n * (10 * 10 ^ Z.of_nat k)) with (n * 10 ^ Z.of_nat k * 10) by lia.
  rewrite Z.div_mul, Z.mod_mul, IH by lia. rewrite replicate_S_end, app_assoc. done.
Qed.

Lemma length_dec_bounds n : 0 < n -> 10 ^ (Z.of_nat (length (dec n)) - 1) <= n < 10 ^ Z.of_nat (length (dec n)).
Proof.
  intros Hn. assert (0 <= n) as H0 by lia. revert Hn. pattern n. apply dec_ind; [|intros m Hm IH|done]; cbv beta.
  - intros m Hm H. rewrite dec_small by lia. simpl. lia.
  - intros H. rewrite dec_snoc by lia. rewrite length_app. simpl length.
    rewrite Nat2Z.inj_add. change (Z.of_nat 1) with 1.
    specialize (IH ltac:(dlia)). set (l := Z.of_nat (length (dec (m / 10)))) in *.
    replace (l + 1 - 1) with (l - 1 + 1) by lia.
    assert (1 <= l).
    { destruct (dec (m / 10)) eqn:E; [by apply dec_nonnil in E; [|dlia]|]. unfold l. simpl. lia. }
    rewrite !Z.pow_add_r by lia. dlia.
Qed.

Lemma div_rne_mul n d : 0 < d -> div_rne (n * d) d = n.
Proof.
  intros Hd. unfold div_rne. rewrite Z.div_mul, Z.mod_mul by lia.
  destruct (Z.ltb_spec d (2 * 0)); [lia|]. destruct (Z.eqb_spec (2 * 0) d); [lia|done].
Qed.

Lemma length_dec_le n k : 0 < n < 10 ^ k -> 0 <= k -> Z.of_nat (length (dec n)) <= k.
Proof.
  intros [Hp Hlt] Hk. destruct (length_dec_bounds n Hp) as [Hl _].
  destruct (Z.le_gt_cases (Z.of_nat (length (dec n))) k); [done|].
  assert (10 ^ k <= 10 ^ (Z.of_nat (length (dec n)) - 1)) by (apply Z.pow_le_mono_r; lia). lia.
Qed.

Lemma length_dec_pos n : 0 <= n -> (0 < length (dec n))%nat.
Proof. intros Hn. pose proof (dec_nonnil n Hn). destruct (dec n); [done|simpl; lia]. Qed.

(** Printing a number that is an integer below 2^53 gives its digits. *)
Lemma format_round neg n :
  0 <= n < 2 ^ 53 -> format_g17 (round_double neg n 1) = (if neg then ["-"%c] else []) ++ dec n.
Proof.
  intros Hn. destruct (decide (n = 0)) as [->|Hne]; [by destruct neg|].
  rewrite round_double_int by lia. unfold format_g17. f_equal.
  pose proof (log2_bounds n ltac:(lia)). pose proof (int_scale n ltac:(lia)) as Hs.
  assert (0 < 2 ^ (52 - Z.log2 n)).
  { apply Z.pow_pos_nonneg; [lia|]. assert (Z.log2 n < 53) by (apply Z.log2_lt_pow2; lia). lia. }
  destruct (Z.eqb_spec (n * 2 ^ (52 - Z.log2 n)) 0); [nia|].
  destruct (scale2 _ _ _) as [num den]. destruct Hs as [-> Hden]. unfold exponent10.
  destruct (Z.leb_spec den (n * den)); [|nia]. rewrite Z.div_mul by lia.
  set (l := length (dec n)).
  assert (0 < l)%nat by (apply length_dec_pos; lia).
  assert (Z.of_nat l <= 16) by (apply length_dec_le; lia).
  unfold scale10. destruct (Z.leb_spec 0 (16 - (Z.of_nat l - 1))); [|lia].
  replace (n * den * 10 ^ (16 - (Z.of_nat l - 1))) with (n * 10 ^ Z.of_nat (17 - l) * den)
    by (replace (16 - (Z.of_nat l - 1)) with (Z.of_nat (17 - l)) by lia; lia).
  rewrite div_rne_mul by done.
  assert (n * 10 ^ Z.of_nat (17 - l) < 10 ^ 17).
  { destruct (length_dec_bounds n ltac:(lia)) as [_ Hlt]. fold l in Hlt.
    replace 17 with (Z.of_nat l + Z.of_nat (17 - l)) by lia. rewrite Z.pow_add_r by lia.
    apply Z.mul_lt_mono_pos_r; [apply Z.pow_pos_nonneg; lia|done]. }
  destruct (Z.eqb_spec (n * 10 ^ Z.of_nat (17 - l)) (10 ^ 17)); [lia|].
  destruct (Z.leb_spec (-4) (Z.of_nat l - 1)), (Z.ltb_spec (Z.of_nat l - 1) 17); try lia. simpl.
  destruct (Z.leb_spec 0 (Z.of_nat l - 1)); [|lia].
  replace (Z.to_nat (Z.of_nat l - 1 + 1)) with l by lia.
  rewrite dec_mul_pow by lia. unfold with_point, l.
  rewrite take_app_length, drop_app_length, strip_zeros_replicate. apply app_nil_r.
Qed.

(** ** Reading an integer *)

(** What may follow a number without being read as part of it. *)
Definition num_end (rest : bytes) : Prop :=
  match rest with
  | [] => True
  | c :: _ => isdigit c = false /\ c <> "."%c /\ toupper c <> "E"%c /\ toupper c <> "X"%c
  end.

Lemma toupper_digit c : isdigit c = true -> toupper c = c.
Proof. intros H%isdigit_range. unfold toupper. destruct (_ && _) eqn:E; [lia|done]. Qed.

Lemma scan_mantissa_digits ds rest :
  digits ds -> ds <> [] -> num_end rest -> scan_mantissa isdigit (ds ++ rest) = Some (ds, [], rest).
Proof.
  intros Hd Hne He. unfold scan_mantissa. rewrite span_all.
  - destruct rest as [|c rest]; [by destruct ds|].
    destruct He as (_ & Hdot & _). destruct (Z.eqb_spec c 46); [done|]. by destruct ds.
  - exact Hd.
  - destruct rest; [done|]. apply He.
  - done.
Qed.

Lemma scan_exp_end rest : num_end rest -> scan_exp "E"%c rest = (0, rest).
Proof.
  destruct rest as [|c rest]; [done|]. intros (_ & _ & He & _). unfold scan_exp.
  by destruct (Z.eqb_spec (toupper c) 69).
Qed.

Lemma decimal_int neg n :
  0 <= n < 2 ^ 53 -> decimal neg n (Z.of_nat (length (dec n))) 0 = round_double neg n 1.
Proof.
  intros Hn. unfold decimal. destruct (Z.eqb_spec n 0) as [->|Hne]; [done|].
  assert (Z.of_nat (length (dec n)) <= 16) by (apply length_dec_le; lia).
  destruct (Z.ltb_spec 400 (0 + Z.of_nat (length (dec n)))); [lia|].
  destruct (Z.ltb_spec (0 + Z.of_nat (length (dec n))) (-400)); [lia|].
  unfold scale10. simpl. by rewrite Z.mul_1_r.
Qed.

Lemma strtod_decimal_dec s neg n rest :
  0 <= n < 2 ^ 53 -> num_end rest ->
  sd_val (strtod_decimal s neg (dec n ++ rest)) = round_double neg n 1 /\
  sd_end (strtod_decimal s neg (dec n ++ rest)) = rest.
Proof.
  intros Hn He. unfold strtod_decimal.
  rewrite scan_mantissa_digits by (try apply dec_digits; try apply dec_nonnil; (done || lia)).
  rewrite scan_exp_end by done. split; [|done]. cbn [sd_val].
  rewrite app_nil_r, dval_dec by lia. by apply decimal_int.
Qed.

Lemma dec_head n : 0 <= n -> exists c ds, dec n = c :: ds /\ isdigit c = true /\ (c = "0"%c -> ds = []).
Proof.
  intros Hn. destruct (dec_canonical n Hn) as (Hd & _ & Hcan). destruct (dec n) as [|c ds] eqn:E.
  { by apply dec_nonnil in E. }
  exists c, ds. unfold digits in Hd. simpl in Hd. apply andb_true_iff in Hd as [Hc _].
  split_and!; [done|done|]. intros ->. specialize (Hcan eq_refl). by destruct ds.
Qed.

Lemma match_word_digit w c ds :
  isdigit c = true -> match w with d :: _ => isdigit d = false | [] => False end ->
  match_word w (c :: ds) = None.
Proof.
  intros Hc Hw. destruct w as [|d w]; [done|]. simpl. rewrite toupper_digit by done.
  destruct (Z.eqb_spec c d) as [->|]; [congruence|done].
Qed.

(** [strtod] reads the digits of an integer below 2^53 as that integer, with
    or without a sign, and stops behind them. *)
Lemma strtod_dec neg n rest :
  0 <= n < 2 ^ 53 -> num_end rest ->
  let s := (if (neg : bool) then ["-"%c] else []) ++ dec n ++ rest in
  sd_val (strtod s) = round_double neg n 1 /\ sd_end (strtod s) = rest.
Proof.
  intros Hn He s. destruct (dec_head n ltac:(lia)) as (c & ds & Hd & Hc & Hz).
  assert (scan_sign (skip_ws s) = (neg, dec n ++ rest)) as Hs.
  { unfold s. rewrite Hd. apply isdigit_range in Hc. destruct neg; simpl.
    - done.
    - rewrite isdigit_not_space by (by apply isdigit_range). simpl.
      destruct (Z.eqb_spec c 45); [lia|]. by destruct (Z.eqb_spec c 43); [lia|]. }
  assert (forall w, match w with d :: _ => isdigit d = false | [] => False end ->
          match_word w (dec n ++ rest) = None) as Hw.
  { intros w Hw. rewrite Hd. by apply match_word_digit. }
  assert (match dec n ++ rest with
          | c0 :: cx :: q => if (c0 =? "0"%c) && (toupper cx =? "X"%c) then strtod_hex neg q else None
          | _ => None
          end = None) as Hhex.
  { rewrite Hd. simpl. destruct (Z.eqb_spec c 48) as [->|Hne]; [|by destruct (ds ++ rest)].
    rewrite (Hz eq_refl). simpl. destruct rest as [|x rest]; [done|].
    destruct He as (_ & _ & _ & Hx). by destruct (Z.eqb_spec (toupper x) 88). }
  unfold strtod. rewrite Hs, !Hw by by vm_compute. rewrite Hhex.
  by apply strtod_decimal_dec.
Qed.
