(* ===== verification/Json.v ===== *)
(** * JSON values, parser and serializer (vendor/parson/parson.c)

    The values, the recursive-descent parser behind [json_parse_string] and
    the serializer behind [json_serialize_to_string], with the accessors the
    API uses.  A value is a tree: the [parent] back pointers are not part of
    it.  Allocations succeed. *)

From S2P Require Import Prelude Libc JsonObject Double.

Definition MAX_NESTING : nat := 2048.

(** JSON text: an apostrophe stands for a quote. *)
Definition q2 (s : string) : string :=
  (fix go s := match s with
               | EmptyString => EmptyString
               | String a s' => String (if Ascii.eqb a (Ascii.ascii_of_nat 39) then Ascii.ascii_of_nat 34 else a) (go s')
               end) s.

Definition jtext (s : string) : bytes := b2l (q2 s).

(** ** Values *)

Record json_array (V : Type) := Arr { items : list V; arr_capacity : Z }.
Arguments Arr {V}.
Arguments items {V}.
Arguments arr_capacity {V}.

Inductive JSON_Value :=
| JSONNull
| JSONString (chars : bytes)
| JSONNumber (number : double)
| JSONObject (object : json_object JSON_Value)
| JSONArray (array : json_array JSON_Value)
| JSONBoolean (boolean : bool).

Definition json_array_make : json_array JSON_Value := Arr [] 0.

(** [None]: [JSONFailure]. *)
Definition json_array_resize (a : json_array JSON_Value) (new_capacity : Z)
  : option (json_array JSON_Value) :=
  if new_capacity =? 0 then None else Some (Arr (items a) new_capacity).

Definition json_array_get_count (a : json_array JSON_Value) : Z := Z.of_nat (length (items a)).

Definition json_array_add (a : json_array JSON_Value) (value : JSON_Value)
  : option (json_array JSON_Value) :=
  a ← (if arr_capacity a <=? json_array_get_count a
       then json_array_resize a (Z.max (u64 (arr_capacity a * 2)) STARTING_CAPACITY)
       else Some a);
  Some (Arr (items a ++ [value]) (arr_capacity a)).

Definition json_value_init_object : JSON_Value := JSONObject json_object_make.
Definition json_value_init_array : JSON_Value := JSONArray json_array_make.
Definition json_value_init_boolean (b : bool) : JSON_Value := JSONBoolean b.
Definition json_value_init_null : JSON_Value := JSONNull.

Definition json_value_init_number (number : double) : option JSON_Value :=
  if isnan number || isinf number then None else Some (JSONNumber number).

(** The accessors take a value that may be NULL. *)
Definition json_value_get_object (v : option JSON_Value) : option (json_object JSON_Value) :=
  match v with Some (JSONObject o) => Some o | _ => None end.

Definition json_value_get_array (v : option JSON_Value) : option (json_array JSON_Value) :=
  match v with Some (JSONArray a) => Some a | _ => None end.

(** A C string ends at the first NUL. *)
Fixpoint cstr (s : bytes) : bytes :=
  match s with [] => [] | c :: s' => if c =? 0 then [] else c :: cstr s' end.

Definition json_value_get_string (v : option JSON_Value) : option bytes :=
  match v with Some (JSONString s) => Some (cstr s) | _ => None end.

Definition json_value_get_string_len (v : option JSON_Value) : Z :=
  match v with Some (JSONString s) => Z.of_nat (length s) | _ => 0 end.

Definition json_value_get_number (v : option JSON_Value) : double :=
  match v with Some (JSONNumber d) => d | _ => DFin false 0 0 end.

(** ** Strings *)

Definition hex_char_to_int (c : Z) : Z :=
  if ("0"%c <=? c) && (c <=? "9"%c) then c - "0"%c
  else if ("a"%c <=? c) && (c <=? "f"%c) then c - "a"%c + 10
  else if ("A"%c <=? c) && (c <=? "F"%c) then c - "A"%c + 10
  else -1.

Definition parse_utf16_hex (s : bytes) : option Z :=
  match s with
  | s0 :: s1 :: s2 :: s3 :: _ =>
      let x1 := hex_char_to_int s0 in
      let x2 := hex_char_to_int s1 in
      let x3 := hex_char_to_int s2 in
      let x4 := hex_char_to_int s3 in
      if (x1 =? -1) || (x2 =? -1) || (x3 =? -1) || (x4 =? -1) then None
      else Some (Z.lor (Z.shiftl x1 12) (Z.lor (Z.shiftl x2 8) (Z.lor (Z.shiftl x3 4) x4)))
  | _ => None
  end.

(** [unprocessed] points at the 'u'.  The bytes written, and the pointer at
    the last character consumed. *)
Definition parse_utf16 (unprocessed : bytes) : option (bytes * bytes) :=
  let p := drop 1 unprocessed in
  cp ← parse_utf16_hex p;
  if cp <? 0x80 then Some ([cp], drop 3 p)
  else if cp <? 0x800 then
    Some ([Z.lor (Z.land (Z.shiftr cp 6) 0x1F) 0xC0; Z.lor (Z.land cp 0x3F) 0x80], drop 3 p)
  else if (cp <? 0xD800) || (0xDFFF <? cp) then
    Some ([Z.lor (Z.land (Z.shiftr cp 12) 0x0F) 0xE0; Z.lor (Z.land (Z.shiftr cp 6) 0x3F) 0x80;
           Z.lor (Z.land cp 0x3F) 0x80], drop 3 p)
  else if (0xD800 <=? cp) && (cp <=? 0xDBFF) then
    let lead := cp in
    let p := drop 4 p in
    if negb (deref p =? "\"%c) || negb (deref (drop 1 p) =? "u"%c) then None
    else
      let p := drop 2 p in
      trail ← parse_utf16_hex p;
      if (trail <? 0xDC00) || (0xDFFF <? trail) then None
      else
        let cp := Z.lor (Z.shiftl (Z.land (lead - 0xD800) 0x3FF) 10) (Z.land (trail - 0xDC00) 0x3FF)
                  + 0x10000 in
        Some ([Z.lor (Z.land (Z.shiftr cp 18) 0x07) 0xF0; Z.lor (Z.land (Z.shiftr cp 12) 0x3F) 0x80;
               Z.lor (Z.land (Z.shiftr cp 6) 0x3F) 0x80; Z.lor (Z.land cp 0x3F) 0x80], drop 3 p)
  else None.

Definition QUOTE : Z := 34.
Definition BACKSLASH : Z := 92.

(** The escapes of [process_string] other than \u. *)
Definition unescape (c : Z) : option Z :=
  if c =? QUOTE then Some QUOTE
  else if c =? BACKSLASH then Some BACKSLASH
  else if c =? "/"%c then Some "/"%c
  else if c =? "b"%c then Some 8
  else if c =? "f"%c then Some 12
  else if c =? "n"%c then Some 10
  else if c =? "r"%c then Some 13
  else if c =? "t"%c then Some 9
  else None.

(** What one turn of the loop of [process_string] writes, and the pointer at
    the last character it consumed; [None]: error. *)
Definition process_char (input : bytes) : option (bytes * bytes) :=
  if deref input =? BACKSLASH then
    let input := drop 1 input in
    if deref input =? "u"%c then parse_utf16 input
    else c ← unescape (deref input); Some ([c], input)
  else if deref input <? 0x20 then None
  else Some ([deref input], input).

(** The loop: [len] is the number of input characters left; every turn
    consumes one at least, so that [len] turns are enough. *)
Fixpoint process_loop (fuel : nat) (input : bytes) (len : Z) : option bytes :=
  if (deref input =? 0) || (len <=? 0) then Some []
  else
    match fuel with
    | O => None
    | S fuel =>
        '(w, p) ← process_char input;
        let input' := drop 1 p in
        rest ← process_loop fuel input' (len - (Z.of_nat (length input) - Z.of_nat (length input')));
        Some (w ++ rest)
    end.

Definition process_string (input : bytes) (input_len : Z) : option bytes :=
  process_loop (Z.to_nat input_len) input input_len.

(** The loop of [skip_quotes], after the opening quote: what follows the
    closing one. *)
Fixpoint skip_quotes_loop (s : bytes) : option bytes :=
  match s with
  | [] => None
  | c :: s' =>
      if c =? QUOTE then Some s'
      else if c =? BACKSLASH then
        match s' with [] => None | _ :: s'' => skip_quotes_loop s'' end
      else skip_quotes_loop s'
  end.

Definition skip_quotes (s : bytes) : option bytes :=
  if deref s =? QUOTE then skip_quotes_loop (drop 1 s) else None.

Definition get_quoted_string (s : bytes) : option (bytes * bytes) :=
  rest ← skip_quotes s;
  let input_string_len := Z.of_nat (length s) - Z.of_nat (length rest) - 2 in
  str ← process_string (drop 1 s) input_string_len;
  Some (str, rest).

(** ** UTF-8 *)

Definition IS_CONT (b : Z) : bool := Z.land b 0xC0 =? 0x80.

Definition num_bytes_in_utf8_sequence (c : Z) : Z :=
  if (c =? 0xC0) || (c =? 0xC1) || (0xF4 <? c) || IS_CONT c then 0
  else if Z.land c 0x80 =? 0 then 1
  else if Z.land c 0xE0 =? 0xC0 then 2
  else if Z.land c 0xF0 =? 0xE0 then 3
  else if Z.land c 0xF8 =? 0xF0 then 4
  else 0.

(** [Some len]: a valid sequence of [len] bytes. *)
Definition verify_utf8_sequence (string : bytes) : option Z :=
  let at_ k := deref (drop k string) in
  let len := num_bytes_in_utf8_sequence (at_ 0%nat) in
  cp ← (if len =? 1 then Some (at_ 0%nat)
        else if (len =? 2) && IS_CONT (at_ 1%nat) then
          Some (Z.lor (Z.shiftl (Z.land (at_ 0%nat) 0x1F) 6) (Z.land (at_ 1%nat) 0x3F))
        else if (len =? 3) && IS_CONT (at_ 1%nat) && IS_CONT (at_ 2%nat) then
          Some (Z.lor (Z.shiftl (Z.lor (Z.shiftl (Z.land (at_ 0%nat) 0xF) 6) (Z.land (at_ 1%nat) 0x3F)) 6)
                  (Z.land (at_ 2%nat) 0x3F))
        else if (len =? 4) && IS_CONT (at_ 1%nat) && IS_CONT (at_ 2%nat) && IS_CONT (at_ 3%nat) then
          Some (Z.lor (Z.shiftl (Z.lor (Z.shiftl (Z.lor (Z.shiftl (Z.land (at_ 0%nat) 0x7) 6)
                  (Z.land (at_ 1%nat) 0x3F)) 6) (Z.land (at_ 2%nat) 0x3F)) 6) (Z.land (at_ 3%nat) 0x3F))
        else None);
  if ((cp <? 0x80) && (1 <? len)) || ((cp <? 0x800) && (2 <? len)) || ((cp <? 0x10000) && (3 <? len))
  then None
  else if 0x10FFFF <? cp then None
  else if (0xD800 <=? cp) && (cp <=? 0xDFFF) then None
  else Some len.

(** The loop of [is_valid_utf8]; a valid sequence has at least one byte, so
    that [string_len] turns are enough. *)
Fixpoint valid_utf8_loop (fuel : nat) (string : bytes) (left_ : Z) : bool :=
  if left_ <=? 0 then true
  else
    match fuel with
    | O => false
    | S fuel =>
        match verify_utf8_sequence string with
        | None => false
        | Some len => valid_utf8_loop fuel (drop (Z.to_nat len) string) (left_ - len)
        end
    end.

Definition is_valid_utf8 (string : bytes) (string_len : Z) : bool :=
  valid_utf8_loop (Z.to_nat string_len) string string_len.

Definition json_value_init_string_with_len (string : bytes) (length : Z) : option JSON_Value :=
  if is_valid_utf8 string length then Some (JSONString (take (Z.to_nat length) string)) else None.

Definition json_value_init_string (string : bytes) : option JSON_Value :=
  json_value_init_string_with_len string (strlen string).

(** ** Scalars *)

Definition strncmp_token (token : string) (s : bytes) : bool :=
  strncmp_eq (length (b2l token)) (b2l token) s.

Definition parse_string_value (s : bytes) : option (JSON_Value * bytes) :=
  '(str, rest) ← get_quoted_string s; Some (JSONString str, rest).

Definition parse_boolean_value (s : bytes) : option (JSON_Value * bytes) :=
  if strncmp_token "true" s then Some (json_value_init_boolean true, drop 4 s)
  else if strncmp_token "false" s then Some (json_value_init_boolean false, drop 5 s)
  else None.

Definition parse_null_value (s : bytes) : option (JSON_Value * bytes) :=
  if strncmp_token "null" s then Some (json_value_init_null, drop 4 s) else None.

(** [strchr("xX", c)] also finds the terminator of "xX". *)
Definition is_decimal (s : bytes) (length : nat) : bool :=
  if ((1 <? length)%nat && (deref s =? "0"%c) && negb (deref (drop 1 s) =? "."%c)) then false
  else if ((2 <? length)%nat && strncmp_eq 2 s (b2l "-0") && negb (deref (drop 2 s) =? "."%c)) then false
  else forallb (fun c => negb ((c =? "x"%c) || (c =? "X"%c) || (c =? 0))) (take length s).

Definition parse_number_value (s : bytes) : option (JSON_Value * bytes) :=
  let r := strtod s in
  if sd_erange r && isinf (sd_val r) then None
  else if negb (is_decimal s (length s - length (sd_end r))) then None
  else v ← json_value_init_number (sd_val r); Some (v, sd_end r).

(** ** The parser *)

(** NULL, undefined behaviour, or the fuel has run out. *)
Inductive parse_result (A : Type) := POk (a : A) (rest : bytes) | PNull | PUndef | PFuel.
Arguments POk {A}.
Arguments PNull {A}.
Arguments PUndef {A}.
Arguments PFuel {A}.

Definition of_option {A} (o : option (A * bytes)) : parse_result A :=
  match o with Some (a, rest) => POk a rest | None => PNull end.

(** [parse_value], with [parse_object_value] and [parse_array_value]; the
    nesting is the argument of [parse_value]. The loops are the [while] loops
    of the two functions, up to the closing bracket. *)
Fixpoint parse_value (fuel : nat) (s : bytes) (nesting : nat) {struct fuel} : parse_result JSON_Value :=
  match fuel with
  | O => PFuel
  | S fuel =>
      if (MAX_NESTING <? nesting)%nat then PNull
      else
        let s := skip_ws s in
        let c := deref s in
        if c =? "{"%c then
          let s := skip_ws (drop 1 s) in
          if deref s =? "}"%c then POk json_value_init_object (drop 1 s)
          else
            match parse_object_loop fuel json_object_make s (S nesting) with
            | POk o rest => POk (JSONObject o) rest
            | PNull => PNull | PUndef => PUndef | PFuel => PFuel
            end
        else if c =? "["%c then
          let s := skip_ws (drop 1 s) in
          if deref s =? "]"%c then POk json_value_init_array (drop 1 s)
          else
            match parse_array_loop fuel json_array_make s (S nesting) with
            | POk a rest => POk (JSONArray a) rest
            | PNull => PNull | PUndef => PUndef | PFuel => PFuel
            end
        else if c =? QUOTE then of_option (parse_string_value s)
        else if (c =? "f"%c) || (c =? "t"%c) then of_option (parse_boolean_value s)
        else if (c =? "-"%c) || isdigit c then of_option (parse_number_value s)
        else if c =? "n"%c then of_option (parse_null_value s)
        else PNull
  end
with parse_object_loop (fuel : nat) (o : json_object JSON_Value) (s : bytes) (nesting : nat)
    {struct fuel} : parse_result (json_object JSON_Value) :=
  match fuel with
  | O => PFuel
  | S fuel =>
      let finish o s :=
        let s := skip_ws s in
        if deref s =? "}"%c then POk o (drop 1 s) else PNull in
      if deref s =? 0 then finish o s
      else
        match get_quoted_string s with
        | None => PNull
        | Some (new_key, s) =>
            if negb (length new_key =? length (cstr new_key))%nat then PNull
            else
              let s := skip_ws s in
              if negb (deref s =? ":"%c) then PNull
              else
                match parse_value fuel (drop 1 s) nesting with
                | POk new_value s =>
                    match json_object_add o new_key new_value with
                    | Success o =>
                        let s := skip_ws s in
                        if negb (deref s =? ","%c) then finish o s
                        else
                          let s := skip_ws (drop 1 s) in
                          if deref s =? "}"%c then finish o s
                          else parse_object_loop fuel o s nesting
                    | Failure => PNull
                    | Undef => PUndef
                    end
                | PNull => PNull | PUndef => PUndef | PFuel => PFuel
                end
        end
  end
with parse_array_loop (fuel : nat) (a : json_array JSON_Value) (s : bytes) (nesting : nat)
    {struct fuel} : parse_result (json_array JSON_Value) :=
  match fuel with
  | O => PFuel
  | S fuel =>
      let finish a s :=
        let s := skip_ws s in
        if negb (deref s =? "]"%c) then PNull
        else match json_array_resize a (json_array_get_count a) with
             | None => PNull
             | Some a => POk a (drop 1 s)
             end in
      if deref s =? 0 then finish a s
      else
        match parse_value fuel s nesting with
        | POk new_array_value s =>
            match json_array_add a new_array_value with
            | None => PNull
            | Some a =>
                let s := skip_ws s in
                if negb (deref s =? ","%c) then finish a s
                else
                  let s := skip_ws (drop 1 s) in
                  if deref s =? "]"%c then finish a s
                  else parse_array_loop fuel a s nesting
            end
        | PNull => PNull | PUndef => PUndef | PFuel => PFuel
        end
  end.

(** Each character costs two calls at most. *)
Definition parse_fuel (s : bytes) : nat := 2 * length s + 2.

Definition json_parse_string (s : bytes) : parse_result JSON_Value :=
  let s := if strncmp_eq 3 s [0xEF; 0xBB; 0xBF] then drop 3 s else s in
  parse_value (parse_fuel s) s 0.

Definition json_object_get_string (o : json_object JSON_Value) (name : bytes) : option (option bytes) :=
  v ← json_object_get_value o name; Some (json_value_get_string v).

(** [json_object_dotget_value]: [fuel] bounds the number of dots.  [None]: an
    access out of bounds; [Some None]: NULL.  A NULL object gives NULL. *)
Fixpoint dotget_value (fuel : nat) (o : option (json_object JSON_Value)) (name : bytes)
  : option (option JSON_Value) :=
  match strchr name "."%c with
  | None => match o with None => Some None | Some o => json_object_get_value o name end
  | Some dot =>
      match fuel with
      | O => None
      | S fuel =>
          v ← match o with
              | None => Some None
              | Some o => json_object_getn_value o name (Z.of_nat (length name) - Z.of_nat (length dot))
              end;
          dotget_value fuel (json_value_get_object v) (drop 1 dot)
      end
  end.

Definition json_object_dotget_value (o : json_object JSON_Value) (name : bytes) :=
  dotget_value (length name) (Some o) name.

Definition json_object_dotget_string (o : json_object JSON_Value) (name : bytes) : option (option bytes) :=
  v ← json_object_dotget_value o name; Some (json_value_get_string v).

(** [json_object_set_string] and [json_object_set_number]: without a value
    nothing is set. *)
Definition json_object_set_opt (o : json_object JSON_Value) (name : bytes) (value : option JSON_Value)
  : result (json_object JSON_Value) :=
  match value with None => Failure | Some v => json_object_set_value o name v end.

Definition json_object_set_string (o : json_object JSON_Value) (name string : bytes) :=
  json_object_set_opt o name (json_value_init_string string).

Definition json_object_set_number (o : json_object JSON_Value) (name : bytes) (number : double) :=
  json_object_set_opt o name (json_value_init_number number).

(** The value appended has no parent. *)
Definition json_array_append_value (a : json_array JSON_Value) (value : JSON_Value)
  : option (json_array JSON_Value) := json_array_add a value.

Definition json_object_dotget_number (o : json_object JSON_Value) (name : bytes) : option double :=
  v ← json_object_dotget_value o name; Some (json_value_get_number v).

(** ** The serializer *)

(** [parson_escape_slashes] is 1. *)
Definition escape (c : Z) : bytes :=
  if c =? QUOTE then [BACKSLASH; QUOTE]
  else if c =? BACKSLASH then [BACKSLASH; BACKSLASH]
  else if c =? 8 then [BACKSLASH; "b"%c]
  else if c =? 12 then [BACKSLASH; "f"%c]
  else if c =? 10 then [BACKSLASH; "n"%c]
  else if c =? 13 then [BACKSLASH; "r"%c]
  else if c =? 9 then [BACKSLASH; "t"%c]
  else if (0 <=? c) && (c <=? 0x1F) then
    [BACKSLASH; "u"%c; "0"%c; "0"%c; "0"%c + c / 16;
     if c mod 16 <? 10 then "0"%c + c mod 16 else "a"%c + (c mod 16 - 10)]
  else if c =? "/"%c then [BACKSLASH; "/"%c]
  else [c].

Definition json_serialize_string (s : bytes) : bytes :=
  QUOTE :: concat (map escape s) ++ [QUOTE].

Definition PARSON_INDENT_STR : bytes := b2l "    ".

Definition append_indent (level : nat) : bytes := concat (replicate level PARSON_INDENT_STR).

Definition NEWLINE : Z := 10.

(** [pretty_str p s]: appended only if [is_pretty]. *)
Definition pretty_str (is_pretty : bool) (s : bytes) : bytes := if is_pretty then s else [].

(** The text appended to the buffer, whose length is returned; [None]: -1.
    With [buf == NULL] the function takes the same branches and only counts. *)
Fixpoint json_serialize_to_buffer_r (value : JSON_Value) (level : nat) (is_pretty : bool)
  : option bytes :=
  match value with
  | JSONArray (Arr items _) =>
      body ← (fix go (l : list JSON_Value) : option bytes :=
                match l with
                | [] => Some []
                | temp_value :: l' =>
                    t ← json_serialize_to_buffer_r temp_value (S level) is_pretty;
                    rest ← go l';
                    Some (pretty_str is_pretty (append_indent (S level)) ++ t ++
                          match l' with [] => [] | _ => [","%c] end ++
                          pretty_str is_pretty [NEWLINE] ++ rest)
                end) items;
      Some ("["%c ::
            (match items with [] => [] | _ => pretty_str is_pretty [NEWLINE] end) ++ body ++
            (match items with [] => [] | _ => pretty_str is_pretty (append_indent level) end) ++
            ["]"%c])
  | JSONObject (Obj _ _ names values _ _ _ _) =>
      body ← (fix go (ks : list bytes) (l : list JSON_Value) {struct l} : option bytes :=
                match l with
                | [] => Some []
                | temp_value :: l' =>
                    match ks with
                    | [] => None
                    | key :: ks' =>
                        t ← json_serialize_to_buffer_r temp_value (S level) is_pretty;
                        rest ← go ks' l';
                        Some (pretty_str is_pretty (append_indent (S level)) ++
                              json_serialize_string key ++ ":"%c :: pretty_str is_pretty [" "%c] ++ t ++
                              match l' with [] => [] | _ => [","%c] end ++
                              pretty_str is_pretty [NEWLINE] ++ rest)
                    end
                end) names values;
      Some ("{"%c ::
            (match values with [] => [] | _ => pretty_str is_pretty [NEWLINE] end) ++ body ++
            (match values with [] => [] | _ => pretty_str is_pretty (append_indent level) end) ++
            ["}"%c])
  | JSONString s => Some (json_serialize_string s)
  | JSONBoolean b => Some (if b then b2l "true" else b2l "false")
  | JSONNumber num => Some (format_g17 num)
  | JSONNull => Some (b2l "null")
  end.

Definition json_serialization_size (value : JSON_Value) : Z :=
  match json_serialize_to_buffer_r value 0 false with
  | None => 0
  | Some t => Z.of_nat (length t) + 1
  end.

(** The contents of a buffer of [buf_size] bytes, up to the terminator;
    [None]: [JSONFailure]. *)
Definition json_serialize_to_buffer (value : JSON_Value) (buf_size : Z) : option bytes :=
  let needed := json_serialization_size value in
  if (needed =? 0) || (buf_size <? needed) then None
  else json_serialize_to_buffer_r value 0 false.

Definition json_serialize_to_string (value : JSON_Value) : option bytes :=
  let buf_size_bytes := json_serialization_size value in
  if buf_size_bytes =? 0 then None else json_serialize_to_buffer value buf_size_bytes.

Definition reprint (is_pretty : bool) (s : string) : option bytes :=
  match json_parse_string (b2l s) with
  | POk v _ => json_serialize_to_buffer_r v 0 is_pretty
  | _ => None
  end.

Example json_tests :
  map (reprint false ∘ q2)
    [" {'execute' : 'add_hostfwd', 'arguments': {'proto':'tcp','host_port':8080.0, 'x':[1,-2e3,null]}} tail";
     "[]"; "[1,]"; "{'a':1,'a':2}"; "'\u00e9\ud83d\ude00\n\/'"; "'\ud83dx'"; "[1 2]"; "-"; "[-]"; "01"; "1e999";
     "-inf"; "tru"; "{'a'}"; "'"]%string
  = [Some (b2l (q2 "{'execute':'add_hostfwd','arguments':{'proto':'tcp','host_port':8080,'x':[1,-2000,null]}}"));
     Some (b2l "[]"); Some (b2l "[1]"); None;
     Some ([34; 195; 169; 240; 159; 152; 128] ++ b2l "\n\/" ++ [34]); None; None; Some (b2l "0"); None;
     None; None; None; None; None; None].
Proof. vm_compute. reflexivity. Qed.
