(* ===== verification/JsonTheory.v ===== *)
(** * JSON: the parser is total and inverts the serializer

    Lemmas and theorems on Json.v: the parser never runs out of fuel nor out
    of the bounds of a table, what it accepts is a well-formed value of
    bounded depth, strings are processed within their buffer, and parsing
    what the serializer prints gives the value back. *)

From S2P Require Import Prelude Libc JsonObject Double Json.

(** ** Well-formed values

    [json_ok n v]: every object of [v] is a well-formed table, numbers are
    finite, strings are bytes, and [v] has at most [n] levels. *)
Inductive json_ok : nat -> JSON_Value -> Prop :=
| ok_null n : json_ok (S n) JSONNull
| ok_string n s : Forall is_byte s -> json_ok (S n) (JSONString s)
| ok_number n d : isnan d = false -> isinf d = false -> json_ok (S n) (JSONNumber d)
| ok_boolean n b : json_ok (S n) (JSONBoolean b)
| ok_array n a : Forall (json_ok n) (items a) -> json_ok (S n) (JSONArray a)
| ok_object n o : obj_inv o -> Forall (json_ok n) (values o) -> json_ok (S n) (JSONObject o).

Lemma json_ok_mono n m v : (n <= m)%nat -> json_ok n v -> json_ok m v.
Proof.
  revert m v. induction n as [|n IH]; intros m v Hle Hok; [inversion Hok|].
  destruct m as [|m]; [lia|]. inversion Hok; subst; constructor; try done.
  all: eapply Forall_impl; [eassumption|]; intros; apply IH; [lia|done].
Qed.

(** ** Lengths *)

Lemma skip_ws_length s : (length (skip_ws s) <= length s)%nat.
Proof. induction s as [|c s IH]; simpl; [lia|]. destruct (isspace c); simpl; lia. Qed.

Lemma drop_length_le {A} n (s : list A) : (length (drop n s) <= length s)%nat.
Proof. rewrite length_drop. lia. Qed.

Lemma deref_length s : deref s <> 0 -> (0 < length s)%nat.
Proof. destruct s; simpl; [done|lia]. Qed.

(** ** Strings *)

Lemma skip_quotes_loop_length s rest : skip_quotes_loop s = Some rest -> (length rest < length s)%nat.
Proof.
  revert rest. induction s as [s IH] using (induction_ltof1 _ length). unfold ltof in IH. intros rest.
  destruct s as [|c s]; [done|]. cbn [skip_quotes_loop].
  destruct (c =? QUOTE); [intros [= ->]; simpl; lia|].
  destruct (c =? BACKSLASH).
  - destruct s as [|d s]; [done|]. intros H. apply IH in H; simpl in *; lia.
  - intros H. apply IH in H; simpl in *; lia.
Qed.

Lemma skip_quotes_length s rest : skip_quotes s = Some rest -> (length rest + 2 <= length s)%nat.
Proof.
  unfold skip_quotes. destruct s as [|c s]; [done|]. simpl. case_match; [|done].
  rewrite drop_0. intros Hs%skip_quotes_loop_length. lia.
Qed.

Lemma lor_range a b n : 0 <= n -> 0 <= a < 2 ^ n -> 0 <= b < 2 ^ n -> 0 <= Z.lor a b < 2 ^ n.
Proof.
  intros Hn Ha Hb. assert (0 <= Z.lor a b) by (apply Z.lor_nonneg; lia).
  assert (0 < 2 ^ n) by (apply Z.pow_pos_nonneg; lia).
  assert (Z.lor a b / 2 ^ n = 0) as Hd.
  { rewrite <-Z.shiftr_div_pow2, Z.shiftr_lor, !Z.shiftr_div_pow2, !Z.div_small by lia. done. }
  apply Z.div_small_iff in Hd; lia.
Qed.

Lemma hex_char_range c : -1 <= hex_char_to_int c < 16.
Proof. unfold hex_char_to_int. repeat case_match; lia. Qed.

Lemma parse_utf16_hex_range s cp :
  parse_utf16_hex s = Some cp -> 0 <= cp < 65536 /\ (4 <= length s)%nat.
Proof.
  unfold parse_utf16_hex. destruct s as [|s0 [|s1 [|s2 [|s3 s]]]]; try done.
  case_match eqn:E; [done|]. intros [= <-].
  pose proof (hex_char_range s0). pose proof (hex_char_range s1).
  pose proof (hex_char_range s2). pose proof (hex_char_range s3).
  split; [|simpl; lia]. rewrite !Z.shiftl_mul_pow2 by lia.
  change 65536 with (2 ^ 16).
  repeat first [apply lor_range | lia].
  all: change (2 ^ 16) with 65536; change (2 ^ 12) with 4096; change (2 ^ 8) with 256; change (2 ^ 4) with 16; lia.
Qed.

Lemma land_ones_range x k : 0 <= k -> 0 <= Z.land x (Z.ones k) < 2 ^ k.
Proof. intros Hk. rewrite Z.land_ones by done. apply Z.mod_pos_bound. by apply Z.pow_pos_nonneg. Qed.

(** A byte of a UTF-8 sequence: payload bits under a marker. *)
Lemma utf8_byte x k m : 0 <= k <= 7 -> 0 <= m < 256 -> is_byte (Z.lor (Z.land x (Z.ones k)) m).
Proof.
  intros Hk Hm. unfold is_byte. change 256 with (2 ^ 8) in *. apply lor_range; [lia| |done].
  pose proof (land_ones_range x k ltac:(lia)). assert (2 ^ k <= 2 ^ 8) by (apply Z.pow_le_mono_r; lia). lia.
Qed.

Ltac utf8_bytes :=
  change 0x3F with (Z.ones 6); change 0x1F with (Z.ones 5); change 0x0F with (Z.ones 4);
  change 0x07 with (Z.ones 3); repeat constructor; apply utf8_byte; lia.

(** An escape or character is consumed and not expanded: the output is not
    longer than the input read. *)
Definition consumes (input : bytes) (w p : bytes) : Prop :=
  let input' := drop 1 p in
  (length input' < length input)%nat /\ (length w <= length input - length input')%nat /\
  Forall is_byte w /\ exists k, input' = drop k input.

Lemma parse_utf16_consumes u w p : parse_utf16 u = Some (w, p) -> consumes u w p.
Proof.
  unfold parse_utf16. destruct (parse_utf16_hex (drop 1 u)) as [cp|] eqn:Ecp; [|done].
  apply parse_utf16_hex_range in Ecp as [Hcp Hl]. simpl. rewrite length_drop in Hl.
  assert (forall w, (length w <= 5)%nat -> Forall is_byte w -> consumes u w (drop 3 (drop 1 u))) as Hsimple.
  { intros w' Hw Hb. unfold consumes. rewrite !drop_drop, !length_drop. split_and!; [lia|lia|done|].
    by eexists. }
  repeat case_match; try done.
  - intros [= <- <-]. apply Hsimple; [simpl; lia|]. repeat constructor; unfold is_byte; lia.
  - intros [= <- <-]. apply Hsimple; [simpl; lia|]. utf8_bytes.
  - intros [= <- <-]. apply Hsimple; [simpl; lia|]. utf8_bytes.
  - destruct (parse_utf16_hex (drop 2 (drop 4 (drop 1 u)))) as [trail|] eqn:Et; [|done].
    apply parse_utf16_hex_range in Et as [Ht Htl]. simpl in *. case_match; [done|]. intros [= <- <-].
    rewrite !length_drop in Htl. unfold consumes. rewrite !drop_drop, !length_drop.
    split_and!; [lia|simpl; lia| |by eexists]. utf8_bytes.
Qed.

Lemma process_char_consumes input w p :
  wf_cstr input -> input <> [] -> process_char input = Some (w, p) -> consumes input w p.
Proof.
  intros Hwf Hne. unfold process_char.
  destruct input as [|c input]; [done|]. cbn [deref]. apply wf_cstr_cons in Hwf as [Hc Hwf].
  destruct (c =? BACKSLASH).
  - cbn [drop]. rewrite drop_0.
    destruct (deref input =? 117) eqn:Eu.
    + intros H%parse_utf16_consumes. destruct H as (H1 & H2 & H3 & k & Hk).
      unfold consumes. cbn [length] in *. split_and!; [lia|lia|done|]. by exists (S k).
    + destruct (unescape (deref input)) as [x|] eqn:Ex; [|done]. intros [= <- <-].
      assert (is_byte x /\ input <> []) as [Hx Hn].
      { unfold unescape in Ex. split; [repeat case_match; simplify_eq/=; by vm_compute|]. intros ->. done. }
      destruct input as [|d input]; [done|]. unfold consumes. cbn [drop length]. rewrite drop_0.
      split_and!; [lia|lia|constructor; [done|constructor]|]. by exists 2%nat.
  - case_match; [done|]. intros [= <- <-]. unfold consumes. cbn [drop length]. rewrite drop_0.
    unfold is_char in Hc. split_and!; [lia|lia|constructor; [unfold is_byte; lia|constructor]|].
    exists 1%nat. simpl. by rewrite drop_0.
Qed.

Lemma wf_cstr_drop k s : wf_cstr s -> wf_cstr (drop k s).
Proof. apply Forall_drop. Qed.

(** The fuel of [process_string] is enough: more does not change the result. *)
Lemma process_loop_fuel f1 f2 input len :
  wf_cstr input -> (Z.to_nat len <= f1)%nat -> (Z.to_nat len <= f2)%nat ->
  process_loop f1 input len = process_loop f2 input len.
Proof.
  revert f2 input len. induction f1 as [|f1 IH]; intros f2 input len Hwf H1 H2.
  - destruct f2; simpl; [done|]. destruct (Z.leb_spec len 0); [by rewrite orb_true_r|lia].
  - destruct f2 as [|f2]; simpl.
    { destruct (Z.leb_spec len 0); [by rewrite orb_true_r|lia]. }
    destruct ((deref input =? 0) || (len <=? 0)) eqn:E; [done|].
    destruct (process_char input) as [[w p]|] eqn:Ep; [|done]. simpl.
    apply process_char_consumes in Ep as (Hl & _ & _ & k & Hk); [|done|by intros ->].
    rewrite (IH f2); [done| | |]; [rewrite Hk; by apply wf_cstr_drop|lia|lia].
Qed.

(** A turn of [process_string] stays in step with [skip_quotes]: it never
    crosses the closing quote. *)
Lemma skip_hex s cp :
  parse_utf16_hex s = Some cp -> skip_quotes_loop s = skip_quotes_loop (drop 4 s).
Proof.
  unfold parse_utf16_hex. destruct s as [|s0 [|s1 [|s2 [|s3 s]]]]; try done.
  case_match eqn:E; [done|]. intros _.
  assert (forall c, (hex_char_to_int c =? -1) = false -> (c =? QUOTE) = false /\ (c =? BACKSLASH) = false) as Hh.
  { intros c Hc. unfold QUOTE, BACKSLASH.
    split; apply Z.eqb_neq; intros ->; vm_compute in Hc; discriminate. }
  repeat (apply orb_false_iff in E as [E ?]).
  repeat match goal with H : (hex_char_to_int _ =? -1) = false |- _ => apply Hh in H as [? ?] end.
  cbn [drop skip_quotes_loop].
  repeat match goal with H : (_ =? _) = false |- _ => rewrite H; clear H end. by rewrite drop_0.
Qed.

Lemma process_char_step input w p rest :
  deref input <> QUOTE -> skip_quotes_loop input = Some rest -> process_char input = Some (w, p) ->
  skip_quotes_loop (drop 1 p) = Some rest.
Proof.
  intros Hq Hs. unfold process_char. destruct input as [|c input]; [done|]. cbn [deref drop] in *.
  cbn [skip_quotes_loop] in Hs. destruct (Z.eqb_spec c QUOTE); [done|].
  destruct (c =? BACKSLASH).
  - destruct input as [|d s]; [done|]. rewrite drop_0. cbn [deref].
    destruct (Z.eqb_spec d 117) as [->|Hd].
    + unfold parse_utf16. cbn [drop]. rewrite drop_0.
      destruct (parse_utf16_hex s) as [cp|] eqn:Ecp; [|done]. simpl.
      apply skip_hex in Ecp. rewrite Ecp in Hs.
      assert (drop 1 (drop 3 s) = drop 4 s) as Hd by (by rewrite drop_drop).
      repeat case_match; try done; try (intros [= <- <-]; by rewrite Hd).
      destruct (drop 4 s) as [|x1 [|x2 s']] eqn:E4; cbn [deref drop] in *; try done.
      rewrite drop_0 in *. cbn [deref] in *.
      assert (x1 = BACKSLASH /\ x2 = 117) as [-> ->] by (unfold BACKSLASH; lia).
      cbn [skip_quotes_loop] in Hs. simpl in Hs.
      destruct (parse_utf16_hex s') as [trail|] eqn:Et; [|done]. simpl.
      apply skip_hex in Et. rewrite Et in Hs. case_match; [done|]. intros [= <- <-].
      by rewrite drop_drop.
    + destruct (unescape d); [|done]. intros [= <- <-]. cbn [drop]. by rewrite drop_0.
  - case_match; [done|]. intros [= <- <-]. cbn [drop]. by rewrite drop_0.
Qed.

(** The output fits the buffer of [input_len + 1] bytes, and is a sequence of
    bytes. *)
Lemma process_loop_length fuel input rest out :
  wf_cstr input -> skip_quotes_loop input = Some rest ->
  process_loop fuel input (Z.of_nat (length input) - Z.of_nat (length rest) - 1) = Some out ->
  Z.of_nat (length out) <= Z.of_nat (length input) - Z.of_nat (length rest) - 1 /\ Forall is_byte out.
Proof.
  revert input out. induction fuel as [|fuel IH]; intros input out Hwf Hs; simpl.
  - pose proof (skip_quotes_loop_length _ _ Hs).
    case_match; [|done]. intros [= <-]. simpl. split; [lia|constructor].
  - pose proof (skip_quotes_loop_length _ _ Hs).
    case_match eqn:E; [intros [= <-]; simpl; split; [lia|constructor]|].
    assert (deref input <> QUOTE) as Hq.
    { intros Hq. destruct input as [|c input]; [done|]. simpl in Hq. subst.
      simpl in Hs. injection Hs as ->. simpl in E. apply Z.leb_gt in E. lia. }
    destruct (process_char input) as [[w p]|] eqn:Ep; [|done]. simpl.
    pose proof (process_char_step _ _ _ _ Hq Hs Ep) as Hs'.
    apply process_char_consumes in Ep as (Hl & Hw & Hb & k & Hk); [|done|by intros ->].
    destruct (process_loop _ _ _) as [out'|] eqn:Er; [|done]. intros [= <-].
    replace (Z.of_nat (length input) - Z.of_nat (length rest) - 1 -
      (Z.of_nat (length input) - Z.of_nat (length (drop 1 p))))
      with (Z.of_nat (length (drop 1 p)) - Z.of_nat (length rest) - 1) in Er by lia.
    apply IH in Er as [Hr Hrb]; [|rewrite Hk; by apply wf_cstr_drop|done].
    rewrite length_app. split; [lia|]. by apply Forall_app.
Qed.

Lemma suffix_skip_quotes_loop s rest : skip_quotes_loop s = Some rest -> exists k, rest = drop k s.
Proof.
  revert rest. induction s as [s IH] using (induction_ltof1 _ length). unfold ltof in IH. intros rest.
  destruct s as [|c s]; [done|]. cbn [skip_quotes_loop].
  destruct (c =? QUOTE); [intros [= ->]; exists 1%nat; simpl; by rewrite drop_0|].
  destruct (c =? BACKSLASH).
  - destruct s as [|d s]; [done|]. intros Hs. apply IH in Hs as [k ->]; [|simpl; lia]. by exists (S (S k)).
  - intros Hs. apply IH in Hs as [k ->]; [|simpl; lia]. by exists (S k).
Qed.

Lemma get_quoted_string_spec s str rest :
  wf_cstr s -> get_quoted_string s = Some (str, rest) ->
  (length rest + 2 <= length s)%nat /\ (length str + length rest + 2 <= length s)%nat /\
  Forall is_byte str /\ exists k, rest = drop k s.
Proof.
  intros Hwf. unfold get_quoted_string. destruct (skip_quotes s) as [r|] eqn:Es; [|done]. simpl.
  pose proof (skip_quotes_length _ _ Es) as Hl. unfold skip_quotes in Es.
  destruct s as [|c s]; [done|]. cbn [deref drop] in *. rewrite drop_0 in *.
  destruct (c =? QUOTE); [|done]. apply wf_cstr_cons in Hwf as [_ Hwf].
  destruct (process_string _ _) as [out|] eqn:Ep; [|done]. intros [= <- <-].
  unfold process_string in Ep. cbn [length] in Ep.
  replace (Z.of_nat (S (length s)) - Z.of_nat (length r) - 2)
    with (Z.of_nat (length s) - Z.of_nat (length r) - 1) in Ep by lia.
  apply process_loop_length in Ep as [Hlen Hb]; [|done|done]. cbn [length] in *.
  split_and!; [lia|lia|done|]. apply suffix_skip_quotes_loop in Es as [k ->]. by exists (S k).
Qed.

(** ** The parser is total *)

Lemma skip_ws_drop s : exists k, skip_ws s = drop k s.
Proof.
  induction s as [|c s [k IH]]; simpl; [by exists 0%nat|]. destruct (isspace c); [|by exists 0%nat].
  by exists (S k).
Qed.

Lemma values_entries {V} (o : json_object V) : table_ok o -> values o = map snd (entries o).
Proof.
  intros Hok. unfold entries. change (map snd) with (fmap (M := list) (snd (A := bytes) (B := V))).
  by rewrite snd_zip by (rewrite (ok_len_values o Hok); lia).
Qed.

Lemma wf_cstr_key key : Forall is_byte key -> length key = length (cstr key) -> wf_cstr key.
Proof.
  induction 1 as [|c key Hc Hk IH]; simpl; [constructor|].
  destruct (Z.eqb_spec c 0); simpl; [lia|]. intros [= Hl]. unfold is_byte in Hc.
  constructor; [unfold is_char; lia|by apply IH].
Qed.

Lemma json_array_add_spec a v :
  exists c, json_array_add a v = Some (Arr (items a ++ [v]) c).
Proof.
  unfold json_array_add, json_array_resize, STARTING_CAPACITY.
  destruct (arr_capacity a <=? json_array_get_count a); simpl; [|by eexists].
  destruct (Z.eqb_spec (Z.max (u64 (arr_capacity a * 2)) 16) 0); [lia|]. by eexists.
Qed.

Lemma suffix_drop {A} (s r : list A) : (exists k, r = drop k s) <-> r `suffix_of` s.
Proof.
  split; [intros [k ->]; exists (take k s); by rewrite take_drop|].
  intros [p ->]. exists (length p). by rewrite drop_app_length.
Qed.

Lemma suffix_span p s : (span p s).2 `suffix_of` s.
Proof. exists (span p s).1. pose proof (span_app p s) as H. by destruct (span p s). Qed.

Lemma suffix_scan_sign s : (scan_sign s).2 `suffix_of` s.
Proof.
  destruct s as [|c s]; simpl; [done|]. repeat case_match; simpl; try done; by apply suffix_cons_r.
Qed.

Lemma suffix_match_word w s r : match_word w s = Some r -> r `suffix_of` s.
Proof.
  revert s. induction w as [|c w IH]; intros s; simpl; [by intros [= ->]|].
  destruct s as [|d s]; [done|]. case_match; [|done]. intros Hm. apply suffix_cons_r. auto.
Qed.

Lemma suffix_scan_exp mark s : (scan_exp mark s).2 `suffix_of` s.
Proof.
  unfold scan_exp. destruct s as [|c p]; [done|]. case_match; [|done].
  pose proof (suffix_scan_sign p) as Hs. destruct (scan_sign p) as [neg q].
  pose proof (suffix_span isdigit q) as Hq.
  destruct (span isdigit q) as [[|d ds] r]; simpl in *; [done|]. apply suffix_cons_r. by etrans.
Qed.

Lemma suffix_scan_mantissa p s ip fp r : scan_mantissa p s = Some (ip, fp, r) -> r `suffix_of` s.
Proof.
  unfold scan_mantissa. pose proof (suffix_span p s) as Hs. destruct (span p s) as [ip' r1]. simpl in Hs.
  destruct r1 as [|c r1].
  { destruct ip'; intros [=]; by subst. }
  destruct (c =? 46).
  - pose proof (suffix_span p r1) as Hq. destruct (span p r1) as [fp' r2]. simpl in Hq.
    assert (r2 `suffix_of` s) by (etrans; [done|]; etrans; [|done]; by apply suffix_cons_r).
    destruct ip', fp'; intros [=]; by subst.
  - destruct ip'; intros [=]; by subst.
Qed.

Lemma suffix_nan_payload s : skip_nan_payload s `suffix_of` s.
Proof.
  unfold skip_nan_payload. destruct s as [|c p]; [done|]. case_match; [|done].
  match goal with |- context [span ?f p] => pose proof (suffix_span f p) as Hs; destruct (span f p) as [a b] end.
  simpl in *. destruct b as [|d r]; [done|]. case_match; [|done]. apply suffix_cons_r.
  etrans; [|done]. by apply suffix_cons_r.
Qed.

Lemma suffix_strtod_decimal s neg p : p `suffix_of` s -> sd_end (strtod_decimal s neg p) `suffix_of` s.
Proof.
  intros Hp. unfold strtod_decimal. destruct (scan_mantissa isdigit p) as [[[ip fp] r]|] eqn:E; [|done].
  apply suffix_scan_mantissa in E. pose proof (suffix_scan_exp 69 r) as Hx.
  destruct (scan_exp 69 r) as [ex r']. simpl in *. etrans; [done|]. by etrans.
Qed.

Lemma suffix_strtod_hex neg p r : strtod_hex neg p = Some r -> sd_end r `suffix_of` p.
Proof.
  unfold strtod_hex. destruct (scan_mantissa isxdigit p) as [[[ip fp] q]|] eqn:E; [|done].
  apply suffix_scan_mantissa in E. simpl. pose proof (suffix_scan_exp 80 q) as Hx.
  destruct (scan_exp 80 q) as [ex r']. destruct (scale2 _ _ _). intros [= <-]. simpl in *. by etrans.
Qed.

Lemma suffix_strtod s : sd_end (strtod s) `suffix_of` s.
Proof.
  unfold strtod. assert (skip_ws s `suffix_of` s) as Hw by apply suffix_drop, skip_ws_drop.
  pose proof (suffix_scan_sign (skip_ws s)) as Hs.
  destruct (scan_sign (skip_ws s)) as [neg p]. cbn [snd] in Hs.
  assert (p `suffix_of` s) as Hp by by etrans.
  destruct (match_word (b2l "INFINITY") p) as [r|] eqn:E1; [apply suffix_match_word in E1; cbn [sd_end]; by etrans|].
  destruct (match_word (b2l "INF") p) as [r|] eqn:E2; [apply suffix_match_word in E2; cbn [sd_end]; by etrans|].
  destruct (match_word (b2l "NAN") p) as [r|] eqn:E3.
  { apply suffix_match_word in E3. cbn [sd_end]. etrans; [apply suffix_nan_payload|]. by etrans. }
  destruct p as [|c0 [|cx q]]; try by apply suffix_strtod_decimal.
  destruct (_ && _); [|by apply suffix_strtod_decimal].
  destruct (strtod_hex neg q) as [r|] eqn:E4; [|by apply suffix_strtod_decimal].
  apply suffix_strtod_hex in E4. etrans; [exact E4|]. etrans; [|exact Hp]. by do 2 apply suffix_cons_r.
Qed.

Lemma wf_cstr_suffix r s : r `suffix_of` s -> wf_cstr s -> wf_cstr r.
Proof. intros [p ->] Hs. by apply Forall_app in Hs as [_ ?]. Qed.

Lemma suffix_skip_ws s : skip_ws s `suffix_of` s.
Proof. apply suffix_drop, skip_ws_drop. Qed.

Lemma suffix_drop_l {A} k (s : list A) : drop k s `suffix_of` s.
Proof. apply suffix_drop. by exists k. Qed.

Definition obj_ok (n : nat) (o : json_object JSON_Value) : Prop :=
  obj_inv o /\ Forall (json_ok n) (values o).

Definition arr_ok (n : nat) (a : json_array JSON_Value) : Prop := Forall (json_ok n) (items a).

(** The result is fine, and what is left is a suffix of [s]. *)
Definition fine {A} (P : A -> Prop) (s : bytes) (r : parse_result A) : Prop :=
  match r with
  | POk a rest => P a /\ rest `suffix_of` s
  | PNull => True
  | PUndef | PFuel => False
  end.

Lemma fine_suffix {A} (P : A -> Prop) s s' (r : parse_result A) :
  s' `suffix_of` s -> fine P s' r -> fine P s r.
Proof. intros Hs. destruct r; simpl; try done. intros [Ha Hr]. split; [done|]. by etrans. Qed.

Lemma parse_string_ok n s v rest :
  wf_cstr s -> parse_string_value s = Some (v, rest) -> json_ok (S n) v /\ rest `suffix_of` s.
Proof.
  intros Hwf. unfold parse_string_value.
  destruct (get_quoted_string s) as [[str r]|] eqn:E; [|done]. intros [= <- <-].
  apply get_quoted_string_spec in E as (_ & _ & Hb & Hk); [|done].
  split; [by constructor|by apply suffix_drop].
Qed.

Lemma parse_number_ok n s v rest :
  parse_number_value s = Some (v, rest) -> json_ok (S n) v /\ rest `suffix_of` s.
Proof.
  unfold parse_number_value, json_value_init_number. intros H.
  repeat case_match; simplify_eq/=. split; [|apply suffix_strtod].
  apply orb_false_iff in H2 as [? ?]. by constructor.
Qed.

Lemma parse_boolean_ok n s v rest :
  parse_boolean_value s = Some (v, rest) -> json_ok (S n) v /\ rest `suffix_of` s.
Proof.
  unfold parse_boolean_value. intros H.
  repeat case_match; simplify_eq/=; (split; [constructor|apply suffix_drop_l]).
Qed.

Lemma parse_null_ok n s v rest :
  parse_null_value s = Some (v, rest) -> json_ok (S n) v /\ rest `suffix_of` s.
Proof.
  unfold parse_null_value. intros H.
  repeat case_match; simplify_eq/=; (split; [constructor|apply suffix_drop_l]).
Qed.

Lemma fine_scalar n s (o : option (JSON_Value * bytes)) :
  (forall v rest, o = Some (v, rest) -> json_ok (S n) v /\ rest `suffix_of` s) ->
  fine (json_ok (S n)) s (of_option o).
Proof. destruct o as [[v rest]|]; simpl; [|done]. intros H. by apply H. Qed.

(** A character that is there: the string after it is shorter. *)
Lemma drop1_length s c : deref s = c -> c <> 0 -> length (drop 1 s) = (length s - 1)%nat /\ (0 < length s)%nat.
Proof. intros <- Hc. rewrite length_drop. split; [done|]. by apply deref_length. Qed.

Definition level (nesting : nat) : nat := S MAX_NESTING - nesting.

(** What the three mutually recursive parsers promise, for a given fuel. *)
Definition value_spec (fuel : nat) : Prop := forall s nesting,
  wf_cstr s -> (2 * length s + 1 <= fuel)%nat -> Z.of_nat (length s) < 2 ^ 30 ->
  fine (json_ok (level nesting)) s (parse_value fuel s nesting).

Definition object_spec (fuel : nat) : Prop := forall o s nesting,
  obj_ok (level nesting) o -> wf_cstr s -> (2 * length s + 2 <= fuel)%nat ->
  count o + Z.of_nat (length s) < 2 ^ 30 ->
  fine (obj_ok (level nesting)) s (parse_object_loop fuel o s nesting).

Definition array_spec (fuel : nat) : Prop := forall a s nesting,
  arr_ok (level nesting) a -> wf_cstr s -> (2 * length s + 2 <= fuel)%nat ->
  Z.of_nat (length s) < 2 ^ 30 ->
  fine (arr_ok (level nesting)) s (parse_array_loop fuel a s nesting).

Lemma value_step fuel : object_spec fuel -> array_spec fuel -> value_spec (S fuel).
Proof.
  intros Ho Ha s nesting Hwf Hf Hl. cbn [parse_value].
  destruct (Nat.ltb_spec MAX_NESTING nesting) as [|Hn]; [done|].
  assert (level nesting = S (level (S nesting))) as Hlev by (unfold level; lia). rewrite Hlev.
  apply (fine_suffix _ _ (skip_ws s)); [apply suffix_skip_ws|].
  pose proof (suffix_length _ _ (suffix_skip_ws s)) as Hsl.
  pose proof (wf_cstr_suffix _ _ (suffix_skip_ws s) Hwf) as Hsw.
  set (t := skip_ws s) in *. clearbody t.
  assert (forall c, deref t = c -> c <> 0 -> let u := skip_ws (drop 1 t) in
    u `suffix_of` t /\ wf_cstr u /\ (length u < length t)%nat) as Hbody.
  { intros c Hc Hc0 u. destruct (drop1_length t c Hc Hc0) as [Hd Hp].
    assert (u `suffix_of` t) by (etrans; [apply suffix_skip_ws|apply suffix_drop_l]).
    split_and!; [done|by eapply wf_cstr_suffix|].
    pose proof (suffix_length _ _ (suffix_skip_ws (drop 1 t))). unfold u. lia. }
  destruct (Z.eqb_spec (deref t) 123) as [E|_].
  { destruct (Hbody _ E ltac:(done)) as (Hu1 & Hu2 & Hu3).
    case_match; [split; [constructor; [apply json_object_make_inv|constructor]|etrans; [apply suffix_drop_l|done]]|].
    apply (fine_suffix _ _ _ _ Hu1).
    assert (fine (obj_ok (level (S nesting))) (skip_ws (drop 1 t))
      (parse_object_loop fuel json_object_make (skip_ws (drop 1 t)) (S nesting))) as Hr.
    { apply Ho; [split; [apply json_object_make_inv|constructor]|done|lia|simpl; lia]. }
    destruct (parse_object_loop _ _ _ _); simpl in *; try done.
    destruct Hr as [[Hi Hv] Hr]. split; [by constructor|done]. }
  destruct (Z.eqb_spec (deref t) 91) as [E|_].
  { destruct (Hbody _ E ltac:(done)) as (Hu1 & Hu2 & Hu3).
    case_match; [split; [by constructor|etrans; [apply suffix_drop_l|done]]|].
    apply (fine_suffix _ _ _ _ Hu1).
    assert (fine (arr_ok (level (S nesting))) (skip_ws (drop 1 t))
      (parse_array_loop fuel json_array_make (skip_ws (drop 1 t)) (S nesting))) as Hr.
    { apply Ha; [constructor|done|lia|lia]. }
    destruct (parse_array_loop _ _ _ _); simpl in *; try done.
    destruct Hr as [Hv Hr]. split; [by constructor|done]. }
  repeat case_match; try done; apply fine_scalar; intros v rest.
  - by apply parse_string_ok.
  - apply parse_boolean_ok.
  - apply parse_number_ok.
  - apply parse_null_ok.
Qed.

Lemma object_finish n o s :
  obj_ok n o ->
  fine (obj_ok n) s (let s := skip_ws s in if deref s =? "}"%c then POk o (drop 1 s) else PNull).
Proof.
  intros Ho. cbv zeta. case_match; [|done]. split; [done|].
  etrans; [apply suffix_drop_l|apply suffix_skip_ws].
Qed.

Lemma object_step fuel : value_spec fuel -> object_spec fuel -> object_spec (S fuel).
Proof.
  intros Hv Hrec o s nesting Ho Hwf Hf Hl. cbn [parse_object_loop].
  destruct (deref s =? 0); [by apply object_finish|].
  destruct (get_quoted_string s) as [[new_key s1]|] eqn:Ek; [|done].
  apply get_quoted_string_spec in Ek as (Hk1 & _ & Hkb & Hks); [|done]. apply suffix_drop in Hks.
  destruct (Nat.eqb_spec (length new_key) (length (cstr new_key))) as [Hnul|]; [|done]. cbn [negb].
  pose proof (wf_cstr_key _ Hkb Hnul) as Hkw.
  destruct (Z.eqb_spec (deref (skip_ws s1)) 58) as [E|]; [|done]. cbn [negb].
  destruct (drop1_length _ _ E ltac:(done)) as [Hd _].
  assert (drop 1 (skip_ws s1) `suffix_of` s) as Hs2.
  { etrans; [apply suffix_drop_l|]. etrans; [apply suffix_skip_ws|done]. }
  set (s2 := drop 1 (skip_ws s1)) in *.
  assert (length s2 + 1 <= length s1)%nat.
  { pose proof (suffix_length _ _ (suffix_skip_ws s1)). pose proof (deref_length (skip_ws s1)). lia. }
  assert (fine (json_ok (level nesting)) s2 (parse_value fuel s2 nesting)) as Hval.
  { pose proof (ok_count o (inv_table o (proj1 Ho))).
    apply Hv; [by eapply wf_cstr_suffix|lia|lia]. }
  destruct (parse_value fuel s2 nesting) as [new_value s3| | |]; try done.
  destruct Hval as [Hvok Hs3]. destruct Ho as [Hinv Hvals].
  destruct (add_spec o new_key new_value Hinv Hkw ltac:(lia)) as [Hin Hout].
  destruct (decide (new_key ∈ names o)) as [Hi|Hi]; [by rewrite Hin|].
  destruct (Hout Hi) as (o' & -> & Hinv' & He' & _ & Hc').
  assert (obj_ok (level nesting) o') as Ho'.
  { split; [done|]. rewrite (values_entries o' (inv_table o' Hinv')), He', map_app.
    rewrite <-(values_entries o (inv_table o Hinv)). apply Forall_app. split; [done|by constructor]. }
  assert (s3 `suffix_of` s) as Hs3s by (by etrans).
  pose proof (suffix_length _ _ Hs3). pose proof (suffix_length _ _ (suffix_skip_ws s3)).
  assert (skip_ws s3 `suffix_of` s) as Hs3w by (etrans; [apply suffix_skip_ws|done]).
  destruct (Z.eqb_spec (deref (skip_ws s3)) 44) as [Ec|]; cbn [negb].
  2:{ eapply fine_suffix; [exact Hs3w|]. by apply object_finish. }
  assert (skip_ws (drop 1 (skip_ws s3)) `suffix_of` s) as Hs4.
  { etrans; [apply suffix_skip_ws|]. etrans; [apply suffix_drop_l|done]. }
  destruct (drop1_length _ _ Ec ltac:(done)) as [Hd4 _].
  pose proof (suffix_length _ _ (suffix_skip_ws (drop 1 (skip_ws s3)))).
  apply (fine_suffix _ _ _ _ Hs4). case_match; [by apply object_finish|].
  apply Hrec; [done|by eapply wf_cstr_suffix|lia|lia].
Qed.

Lemma array_finish n a s :
  arr_ok n a ->
  fine (arr_ok n) s (let s := skip_ws s in
    if negb (deref s =? "]"%c) then PNull
    else match json_array_resize a (json_array_get_count a) with
         | None => PNull
         | Some a => POk a (drop 1 s)
         end).
Proof.
  intros Ha. cbv zeta. unfold json_array_resize. repeat case_match; simplify_eq/=; try done.
  split; [done|]. etrans; [apply suffix_drop_l|apply suffix_skip_ws].
Qed.

Lemma array_step fuel : value_spec fuel -> array_spec fuel -> array_spec (S fuel).
Proof.
  intros Hv Hrec a s nesting Ha Hwf Hf Hl. cbn [parse_array_loop].
  destruct (deref s =? 0); [by apply array_finish|].
  assert (fine (json_ok (level nesting)) s (parse_value fuel s nesting)) as Hval.
  { apply Hv; [done|lia|lia]. }
  destruct (parse_value fuel s nesting) as [v s3| | |]; try done.
  destruct Hval as [Hvok Hs3]. destruct (json_array_add_spec a v) as [c ->].
  assert (arr_ok (level nesting) (Arr (items a ++ [v]) c)) as Ha'.
  { apply Forall_app. split; [done|by constructor]. }
  pose proof (suffix_length _ _ Hs3). pose proof (suffix_length _ _ (suffix_skip_ws s3)).
  assert (skip_ws s3 `suffix_of` s) as Hs3w by (etrans; [apply suffix_skip_ws|done]).
  destruct (Z.eqb_spec (deref (skip_ws s3)) 44) as [Ec|]; cbn [negb].
  2:{ eapply fine_suffix; [exact Hs3w|]. by apply array_finish. }
  assert (skip_ws (drop 1 (skip_ws s3)) `suffix_of` s) as Hs4.
  { etrans; [apply suffix_skip_ws|]. etrans; [apply suffix_drop_l|done]. }
  destruct (drop1_length _ _ Ec ltac:(done)) as [Hd4 Hp4].
  pose proof (suffix_length _ _ (suffix_skip_ws (drop 1 (skip_ws s3)))).
  apply (fine_suffix _ _ _ _ Hs4). case_match; [by apply array_finish|].
  apply Hrec; [done|by eapply wf_cstr_suffix|lia|lia].
Qed.

Lemma parsers_fine fuel : value_spec fuel /\ object_spec fuel /\ array_spec fuel.
Proof.
  induction fuel as [|fuel (Hv & Ho & Ha)].
  { unfold value_spec, object_spec, array_spec. split_and!; intros; exfalso; lia. }
  split_and!; [by apply value_step|by apply object_step|by apply array_step].
Qed.

Lemma parse_string_fine s :
  wf_cstr s -> Z.of_nat (length s) < 2 ^ 30 ->
  fine (json_ok (S MAX_NESTING)) s (json_parse_string s).
Proof.
  intros Hwf Hl. unfold json_parse_string.
  set (t := if strncmp_eq 3 s [0xEF; 0xBB; 0xBF] then drop 3 s else s).
  assert (t `suffix_of` s) as Ht by (unfold t; case_match; [apply suffix_drop_l|done]).
  clearbody t. pose proof (suffix_length _ _ Ht).
  apply (fine_suffix _ _ _ _ Ht).
  apply (proj1 (parsers_fine (parse_fuel t)) t 0%nat (wf_cstr_suffix _ _ Ht Hwf)); [unfold parse_fuel; lia|lia].
Qed.

(** C16: the JSON parser is total and memory safe: on every NUL-terminated
    string (of less than 2^30 bytes) it returns, within the fuel
    [parse_fuel], either NULL or a value, never leaving the bounds of a
    table; the value is well formed (tables, finite numbers) and has at most
    [MAX_NESTING + 1] levels, and the pointer stays inside the string. *)
Theorem json_parse_string_total s :
  wf_cstr s -> Z.of_nat (length s) < 2 ^ 30 ->
  json_parse_string s = PNull \/
  exists v rest, json_parse_string s = POk v rest /\
    json_ok (S MAX_NESTING) v /\ rest `suffix_of` s.
Proof.
  intros Hwf Hl. pose proof (parse_string_fine s Hwf Hl) as H.
  destruct (json_parse_string s) as [v rest| | |]; simpl in H; try done; [|by left].
  right. exists v, rest. by destruct H.
Qed.

Lemma json_parse_string_total_witness :
  exists v rest, json_parse_string (b2l "[1,[2]] x") = POk v rest /\ json_ok (S MAX_NESTING) v.
Proof.
  destruct (json_parse_string_total (b2l "[1,[2]] x")) as [H|(v & rest & H & Hok & _)].
  - repeat constructor; unfold is_char; lia.
  - reflexivity.
  - exfalso. vm_compute in H. discriminate.
  - exists v, rest. by split.
Defined.
