(* ===== verification/JsonMemory.v ===== *)
(** * Quoted strings in memory (parson.c: parse_utf16_hex, skip_quotes,
    parse_utf16, process_string, get_quoted_string)

    The same functions as in [Json], with pointers instead of suffixes: the
    text is an array that ends in its terminator, a pointer is an index, every
    read and write is checked against the array it goes to, and the output
    goes to the buffer [process_string] allocates.  The theorem says that no
    access is out of bounds and that the result is the one of [Json]. *)

From S2P Require Import Prelude Libc Json JsonTheory.

(** ** Checked accesses *)

(** [Failed]: the code reports an error; [NoFuel]: the loop was not followed
    to its end. *)
Inductive access (A : Type) := Val (a : A) | Failed | OutOfBounds | NoFuel.
Arguments Val {A}.
Arguments Failed {A}.
Arguments OutOfBounds {A}.
Arguments NoFuel {A}.

#[global] Instance access_ret : MRet access := @Val.
#[global] Instance access_bind : MBind access := fun A B f m =>
  match m with Val a => f a | Failed => Failed | OutOfBounds => OutOfBounds | NoFuel => NoFuel end.

Definition load (mem : bytes) (p : nat) : access Z :=
  match mem !! p with Some c => Val c | None => OutOfBounds end.

Definition store (mem : bytes) (p : nat) (c : Z) : access bytes :=
  if (p <? length mem)%nat then Val (<[p := c]> mem) else OutOfBounds.

(** [p[0] = c0; p[1] = c1; ...] *)
Fixpoint stores (mem : bytes) (p : nat) (cs : bytes) : access bytes :=
  match cs with
  | [] => Val mem
  | c :: cs' => mem ← store mem p c; stores mem (S p) cs'
  end.

Definition or_failed {A} (o : option A) : access A := match o with Some a => Val a | None => Failed end.

(** ** The code *)

(** [||] stops at the first NUL. *)
Definition mem_utf16_hex (mem : bytes) (s : nat) : access Z :=
  s0 ← load mem s;
  if s0 =? 0 then Failed else
  s1 ← load mem (s + 1);
  if s1 =? 0 then Failed else
  s2 ← load mem (s + 2);
  if s2 =? 0 then Failed else
  s3 ← load mem (s + 3);
  if s3 =? 0 then Failed else
  let x1 := hex_char_to_int s0 in
  let x2 := hex_char_to_int s1 in
  let x3 := hex_char_to_int s2 in
  let x4 := hex_char_to_int s3 in
  if (x1 =? -1) || (x2 =? -1) || (x3 =? -1) || (x4 =? -1) then Failed
  else Val (Z.lor (Z.shiftl x1 12) (Z.lor (Z.shiftl x2 8) (Z.lor (Z.shiftl x3 4) x4))).

(** [unprocessed] points at the 'u'; the new values of the two pointers, both
    at the last character consumed and written, and the output buffer. *)
Definition mem_utf16 (mem : bytes) (unprocessed : nat) (out : bytes) (processed : nat) : access (nat * bytes * nat) :=
  let p := (unprocessed + 1)%nat in
  cp ← mem_utf16_hex mem p;
  if cp <? 0x80 then
    out ← stores out processed [cp];
    mret ((p + 3)%nat, out, processed)
  else if cp <? 0x800 then
    out ← stores out processed [Z.lor (Z.land (Z.shiftr cp 6) 0x1F) 0xC0; Z.lor (Z.land cp 0x3F) 0x80];
    mret ((p + 3)%nat, out, (processed + 1)%nat)
  else if (cp <? 0xD800) || (0xDFFF <? cp) then
    out ← stores out processed
      [Z.lor (Z.land (Z.shiftr cp 12) 0x0F) 0xE0; Z.lor (Z.land (Z.shiftr cp 6) 0x3F) 0x80; Z.lor (Z.land cp 0x3F) 0x80];
    mret ((p + 3)%nat, out, (processed + 2)%nat)
  else if (0xD800 <=? cp) && (cp <=? 0xDBFF) then
    let lead := cp in
    let p := (p + 4)%nat in
    c ← load mem p;
    if negb (c =? "\"%c) then Failed else
    c ← load mem (p + 1);
    if negb (c =? "u"%c) then Failed else
    let p := (p + 2)%nat in
    trail ← mem_utf16_hex mem p;
    if (trail <? 0xDC00) || (0xDFFF <? trail) then Failed
    else
      let cp := Z.lor (Z.shiftl (Z.land (lead - 0xD800) 0x3FF) 10) (Z.land (trail - 0xDC00) 0x3FF) + 0x10000 in
      out ← stores out processed
        [Z.lor (Z.land (Z.shiftr cp 18) 0x07) 0xF0; Z.lor (Z.land (Z.shiftr cp 12) 0x3F) 0x80;
         Z.lor (Z.land (Z.shiftr cp 6) 0x3F) 0x80; Z.lor (Z.land cp 0x3F) 0x80];
      mret ((p + 3)%nat, out, (processed + 3)%nat)
  else Failed.

(** One turn of the loop of [process_string], up to the increments. *)
Definition mem_process_char (mem : bytes) (input_ptr : nat) (out : bytes) (output_ptr : nat)
  : access (nat * bytes * nat) :=
  c ← load mem input_ptr;
  if c =? BACKSLASH then
    let input_ptr := (input_ptr + 1)%nat in
    c ← load mem input_ptr;
    if c =? "u"%c then mem_utf16 mem input_ptr out output_ptr
    else
      e ← or_failed (unescape c);
      out ← store out output_ptr e;
      mret (input_ptr, out, output_ptr)
  else if c <? 0x20 then Failed
  else
    out ← store out output_ptr c;
    mret (input_ptr, out, output_ptr).

(** The condition of the loop reads the character first. *)
Fixpoint mem_process_loop (fuel : nat) (mem : bytes) (input input_len : nat) (input_ptr : nat) (out : bytes)
    (output_ptr : nat) : access (bytes * nat) :=
  c ← load mem input_ptr;
  if (c =? 0) || (input_len <=? input_ptr - input)%nat then mret (out, output_ptr)
  else
    match fuel with
    | O => NoFuel
    | S fuel =>
        r ← mem_process_char mem input_ptr out output_ptr;
        mem_process_loop fuel mem input input_len (r.1.1 + 1) r.1.2 (r.2 + 1)
    end.

(** The result is copied to a block of the size needed; [malloc] gives the
    contents of a new block. *)
Definition mem_process_string (malloc : nat -> bytes) (mem : bytes) (input input_len : nat) : access bytes :=
  let output := malloc (input_len + 1)%nat in
  r ← mem_process_loop input_len mem input input_len input output 0;
  output ← store r.1 r.2 0;
  let final_size := (r.2 + 1)%nat in
  resized_output ← stores (malloc final_size) 0 (take final_size output);
  mret (take (final_size - 1) resized_output).

(** As many turns as there are characters. *)
Fixpoint mem_skip_quotes_loop (fuel : nat) (mem : bytes) (p : nat) : access nat :=
  c ← load mem p;
  if c =? QUOTE then mret (p + 1)%nat
  else if c =? 0 then Failed
  else
    match fuel with
    | O => NoFuel
    | S fuel =>
        if c =? BACKSLASH then
          c ← load mem (p + 1);
          if c =? 0 then Failed else mem_skip_quotes_loop fuel mem (p + 2)
        else mem_skip_quotes_loop fuel mem (p + 1)
    end.

Definition mem_skip_quotes (mem : bytes) (p : nat) : access nat :=
  c ← load mem p;
  if c =? QUOTE then mem_skip_quotes_loop (length mem) mem (p + 1) else Failed.

(** The string, and the pointer behind the closing quote. *)
Definition mem_get_quoted_string (malloc : nat -> bytes) (mem : bytes) (string_start : nat) : access (bytes * nat) :=
  string ← mem_skip_quotes mem string_start;
  let input_string_len := (string - string_start - 2)%nat in
  str ← mem_process_string malloc mem (string_start + 1) input_string_len;
  mret (str, string).

(** ** Reads *)

(** A pointer into the text is a suffix of it; the terminator can be read. *)
Lemma load_text s p : (p <= length s)%nat -> load (s ++ [0]) p = Val (deref (drop p s)).
Proof.
  intros Hp. unfold load. rewrite <-(Nat.add_0_r p) at 1. rewrite <-lookup_drop, drop_app_le by done.
  by destruct (drop p s).
Qed.

Lemma load_text_at s p k : (p <= length s)%nat -> load (s ++ [0]) (p + k) = load (drop p s ++ [0]) k.
Proof. intros Hp. unfold load. by rewrite <-lookup_drop, drop_app_le. Qed.

Lemma deref_drop_zero s p : wf_cstr s -> (p <= length s)%nat -> deref (drop p s) = 0 <-> p = length s.
Proof.
  intros Hwf Hp. split.
  - intros H. destruct (decide (p = length s)) as [|Hne]; [done|]. exfalso.
    destruct (lookup_lt_is_Some_2 s p) as [c Hc]; [lia|]. rewrite (drop_S _ _ _ Hc) in H. simpl in H.
    eapply Forall_lookup_1 in Hwf; [|exact Hc]. unfold is_char in Hwf. lia.
  - intros ->. by rewrite drop_all.
Qed.

Lemma nonzero_inside s p : wf_cstr s -> (p <= length s)%nat -> deref (drop p s) <> 0 -> (p < length s)%nat.
Proof. intros Hwf Hp Hc. rewrite deref_drop_zero in Hc by done. lia. Qed.

Lemma utf16_hex_ok s p :
  wf_cstr s -> (p <= length s)%nat -> mem_utf16_hex (s ++ [0]) p = or_failed (parse_utf16_hex (drop p s)).
Proof.
  intros Hwf Hp. unfold mem_utf16_hex. rewrite <-(Nat.add_0_r p) at 1. rewrite !(load_text_at s p) by done.
  pose proof (wf_cstr_drop p s Hwf) as Ht. set (t := drop p s) in *. clearbody t.
  assert (forall c, is_char c -> (c =? 0) = false) as Hnz by (unfold is_char; lia).
  destruct t as [|s0 [|s1 [|s2 [|s3 t]]]]; repeat (apply Forall_cons in Ht as [?Hc Ht]);
    unfold load; cbn; rewrite ?Hnz by done; try done.
  by case_match.
Qed.

(** What [parse_utf16] needs: four digits lie inside the text. *)
Lemma utf16_hex_inside s p cp : parse_utf16_hex (drop p s) = Some cp -> (p + 4 <= length s)%nat.
Proof. intros [_ H]%parse_utf16_hex_range. rewrite length_drop in H. lia. Qed.

Lemma index_of (s : bytes) p k : (p + k <= length s)%nat -> (length s - length (drop k (drop p s)))%nat = (p + k)%nat.
Proof. intros H. rewrite drop_drop, length_drop. lia. Qed.

(** The escape \u: the reads stay within the text; what is written, and where
    the pointers end. *)
Lemma utf16_ok s p out o :
  wf_cstr s -> (p < length s)%nat ->
  mem_utf16 (s ++ [0]) p out o =
  match parse_utf16 (drop p s) with
  | Some (w, q) => out ← stores out o w; Val ((length s - length q)%nat, out, (o + length w - 1)%nat)
  | None => Failed
  end.
Proof.
  intros Hwf Hp. unfold mem_utf16, parse_utf16. cbv zeta. rewrite (utf16_hex_ok s (p + 1)) by (done || lia). replace (drop 1 (drop p s)) with (drop (p + 1) s) by by rewrite drop_drop.
  destruct (parse_utf16_hex (drop (p + 1) s)) as [cp|] eqn:Ecp; [|done]. apply utf16_hex_inside in Ecp.
  cbn [or_failed mbind access_bind option_bind].
  assert (length s - length (drop 3 (drop (p + 1) s)) = p + 1 + 3)%nat as Hq by (apply index_of; lia).
  destruct (cp <? 0x80); [rewrite Hq; simpl length; by rewrite Nat.add_sub|].
  destruct (cp <? 0x800); [rewrite Hq; simpl length; by replace (o + 2 - 1)%nat with (o + 1)%nat by lia|].
  destruct (_ || _); [rewrite Hq; simpl length; by replace (o + 3 - 1)%nat with (o + 2)%nat by lia|].
  destruct (_ && _); [|done]. rewrite (load_text s (p + 1 + 4)), !drop_drop by lia. cbn [mbind access_bind].
  destruct (negb (deref (drop (p + 1 + 4) s) =? 92)) eqn:E1; [done|].
  assert (p + 1 + 4 < length s)%nat as H5 by (apply nonzero_inside; [done|lia|intros Hz; rewrite Hz in E1; done]).
  rewrite (load_text s (p + 1 + 4 + 1)) by lia. cbn [mbind access_bind orb].
  destruct (negb (deref (drop (p + 1 + 4 + 1) s) =? 117)) eqn:E2; [done|].
  assert (p + 1 + 4 + 1 < length s)%nat as H6 by (apply nonzero_inside; [done|lia|intros Hz; rewrite Hz in E2; done]).
  rewrite (utf16_hex_ok s (p + 1 + 4 + 2)) by (done || lia).
  destruct (parse_utf16_hex (drop (p + 1 + 4 + 2) s)) as [trail|] eqn:Et; [|done]. apply utf16_hex_inside in Et.
  cbn [or_failed mbind access_bind option_bind]. destruct (_ || _); [done|].
  rewrite length_drop. simpl length. replace (o + 4 - 1)%nat with (o + 3)%nat by lia.
  by replace (length s - (length s - (p + 1 + 4 + (2 + 3))))%nat with (p + 1 + 4 + 2 + 3)%nat by lia.
Qed.

(** One turn of the loop. *)
Lemma process_char_ok s p out o :
  wf_cstr s -> (p < length s)%nat ->
  mem_process_char (s ++ [0]) p out o =
  match process_char (drop p s) with
  | Some (w, q) => out ← stores out o w; Val ((length s - length q)%nat, out, (o + length w - 1)%nat)
  | None => Failed
  end.
Proof.
  intros Hwf Hp. unfold mem_process_char, process_char. rewrite (load_text s p) by lia. cbn [mbind access_bind]. cbv beta zeta.
  assert (forall A (out : bytes) c (f : bytes -> access A), (out ← store out o c; f out) = (out ← stores out o [c]; f out)) as Hone.
  { intros. simpl. unfold store. by destruct (_ <? _)%nat. }
  destruct (deref (drop p s) =? BACKSLASH).
  - rewrite (load_text s (p + 1)), drop_drop by lia. cbn [mbind access_bind]. cbv beta.
    destruct (Z.eqb_spec (deref (drop (p + 1) s)) 117) as [Hu|Hu].
    + apply utf16_ok; [done|]. apply nonzero_inside; [done|lia|]. by rewrite Hu.
    + destruct (unescape (deref (drop (p + 1) s))) as [e|] eqn:Ee; [|done].
      change (or_failed (Some e) ≫= ?f) with (f e). cbn [mbind option_bind].
      simpl length. rewrite Nat.add_sub, length_drop. replace (length s - (length s - (p + 1)))%nat with (p + 1)%nat by lia.
      apply Hone.
  - destruct (_ <? 0x20); [done|]. simpl length. rewrite Nat.add_sub, length_drop.
    replace (length s - (length s - p))%nat with p by lia. apply Hone.
Qed.

(** ** Writes *)

Lemma stores_ok out o w :
  (o + length w <= length out)%nat -> stores out o w = Val (take o out ++ w ++ drop (o + length w) out).
Proof.
  revert out o. induction w as [|c w IH]; intros out o H; simpl in *.
  - by rewrite Nat.add_0_r, take_drop.
  - unfold store. destruct (Nat.ltb_spec o (length out)); [|lia]. cbn [mbind access_bind].
    rewrite IH by (rewrite length_insert; lia). f_equal.
    rewrite insert_take_drop by done.
    assert (length (take o out) = o) as Ho by (rewrite length_take; lia).
    rewrite take_app_ge, drop_app_ge, Ho by (rewrite Ho; lia).
    replace (S o - o)%nat with 1%nat by lia. replace (S o + length w - o)%nat with (S (length w)) by lia.
    cbn [take drop]. rewrite drop_drop, take_0, <-app_assoc. by rewrite Nat.add_succ_comm.
Qed.

Lemma stored_length (out : bytes) o w :
  (o + length w <= length out)%nat -> length (take o out ++ w ++ drop (o + length w) out) = length out.
Proof. intros H. rewrite !length_app, length_take, length_drop. lia. Qed.

Lemma stored_take (out : bytes) o w :
  (o + length w <= length out)%nat -> take (o + length w) (take o out ++ w ++ drop (o + length w) out) = take o out ++ w.
Proof.
  intros H. rewrite app_assoc. rewrite take_app_le by (rewrite length_app, length_take; lia).
  apply take_ge. rewrite length_app, length_take. lia.
Qed.

Lemma process_char_nonempty input w q : process_char input = Some (w, q) -> (0 < length w)%nat.
Proof.
  unfold process_char, parse_utf16. intros H.
  repeat first [progress simplify_option_eq | case_match]; simpl; lia.
Qed.

(** The loop of [process_string], up to the closing quote: the text is read up
    to its terminator at most, and the output stays within a buffer of one byte
    more than there are characters between the quotes. *)
Lemma process_loop_ok fuel s start p rest out o :
  wf_cstr s -> skip_quotes_loop (drop p s) = Some rest -> (start <= p)%nat -> (o <= p - start)%nat ->
  let len := (length s - length rest - 1 - start)%nat in
  length out = (len + 1)%nat -> (len - (p - start) <= fuel)%nat ->
  match process_loop fuel (drop p s) (Z.of_nat (length (drop p s)) - Z.of_nat (length rest) - 1) with
  | Some w => exists out', mem_process_loop fuel (s ++ [0]) start len p out o = Val (out', (o + length w)%nat) /\
      length out' = length out /\ take (o + length w) out' = take o out ++ w /\ (o + length w <= len)%nat
  | None => mem_process_loop fuel (s ++ [0]) start len p out o = Failed
  end.
Proof.
  revert p out o. induction fuel as [|fuel IH]; intros p out o Hwf Hs Hp Ho len Hout Hf;
    pose proof (skip_quotes_loop_length _ _ Hs) as Hr; rewrite length_drop in Hr; cbn [process_loop mem_process_loop];
    rewrite (load_text s p), length_drop by lia; cbn [mbind access_bind].
  - assert ((len <=? p - start)%nat = true) as -> by (apply Nat.leb_le; lia).
    destruct (Z.leb_spec (Z.of_nat (length s - p) - Z.of_nat (length rest) - 1) 0); [|lia]. rewrite !orb_true_r.
    exists out. simpl. rewrite Nat.add_0_r, app_nil_r. split_and!; [done|done|done|lia].
  - assert ((Z.of_nat (length s - p) - Z.of_nat (length rest) - 1 <=? 0) = (len <=? p - start)%nat) as ->.
    { destruct (Z.leb_spec (Z.of_nat (length s - p) - Z.of_nat (length rest) - 1) 0), (Nat.leb_spec len (p - start)); lia. }
    destruct ((deref (drop p s) =? 0) || (len <=? p - start)%nat) eqn:Ec.
    { exists out. simpl. rewrite Nat.add_0_r, app_nil_r. split_and!; [done|done|done|lia]. }
    apply orb_false_iff in Ec as [Ec1 Ec2]. apply Nat.leb_gt in Ec2.
    assert (deref (drop p s) <> QUOTE) as Hq.
    { intros Hq. destruct (drop p s) as [|c t] eqn:Et; [done|]. simpl in Hq. subst. simpl in Hs. injection Hs as ->.
      apply (f_equal length) in Et. rewrite length_drop in Et. simpl in Et. lia. }
    assert (p < length s)%nat as Hlt by lia.
    rewrite (process_char_ok s p out o Hwf Hlt).
    destruct (process_char (drop p s)) as [[w q]|] eqn:Ep; [|done]. cbn [mbind option_bind].
    pose proof (process_char_step _ _ _ _ Hq Hs Ep) as Hs'.
    pose proof Ep as Ep'. apply process_char_consumes in Ep as (Hl & Hw & _ & k & Hk); [|by apply wf_cstr_drop|].
    2:{ intros Hn. apply (f_equal length) in Hn. rewrite length_drop in Hn. simpl in Hn. lia. }
    pose proof (skip_quotes_loop_length _ _ Hs') as Hr'.
    assert (length q = S (length (drop 1 q))) as Hlq by (destruct q; simpl in *; [lia|by rewrite drop_0]).
    assert (length (drop p s) = length s - p)%nat as Hlp by apply length_drop. rewrite Hlp in Hl, Hw.
    set (p' := (length s - length q + 1)%nat).
    assert (drop p' s = drop 1 q) as Hp'.
    { assert (length (drop 1 q) = length s - (p + k))%nat as Hlk by (rewrite Hk, drop_drop; apply length_drop).
      rewrite Hk, drop_drop. f_equal. unfold p'. lia. }
    assert (p < p' /\ length (drop 1 q) = length s - p' /\ p' <= length s)%nat as (H1 & H2 & H3) by (unfold p'; lia).
    rewrite stores_ok by lia. cbn [mbind access_bind]. cbn [fst snd].
    pose proof (process_char_nonempty _ _ _ Ep') as Hne.
    replace (o + length w - 1 + 1)%nat with (o + length w)%nat by lia. fold p'.
    specialize (IH p' (take o out ++ w ++ drop (o + length w) out) (o + length w)%nat Hwf).
    rewrite Hp', stored_length in IH by lia. specialize (IH Hs' ltac:(lia) ltac:(lia) Hout ltac:(lia)).
    replace (Z.of_nat (length s - p) - Z.of_nat (length rest) - 1 - (Z.of_nat (length s - p) - Z.of_nat (length (drop 1 q))))
      with (Z.of_nat (length (drop 1 q)) - Z.of_nat (length rest) - 1) by lia.
    destruct (process_loop fuel (drop 1 q) _) as [w'|]; cbn [mbind option_bind].
    + destruct IH as (out' & Hm & Ho' & Ht & Hle). exists out'. rewrite stored_take in Ht by lia.
      rewrite length_app, Nat.add_assoc. split_and!; [exact Hm|done|by rewrite Ht, app_assoc|lia].
    + exact IH.
Qed.

(** ** The whole function *)

Lemma skip_quotes_loop_ok fuel s p :
  wf_cstr s -> (p <= length s)%nat -> (length s - p <= fuel)%nat ->
  mem_skip_quotes_loop fuel (s ++ [0]) p =
  match skip_quotes_loop (drop p s) with Some rest => Val (length s - length rest)%nat | None => Failed end.
Proof.
  intros Hwf. revert p. induction fuel as [|fuel IH]; intros p Hp Hf; cbn [mem_skip_quotes_loop];
    rewrite (load_text s p) by done; cbn [mbind access_bind].
  - assert (p = length s) as -> by lia. by rewrite drop_all.
  - destruct (drop p s) as [|c t] eqn:Et; [done|].
    assert (t = drop (p + 1) s) as Ht by (rewrite <-(drop_drop s 1 p), Et; cbn [drop]; by rewrite drop_0).
    assert (length t = length s - p - 1)%nat as Hlt by (rewrite Ht, length_drop; lia).
    assert (p < length s)%nat as Hlt'.
    { apply (f_equal length) in Et. rewrite length_drop in Et. simpl in Et. lia. }
    assert (c <> 0) as Hc.
    { pose proof (wf_cstr_drop p s Hwf) as Hw. rewrite Et in Hw. apply Forall_cons in Hw as [Hw _]. unfold is_char in Hw. lia. }
    cbn [deref skip_quotes_loop]. destruct (c =? QUOTE); [f_equal; lia|]. destruct (Z.eqb_spec c 0); [done|].
    destruct (c =? BACKSLASH).
    + rewrite (load_text s (p + 1)), <-Ht by lia. cbn [mbind access_bind]. destruct t as [|d t']; [done|]. cbn [deref].
      assert (d <> 0) as Hd.
      { pose proof (wf_cstr_drop (p + 1) s Hwf) as Hw. rewrite <-Ht in Hw. apply Forall_cons in Hw as [Hw _].
        unfold is_char in Hw. lia. }
      destruct (Z.eqb_spec d 0); [done|]. simpl in Hlt. rewrite IH by lia.
      replace (drop (p + 2) s) with t'; [done|]. replace (p + 2)%nat with (p + 1 + 1)%nat by lia.
      rewrite <-(drop_drop s 1 (p + 1)), <-Ht. cbn [drop]. by rewrite drop_0.
    + rewrite IH, <-Ht by lia. done.
Qed.

(** What [malloc] gives. *)
Definition malloc_ok (malloc : nat -> bytes) : Prop := forall n, length (malloc n) = n.

Lemma process_string_ok malloc s p rest :
  malloc_ok malloc -> wf_cstr s -> skip_quotes_loop (drop p s) = Some rest ->
  let len := (length s - length rest - 1 - p)%nat in
  mem_process_string malloc (s ++ [0]) p len = or_failed (process_string (drop p s) (Z.of_nat len)).
Proof.
  intros Hm Hwf Hs len. pose proof (skip_quotes_loop_length _ _ Hs) as Hr. rewrite length_drop in Hr.
  unfold mem_process_string, process_string. rewrite Nat2Z.id.
  pose proof (process_loop_ok len s p p rest (malloc (len + 1)%nat) 0 Hwf Hs ltac:(lia) ltac:(lia) (Hm _) ltac:(lia)) as H.
  fold len in H. rewrite length_drop in H.
  replace (Z.of_nat (length s - p) - Z.of_nat (length rest) - 1) with (Z.of_nat len) in H by lia.
  destruct (process_loop len (drop p s) (Z.of_nat len)) as [w|]; [|by rewrite H].
  destruct H as (out & -> & Hlen & Ht & Hle). rewrite Hm in Hlen. cbn [mbind access_bind fst snd Nat.add] in *.
  rewrite take_0 in Ht. cbn [app] in Ht.
  unfold store. destruct (Nat.ltb_spec (length w) (length out)); [|lia]. cbn [mbind access_bind].
  assert (take (length w + 1) (<[length w := 0]> out) = w ++ [0]) as ->.
  { rewrite insert_take_drop, Ht, take_app_add by done. done. }
  rewrite stores_ok by (rewrite length_app, Hm; simpl; lia). cbn [mbind access_bind or_failed]. unfold mret, access_ret. f_equal.
  rewrite take_0, app_nil_l, Nat.add_sub, <-app_assoc. apply take_app_length.
Qed.

(** C31: reading a quoted string stays within its memory.  [text] is any C
    string and [p] a place in it.  Whatever follows that place, an unterminated
    string or a truncated escape included, [get_quoted_string] reads only
    bytes of the text and its terminator (the digits of \u can be looked for
    behind the closing quote, but no read goes past the first NUL), and writes
    only to the [input_len + 1] bytes it allocates for the output and to the
    copy it makes of it; it returns exactly the string, or the error, that
    [Json.get_quoted_string] describes, with the pointer behind the closing
    quote. *)
Theorem quoted_string_in_bounds malloc text p :
  malloc_ok malloc -> wf_cstr text -> (p <= length text)%nat ->
  mem_get_quoted_string malloc (text ++ [0]) p =
  match get_quoted_string (drop p text) with
  | Some (str, rest) => Val (str, (length text - length rest)%nat)
  | None => Failed
  end.
Proof.
  intros Hm Hwf Hp. unfold mem_get_quoted_string, mem_skip_quotes, get_quoted_string, skip_quotes.
  rewrite (load_text text p) by done. cbn [mbind access_bind].
  destruct (Z.eqb_spec (deref (drop p text)) QUOTE) as [Hq|]; [|done].
  assert (p < length text)%nat as Hlt by (apply nonzero_inside; [done|done|by rewrite Hq]).
  rewrite skip_quotes_loop_ok by (rewrite ?length_app; simpl; done || lia). rewrite drop_drop.
  destruct (skip_quotes_loop (drop (p + 1) text)) as [rest|] eqn:Es; [|done]. cbn [mbind access_bind option_bind].
  pose proof (skip_quotes_loop_length _ _ Es) as Hr. rewrite length_drop in Hr.
  pose proof (process_string_ok malloc text (p + 1) rest Hm Hwf Es) as H. cbv zeta in H.
  replace (length text - length rest - p - 2)%nat with (length text - length rest - 1 - (p + 1))%nat by lia.
  rewrite H, length_drop.
  replace (Z.of_nat (length text - p) - Z.of_nat (length rest) - 2)
    with (Z.of_nat (length text - length rest - 1 - (p + 1))) by lia.
  by destruct (process_string _ _).
Qed.

(** A string with a \u escape, and one whose escape is cut off by the closing
    quote: the code looks for digits in the text behind it. *)
Lemma quoted_string_in_bounds_witness :
  let s := QUOTE :: b2l "a\u00e9\n" ++ QUOTE :: b2l ":1" in
  let t := QUOTE :: b2l "\u00" ++ QUOTE :: b2l ":1" in
  mem_get_quoted_string (fun n => replicate n 0) (s ++ [0]) 0 = Val ([97; 195; 169; 10], 11%nat) /\
  mem_get_quoted_string (fun n => replicate n 0) (t ++ [0]) 0 = Failed.
Proof.
  intros s t. assert (malloc_ok (fun n => replicate n 0)) as Hm by (intros n; apply length_replicate).
  assert (wf_cstr s /\ wf_cstr t) as [Hs Ht] by (split; repeat constructor; unfold is_char; lia).
  split.
  - rewrite (quoted_string_in_bounds _ s 0 Hm Hs) by (simpl; lia). reflexivity.
  - rewrite (quoted_string_in_bounds _ t 0 Hm Ht) by (simpl; lia). reflexivity.
Defined.
