(* ===== verification/JsonRoundtrip.v ===== *)
(** * JSON: parsing inverts serializing *)

From S2P Require Import Prelude Libc JsonObject Double Json JsonTheory.

(** ** Strings *)

Lemma escape_u c :
  0 <= c < 32 ->
  (if parse_utf16_hex (drop 2 (escape c)) is Some cp then cp =? c else true) = true.
Proof.
  intros Hc. apply (check_range (fun c =>
    if parse_utf16_hex (drop 2 (escape c)) is Some cp then cp =? c else true) 0 32); [|lia].
  vm_compute. reflexivity.
Qed.

(** The three shapes of an escaped byte. *)
Lemma escape_cases c :
  is_byte c ->
  (escape c = [c] /\ 32 <= c /\ c <> QUOTE /\ c <> BACKSLASH) \/
  (exists e, escape c = [BACKSLASH; e] /\ unescape e = Some c /\ e <> "u"%c /\ e <> 0) \/
  (exists a b d e, escape c = [BACKSLASH; "u"%c; a; b; d; e] /\
     parse_utf16_hex [a; b; d; e] = Some c /\ c < 32).
Proof.
  intros Hc. unfold is_byte in Hc. pose proof (escape_u c) as Hu. unfold escape in *.
  unfold QUOTE, BACKSLASH in *.
  destruct (Z.eqb_spec c 34) as [->|]; [right; left; by exists 34|].
  destruct (Z.eqb_spec c 92) as [->|]; [right; left; by exists 92|].
  destruct (Z.eqb_spec c 8) as [->|]; [right; left; by exists "b"%c|].
  destruct (Z.eqb_spec c 12) as [->|]; [right; left; by exists "f"%c|].
  destruct (Z.eqb_spec c 10) as [->|]; [right; left; by exists "n"%c|].
  destruct (Z.eqb_spec c 13) as [->|]; [right; left; by exists "r"%c|].
  destruct (Z.eqb_spec c 9) as [->|]; [right; left; by exists "t"%c|].
  destruct ((0 <=? c) && (c <=? 31)) eqn:E.
  - right; right. do 4 eexists. split; [done|]. split; [|lia]. specialize (Hu ltac:(lia)).
    cbn [drop] in Hu.
    match goal with |- ?p = _ => destruct p as [cp|] eqn:Ep; [by apply Z.eqb_eq in Hu as ->|exfalso] end.
    clear Hu. assert (0 <= c < 32) as Hr by lia. revert Ep.
    assert ((if parse_utf16_hex [48; 48; 48 + c / 16;
       if c mod 16 <? 10 then 48 + c mod 16 else 97 + (c mod 16 - 10)] is Some _ then true else false) = true) as H.
    { apply (check_range (fun c => if parse_utf16_hex [48; 48; 48 + c / 16;
        if c mod 16 <? 10 then 48 + c mod 16 else 97 + (c mod 16 - 10)] is Some _ then true else false) 0 32);
        [vm_compute; reflexivity|lia]. }
    intros Ep. by rewrite Ep in H.
  - destruct (Z.eqb_spec c 47) as [->|]; [right; left; by exists 47|]. left. split_and!; try done. lia.
Qed.

Lemma skip_escape c r : is_byte c -> skip_quotes_loop (escape c ++ r) = skip_quotes_loop r.
Proof.
  intros Hc. destruct (escape_cases c Hc) as [(-> & H1 & H2 & H3)|[(e & -> & _)|(a & b & d & e & -> & Hp & _)]].
  - simpl. destruct (Z.eqb_spec c QUOTE); [done|]. by destruct (Z.eqb_spec c BACKSLASH).
  - done.
  - change (skip_quotes_loop ([BACKSLASH; 117; a; b; d; e] ++ r))
      with (skip_quotes_loop (a :: b :: d :: e :: r)). rewrite (skip_hex (a :: b :: d :: e :: r) c Hp). cbn [drop]. by rewrite drop_0.
Qed.

Lemma process_escape c r :
  is_byte c -> exists p, process_char (escape c ++ r) = Some ([c], p) /\ drop 1 p = r.
Proof.
  intros Hc. unfold process_char.
  destruct (escape_cases c Hc) as [(-> & H1 & H2 & H3)|[(e & -> & He & Hu & H0)|(a & b & d & e & -> & Hp & Hlt)]].
  - cbn [app deref]. destruct (Z.eqb_spec c BACKSLASH); [done|]. destruct (Z.ltb_spec c 0x20); [lia|].
    eexists. split; [done|]. simpl. by rewrite ?drop_0.
  - cbn [app deref drop]. change (BACKSLASH =? BACKSLASH) with true. rewrite ?drop_0. cbn [deref].
    destruct (Z.eqb_spec e 117); [done|]. rewrite He. eexists. split; [done|]. simpl. by rewrite ?drop_0.
  - cbn [app deref drop]. change (BACKSLASH =? BACKSLASH) with true. rewrite ?drop_0. cbn [deref].
    unfold parse_utf16. cbn [drop]. rewrite ?drop_0.
    change (parse_utf16_hex (a :: b :: d :: e :: r)) with (parse_utf16_hex [a; b; d; e]). rewrite Hp.
    simpl. unfold is_byte in Hc. destruct (Z.ltb_spec c 128); [|lia].
    eexists. split; [done|]. simpl. by rewrite ?drop_0.
Qed.

Lemma skip_escaped s rest :
  Forall is_byte s -> skip_quotes_loop (concat (map escape s) ++ QUOTE :: rest) = Some rest.
Proof.
  induction 1 as [|c s Hc _ IH]; [done|]. simpl. rewrite <-app_assoc, skip_escape by done. exact IH.
Qed.

Lemma escape_nonnil c : is_byte c -> (0 < length (escape c))%nat /\ forall r, deref (escape c ++ r) <> 0.
Proof.
  intros Hc. destruct (escape_cases c Hc) as [(-> & H1 & H2 & H3)|[(e & -> & _)|(a & b & d & e & -> & _)]];
    (split; [simpl; lia|]; intros r; simpl; unfold BACKSLASH; lia).
Qed.

Lemma process_escaped s rest fuel :
  Forall is_byte s -> (length (concat (map escape s)) <= fuel)%nat ->
  process_loop fuel (concat (map escape s) ++ QUOTE :: rest)
    (Z.of_nat (length (concat (map escape s)))) = Some s.
Proof.
  intros Hs. revert fuel. induction Hs as [|c s Hc _ IH]; intros fuel Hf.
  - destruct fuel; simpl; done.
  - cbn [map concat] in *. rewrite length_app in *. rewrite <-app_assoc.
    destruct (escape_nonnil c Hc) as [Hpos Hne].
    destruct fuel as [|fuel]; [lia|]. cbn [process_loop].
    specialize (Hne (concat (map escape s) ++ QUOTE :: rest)).
    destruct (Z.eqb_spec (deref (escape c ++ concat (map escape s) ++ QUOTE :: rest)) 0); [done|].
    destruct (Z.leb_spec (Z.of_nat (length (escape c) + length (concat (map escape s)))) 0); [lia|].
    cbn [orb].
    destruct (process_escape c (concat (map escape s) ++ QUOTE :: rest) Hc) as (p & -> & Hp). simpl.
    rewrite Hp, !length_app.
    replace (Z.of_nat (length (escape c) + length (concat (map escape s))) - _)
      with (Z.of_nat (length (concat (map escape s)))) by lia.
    rewrite IH by lia. done.
Qed.

Lemma quoted_roundtrip s rest :
  Forall is_byte s -> get_quoted_string (json_serialize_string s ++ rest) = Some (s, rest).
Proof.
  intros Hs. unfold get_quoted_string, json_serialize_string, skip_quotes.
  cbn [app deref]. change (QUOTE =? QUOTE) with true. cbn [drop]. rewrite drop_0, <-app_assoc.
  cbn [app]. rewrite skip_escaped by done. simpl.
  replace (Z.of_nat (S (length (concat (map escape s) ++ QUOTE :: rest))) - _ - 2)
    with (Z.of_nat (length (concat (map escape s)))) by (rewrite length_app; simpl; lia).
  rewrite ?drop_0. unfold process_string. rewrite process_escaped by (done || lia). done.
Qed.

(** ** Numbers *)

(** A number that is an integer below 2^53 in absolute value (or -0). *)
Definition int_number (d : double) : Prop := exists neg n, 0 <= n < 2 ^ 53 /\ d = round_double neg n 1.

Lemma round_double_finite neg n :
  0 <= n < 2 ^ 53 -> isnan (round_double neg n 1) || isinf (round_double neg n 1) = false.
Proof.
  intros Hn. destruct (decide (n = 0)) as [->|]; [done|]. by rewrite round_double_int by lia.
Qed.

Lemma is_decimal_int (neg : bool) n rest :
  0 <= n ->
  is_decimal ((if neg then ["-"%c] else []) ++ dec n ++ rest)
    (length ((if neg then ["-"%c] else []) ++ dec n)) = true.
Proof.
  intros Hn. destruct (dec_head n Hn) as (c & ds & Hd & Hc & Hz).
  pose proof (dec_digits n Hn) as Hdig. rewrite Hd in Hdig.
  assert (forallb (fun c => negb ((c =? "x"%c) || (c =? "X"%c) || (c =? 0))) (c :: ds) = true) as Hall.
  { apply forallb_forall. intros x Hx. unfold digits in Hdig. rewrite forallb_forall in Hdig.
    specialize (Hdig x Hx). apply isdigit_range in Hdig. lia. }
  apply isdigit_range in Hc. rewrite Hd. unfold is_decimal. destruct neg.
  - cbn [app deref drop length]. rewrite ?drop_0. cbn [deref]. change (45 =? 48) with false.
    rewrite andb_false_r. cbn [andb].
    destruct (Z.eqb_spec c 48) as [->|Hne].
    + rewrite (Hz eq_refl). done.
    + replace (strncmp_eq 2 (45 :: c :: ds ++ rest) (b2l "-0")) with false.
      2:{ change (false = true && (false || (c =? 48) && ((c =? 0) || true))).
          by destruct (Z.eqb_spec c 48). }
      rewrite andb_false_r. cbn [andb take]. rewrite take_app_length. exact Hall.
  - cbn [app deref drop length]. rewrite ?drop_0.
    replace (strncmp_eq 2 (c :: ds ++ rest) (b2l "-0")) with false.
    2:{ cbn [strncmp_eq deref]. destruct (Z.eqb_spec c (deref (b2l "-0"))) as [E|]; [|done].
        exfalso. change (deref (b2l "-0")) with 45 in E. lia. }
    rewrite andb_false_r. cbn [andb].
    destruct (Z.eqb_spec c 48) as [->|Hne].
    + rewrite (Hz eq_refl). cbn [length]. done.
    + rewrite andb_false_r. cbn [andb take]. rewrite take_app_length. exact Hall.
Qed.

Lemma number_roundtrip d rest :
  int_number d -> num_end rest ->
  parse_number_value (format_g17 d ++ rest) = Some (JSONNumber d, rest).
Proof.
  intros (neg & n & Hn & ->) He. rewrite format_round by done. rewrite <-app_assoc.
  destruct (strtod_dec neg n rest Hn He) as [Hv Hr]. unfold parse_number_value.
  set (s := (if neg then ["-"%c] else []) ++ dec n ++ rest) in *. cbv zeta. rewrite Hv, Hr.
  pose proof (round_double_finite neg n Hn) as Hfin.
  destruct (isinf (round_double neg n 1)) eqn:Ei; [by rewrite orb_true_r in Hfin|].
  rewrite andb_false_r.
  replace (length s - length rest)%nat with (length ((if neg then ["-"%c] else []) ++ dec n))
    by (unfold s; rewrite !length_app; lia).
  unfold s. rewrite is_decimal_int by lia. cbn [negb].
  unfold json_value_init_number. by rewrite Ei, Hfin || (rewrite Ei; rewrite orb_false_r in *; by rewrite Hfin).
Qed.

Lemma format_head d : int_number d ->
  exists c t, format_g17 d = c :: t /\ (c = "-"%c \/ isdigit c = true).
Proof.
  intros (neg & n & Hn & ->). rewrite format_round by done.
  destruct (dec_head n ltac:(lia)) as (c & ds & -> & Hc & _). destruct neg; simpl; eauto.
Qed.

(** ** Texts *)

(** A serialized value begins with a character that is not white space and
    that no loop of the parser takes for the end. *)
Definition starts (t : bytes) : Prop :=
  exists c t', t = c :: t' /\ isspace c = false /\ c <> 0 /\ c <> "]"%c /\ c <> "}"%c.

Definition spaces (w : bytes) : Prop := forallb isspace w = true.

Lemma skip_ws_spaces w s : spaces w -> skip_ws (w ++ s) = skip_ws s.
Proof.
  unfold spaces. induction w as [|c w IH]; simpl; [done|]. intros [-> Hw]%andb_true_iff. auto.
Qed.

Lemma skip_ws_starts t s : starts t -> skip_ws (t ++ s) = t ++ s.
Proof. intros (c & t' & -> & Hc & _). simpl. by rewrite Hc. Qed.

Lemma skip_ws_char c s : isspace c = false -> skip_ws (c :: s) = c :: s.
Proof. simpl. by intros ->. Qed.

Lemma skip_ws_idem s : skip_ws (skip_ws s) = skip_ws s.
Proof. induction s as [|c s IH]; simpl; [done|]. destruct (isspace c) eqn:E; [done|]. simpl. by rewrite E. Qed.

Lemma spaces_app a b : spaces a -> spaces b -> spaces (a ++ b).
Proof. unfold spaces. rewrite forallb_app. by intros -> ->. Qed.

Lemma spaces_indent k : spaces (append_indent k).
Proof. induction k as [|k IH]; [done|]. unfold append_indent. simpl. done. Qed.

Lemma spaces_pretty p w : spaces w -> spaces (pretty_str p w).
Proof. by destruct p. Qed.

Lemma num_end_spaces w c s :
  spaces w -> num_end (c :: s) -> num_end (w ++ c :: s).
Proof.
  destruct w as [|x w]; [done|]. unfold spaces. simpl. intros [Hx _]%andb_true_iff _.
  unfold isspace in Hx. unfold isdigit, toupper.
  assert (x = 32 \/ 9 <= x <= 13) by lia. split_and!; repeat case_match; lia.
Qed.

Lemma parse_value_ws fuel s nesting : parse_value fuel (skip_ws s) nesting = parse_value fuel s nesting.
Proof. destruct fuel; [done|]. cbn [parse_value]. by rewrite skip_ws_idem. Qed.

(** ** Values up to the layout of their tables *)

Inductive tree :=
| TNull
| TString (s : bytes)
| TNumber (d : double)
| TBoolean (b : bool)
| TArray (l : list tree)
| TObject (l : list (bytes * tree)).

Fixpoint tree_of (v : JSON_Value) : tree :=
  match v with
  | JSONNull => TNull
  | JSONString s => TString s
  | JSONNumber d => TNumber d
  | JSONBoolean b => TBoolean b
  | JSONArray (Arr items _) => TArray (map tree_of items)
  | JSONObject (Obj _ _ names values _ _ _ _) => TObject (zip names (map tree_of values))
  end.

(** All numbers are integers below 2^53. *)
Inductive int_numbers : nat -> JSON_Value -> Prop :=
| in_null n : int_numbers (S n) JSONNull
| in_string n s : int_numbers (S n) (JSONString s)
| in_number n d : int_number d -> int_numbers (S n) (JSONNumber d)
| in_boolean n b : int_numbers (S n) (JSONBoolean b)
| in_array n a : Forall (int_numbers n) (items a) -> int_numbers (S n) (JSONArray a)
| in_object n o : Forall (int_numbers n) (values o) -> int_numbers (S n) (JSONObject o).

(** The loops of the serializer. *)
Definition ser_items (level : nat) (p : bool) : list JSON_Value -> option bytes :=
  fix go (l : list JSON_Value) : option bytes :=
    match l with
    | [] => Some []
    | temp_value :: l' =>
        t ← json_serialize_to_buffer_r temp_value (S level) p;
        rest ← go l';
        Some (pretty_str p (append_indent (S level)) ++ t ++
              match l' with [] => [] | _ => [","%c] end ++ pretty_str p [NEWLINE] ++ rest)
    end.

Definition ser_entries (level : nat) (p : bool) : list bytes -> list JSON_Value -> option bytes :=
  fix go (ks : list bytes) (l : list JSON_Value) {struct l} : option bytes :=
    match l with
    | [] => Some []
    | temp_value :: l' =>
        match ks with
        | [] => None
        | key :: ks' =>
            t ← json_serialize_to_buffer_r temp_value (S level) p;
            rest ← go ks' l';
            Some (pretty_str p (append_indent (S level)) ++
                  json_serialize_string key ++ ":"%c :: pretty_str p [" "%c] ++ t ++
                  match l' with [] => [] | _ => [","%c] end ++ pretty_str p [NEWLINE] ++ rest)
        end
    end.

Lemma ser_items_cons level p x l :
  ser_items level p (x :: l) =
  t ← json_serialize_to_buffer_r x (S level) p;
  rest ← ser_items level p l;
  Some (pretty_str p (append_indent (S level)) ++ t ++
        match l with [] => [] | _ => [","%c] end ++ pretty_str p [NEWLINE] ++ rest).
Proof. reflexivity. Qed.

Lemma ser_entries_cons level p key ks x l :
  ser_entries level p (key :: ks) (x :: l) =
  t ← json_serialize_to_buffer_r x (S level) p;
  rest ← ser_entries level p ks l;
  Some (pretty_str p (append_indent (S level)) ++
        json_serialize_string key ++ ":"%c :: pretty_str p [" "%c] ++ t ++
        match l with [] => [] | _ => [","%c] end ++ pretty_str p [NEWLINE] ++ rest).
Proof. reflexivity. Qed.

Lemma ser_array a level p :
  json_serialize_to_buffer_r (JSONArray a) level p =
  body ← ser_items level p (items a);
  Some ("["%c :: (match items a with [] => [] | _ => pretty_str p [NEWLINE] end) ++ body ++
        (match items a with [] => [] | _ => pretty_str p (append_indent level) end) ++ ["]"%c]).
Proof. by destruct a. Qed.

Lemma ser_object o level p :
  json_serialize_to_buffer_r (JSONObject o) level p =
  body ← ser_entries level p (names o) (values o);
  Some ("{"%c :: (match values o with [] => [] | _ => pretty_str p [NEWLINE] end) ++ body ++
        (match values o with [] => [] | _ => pretty_str p (append_indent level) end) ++ ["}"%c]).
Proof. by destruct o. Qed.

Lemma tree_of_array a : tree_of (JSONArray a) = TArray (map tree_of (items a)).
Proof. by destruct a. Qed.

Lemma zip_map_snd {A B C} (f : B -> C) (ks : list A) (l : list B) :
  zip ks (map f l) = map (fun e => (e.1, f e.2)) (zip ks l).
Proof. revert l. induction ks as [|k ks IH]; intros [|x l]; simpl; [done..|]. by rewrite IH. Qed.

Lemma tree_of_object o :
  tree_of (JSONObject o) = TObject (map (fun e => (e.1, tree_of e.2)) (entries o)).
Proof. destruct o. unfold entries. simpl. by rewrite zip_map_snd. Qed.

Lemma num_end_char c s : c ∈ [","%c; "]"%c; "}"%c] -> num_end (c :: s).
Proof.
  rewrite !elem_of_cons, elem_of_nil.
  intros [->|[->|[->|[]]]]; simpl; split_and!; vm_compute; done.
Qed.

Lemma starts_char c t : isspace c = false -> c <> 0 -> c <> "]"%c -> c <> "}"%c -> starts (c :: t).
Proof. intros. by exists c, t. Qed.

Lemma serialized_starts n v lvl p t :
  int_numbers n v -> json_serialize_to_buffer_r v lvl p = Some t -> starts t.
Proof.
  intros Hi. destruct Hi as [n|n s|n d Hd|n b|n a Ha|n o Ho].
  - intros [= <-]. by apply starts_char.
  - intros [= <-]. by apply starts_char.
  - intros [= <-]. destruct (format_head d Hd) as (c & t' & -> & [->|Hc]); [by apply starts_char|].
    apply starts_char; [by apply isdigit_not_space|..]; apply isdigit_range in Hc; lia.
  - intros [= <-]. destruct b; by apply starts_char.
  - rewrite ser_array. destruct (ser_items _ _ _); [|done]. intros [= <-]. by apply starts_char.
  - rewrite ser_object. destruct (ser_entries _ _ _ _); [|done]. intros [= <-]. by apply starts_char.
Qed.

(** The text of a value is read back as the value, whatever follows. *)
Definition readable (n : nat) : Prop := forall v lvl p t rest fuel nesting,
  json_ok n v -> int_numbers n v -> json_serialize_to_buffer_r v lvl p = Some t ->
  level nesting = n -> num_end rest ->
  (2 * length (t ++ rest) + 1 <= fuel)%nat -> Z.of_nat (length (t ++ rest)) < 2 ^ 30 ->
  exists v', parse_value fuel (t ++ rest) nesting = POk v' rest /\ tree_of v' = tree_of v.

(** What follows an item or entry: a comma and the next one, or white space
    and the closing bracket. *)
Definition follows {A} (l : list A) (nl body closing : bytes) (bracket : Z) (rest : bytes) : bytes :=
  match l with [] => [] | _ => [","%c] end ++ nl ++ body ++ closing ++ bracket :: rest.

Lemma follows_num_end {A} (l : list A) nl body closing bracket rest :
  (l = [] -> body = []) -> spaces nl -> spaces closing -> bracket ∈ ["]"%c; "}"%c] ->
  num_end (follows l nl body closing bracket rest).
Proof.
  intros Hb Hn Hc Hbr. unfold follows. destruct l as [|x l].
  - rewrite (Hb eq_refl). cbn [app]. rewrite app_assoc. apply num_end_spaces; [by apply spaces_app|].
    apply num_end_char. set_solver.
  - apply num_end_char. set_solver.
Qed.

Lemma follows_nil {A} nl closing bracket rest :
  spaces nl -> spaces closing -> isspace bracket = false ->
  skip_ws (follows (A := A) [] nl [] closing bracket rest) = bracket :: rest.
Proof.
  intros Hn Hc Hb. unfold follows. cbn [app].
  rewrite skip_ws_spaces, skip_ws_spaces by done. by apply skip_ws_char.
Qed.

Lemma follows_cons {A} (x : A) l nl body closing bracket rest :
  skip_ws (follows (x :: l) nl body closing bracket rest) = ","%c :: nl ++ body ++ closing ++ bracket :: rest.
Proof. by apply skip_ws_char. Qed.

Lemma array_loop_reads n l : readable n -> l <> [] -> forall a lvl p body closing rest fuel nesting,
  Forall (json_ok n) l -> Forall (int_numbers n) l -> ser_items lvl p l = Some body ->
  level nesting = n -> spaces closing ->
  let s := skip_ws (body ++ closing ++ "]"%c :: rest) in
  (2 * length s + 2 <= fuel)%nat -> Z.of_nat (length s) < 2 ^ 30 ->
  (deref s <> "]"%c) /\
  exists l' c, parse_array_loop fuel a s nesting = POk (Arr (items a ++ l') c) rest /\
    map tree_of l' = map tree_of l.
Proof.
  intros Hread. induction l as [|x l IH]; [done|].
  intros _ a lvl p body closing rest fuel nesting Hok Hint Hser Hlev Hcl.
  apply Forall_cons in Hok as [Hx Hok], Hint as [Hix Hint]. rewrite ser_items_cons in Hser.
  destruct (json_serialize_to_buffer_r x (S lvl) p) as [t|] eqn:Et; [|done]. simpl in Hser.
  destruct (ser_items lvl p l) as [body'|] eqn:Eb; [|done]. simpl in Hser. injection Hser as <-.
  pose proof (serialized_starts _ _ _ _ _ Hix Et) as Hst.
  assert (spaces (pretty_str p [NEWLINE])) as Hnl by by apply spaces_pretty.
  set (R := follows l (pretty_str p [NEWLINE]) body' closing "]"%c rest).
  assert (skip_ws ((pretty_str p (append_indent (S lvl)) ++ t ++ match l with [] => [] | _ => [","%c] end ++
    pretty_str p [NEWLINE] ++ body') ++ closing ++ "]"%c :: rest) = t ++ R) as ->.
  { unfold R, follows. rewrite <-!app_assoc.
    rewrite skip_ws_spaces by apply spaces_pretty, spaces_indent. by apply skip_ws_starts. }
  cbv zeta. intros Hfuel Hlen. destruct Hst as (c0 & t' & Ht & Hsp & H0 & Hb & _).
  assert (deref (t ++ R) = c0) as Hs by (by rewrite Ht). split; [congruence|].
  assert (num_end R) as HR.
  { apply follows_num_end; [|done|done|set_solver]. intros ->. by injection Eb. }
  destruct fuel as [|fuel]; [lia|]. cbn [parse_array_loop]. rewrite Hs.
  destruct (Z.eqb_spec c0 0); [done|].
  destruct (Hread x (S lvl) p t R fuel nesting Hx Hix Et Hlev HR) as (v' & -> & Htv).
  { lia. } { done. }
  destruct (json_array_add_spec a v') as [c ->]. rewrite length_app in Hfuel, Hlen.
  destruct l as [|y l].
  - injection Eb as <-. unfold R. rewrite follows_nil by (done || by vm_compute). cbn [deref].
    change (93 =? 44) with false. cbn [negb]. rewrite skip_ws_char by done. cbn [deref].
    unfold json_array_resize, json_array_get_count. cbn [items]. rewrite length_app. simpl.
    destruct (Z.eqb_spec (Z.of_nat (length (items a) + 1)) 0); [lia|].
    eexists [v'], _. rewrite ?drop_0. split; [done|]. simpl. by rewrite Htv.
  - unfold R in *. rewrite follows_cons. cbn [deref]. change (44 =? 44) with true. cbn [negb drop].
    rewrite ?drop_0, skip_ws_spaces by done.
    destruct (IH ltac:(done) (Arr (items a ++ [v']) c) lvl p body' closing rest fuel nesting
      Hok Hint Eb Hlev Hcl) as (Hd & l' & c' & Hp & Hl').
    + pose proof (suffix_length _ _ (suffix_skip_ws (body' ++ closing ++ "]"%c :: rest))).
      unfold follows in Hfuel. rewrite !length_app in *. simpl in *. lia.
    + pose proof (suffix_length _ _ (suffix_skip_ws (body' ++ closing ++ "]"%c :: rest))).
      unfold follows in Hlen. rewrite !length_app in *. simpl in *. lia.
    + destruct (Z.eqb_spec (deref (skip_ws (body' ++ closing ++ "]"%c :: rest))) 93); [done|].
      exists (v' :: l'), c'. rewrite Hp. cbn [items]. rewrite <-app_assoc. split; [done|].
      cbn [map]. by rewrite Htv, Hl'.
Qed.

Lemma wf_cstr_bytes s : wf_cstr s -> Forall is_byte s.
Proof. intros H. eapply Forall_impl; [exact H|]. unfold is_char, is_byte. intros. lia. Qed.

Lemma cstr_wf s : wf_cstr s -> cstr s = s.
Proof.
  induction 1 as [|c s Hc _ IH]; [done|]. simpl. unfold is_char in Hc.
  destruct (Z.eqb_spec c 0); [lia|]. by rewrite IH.
Qed.

Lemma serialized_key_length k : (2 <= length (json_serialize_string k))%nat.
Proof. unfold json_serialize_string. simpl. rewrite length_app. simpl. lia. Qed.

Lemma object_loop_reads n l : readable n -> l <> [] -> forall ks o lvl p body closing rest fuel nesting,
  length ks = length l -> Forall wf_cstr ks -> NoDup (names o ++ ks) -> obj_inv o ->
  Forall (json_ok n) l -> Forall (int_numbers n) l -> ser_entries lvl p ks l = Some body ->
  level nesting = n -> spaces closing ->
  let s := skip_ws (body ++ closing ++ "}"%c :: rest) in
  (2 * length s + 2 <= fuel)%nat -> count o + Z.of_nat (length s) < 2 ^ 30 ->
  (deref s <> "}"%c) /\
  exists o' l', parse_object_loop fuel o s nesting = POk o' rest /\
    entries o' = entries o ++ zip ks l' /\ map tree_of l' = map tree_of l.
Proof.
  intros Hread. induction l as [|x l IH]; [done|].
  intros _ [|key ks] o lvl p body closing rest fuel nesting Hlk Hkw Hnd Hinv Hok Hint Hser Hlev Hcl; [done|].
  apply Forall_cons in Hok as [Hx Hok], Hint as [Hix Hint], Hkw as [Hkey Hkw]. rewrite ser_entries_cons in Hser.
  destruct (json_serialize_to_buffer_r x (S lvl) p) as [t|] eqn:Et; [|done]. cbn [mbind option_bind] in Hser.
  destruct (ser_entries lvl p ks l) as [body'|] eqn:Eb; [|done]. cbn [mbind option_bind] in Hser. apply (inj Some) in Hser. subst body.
  pose proof (serialized_starts _ _ _ _ _ Hix Et) as Hst.
  assert (spaces (pretty_str p [NEWLINE])) as Hnl by by apply spaces_pretty.
  set (R := follows l (pretty_str p [NEWLINE]) body' closing "}"%c rest).
  assert (skip_ws ((pretty_str p (append_indent (S lvl)) ++ json_serialize_string key ++ ":"%c ::
    pretty_str p [" "%c] ++ t ++ match l with [] => [] | _ => [","%c] end ++
    pretty_str p [NEWLINE] ++ body') ++ closing ++ "}"%c :: rest)
    = json_serialize_string key ++ ":"%c :: pretty_str p [" "%c] ++ t ++ R) as ->.
  { unfold R, follows. repeat (rewrite <-app_assoc || cbn [app]).
    rewrite skip_ws_spaces by apply spaces_pretty, spaces_indent. by apply skip_ws_char. }
  cbv zeta. intros Hfuel Hlen. split; [done|].
  assert (num_end R) as HR.
  { apply follows_num_end; [|done|done|set_solver]. intros ->. destruct ks; [|done]. by injection Eb. }
  destruct fuel as [|fuel]; [lia|]. cbn [parse_object_loop].
  change (deref (json_serialize_string key ++ ":"%c :: pretty_str p [" "%c] ++ t ++ R)) with QUOTE.
  change (QUOTE =? 0) with false. cbv iota.
  rewrite quoted_roundtrip by by apply wf_cstr_bytes. rewrite cstr_wf, Nat.eqb_refl by done. cbn [negb].
  rewrite (skip_ws_char ":"%c) by done. cbn [deref]. change (58 =? 58) with true. cbn [negb drop].
  pose proof (serialized_key_length key) as Hkl.
  rewrite ?drop_0, <-parse_value_ws, skip_ws_spaces, skip_ws_starts by (done || by apply spaces_pretty).
  rewrite length_app in Hfuel, Hlen. cbn [length] in Hfuel, Hlen. rewrite !length_app in Hfuel, Hlen.
  pose proof (ok_count o (inv_table o Hinv)) as Hcnt.
  destruct (Hread x (S lvl) p t R fuel nesting Hx Hix Et Hlev HR) as (v' & -> & Htv);
    [rewrite length_app; lia|rewrite length_app; lia|].
  destruct (add_spec o key v' Hinv Hkey ltac:(lia)) as [_ Hadd].
  destruct Hadd as (o1 & -> & Hinv1 & He1 & Hn1 & Hc1).
  { apply NoDup_app in Hnd as (_ & Hd & _). intros Hin. apply (Hd key Hin). by left. }
  destruct l as [|y l].
  - destruct ks; [|done]. injection Eb as <-. unfold R. rewrite follows_nil by (done || by vm_compute).
    cbn [deref]. change (125 =? 44) with false. cbn [negb]. rewrite skip_ws_char by done. cbn [deref].
    eexists o1, [v']. rewrite ?drop_0. split_and!; [done|by rewrite He1|]. cbn [map]. by rewrite Htv.
  - unfold R in *. rewrite follows_cons. cbn [deref]. change (44 =? 44) with true. cbn [negb drop].
    rewrite ?drop_0, skip_ws_spaces by done.
    pose proof (suffix_length _ _ (suffix_skip_ws (body' ++ closing ++ "}"%c :: rest))) as Hsl.
    assert (length (follows (y :: l) (pretty_str p [NEWLINE]) body' closing "}"%c rest) =
      (1 + length (pretty_str p [NEWLINE]) + length (body' ++ closing ++ "}"%c :: rest))%nat) as Hfl.
    { unfold follows. cbn [app length]. rewrite length_app. lia. }
    destruct (IH ltac:(done) ks o1 lvl p body' closing rest fuel nesting) as (Hd & o' & l' & Hp & He & Hl');
      try done; [by injection Hlk|by rewrite Hn1, <-app_assoc|lia|lia|].
    destruct (Z.eqb_spec (deref (skip_ws (body' ++ closing ++ "}"%c :: rest))) 125); [done|].
    exists o', (v' :: l'). rewrite Hp, He, He1, <-app_assoc. split_and!; [done|done|].
    cbn [map]. by rewrite Htv, Hl'.
Qed.

Lemma token_reads (w : string) rest : strncmp_token w (b2l w ++ rest) = true.
Proof.
  unfold strncmp_token. induction (b2l w) as [|c l IH]; simpl; [done|].
  rewrite Z.eqb_refl, ?drop_0. simpl. by rewrite IH, orb_true_r.
Qed.

Lemma scalar_step n v lvl p t rest fuel nesting :
  json_ok (S n) v -> int_numbers (S n) v -> json_serialize_to_buffer_r v lvl p = Some t ->
  (nesting <= MAX_NESTING)%nat -> num_end rest ->
  match v with JSONArray _ | JSONObject _ => False | _ => True end ->
  parse_value (S fuel) (t ++ rest) nesting = POk v rest.
Proof.
  intros Hok Hint Hser Hn He Hsc. cbn [parse_value].
  destruct (Nat.ltb_spec MAX_NESTING nesting); [lia|].
  rewrite skip_ws_starts by by eapply serialized_starts.
  destruct v as [|s|d| | |b]; try done; cbn [json_serialize_to_buffer_r] in Hser;
    apply (inj Some) in Hser; subst t.
  - done.
  - inversion Hok; subst. change (deref (json_serialize_string s ++ rest)) with QUOTE.
    change (QUOTE =? 123) with false. change (QUOTE =? 91) with false. change (QUOTE =? QUOTE) with true.
    cbv iota. unfold parse_string_value. by rewrite quoted_roundtrip.
  - inversion Hint; subst. destruct (format_head d) as (c & t' & Ht & Hc); [done|].
    assert (deref (format_g17 d ++ rest) = c) as -> by by rewrite Ht.
    assert (c = 45 \/ 48 <= c <= 57) as Hcr by (destruct Hc as [->|Hc%isdigit_range]; lia).
    assert ((c =? 45) || isdigit c = true) as -> by (destruct Hc as [-> | ->]; [done|by rewrite orb_true_r]).
    unfold QUOTE. repeat (case_match; [lia|]). by rewrite number_roundtrip.
  - destruct b.
    + change (of_option (parse_boolean_value (b2l "true" ++ rest)) = POk (JSONBoolean true) rest).
      unfold parse_boolean_value. by rewrite token_reads.
    + change (of_option (parse_boolean_value (b2l "false" ++ rest)) = POk (JSONBoolean false) rest).
      unfold parse_boolean_value. change (strncmp_token "true" (b2l "false" ++ rest)) with false.
      by rewrite token_reads.
Qed.

Lemma array_reads n a lvl p t rest fuel nesting :
  readable n -> Forall (json_ok n) (items a) -> Forall (int_numbers n) (items a) ->
  json_serialize_to_buffer_r (JSONArray a) lvl p = Some t ->
  level nesting = S n -> (2 * length (t ++ rest) + 1 <= S fuel)%nat ->
  Z.of_nat (length (t ++ rest)) < 2 ^ 30 ->
  exists v', parse_value (S fuel) (t ++ rest) nesting = POk v' rest /\ tree_of v' = tree_of (JSONArray a).
Proof.
  intros Hread Hok Hint Hser Hlev Hfuel Hlen. rewrite ser_array in Hser. unfold level in Hlev.
  destruct (ser_items lvl p (items a)) as [body|] eqn:Eb; [|done].
  cbn [mbind option_bind] in Hser. apply (inj Some) in Hser. subst t.
  cbn [parse_value]. destruct (Nat.ltb_spec MAX_NESTING nesting); [lia|].
  repeat (rewrite <-app_assoc in * || cbn [app] in * ). rewrite (skip_ws_char "["%c) by done. cbn [deref].
  change (91 =? 123) with false. change (91 =? 91) with true. cbv iota. cbn [drop]. rewrite ?drop_0.
  rewrite tree_of_array. destruct (items a) as [|x l] eqn:Ei.
  - injection Eb as <-. cbn [app]. rewrite (skip_ws_char "]"%c) by done. cbn [deref].
    change (93 =? 93) with true. cbv iota. eexists. split; [cbn [drop]; by rewrite ?drop_0|]. done.
  - rewrite skip_ws_spaces by by apply spaces_pretty.
    set (closing := pretty_str p (append_indent lvl)) in *.
    pose proof (suffix_length _ _ (suffix_skip_ws (body ++ closing ++ "]"%c :: rest))) as Hsl.
    cbn [length] in Hfuel, Hlen. rewrite length_app in Hfuel, Hlen.
    destruct (array_loop_reads n (x :: l) Hread ltac:(done) json_array_make lvl p body closing rest fuel
      (S nesting) Hok Hint Eb) as (Hd & l' & c & Hp & Ht); [unfold level; lia|
      apply spaces_pretty, spaces_indent|lia|lia|].
    destruct (Z.eqb_spec (deref (skip_ws (body ++ closing ++ "]"%c :: rest))) 93); [done|].
    rewrite Hp. eexists. split; [done|]. cbn [items json_array_make app].
    rewrite tree_of_array. cbn [items app]. by rewrite Ht.
Qed.

Lemma object_reads n o lvl p t rest fuel nesting :
  readable n -> obj_inv o -> Forall (json_ok n) (values o) -> Forall (int_numbers n) (values o) ->
  json_serialize_to_buffer_r (JSONObject o) lvl p = Some t ->
  level nesting = S n -> (2 * length (t ++ rest) + 1 <= S fuel)%nat ->
  Z.of_nat (length (t ++ rest)) < 2 ^ 30 ->
  exists v', parse_value (S fuel) (t ++ rest) nesting = POk v' rest /\ tree_of v' = tree_of (JSONObject o).
Proof.
  intros Hread Hinv Hok Hint Hser Hlev Hfuel Hlen. rewrite ser_object in Hser. unfold level in Hlev.
  pose proof (inv_table o Hinv) as Htab.
  destruct (ser_entries lvl p (names o) (values o)) as [body|] eqn:Eb; [|done].
  cbn [mbind option_bind] in Hser. apply (inj Some) in Hser. subst t.
  cbn [parse_value]. destruct (Nat.ltb_spec MAX_NESTING nesting); [lia|].
  repeat (rewrite <-app_assoc in * || cbn [app] in * ). rewrite (skip_ws_char "{"%c) by done. cbn [deref].
  change (123 =? 123) with true. cbv iota. cbn [drop]. rewrite ?drop_0.
  rewrite tree_of_object. unfold entries.
  destruct (values o) as [|x l] eqn:Ei.
  - injection Eb as <-. cbn [app]. rewrite (skip_ws_char "}"%c) by done. cbn [deref].
    change (125 =? 125) with true. cbv iota. eexists. split; [cbn [drop]; by rewrite ?drop_0|].
    by destruct (names o).
  - rewrite skip_ws_spaces by by apply spaces_pretty.
    set (closing := pretty_str p (append_indent lvl)) in *.
    pose proof (suffix_length _ _ (suffix_skip_ws (body ++ closing ++ "}"%c :: rest))) as Hsl.
    cbn [length] in Hfuel, Hlen. rewrite length_app in Hfuel, Hlen.
    destruct (object_loop_reads n (x :: l) Hread ltac:(done) (names o) json_object_make lvl p body closing
      rest fuel (S nesting)) as (Hd & o' & l' & Hp & He & Ht).
    + rewrite <-Ei. symmetry. apply (ok_len_values o Htab).
    + apply (ok_wf o Htab).
    + apply (ok_nodup o Htab).
    + apply json_object_make_inv.
    + done.
    + done.
    + done.
    + unfold level; lia.
    + apply spaces_pretty, spaces_indent.
    + lia.
    + cbn [count json_object_make json_object_init]. lia.
    + destruct (Z.eqb_spec (deref (skip_ws (body ++ closing ++ "}"%c :: rest))) 125); [done|].
      rewrite Hp. eexists. split; [done|]. rewrite tree_of_object, He.
      change (entries json_object_make) with (@nil (bytes * JSON_Value)). cbn [app].
      by rewrite <-!zip_map_snd, Ht.
Qed.

Lemma all_readable n : readable n.
Proof.
  induction n as [|n IH]; intros v lvl p t rest fuel nesting Hok Hint Hser Hlev He Hfuel Hlen.
  { inversion Hok. }
  destruct fuel as [|fuel]; [lia|].
  assert (match v with JSONArray _ | JSONObject _ => False | _ => True end \/
    (exists a, v = JSONArray a) \/ exists o, v = JSONObject o) as [Hs|[[a ->]|[o ->]]]
    by (destruct v; naive_solver).
  - exists v. split; [|done]. eapply scalar_step; try done. unfold level in Hlev. lia.
  - inversion Hok; subst. inversion Hint; subst. by eapply array_reads.
  - inversion Hok; subst. inversion Hint; subst. by eapply object_reads.
Qed.

Lemma ser_items_total n lvl p l :
  (forall v lvl, json_ok n v -> is_Some (json_serialize_to_buffer_r v lvl p)) ->
  Forall (json_ok n) l -> is_Some (ser_items lvl p l).
Proof.
  intros Hv. induction 1 as [|x l Hx _ [b Hb]]; [by eexists|]. rewrite ser_items_cons.
  destruct (Hv x (S lvl) Hx) as [t ->]. rewrite Hb. by eexists.
Qed.

Lemma ser_entries_total n lvl p ks l :
  (forall v lvl, json_ok n v -> is_Some (json_serialize_to_buffer_r v lvl p)) ->
  length ks = length l -> Forall (json_ok n) l -> is_Some (ser_entries lvl p ks l).
Proof.
  intros Hv Hl Hok. revert ks Hl. induction Hok as [|x l Hx _ IH]; intros [|k ks] Hl; try done.
  rewrite ser_entries_cons. destruct (Hv x (S lvl) Hx) as [t ->].
  destruct (IH ks) as [b ->]; [by injection Hl|]. by eexists.
Qed.

Lemma serialize_total n v lvl p : json_ok n v -> is_Some (json_serialize_to_buffer_r v lvl p).
Proof.
  revert v lvl. induction n as [|n IH]; intros v lvl Hok; inversion Hok; subst; try by eexists.
  - rewrite ser_array. destruct (ser_items_total n lvl p (items a) IH ltac:(done)) as [b ->]. by eexists.
  - rewrite ser_object.
    assert (length (names o) = length (values o)) as Hl by (symmetry; by apply (ok_len_values o), inv_table).
    destruct (ser_entries_total n lvl p (names o) (values o) IH Hl ltac:(done)) as [b ->]. by eexists.
Qed.

Lemma starts_no_bom n v lvl p t :
  int_numbers n v -> json_serialize_to_buffer_r v lvl p = Some t ->
  strncmp_eq 3 t [0xEF; 0xBB; 0xBF] = false.
Proof.
  intros Hi. destruct Hi as [n|n s|n d Hd|n b|n a Ha|n o Ho].
  - by intros [= <-].
  - by intros [= <-].
  - intros [= <-]. destruct (format_head d Hd) as (c & t' & -> & Hc). cbn [strncmp_eq deref].
    destruct (Z.eqb_spec c 239); [|done]. destruct Hc as [->|Hc%isdigit_range]; lia.
  - intros [= <-]. by destruct b.
  - rewrite ser_array. destruct (ser_items _ _ _); [|done]. by intros [= <-].
  - rewrite ser_object. destruct (ser_entries _ _ _ _); [|done]. by intros [= <-].
Qed.

(** C15: serializing a well-formed value succeeds, compact or pretty, and
    parsing the text gives the value back: same structure, same strings, same
    order of entries, same numbers, with nothing left over; for values whose
    numbers are integers below 2^53 and whose text is below 2^30 bytes. *)
Theorem serialize_parse_roundtrip v is_pretty :
  json_ok (S MAX_NESTING) v -> int_numbers (S MAX_NESTING) v ->
  exists t, json_serialize_to_buffer_r v 0 is_pretty = Some t /\
  (Z.of_nat (length t) < 2 ^ 30 ->
   exists v', json_parse_string t = POk v' [] /\ tree_of v' = tree_of v).
Proof.
  intros Hok Hint. destruct (serialize_total _ v 0%nat is_pretty Hok) as [t Ht].
  exists t. split; [done|]. intros Hl. unfold json_parse_string.
  rewrite (starts_no_bom _ _ _ _ _ Hint Ht).
  destruct (all_readable _ v 0%nat is_pretty t [] (parse_fuel t) 0%nat Hok Hint Ht) as (v' & Hp & Hv').
  - done.
  - done.
  - rewrite app_nil_r. unfold parse_fuel. lia.
  - by rewrite app_nil_r.
  - exists v'. by rewrite app_nil_r in Hp.
Qed.

Definition demo_value : JSON_Value :=
  JSONArray (Arr [JSONNumber (of_int 8080); JSONString (b2l "a/b"); JSONArray (Arr [] 0)] 16).

Lemma serialize_parse_roundtrip_witness :
  exists t, json_serialize_to_buffer_r demo_value 0 true = Some t /\
  exists v', json_parse_string t = POk v' [] /\ tree_of v' = tree_of demo_value.
Proof.
  destruct (serialize_parse_roundtrip demo_value true) as (t & Ht & H).
  - repeat constructor; unfold is_byte; lia.
  - repeat constructor. exists false, 8080. split; [lia|reflexivity].
  - exists t. split; [exact Ht|]. apply H. vm_compute in Ht. injection Ht as <-. reflexivity.
Defined.
