(* ===== verification/JsonValues.v ===== *)
(** * JSON values: arrays, copies, comparison and schemas (vendor/parson/parson.c)

    The operations of parson on whole values: the functions that change an
    array, [json_value_deep_copy], [json_value_equals] and [json_validate].
    The last three look the entries of an object up by name, as the code does,
    so that their recursion is bounded by the depth of the value. *)

From S2P Require Import Prelude Libc JsonObject JsonRemove Double Json JsonTheory JsonRoundtrip.

(** ** Doubles: difference, absolute value, order *)

(** The value of a finite double, in units of [2 ^ e0] for an [e0] below its
    exponent. *)
Definition scaled (neg : bool) (m e e0 : Z) : Z := (if neg then -1 else 1) * (m * 2 ^ (e - e0)).

(** A difference of zero is -0 only for [-0 - 0]. *)
Definition double_sub (a b : double) : double :=
  match a, b with
  | DFin n1 m1 e1, DFin n2 m2 e2 =>
      let e0 := Z.min e1 e2 in
      let d := scaled n1 m1 e1 e0 - scaled n2 m2 e2 e0 in
      let '(num, den) := scale2 (Z.abs d) 1 e0 in
      round_double (if d =? 0 then n1 && negb n2 else d <? 0) num den
  | DInf n1, DInf n2 => if Bool.eqb n1 n2 then DNan else DInf n1
  | DInf n1, DFin _ _ _ => DInf n1
  | DFin _ _ _, DInf n2 => DInf (negb n2)
  | _, _ => DNan
  end.

Definition fabs (x : double) : double :=
  match x with DFin _ m e => DFin false m e | DInf _ => DInf false | DNan => DNan end.

(** [x < y]; false on a NaN. *)
Definition double_lt (x y : double) : bool :=
  match x, y with
  | DFin n1 m1 e1, DFin n2 m2 e2 =>
      let e0 := Z.min e1 e2 in scaled n1 m1 e1 e0 <? scaled n2 m2 e2 e0
  | DInf n1, DFin _ _ _ => n1
  | DFin _ _ _, DInf n2 => negb n2
  | DInf n1, DInf n2 => n1 && negb n2
  | _, _ => false
  end.

(** The constant 0.000001. *)
Definition EPSILON : double := round_double false 1 1000000.

Definition near (a b : double) : bool := double_lt (fabs (double_sub a b)) EPSILON.

(** ** Types *)

Definition JSONError_t : Z := -1.
Definition JSONNull_t : Z := 1.
Definition JSONString_t : Z := 2.
Definition JSONNumber_t : Z := 3.
Definition JSONObject_t : Z := 4.
Definition JSONArray_t : Z := 5.
Definition JSONBoolean_t : Z := 6.

Definition json_value_get_type (v : option JSON_Value) : Z :=
  match v with
  | None => JSONError_t
  | Some JSONNull => JSONNull_t
  | Some (JSONString _) => JSONString_t
  | Some (JSONNumber _) => JSONNumber_t
  | Some (JSONObject _) => JSONObject_t
  | Some (JSONArray _) => JSONArray_t
  | Some (JSONBoolean _) => JSONBoolean_t
  end.

(** ** Arrays *)

Definition json_array_get_value (a : json_array JSON_Value) (index : Z) : option JSON_Value :=
  if json_array_get_count a <=? index then None else items a !! Z.to_nat index.

(** [None] is [JSONFailure]; the array is then unchanged. *)
Definition json_array_remove (a : json_array JSON_Value) (ix : Z) : option (json_array JSON_Value) :=
  if json_array_get_count a <=? ix then None
  else Some (Arr (take (Z.to_nat ix) (items a) ++ drop (S (Z.to_nat ix)) (items a)) (arr_capacity a)).

(** The value has no parent. *)
Definition json_array_replace_value (a : json_array JSON_Value) (ix : Z) (value : option JSON_Value)
  : option (json_array JSON_Value) :=
  value ← value;
  if json_array_get_count a <=? ix then None
  else Some (Arr (<[Z.to_nat ix := value]> (items a)) (arr_capacity a)).

Definition json_array_replace_string (a : json_array JSON_Value) (i : Z) (string : bytes) :=
  json_array_replace_value a i (json_value_init_string string).
Definition json_array_replace_string_with_len (a : json_array JSON_Value) (i : Z) (string : bytes) (len : Z) :=
  json_array_replace_value a i (json_value_init_string_with_len string len).
Definition json_array_replace_number (a : json_array JSON_Value) (i : Z) (number : double) :=
  json_array_replace_value a i (json_value_init_number number).
Definition json_array_replace_boolean (a : json_array JSON_Value) (i : Z) (boolean : bool) :=
  json_array_replace_value a i (Some (json_value_init_boolean boolean)).
Definition json_array_replace_null (a : json_array JSON_Value) (i : Z) :=
  json_array_replace_value a i (Some json_value_init_null).

Definition json_array_clear (a : json_array JSON_Value) : json_array JSON_Value := Arr [] (arr_capacity a).

Definition json_array_append_opt (a : json_array JSON_Value) (value : option JSON_Value)
  : option (json_array JSON_Value) := value ← value; json_array_append_value a value.

Definition json_array_append_string (a : json_array JSON_Value) (string : bytes) :=
  json_array_append_opt a (json_value_init_string string).
Definition json_array_append_string_with_len (a : json_array JSON_Value) (string : bytes) (len : Z) :=
  json_array_append_opt a (json_value_init_string_with_len string len).
Definition json_array_append_number (a : json_array JSON_Value) (number : double) :=
  json_array_append_opt a (json_value_init_number number).
Definition json_array_append_boolean (a : json_array JSON_Value) (boolean : bool) :=
  json_array_append_opt a (Some (json_value_init_boolean boolean)).
Definition json_array_append_null (a : json_array JSON_Value) :=
  json_array_append_opt a (Some json_value_init_null).

(** ** Recursion over values *)

Fixpoint depth (v : JSON_Value) : nat :=
  match v with
  | JSONArray (Arr items _) => S (list_max (map depth items))
  | JSONObject (Obj _ _ _ values _ _ _ _) => S (list_max (map depth values))
  | _ => 1
  end.

Definition depth_opt (v : option JSON_Value) : nat := match v with Some v => depth v | None => O end.

(** A loop [for (i = 0; i < n; i++)] that carries a value and may stop. *)
Fixpoint for_each {A} (f : A -> Z -> option A) (ixs : list Z) (a : A) : option A :=
  match ixs with [] => Some a | i :: ixs' => a' ← f a i; for_each f ixs' a' end.

(** One that returns [false] at the first [i] where the test fails; [None]:
    the test is undefined. *)
Fixpoint for_all (f : Z -> option bool) (ixs : list Z) : option bool :=
  match ixs with [] => Some true | i :: ixs' => b ← f i; if (b : bool) then for_all f ixs' else Some false end.

(** The value of the [i]-th name of an object; a NULL name gives NULL. *)
Definition value_of_name (o : json_object JSON_Value) (key : option bytes) : option (option JSON_Value) :=
  match key with None => Some None | Some key => json_object_get_value o key end.

(** ** Copies *)

(** [None] is NULL. *)
Fixpoint deep_copy (fuel : nat) (value : option JSON_Value) : option JSON_Value :=
  match fuel with
  | O => None
  | S fuel =>
      match value with
      | Some (JSONArray temp_array) =>
          copy ← for_each (fun copy i =>
                   v ← deep_copy fuel (json_array_get_value temp_array i);
                   json_array_add copy v)
                 (seqZ 0 (json_array_get_count temp_array)) json_array_make;
          Some (JSONArray copy)
      | Some (JSONObject temp_object) =>
          copy ← for_each (fun copy i =>
                   let temp_key := json_object_get_name temp_object i in
                   temp_value ← value_of_name temp_object temp_key;
                   v ← deep_copy fuel temp_value;
                   key_copy ← temp_key;
                   match json_object_add copy key_copy v with Success copy => Some copy | _ => None end)
                 (seqZ 0 (json_object_get_count temp_object)) json_object_make;
          Some (JSONObject copy)
      | Some (JSONBoolean b) => Some (json_value_init_boolean b)
      | Some (JSONNumber d) => json_value_init_number d
      | Some (JSONString s) => Some (JSONString s)
      | Some JSONNull => Some json_value_init_null
      | None => None
      end
  end.

Definition json_value_deep_copy (value : option JSON_Value) : option JSON_Value :=
  deep_copy (S (depth_opt value)) value.

(** ** Comparison *)

(** [None]: an access out of bounds. *)
Fixpoint equals (fuel : nat) (a b : option JSON_Value) : option bool :=
  match fuel with
  | O => None
  | S fuel =>
      if negb (json_value_get_type a =? json_value_get_type b) then Some false
      else
        match a, b with
        | Some (JSONArray a_array), Some (JSONArray b_array) =>
            if negb (json_array_get_count a_array =? json_array_get_count b_array) then Some false
            else for_all (fun i => equals fuel (json_array_get_value a_array i) (json_array_get_value b_array i))
                   (seqZ 0 (json_array_get_count a_array))
        | Some (JSONObject a_object), Some (JSONObject b_object) =>
            if negb (json_object_get_count a_object =? json_object_get_count b_object) then Some false
            else for_all (fun i =>
                   let key := json_object_get_name a_object i in
                   x ← value_of_name a_object key; y ← value_of_name b_object key; equals fuel x y)
                   (seqZ 0 (json_object_get_count a_object))
        | Some (JSONString s), Some (JSONString t) => Some (bool_decide (s = t))
        | Some (JSONBoolean x), Some (JSONBoolean y) => Some (Bool.eqb x y)
        | Some (JSONNumber x), Some (JSONNumber y) => Some (near x y)
        | _, _ => Some true
        end
  end.

Definition json_value_equals (a b : option JSON_Value) : option bool := equals (S (depth_opt a)) a b.

(** ** Schemas *)

(** [Some true] is [JSONSuccess]. *)
Fixpoint validate (fuel : nat) (schema value : option JSON_Value) : option bool :=
  match fuel with
  | O => None
  | S fuel =>
      let schema_type := json_value_get_type schema in
      let value_type := json_value_get_type value in
      match schema, value with
      | None, _ | _, None => Some false
      | Some s, Some v =>
          if negb (schema_type =? value_type) && negb (schema_type =? JSONNull_t) then Some false
          else
            match s, v with
            | JSONArray schema_array, JSONArray value_array =>
                if json_array_get_count schema_array =? 0 then Some true
                else
                  let temp_schema_value := json_array_get_value schema_array 0 in
                  for_all (fun i => validate fuel temp_schema_value (json_array_get_value value_array i))
                    (seqZ 0 (json_array_get_count value_array))
            | JSONObject schema_object, JSONObject value_object =>
                let count := json_object_get_count schema_object in
                if count =? 0 then Some true
                else if json_object_get_count value_object <? count then Some false
                else
                  for_all (fun i =>
                    let key := json_object_get_name schema_object i in
                    temp_schema_value ← value_of_name schema_object key;
                    temp_value ← value_of_name value_object key;
                    match temp_value with
                    | None => Some false
                    | Some _ => validate fuel temp_schema_value temp_value
                    end) (seqZ 0 count)
            | _, _ => Some true
            end
      end
  end.

Definition json_validate (schema value : option JSON_Value) : option bool :=
  validate (S (depth_opt schema)) schema value.

Definition literal (s : string) : option JSON_Value :=
  match json_parse_string (jtext s) with POk v _ => Some v | _ => None end.

Example values_demo :
  let v := literal "{'a': [1, null, 'x'], 'b': {'c': true}}" in
  tree_of <$> json_value_deep_copy v = tree_of <$> v /\
  map (json_value_equals v ∘ literal)
    ["{'b': {'c': true}, 'a': [1, null, 'x']}"; "{'a': [1, null, 'y'], 'b': {'c': true}}"; "{'a': [1]}"; "7"]%string
  = [Some true; Some false; Some false; Some false] /\
  map (fun s => json_validate (literal s) v)
    ["{'a': ['', null]}"; "{'a': [null], 'b': {'c': false}}"; "{'a': []}"; "{'c': null}"; "null"; "{}"]%string
  = [Some false; Some true; Some true; Some false; Some true; Some true] /\
  map (fun s => json_value_equals (literal "0") (literal s)) ["0.0000009"; "-0.0000009"; "0.000001"]%string
  = [Some true; Some true; Some false].
Proof. vm_compute. auto. Qed.

(** ** Lemmas: loops *)

Lemma for_each_inv {A} (f : A -> Z -> option A) (I : nat -> A -> Prop) n a :
  I O a ->
  (forall i a, (i < n)%nat -> I i a -> exists a', f a (Z.of_nat i) = Some a' /\ I (S i) a') ->
  exists a', for_each f (seqZ 0 (Z.of_nat n)) a = Some a' /\ I n a'.
Proof.
  intros H0 Hstep.
  assert (forall k m a, (m + k = n)%nat -> I m a ->
    exists a', for_each f (seqZ (Z.of_nat m) (Z.of_nat k)) a = Some a' /\ I n a') as Hgen; [|by apply (Hgen n O)].
  induction k as [|k IH]; intros m b Hm Hb.
  { exists b. replace n with m by lia. by rewrite seqZ_nil by lia. }
  rewrite seqZ_cons by lia. cbn [for_each]. destruct (Hstep m b) as (b' & -> & Hb'); [lia|done|]. simpl.
  replace (Z.succ (Z.of_nat m)) with (Z.of_nat (S m)) by lia. replace (Z.pred (Z.of_nat (S k))) with (Z.of_nat k) by lia.
  apply IH; [lia|done].
Qed.

Lemma for_all_iff (f : Z -> option bool) (P : nat -> Prop) n :
  (forall i, (i < n)%nat -> exists b, f (Z.of_nat i) = Some b /\ (b = true <-> P i)) ->
  exists r, for_all f (seqZ 0 (Z.of_nat n)) = Some r /\ (r = true <-> forall i, (i < n)%nat -> P i).
Proof.
  intros Hf.
  assert (forall k m, (m + k = n)%nat -> exists r, for_all f (seqZ (Z.of_nat m) (Z.of_nat k)) = Some r /\
    (r = true <-> forall i, (m <= i < n)%nat -> P i)) as Hgen.
  { induction k as [|k IH]; intros m Hm.
    { exists true. rewrite seqZ_nil by lia. split; [done|]. split; [lia|done]. }
    rewrite seqZ_cons by lia. cbn [for_all]. destruct (Hf m) as (b & -> & Hb); [lia|]. simpl.
    replace (Z.succ (Z.of_nat m)) with (Z.of_nat (S m)) by lia. replace (Z.pred (Z.of_nat (S k))) with (Z.of_nat k) by lia.
    destruct b.
    - destruct (IH (S m)) as (r & -> & Hr); [lia|]. exists r. split; [done|]. rewrite Hr. split.
      + intros H i Hi. destruct (decide (i = m)) as [-> |]; [by apply Hb|apply H; lia].
      + intros H i Hi. apply H. lia.
    - exists false. split; [done|]. split; [done|]. intros H. apply Hb, H. lia. }
  destruct (Hgen n O) as (r & Hr & Hiff); [lia|]. exists r. split; [done|]. rewrite Hiff.
  split; intros H i Hi; apply H; lia.
Qed.

(** ** Lemmas: values *)

Lemma list_max_elem l n : n ∈ l -> (n <= list_max l)%nat.
Proof.
  intros Hn. pose proof (proj1 (list_max_le l (list_max l)) (le_n _)) as H. rewrite Forall_forall in H.
  by apply H.
Qed.

Lemma depth_array a v : v ∈ items a -> (depth v < depth (JSONArray a))%nat.
Proof. intros Hv. destruct a. simpl. apply Nat.lt_succ_r, list_max_elem, list_elem_of_fmap. by exists v. Qed.

Lemma depth_object o v : v ∈ values o -> (depth v < depth (JSONObject o))%nat.
Proof. intros Hv. destruct o. simpl. apply Nat.lt_succ_r, list_max_elem, list_elem_of_fmap. by exists v. Qed.

Lemma get_array_value a i v : items a !! i = Some v -> json_array_get_value a (Z.of_nat i) = Some v.
Proof.
  intros Hi. pose proof (lookup_lt_Some _ _ _ Hi). unfold json_array_get_value, json_array_get_count.
  destruct (Z.leb_spec (Z.of_nat (length (items a))) (Z.of_nat i)); [lia|]. by rewrite Nat2Z.id.
Qed.

Lemma get_value_entries (o : json_object JSON_Value) key :
  obj_inv o -> wf_cstr key -> json_object_get_value o key = Some (assoc key (entries o)).
Proof.
  intros Hinv Hw. unfold json_object_get_value. rewrite getn_value_spec by (done || apply strlen_range).
  by rewrite take_strlen.
Qed.

Lemma count_entries (o : json_object JSON_Value) :
  obj_inv o -> json_object_get_count o = Z.of_nat (length (entries o)).
Proof.
  intros [Hok _ _ _]. unfold json_object_get_count, entries. rewrite (ok_count o Hok), length_zip_with, (ok_len_values o Hok).
  lia.
Qed.

(** The [i]-th entry, by its name. *)
Lemma get_entry (o : json_object JSON_Value) i k v :
  obj_inv o -> entries o !! i = Some (k, v) ->
  json_object_get_name o (Z.of_nat i) = Some k /\ wf_cstr k /\ v ∈ values o /\
  value_of_name o (Some k) = Some (Some v).
Proof.
  intros Hinv Hi. pose proof (lookup_lt_Some _ _ _ Hi) as Hlt. pose proof Hi as Hin.
  apply lookup_zip_with_Some in Hi as (k' & v' & [= <- <-] & Hk & Hv).
  assert (wf_cstr k) as Hw by (eapply (Forall_lookup_1 _ (names o)); [apply (ok_wf o (inv_table o Hinv))|done]).
  split_and!; [|done|by eapply list_elem_of_lookup_2|].
  - unfold json_object_get_name. rewrite count_entries by done.
    destruct (Z.leb_spec (Z.of_nat (length (entries o))) (Z.of_nat i)); [lia|]. by rewrite Nat2Z.id.
  - simpl. rewrite get_value_entries by done. f_equal. apply assoc_Some; [by apply entries_nodup|].
    by eapply list_elem_of_lookup_2.
Qed.

Lemma json_ok_child n o k v : json_ok (S n) (JSONObject o) -> (k, v) ∈ entries o -> json_ok n v.
Proof.
  intros Hv Hin. inversion Hv as [| | | | |? ? Hinv Hvs]; subst. rewrite Forall_forall in Hvs. apply Hvs.
  rewrite (values_entries o (inv_table o Hinv)). apply list_elem_of_fmap. by exists (k, v).
Qed.

(** ** Copies *)

(** The largest number of entries of an object. *)
Fixpoint widest (v : JSON_Value) : nat :=
  match v with
  | JSONArray (Arr items _) => list_max (map widest items)
  | JSONObject (Obj _ _ names values _ _ _ _) => Nat.max (length names) (list_max (map widest values))
  | _ => O
  end.

Lemma widest_array a v : v ∈ items a -> (widest v <= widest (JSONArray a))%nat.
Proof. intros Hv. destruct a. simpl. apply list_max_elem, list_elem_of_fmap. by exists v. Qed.

Lemma widest_object o v : v ∈ values o -> (widest v <= widest (JSONObject o))%nat.
Proof.
  intros Hv. destruct o as [? ? ks vs]. simpl in *.
  assert (widest v <= list_max (map widest vs))%nat by (apply list_max_elem, list_elem_of_fmap; by exists v). lia.
Qed.

Lemma widest_entries o : (length (entries o) <= widest (JSONObject o))%nat.
Proof. destruct o. unfold entries. simpl. rewrite length_zip_with. lia. Qed.

Definition tree_entry (e : bytes * JSON_Value) : bytes * tree := (e.1, tree_of e.2).

Lemma tree_entries_keys l l' : map tree_entry l = map tree_entry l' -> map fst l = map fst l'.
Proof. intros H. apply (f_equal (map fst)) in H. by rewrite !map_map in H. Qed.

Lemma map_take_S {A B} (f : A -> B) l i x : l !! i = Some x -> map f (take (S i) l) = map f (take i l) ++ [f x].
Proof. intros Hi. by rewrite (take_S_r _ _ _ Hi), map_app. Qed.

Lemma key_not_before {A} (l : list (bytes * A)) i k x :
  NoDup (map fst l) -> l !! i = Some (k, x) -> k ∉ map fst (take i l).
Proof.
  intros Hnd Hi. rewrite <-(take_drop_middle l i (k, x) Hi), map_app in Hnd. apply NoDup_app in Hnd as (_ & Hnd & _).
  intros Hk. apply (Hnd k Hk). by left.
Qed.

Definition copies (n : nat) (v v' : JSON_Value) : Prop := json_ok n v' /\ tree_of v' = tree_of v.

Lemma copy_array fuel n a :
  (forall v, v ∈ items a -> exists v', deep_copy fuel (Some v) = Some v' /\ copies n v v') ->
  exists v', deep_copy (S fuel) (Some (JSONArray a)) = Some v' /\ copies (S n) (JSONArray a) v'.
Proof.
  intros IH. cbn [deep_copy]. unfold json_array_get_count.
  edestruct (for_each_inv (fun copy i => v ← deep_copy fuel (json_array_get_value a i); json_array_add copy v)
    (fun i copy => map tree_of (items copy) = map tree_of (take i (items a)) /\ Forall (json_ok n) (items copy))
    (length (items a)) json_array_make) as (c & -> & Ht & Hok); [done| |].
  - intros i copy Hi [Ht Hok]. apply lookup_lt_is_Some_2 in Hi as [v Hv]. rewrite (get_array_value a i v Hv).
    destruct (IH v) as (v' & -> & Hok' & Ht'); [by eapply list_elem_of_lookup_2|]. simpl.
    destruct (json_array_add_spec copy v') as [c ->]. eexists. split; [done|]. simpl.
    rewrite (map_take_S _ _ _ _ Hv), map_app, Ht. simpl. rewrite Ht'. split; [done|]. apply Forall_app; auto.
  - simpl. eexists. split; [done|]. split; [by constructor|]. by rewrite !tree_of_array, Ht, take_ge.
Qed.

Lemma copy_object fuel n o :
  obj_inv o -> Z.of_nat (length (entries o)) <= 2 ^ 30 ->
  (forall v, v ∈ values o -> exists v', deep_copy fuel (Some v) = Some v' /\ copies n v v') ->
  exists v', deep_copy (S fuel) (Some (JSONObject o)) = Some v' /\ copies (S n) (JSONObject o) v'.
Proof.
  intros Hinv Hsmall IH. cbn [deep_copy]. rewrite (count_entries o Hinv).
  match goal with |- context [for_each ?g _ _] => set (f := g) end.
  destruct (for_each_inv f
    (fun i copy => obj_inv copy /\ Forall (json_ok n) (values copy) /\
       map tree_entry (entries copy) = map tree_entry (take i (entries o)))
    (length (entries o)) json_object_make) as (c & -> & Hic & Hok & Ht); [..|].
  - split_and!; [apply json_object_make_inv|constructor|done].
  - intros i copy Hi (Hic & Hok & Ht). apply lookup_lt_is_Some_2 in Hi as [[k v] Hkv].
    destruct (get_entry o i k v Hinv Hkv) as (Hname & Hw & Hv & Hval). unfold f. cbv zeta. rewrite Hname, Hval. cbn [mbind option_bind].
    destruct (IH v Hv) as (v' & -> & Hok' & Ht'). cbn [mbind option_bind].
    pose proof (tree_entries_keys _ _ Ht) as Hkeys. pose proof (lookup_lt_Some _ _ _ Hkv) as Hlt.
    assert (length (entries copy) = i) as Hlen.
    { apply (f_equal length) in Ht. rewrite !length_map, length_take in Ht. lia. }
    destruct (add_spec copy k v' Hic Hw) as [_ Hadd].
    { change (count copy) with (json_object_get_count copy). rewrite count_entries by done. lia. }
    destruct Hadd as (copy' & -> & Hic' & He & _ & _).
    { rewrite <-(entries_keys copy Hic), Hkeys. eapply key_not_before; [by apply entries_nodup|done]. }
    eexists. split; [done|]. split_and!; [done| |].
    + rewrite (values_entries copy' (inv_table _ Hic')), He, map_app, <-(values_entries copy (inv_table _ Hic)).
      apply Forall_app. split; [done|]. by constructor.
    + rewrite He, map_app, Ht, (map_take_S _ _ _ _ Hkv). unfold tree_entry. simpl. by rewrite Ht'.
  - simpl. eexists. split; [done|]. split; [by constructor|]. rewrite !tree_of_object.
    rewrite (take_ge (entries o)) in Ht by lia. f_equal. exact Ht.
Qed.

Lemma deep_copy_spec fuel n v :
  json_ok n v -> (depth v <= fuel)%nat -> Z.of_nat (widest v) <= 2 ^ 30 ->
  exists v', deep_copy fuel (Some v) = Some v' /\ copies n v v'.
Proof.
  revert n v. induction fuel as [|fuel IH]; intros n v Hok Hd Hw; [destruct v as [| | |[]|[]|]; simpl in Hd; lia|].
  destruct Hok as [n|n s Hs|n d Hnan Hinf|n b|n a Ha|n o Hinv Ho].
  - eexists. split; [done|]. by repeat constructor.
  - eexists. split; [done|]. by repeat constructor.
  - eexists. split; [cbn [deep_copy]; unfold json_value_init_number; by rewrite Hnan, Hinf|]. by repeat constructor.
  - eexists. split; [done|]. by repeat constructor.
  - apply copy_array. intros v Hv. rewrite Forall_forall in Ha.
    pose proof (depth_array a v Hv). pose proof (widest_array a v Hv). apply IH; [by apply Ha|lia|lia].
  - pose proof (widest_entries o). apply copy_object; [done|lia|]. intros v Hv. rewrite Forall_forall in Ho.
    pose proof (depth_object o v Hv). pose proof (widest_object o v Hv). apply IH; [by apply Ho|lia|lia].
Qed.

(** ** Comparison *)

(** What [json_value_equals] means: arrays agree in order, objects as maps,
    numbers up to the tolerance. *)
Inductive similar : tree -> tree -> Prop :=
| sim_null : similar TNull TNull
| sim_string s : similar (TString s) (TString s)
| sim_number d d' : near d d' = true -> similar (TNumber d) (TNumber d')
| sim_boolean b : similar (TBoolean b) (TBoolean b)
| sim_array l l' : Forall2 similar l l' -> similar (TArray l) (TArray l')
| sim_object l l' :
    length l = length l' -> (forall k x, (k, x) ∈ l -> exists y, (k, y) ∈ l' /\ similar x y) ->
    similar (TObject l) (TObject l').

Lemma elem_tree_entries k t l : (k, t) ∈ map tree_entry l <-> exists v, (k, v) ∈ l /\ t = tree_of v.
Proof.
  change (map tree_entry l) with (tree_entry <$> l). rewrite list_elem_of_fmap. split.
  - intros ([k' v] & [= -> ->] & Hin). by exists v.
  - intros (v & Hin & ->). by exists (k, v).
Qed.

Definition decides (r : option bool) (P : Prop) : Prop := exists b, r = Some b /\ (b = true <-> P).

Lemma decides_iff r (P Q : Prop) : (P <-> Q) -> decides r P -> decides r Q.
Proof. intros HPQ (b & -> & Hb). exists b. by rewrite Hb. Qed.

Lemma decides_false (P : Prop) : ~ P -> decides (Some false) P.
Proof. intros HP. exists false. by split. Qed.

Lemma equals_array fuel n m a b :
  (forall x y, x ∈ items a -> json_ok m y -> decides (equals fuel (Some x) (Some y)) (similar (tree_of x) (tree_of y))) ->
  json_ok (S n) (JSONArray a) -> json_ok (S m) (JSONArray b) ->
  decides (equals (S fuel) (Some (JSONArray a)) (Some (JSONArray b))) (similar (tree_of (JSONArray a)) (tree_of (JSONArray b))).
Proof.
  intros IH Ha Hb. inversion Hb as [| | | |? ? Hbi|]; subst. rewrite !tree_of_array. cbn [equals json_value_get_type].
  unfold json_array_get_count. simpl negb.
  destruct (Z.eqb_spec (Z.of_nat (length (items a))) (Z.of_nat (length (items b)))) as [Hlen|Hlen]; simpl negb.
  2:{ apply decides_false. intros H. inversion H as [| | | |? ? HF|]; subst. apply Forall2_length in HF.
      rewrite !length_map in HF. lia. }
  eapply decides_iff; [|apply (for_all_iff _ (fun i => forall x y, items a !! i = Some x -> items b !! i = Some y ->
    similar (tree_of x) (tree_of y)) (length (items a)))].
  - split.
    + intros H. constructor. apply Forall2_fmap, Forall2_same_length_lookup. split; [lia|]. intros i x y Hx Hy.
      apply (H i); [by eapply lookup_lt_Some|done|done].
    + intros H i Hi x y Hx Hy. inversion H as [| | | |? ? HF|]; subst.
      change (Forall2 similar (tree_of <$> items a) (tree_of <$> items b)) in HF. rewrite Forall2_fmap in HF.
      by eapply (Forall2_lookup_lr _ _ _ _ _ _ HF).
  - intros i Hi. destruct (lookup_lt_is_Some_2 (items a) i Hi) as [x Hx].
    destruct (lookup_lt_is_Some_2 (items b) i) as [y Hy]; [lia|].
    rewrite (get_array_value a i x Hx), (get_array_value b i y Hy).
    eapply decides_iff; [|apply (IH x y); [by eapply list_elem_of_lookup_2|by eapply Forall_lookup_1]].
    split; [|naive_solver]. intros H x' y' ? ?. by simplify_eq.
Qed.

(** The entries of one object matched with those of another of the same name. *)
Definition matched (R : tree -> tree -> Prop) (a b : json_object JSON_Value) (i : nat) : Prop :=
  forall k x, entries a !! i = Some (k, x) -> exists y, (k, y) ∈ entries b /\ R (tree_of x) (tree_of y).

Lemma matched_iff R a b :
  (forall i, (i < length (entries a))%nat -> matched R a b i) <->
  (forall k s, (k, s) ∈ map tree_entry (entries a) -> exists t, (k, t) ∈ map tree_entry (entries b) /\ R s t).
Proof.
  split.
  - intros H k t (x & Hx & ->)%elem_tree_entries. apply list_elem_of_lookup in Hx as [i Hi].
    destruct (H i (lookup_lt_Some _ _ _ Hi) k x Hi) as (y & Hy & Hs).
    exists (tree_of y). split; [|done]. apply elem_tree_entries. by exists y.
  - intros HF i Hi k x Hx. apply list_elem_of_lookup_2 in Hx.
    destruct (HF k (tree_of x)) as (t & (y & Hy & ->)%elem_tree_entries & Hs); [apply elem_tree_entries; by exists x|].
    by exists y.
Qed.

Lemma matched_found R a b i k x y r :
  obj_inv b -> entries a !! i = Some (k, x) -> assoc k (entries b) = Some y ->
  decides r (R (tree_of x) (tree_of y)) -> decides r (matched R a b i).
Proof.
  intros Hib Hx Hy. apply decides_iff. split.
  - intros Hs k' x' [= <- <-]%(eq_trans (eq_sym Hx)). exists y. split; [|done].
    apply assoc_Some; [by apply entries_nodup|done].
  - intros H. destruct (H k x Hx) as (y' & Hy' & Hs). apply assoc_Some in Hy'; [congruence|by apply entries_nodup].
Qed.

Lemma matched_missing R a b i k x :
  obj_inv b -> entries a !! i = Some (k, x) -> assoc k (entries b) = None -> ~ matched R a b i.
Proof.
  intros Hib Hx Hn H. destruct (H k x Hx) as (y & Hy & _). apply assoc_Some in Hy; [congruence|by apply entries_nodup].
Qed.

Lemma equals_object fuel n m a b :
  (0 < fuel)%nat ->
  (forall x y, x ∈ values a -> json_ok m y -> decides (equals fuel (Some x) (Some y)) (similar (tree_of x) (tree_of y))) ->
  json_ok (S n) (JSONObject a) -> json_ok (S m) (JSONObject b) ->
  decides (equals (S fuel) (Some (JSONObject a)) (Some (JSONObject b))) (similar (tree_of (JSONObject a)) (tree_of (JSONObject b))).
Proof.
  intros Hf IH Ha Hb. inversion Ha as [| | | | |? ? Hia Hva]; subst. inversion Hb as [| | | | |? ? Hib Hvb]; subst.
  rewrite !tree_of_object. cbn [equals json_value_get_type]. rewrite !count_entries by done. simpl negb.
  destruct (Z.eqb_spec (Z.of_nat (length (entries a))) (Z.of_nat (length (entries b)))) as [Hlen|Hlen]; simpl negb.
  2:{ apply decides_false. intros H. inversion H as [| | | | |? ? Hl _]; subst. rewrite !length_map in Hl. lia. }
  eapply decides_iff; [|apply (for_all_iff _ (matched similar a b) (length (entries a)))].
  - rewrite matched_iff. split; [intros H; constructor; [rewrite !length_map; lia|done]|]. intros H. by inversion H.
  - intros i Hi. destruct (lookup_lt_is_Some_2 (entries a) i Hi) as [[k x] Hx].
    destruct (get_entry a i k x Hia Hx) as (-> & Hw & Hv & ->). cbn [mbind option_bind value_of_name].
    rewrite get_value_entries by done. cbn [mbind option_bind]. destruct (assoc k (entries b)) as [y|] eqn:Ey.
    + pose proof Ey as Hy. apply assoc_Some in Hy; [|by apply entries_nodup].
      eapply (matched_found _ a b i k x y); [done..|]. apply (IH x y Hv). by eapply json_ok_child.
    + destruct fuel as [|f]; [lia|]. replace (equals (S f) (Some x) None) with (Some false) by (by destruct x).
      apply decides_false. by eapply matched_missing.
Qed.

Lemma depth_pos v : (0 < depth v)%nat.
Proof. destruct v as [| | |[]|[]|]; simpl; lia. Qed.

Lemma equals_decides fuel n m a b :
  json_ok n a -> json_ok m b -> (depth a < fuel)%nat ->
  decides (equals fuel (Some a) (Some b)) (similar (tree_of a) (tree_of b)).
Proof.
  revert n m a b. induction fuel as [|fuel IH]; intros n m a b Ha Hb Hd; [lia|]. pose proof (depth_pos a).
  destruct Ha as [n|n s Hs|n d Hnan Hinf|n x|n a Ha|n o Hinv Ho], Hb as [m|m t Ht|m d' Hnan' Hinf'|m y|m b Hb|m o' Hinv' Ho'];
    try (apply decides_false; rewrite ?tree_of_array, ?tree_of_object; intros Hsim; by inversion Hsim).
  - exists true. split; [done|]. split; [constructor|done].
  - exists (bool_decide (s = t)). split; [done|]. rewrite bool_decide_eq_true. split; [intros ->; constructor|].
    intros Hsim. by inversion Hsim.
  - exists (near d d'). split; [done|]. split; [by constructor|]. intros Hsim. by inversion Hsim.
  - exists (Bool.eqb x y). split; [done|]. rewrite Bool.eqb_true_iff. split; [intros ->; constructor|].
    intros Hsim. by inversion Hsim.
  - apply (equals_array fuel n m); [|by constructor..]. intros x y Hx Hy. pose proof (depth_array a x Hx).
    rewrite Forall_forall in Ha. apply (IH n m); [by apply Ha|done|lia].
  - apply (equals_object fuel n m); [lia| |by constructor..]. intros x y Hx Hy. pose proof (depth_object o x Hx).
    rewrite Forall_forall in Ho. apply (IH n m); [by apply Ho|done|lia].
Qed.

Lemma near_refl d : isnan d = false -> isinf d = false -> near d d = true.
Proof.
  destruct d as [n m e|n|]; try done. intros _ _. unfold near, double_sub. rewrite Z.sub_diag. simpl.
  unfold scale2. destruct (0 <=? Z.min e e); rewrite ?Z.mul_0_l; done.
Qed.

Lemma round_double_fabs neg neg' num den : fabs (round_double neg num den) = fabs (round_double neg' num den).
Proof. unfold round_double. repeat (case_match; try done). Qed.

Lemma near_sym a b : near a b = near b a.
Proof.
  unfold near. f_equal. destruct a as [n1 m1 e1|n1|], b as [n2 m2 e2|n2|]; try done; simpl; [|by destruct n1, n2].
  rewrite (Z.min_comm e2 e1). set (x := scaled n1 m1 e1 _). set (y := scaled n2 m2 e2 _).
  replace (Z.abs (y - x)) with (Z.abs (x - y)) by lia. case_match. apply round_double_fabs.
Qed.

(** Objects of the same size whose entries are matched from one side are
    matched from the other, since no name occurs twice. *)
Lemma match_back {A} (R : A -> A -> Prop) (l l' : list (bytes * A)) :
  NoDup (map fst l) -> NoDup (map fst l') -> length l = length l' ->
  (forall k x, (k, x) ∈ l -> exists y, (k, y) ∈ l' /\ R x y) ->
  forall k y, (k, y) ∈ l' -> exists x, (k, x) ∈ l /\ R x y.
Proof.
  intros Hn Hn' Hlen HR k y Hy.
  assert (map fst l ⊆+ map fst l') as Hsub.
  { apply NoDup_submseteq; [done|]. intros k' Hk. apply list_elem_of_fmap in Hk as ([k2 x] & -> & Hx).
    destruct (HR k2 x Hx) as (z & Hz & _). apply list_elem_of_fmap. by exists (k2, z). }
  apply submseteq_length_Permutation in Hsub; [|rewrite !length_map; lia].
  assert (k ∈ map fst l) as Hk.
  { rewrite Hsub. apply list_elem_of_fmap. by exists (k, y). }
  apply list_elem_of_fmap in Hk as ([k2 x] & -> & Hx). simpl in *. exists x. split; [done|].
  destruct (HR k2 x Hx) as (z & Hz & HRz). replace y with z; [done|].
  apply assoc_Some in Hz, Hy; [congruence|done..].
Qed.

Lemma tree_entries_nodup o : obj_inv o -> NoDup (map fst (map tree_entry (entries o))).
Proof. intros Hinv. rewrite map_map. by apply entries_nodup. Qed.

Lemma similar_sym n m a b : json_ok n a -> json_ok m b -> similar (tree_of a) (tree_of b) -> similar (tree_of b) (tree_of a).
Proof.
  revert m a b. induction n as [|n IH]; intros m a b Ha Hb; [inversion Ha|]. destruct m as [|m]; [inversion Hb|].
  inversion Ha as [| | | |? a' Ha'|? o Hinv Ho]; subst; inversion Hb as [| | | |? b' Hb'|? o' Hinv' Ho']; subst;
    rewrite ?tree_of_array, ?tree_of_object; intros Hsim; inversion Hsim as [| |? ? Hd| |? ? HF|? ? Hl HF]; subst; try by constructor.
  - constructor. by rewrite near_sym.
  - constructor. change (Forall2 similar (tree_of <$> items b') (tree_of <$> items a')).
    change (Forall2 similar (tree_of <$> items a') (tree_of <$> items b')) in HF. rewrite Forall2_fmap in HF |- *.
    apply Forall2_same_length_lookup in HF as [Hl HF]. apply Forall2_same_length_lookup. split; [done|].
    intros i y x Hy Hx. apply (IH m x y); [by eapply Forall_lookup_1|by eapply Forall_lookup_1|by eapply HF].
  - constructor; [done|]. intros k t Ht.
    destruct (match_back similar _ _ (tree_entries_nodup o Hinv) (tree_entries_nodup o' Hinv') Hl HF k t Ht) as (s & Hs & Hxy).
    exists s. split; [done|].
    apply (elem_tree_entries k s (entries o)) in Hs as (x & Hx & ->). apply (elem_tree_entries k t (entries o')) in Ht as (y & Hy & ->).
    apply (IH m); [by eapply json_ok_child|by eapply json_ok_child|done].
Qed.

(** ** Schemas *)

(** What [json_validate] means: null stands for any value, the first element
    of an array describes all, and an object asks for its names. *)
Inductive conforms : tree -> tree -> Prop :=
| con_null t : conforms TNull t
| con_string s s' : conforms (TString s) (TString s')
| con_number d d' : conforms (TNumber d) (TNumber d')
| con_boolean b b' : conforms (TBoolean b) (TBoolean b')
| con_array_any l : conforms (TArray []) (TArray l)
| con_array s ss l : Forall (conforms s) l -> conforms (TArray (s :: ss)) (TArray l)
| con_object l l' :
    (forall k s, (k, s) ∈ l -> exists t, (k, t) ∈ l' /\ conforms s t) -> conforms (TObject l) (TObject l').

Lemma decides_true (P : Prop) : P -> decides (Some true) P.
Proof. intros HP. exists true. by split. Qed.

(** Names that are all present are not more than there are. *)
Lemma keys_fit {A} (l l' : list (bytes * A)) :
  NoDup (map fst l) -> (forall k x, (k, x) ∈ l -> exists y, (k, y) ∈ l') -> (length l <= length l')%nat.
Proof.
  intros Hn HR. rewrite <-(length_map fst l), <-(length_map fst l'). apply submseteq_length, NoDup_submseteq; [done|].
  intros k Hk. apply list_elem_of_fmap in Hk as ([k2 x] & -> & Hx). destruct (HR k2 x Hx) as (z & Hz).
  apply list_elem_of_fmap. by exists (k2, z).
Qed.

Lemma validate_array fuel m a b :
  (forall x y, x ∈ items a -> json_ok m y -> decides (validate fuel (Some x) (Some y)) (conforms (tree_of x) (tree_of y))) ->
  json_ok (S m) (JSONArray b) ->
  decides (validate (S fuel) (Some (JSONArray a)) (Some (JSONArray b)))
    (conforms (tree_of (JSONArray a)) (tree_of (JSONArray b))).
Proof.
  intros IH Hb. inversion Hb as [| | | |? ? Hbi|]; subst. rewrite !tree_of_array. cbn [validate json_value_get_type].
  unfold json_array_get_count at 1. simpl negb. cbn [andb].
  destruct (items a) as [|s ss] eqn:Ea; [apply decides_true; constructor|]. simpl Z.eqb. cbv iota zeta.
  assert (json_array_get_value a 0 = Some s) as -> by (apply (get_array_value a 0); by rewrite Ea).
  eapply decides_iff; [|apply (for_all_iff _ (fun i => forall y, items b !! i = Some y ->
    conforms (tree_of s) (tree_of y)) (length (items b)))].
  - split.
    + intros H. constructor. apply Forall_fmap, Forall_lookup. intros i y Hy. apply (H i); [by eapply lookup_lt_Some|done].
    + intros H i Hi y Hy. inversion H as [| | | | |? ? ? HF|]; subst.
      change (Forall (conforms (tree_of s)) (tree_of <$> items b)) in HF. rewrite Forall_fmap in HF.
      by eapply (Forall_lookup_1 _ _ _ _ HF).
  - intros i Hi. destruct (lookup_lt_is_Some_2 (items b) i Hi) as [y Hy]. rewrite (get_array_value b i y Hy).
    eapply decides_iff; [|apply (IH s y); [left|by eapply Forall_lookup_1]].
    split; [|naive_solver]. intros H y' ?. by simplify_eq.
Qed.

Lemma validate_object fuel m a b :
  obj_inv a ->
  (forall x y, x ∈ values a -> json_ok m y -> decides (validate fuel (Some x) (Some y)) (conforms (tree_of x) (tree_of y))) ->
  json_ok (S m) (JSONObject b) ->
  decides (validate (S fuel) (Some (JSONObject a)) (Some (JSONObject b)))
    (conforms (tree_of (JSONObject a)) (tree_of (JSONObject b))).
Proof.
  intros Hia IH Hb. inversion Hb as [| | | | |? ? Hib Hvb]; subst. rewrite !tree_of_object.
  cbn [validate json_value_get_type]. rewrite !count_entries by done. simpl negb. cbn [andb]. cbv zeta.
  destruct (Z.eqb_spec (Z.of_nat (length (entries a))) 0) as [H0|H0].
  { apply decides_true. destruct (entries a); [|simpl in H0; lia]. constructor. intros k s Hk. by apply elem_of_nil in Hk. }
  destruct (Z.ltb_spec (Z.of_nat (length (entries b))) (Z.of_nat (length (entries a)))) as [Hlt|Hge].
  { apply decides_false. intros H. inversion H as [| | | | | |? ? HF]; subst.
    pose proof (keys_fit _ _ (tree_entries_nodup a Hia) (fun k x Hx => let '(ex_intro _ y (conj Hy _)) := HF k x Hx in ex_intro _ y Hy))
      as Hl. rewrite !length_map in Hl. lia. }
  eapply decides_iff; [|apply (for_all_iff _ (matched conforms a b) (length (entries a)))].
  - rewrite matched_iff. split; [intros H; by constructor|]. intros H. by inversion H.
  - intros i Hi. destruct (lookup_lt_is_Some_2 (entries a) i Hi) as [[k x] Hx].
    destruct (get_entry a i k x Hia Hx) as (-> & Hw & Hv & ->). cbn [mbind option_bind value_of_name].
    rewrite get_value_entries by done. cbn [mbind option_bind]. destruct (assoc k (entries b)) as [y|] eqn:Ey.
    + pose proof Ey as Hy. apply assoc_Some in Hy; [|by apply entries_nodup].
      eapply (matched_found _ a b i k x y); [done..|]. apply (IH x y Hv). by eapply json_ok_child.
    + apply decides_false. by eapply matched_missing.
Qed.

Lemma validate_decides fuel n m s v :
  json_ok n s -> json_ok m v -> (depth s < fuel)%nat ->
  decides (validate fuel (Some s) (Some v)) (conforms (tree_of s) (tree_of v)).
Proof.
  revert n m s v. induction fuel as [|fuel IH]; intros n m s v Hs Hv Hd; [lia|].
  destruct Hs as [n|n t Ht|n d Hnan Hinf|n x|n a Ha|n o Hinv Ho], Hv as [m|m t' Ht'|m d' Hnan' Hinf'|m y|m b Hb|m o' Hinv' Ho'];
    try (apply decides_false; rewrite ?tree_of_array, ?tree_of_object; intros Hc; by inversion Hc);
    try (apply decides_true; constructor).
  - apply (validate_array fuel m); [|by constructor]. intros x y Hx Hy. pose proof (depth_array a x Hx).
    rewrite Forall_forall in Ha. apply (IH n m); [by apply Ha|done|lia].
  - apply (validate_object fuel m); [done| |by constructor]. intros x y Hx Hy. pose proof (depth_object o x Hx).
    rewrite Forall_forall in Ho. apply (IH n m); [by apply Ho|done|lia].
Qed.

Lemma similar_refl n v : json_ok n v -> similar (tree_of v) (tree_of v).
Proof.
  revert v. induction n as [|n IH]; intros v Hv; [inversion Hv|].
  inversion Hv as [| | | |? a Ha|? o Hinv Ho]; subst; rewrite ?tree_of_array, ?tree_of_object; constructor; try done.
  - by apply near_refl.
  - change (Forall2 similar (tree_of <$> items a) (tree_of <$> items a)). apply Forall2_fmap, Forall_Forall2_diag.
    eapply Forall_impl; [done|]. auto.
  - intros k t Ht. exists t. split; [done|]. apply (elem_tree_entries k t (entries o)) in Ht as (x & Hx & ->).
    apply IH. by eapply json_ok_child.
Qed.

(** ** Theorems *)

(** [json_value_deep_copy] of a well-formed value with at most 2^30
    entries per object returns a copy: a well-formed value with the same
    contents in the same order, which [json_value_equals] finds equal to the
    original. *)
Theorem json_value_deep_copy_correct n v :
  json_ok n v -> Z.of_nat (widest v) <= 2 ^ 30 ->
  exists v', json_value_deep_copy (Some v) = Some v' /\ json_ok n v' /\ tree_of v' = tree_of v /\
    json_value_equals (Some v) (Some v') = Some true.
Proof.
  intros Hok Hw. destruct (deep_copy_spec (S (depth v)) n v Hok ltac:(lia) Hw) as (v' & Hv' & Hok' & Ht).
  exists v'. split_and!; [done..|]. destruct (equals_decides (S (depth v)) n n v v' Hok Hok' ltac:(lia)) as (b & Hb & Hiff).
  unfold json_value_equals. simpl depth_opt. rewrite Hb. f_equal. apply Hiff. rewrite Ht. by eapply similar_refl.
Qed.

(** C33: [json_value_equals] decides a relation on the contents of two
    well-formed values, whatever the layout of their tables: the same type,
    equal strings and booleans, numbers nearer than 0.000001, arrays of equal
    length with equal elements in order, and objects of the same size with
    equal values under the same names in any order.  It returns on every such
    pair without leaving a table, and gives the same answer with its arguments
    exchanged. *)
Theorem json_value_equals_correct n m a b :
  json_ok n a -> json_ok m b ->
  exists r, json_value_equals (Some a) (Some b) = Some r /\ json_value_equals (Some b) (Some a) = Some r /\
    (r = true <-> similar (tree_of a) (tree_of b)).
Proof.
  intros Ha Hb. destruct (equals_decides (S (depth a)) n m a b Ha Hb ltac:(lia)) as (r & Hr & Hiff).
  destruct (equals_decides (S (depth b)) m n b a Hb Ha ltac:(lia)) as (r' & Hr' & Hiff').
  exists r. split_and!; [done| |done]. unfold json_value_equals. simpl depth_opt. rewrite Hr'. f_equal.
  apply Bool.eq_iff_eq_true. rewrite Hiff, Hiff'. split; by eapply similar_sym.
Qed.

(** [json_validate] decides conformance of a well-formed value to a
    well-formed schema: null accepts everything, a string, number or boolean
    accepts its type, an empty array accepts arrays and a non-empty one the
    arrays all of whose elements conform to its first, and an object accepts
    the objects that have all of its names with conforming values; the test on
    the number of entries turns away nothing else. *)
Theorem json_validate_correct n m s v :
  json_ok n s -> json_ok m v ->
  exists r, json_validate (Some s) (Some v) = Some r /\ (r = true <-> conforms (tree_of s) (tree_of v)).
Proof. intros Hs Hv. apply (validate_decides (S (depth s)) n m s v Hs Hv). lia. Qed.

(** The elements fit the block they are stored in. *)
Definition arr_inv (a : json_array JSON_Value) : Prop := Z.of_nat (length (items a)) <= arr_capacity a < 2 ^ 62.

(** Arrays are lists.  On an array whose elements fit its block of less
    than 2^62 elements, appending always succeeds, growing the block first when
    it is full, and stores within it; replacing and removing succeed exactly
    for an index below the count, and change that element or close the gap;
    clearing leaves nothing.  What is read afterwards is the list, and the
    elements still fit. *)
Theorem array_refines_list a value ix :
  arr_inv a -> 0 <= ix ->
  (exists a', json_array_append_value a value = Some a' /\ items a' = items a ++ [value] /\
     Z.of_nat (length (items a)) < arr_capacity a' < 2 ^ 63) /\
  match json_array_replace_value a ix (Some value) with
  | Some a' => arr_inv a' /\ json_array_get_count a' = json_array_get_count a /\
      forall j, 0 <= j -> json_array_get_value a' j = if j =? ix then Some value else json_array_get_value a j
  | None => json_array_get_value a ix = None
  end /\
  match json_array_remove a ix with
  | Some a' => arr_inv a' /\ json_array_get_count a' = json_array_get_count a - 1 /\
      forall j, 0 <= j -> json_array_get_value a' j = json_array_get_value a (if j <? ix then j else j + 1)
  | None => json_array_get_value a ix = None
  end /\
  arr_inv (json_array_clear a) /\ json_array_get_count (json_array_clear a) = 0.
Proof.
  intros [H1 H2] Hix. split_and!.
  - unfold json_array_append_value, json_array_add, json_array_resize, json_array_get_count, STARTING_CAPACITY.
    destruct (Z.leb_spec (arr_capacity a) (Z.of_nat (length (items a)))).
    + assert (u64 (arr_capacity a * 2) = arr_capacity a * 2) as -> by (unfold u64; apply Z.mod_small; lia).
      destruct (Z.eqb_spec (Z.max (arr_capacity a * 2) 16) 0); [lia|]. eexists. split_and!; [done|done|..]; cbn [items arr_capacity]; lia.
    + eexists. split_and!; [done|done|..]; cbn [items arr_capacity]; lia.
  - simpl. unfold arr_inv, json_array_get_value, json_array_get_count.
    destruct (Z.leb_spec (Z.of_nat (length (items a))) ix); [done|]. simpl. rewrite length_insert. split_and!; [lia|lia|done|].
    intros j Hj. destruct (Z.leb_spec (Z.of_nat (length (items a))) j), (Z.eqb_spec j ix); subst; try done; [lia|..].
    + apply list_lookup_insert_eq. lia.
    + apply list_lookup_insert_ne. lia.
  - unfold json_array_remove, arr_inv, json_array_get_value, json_array_get_count.
    destruct (Z.leb_spec (Z.of_nat (length (items a))) ix); [done|]. simpl. rewrite <-delete_take_drop, length_delete.
    2:{ apply lookup_lt_is_Some_2. lia. }
    split_and!; [lia|lia|lia|]. intros j Hj.
    destruct (Z.ltb_spec j ix), (Z.leb_spec (Z.of_nat (length (items a) - 1)) j);
      try destruct (Z.leb_spec (Z.of_nat (length (items a))) j);
      try destruct (Z.leb_spec (Z.of_nat (length (items a))) (j + 1)); try lia; try done.
    + apply list_lookup_delete_lt. lia.
    + rewrite list_lookup_delete_ge by lia. f_equal. lia.
  - split; simpl; lia.
  - done.
Qed.

(** Equality is not transitive: the tolerance adds up. *)
Example equals_intransitive :
  map (fun '(a, b) => json_value_equals (literal a) (literal b))
    [("0", "0.0000008"); ("0.0000008", "0.0000016"); ("0", "0.0000016")]%string = [Some true; Some true; Some false].
Proof. vm_compute. reflexivity. Qed.

Lemma literal_ok s v :
  wf_cstr (jtext s) -> Z.of_nat (length (jtext s)) < 2 ^ 30 -> literal s = Some v -> json_ok (S MAX_NESTING) v.
Proof.
  unfold literal. intros Hw Hl Hp. pose proof (parse_string_fine (jtext s) Hw Hl) as H.
  destruct (json_parse_string (jtext s)) as [v' rest| | |]; [|done..]. injection Hp as <-. apply H.
Qed.

(** Discharges well-formedness of the value of a literal. *)
Ltac literal_value s := apply (literal_ok s); [repeat constructor; unfold is_char; lia|vm_compute; reflexivity..].

Definition request_value : JSON_Value := default JSONNull (literal "{'execute': 'x', 'arguments': {'id': 1}}").
Definition swapped_value : JSON_Value := default JSONNull (literal "{'arguments': {'id': 1.0}, 'execute': 'x'}").
Definition schema_value : JSON_Value := default JSONNull (literal "{'execute': '', 'arguments': {}}").

Lemma request_value_ok : json_ok (S MAX_NESTING) request_value.
Proof. literal_value "{'execute': 'x', 'arguments': {'id': 1}}"%string. Qed.
Lemma swapped_value_ok : json_ok (S MAX_NESTING) swapped_value.
Proof. literal_value "{'arguments': {'id': 1.0}, 'execute': 'x'}"%string. Qed.
Lemma schema_value_ok : json_ok (S MAX_NESTING) schema_value.
Proof. literal_value "{'execute': '', 'arguments': {}}"%string. Qed.

Lemma array_refines_list_witness :
  let a := Arr [JSONNull; JSONBoolean true] 2 in
  exists a', json_array_append_value a JSONNull = Some a' /\ items a' = items a ++ [JSONNull] /\ 2 < arr_capacity a' < 2 ^ 63.
Proof. intros a. apply (array_refines_list a JSONNull 1); [split; simpl; lia|lia]. Defined.

Lemma json_value_deep_copy_witness :
  exists v', json_value_deep_copy (Some request_value) = Some v' /\ tree_of v' = tree_of request_value.
Proof.
  destruct (json_value_deep_copy_correct (S MAX_NESTING) request_value request_value_ok) as (v' & H1 & _ & H2 & _).
  - vm_compute. discriminate.
  - exists v'. by split.
Defined.

Lemma json_value_equals_witness : similar (tree_of request_value) (tree_of swapped_value).
Proof.
  destruct (json_value_equals_correct (S MAX_NESTING) (S MAX_NESTING) request_value swapped_value request_value_ok
    swapped_value_ok) as (r & Hr & _ & Hiff).
  apply Hiff. vm_compute in Hr. by injection Hr.
Defined.

Lemma json_validate_witness : conforms (tree_of schema_value) (tree_of request_value).
Proof.
  destruct (json_validate_correct (S MAX_NESTING) (S MAX_NESTING) schema_value request_value schema_value_ok
    request_value_ok) as (r & Hr & Hiff).
  apply Hiff. vm_compute in Hr. by injection Hr.
Defined.
