(* ===== verification/JsonPaths.v ===== *)
(** * JSON objects: dotted names (vendor/parson/parson.c)

    [json_object_dotset_value] and [json_object_dotremove], which reach into
    nested objects: a name is a path of keys separated by dots.  Read, written
    and removed paths are related to each other. *)

From S2P Require Import Prelude Libc JsonObject JsonRemove Double Json JsonTheory JsonRoundtrip JsonValues.

(** The object a pointer into [values] leads to is changed in place: the item
    found under the first [name_len] characters of [name]. *)
Definition write_through (o : json_object JSON_Value) (name : bytes) (name_len : Z) (value : JSON_Value)
  : result (json_object JSON_Value) :=
  match json_object_get_cell_ix o name name_len (hash_string name name_len) with
  | Some (cell_ix, true) =>
      match cells o !! Z.to_nat cell_ix with
      | Some (Some item_ix) =>
          Success (Obj (cells o) (hashes o) (names o) (<[item_ix := value]> (values o)) (cell_ixs o) (count o)
                     (item_capacity o) (cell_capacity o))
      | _ => Undef
      end
  | _ => Undef
  end.

(** A change of the nested object [name] leads to. *)
Definition nested (o : json_object JSON_Value) (name : bytes) (name_len : Z) (r : result (json_object JSON_Value))
  : result (json_object JSON_Value) :=
  match r with
  | Success o' => write_through o name name_len (JSONObject o')
  | Failure => Failure
  | Undef => Undef
  end.

(** [fuel] bounds the number of dots. *)
Fixpoint dotremove (fuel : nat) (o : json_object JSON_Value) (name : bytes) : result (json_object JSON_Value) :=
  match strchr name "."%c with
  | None => json_object_remove_internal o name
  | Some dot_pos =>
      let name_len := Z.of_nat (length name) - Z.of_nat (length dot_pos) in
      match fuel, json_object_getn_value o name name_len with
      | S fuel, Some temp_value =>
          match json_value_get_object temp_value with
          | None => Failure
          | Some temp_object => nested o name name_len (dotremove fuel temp_object (drop 1 dot_pos))
          end
      | _, _ => Undef
      end
  end.

Definition json_object_dotremove_internal (o : json_object JSON_Value) (name : bytes) := dotremove (length name) o name.
Definition json_object_dotremove (o : json_object JSON_Value) (name : bytes) := json_object_dotremove_internal o name.

Fixpoint dotset (fuel : nat) (o : json_object JSON_Value) (name : bytes) (value : JSON_Value)
  : result (json_object JSON_Value) :=
  match strchr name "."%c with
  | None => json_object_set_value o name value
  | Some dot_pos =>
      let name_len := Z.of_nat (length name) - Z.of_nat (length dot_pos) in
      match fuel, json_object_getn_value o name name_len with
      | S fuel, Some (Some temp_value) =>
          match json_value_get_object (Some temp_value) with
          | None => Failure
          | Some temp_object => nested o name name_len (dotset fuel temp_object (drop 1 dot_pos) value)
          end
      | S fuel, Some None =>
          match dotset fuel json_object_make (drop 1 dot_pos) value with
          | Success new_object => json_object_add o (take (Z.to_nat name_len) name) (JSONObject new_object)
          | Failure => Failure
          | Undef => Undef
          end
      | _, _ => Undef
      end
  end.

(** A NULL value is a failure. *)
Definition json_object_dotset_value (o : json_object JSON_Value) (name : bytes) (value : option JSON_Value)
  : result (json_object JSON_Value) :=
  match value with None => Failure | Some v => dotset (length name) o name v end.

Definition json_object_dotset_string (o : json_object JSON_Value) (name string : bytes) :=
  json_object_dotset_value o name (json_value_init_string string).
Definition json_object_dotset_string_with_len (o : json_object JSON_Value) (name string : bytes) (len : Z) :=
  json_object_dotset_value o name (json_value_init_string_with_len string len).
Definition json_object_dotset_number (o : json_object JSON_Value) (name : bytes) (number : double) :=
  json_object_dotset_value o name (json_value_init_number number).
Definition json_object_dotset_boolean (o : json_object JSON_Value) (name : bytes) (boolean : bool) :=
  json_object_dotset_value o name (Some (json_value_init_boolean boolean)).
Definition json_object_dotset_null (o : json_object JSON_Value) (name : bytes) :=
  json_object_dotset_value o name (Some json_value_init_null).

Definition json_object_set_string_with_len (o : json_object JSON_Value) (name string : bytes) (len : Z) :=
  json_object_set_opt o name (json_value_init_string_with_len string len).
Definition json_object_set_boolean (o : json_object JSON_Value) (name : bytes) (boolean : bool) :=
  json_object_set_opt o name (Some (json_value_init_boolean boolean)).
Definition json_object_set_null (o : json_object JSON_Value) (name : bytes) :=
  json_object_set_opt o name (Some json_value_init_null).

Definition printed (r : result (json_object JSON_Value)) : option bytes :=
  match r with Success o => json_serialize_to_string (JSONObject o) | _ => None end.

Example paths_demo :
  let set r name n := match r with Success o => json_object_dotset_number o (b2l name) (of_int n) | r => r end in
  let o := foldl (fun r '(name, n) => set r name n) (Success json_object_make) [("a.b.c", 1); ("a.d", 2); ("e", 3)]%string in
  printed o = Some (jtext "{'a':{'b':{'c':1},'d':2},'e':3}") /\
  printed (set o "e.f"%string 4) = None /\
  match o with
  | Success o =>
      printed (json_object_dotremove o (b2l "a.b")) = Some (jtext "{'a':{'d':2},'e':3}") /\
      printed (json_object_dotremove o (b2l "a.x")) = None /\
      json_object_dotget_number o (b2l "a.b.c") = Some (of_int 1)
  | _ => False
  end.
Proof. vm_compute. auto. Qed.

(** ** Specification: paths *)

Abbreviation path := (split_on "."%c).

(** The value a path leads to. *)
Fixpoint follow (ks : list bytes) (o : json_object JSON_Value) : option JSON_Value :=
  match ks with
  | [] => None
  | [k] => assoc k (entries o)
  | k :: ks' => match assoc k (entries o) with Some (JSONObject o') => follow ks' o' | _ => None end
  end.

(** A value that is not an object is in the way. *)
Fixpoint blocked (ks : list bytes) (o : json_object JSON_Value) : bool :=
  match ks with
  | [] | [_] => false
  | k :: ks' =>
      match assoc k (entries o) with Some (JSONObject o') => blocked ks' o' | Some _ => true | None => false end
  end.

(** Neither path leads through the other. *)
Definition independent (ks p : list bytes) : Prop := ~ ks `prefix_of` p /\ ~ p `prefix_of` ks.

(** ** Lemmas *)

Lemma path_cases name :
  (("."%c ∉ name) /\ strchr name "."%c = None /\ path name = [name]) \/
  (exists k rest, ("."%c ∉ k) /\ name = k ++ "."%c :: rest /\ strchr name "."%c = Some ("."%c :: rest) /\
     path name = k :: path rest).
Proof.
  destruct (strchr_split name "."%c ltac:(done)) as [[Hn E]|(k & rest & Hk & -> & E)]; [left|right].
  - split_and!; [done|done|by apply split_on_one].
  - exists k, rest. split_and!; [done|done|done|by apply split_on_app].
Qed.

Lemma path_nonempty name : path name <> [].
Proof. destruct (path_cases name) as [(_ & _ & ->)|(k & rest & _ & _ & _ & ->)]; done. Qed.

(** Steps of the specification. *)
Lemma follow_step k ks o :
  ks <> [] -> follow (k :: ks) o = match assoc k (entries o) with Some (JSONObject o') => follow ks o' | _ => None end.
Proof. by destruct ks. Qed.

Lemma blocked_step k ks o :
  ks <> [] -> blocked (k :: ks) o =
  match assoc k (entries o) with Some (JSONObject o') => blocked ks o' | Some _ => true | None => false end.
Proof. by destruct ks. Qed.

Lemma follow_absent ks k o : assoc k (entries o) = None -> follow (k :: ks) o = None.
Proof. intros H. simpl. rewrite H. by destruct ks. Qed.

(** The first key of a name, and the name after it. *)
Lemma key_len k (rest : bytes) :
  Z.of_nat (length (k ++ "."%c :: rest)) - Z.of_nat (length ("."%c :: rest)) = strlen k.
Proof. unfold strlen. rewrite length_app. lia. Qed.

Lemma take_key (k rest : bytes) : take (Z.to_nat (strlen k)) (k ++ "."%c :: rest) = k.
Proof. unfold strlen. by rewrite Nat2Z.id, take_app_length. Qed.

Lemma get_key (o : json_object JSON_Value) k rest :
  obj_inv o -> wf_cstr (k ++ "."%c :: rest) ->
  json_object_getn_value o (k ++ "."%c :: rest) (strlen k) = Some (assoc k (entries o)).
Proof.
  intros Hinv Hw. rewrite getn_value_spec; [by rewrite take_key|done|done|]. unfold strlen. rewrite length_app. lia.
Qed.

Lemma wf_key k rest : wf_cstr (k ++ "."%c :: rest) -> wf_cstr k /\ wf_cstr rest.
Proof. intros Hw. apply Forall_app in Hw as [Hk Hr]. by apply Forall_cons in Hr as [_ Hr]. Qed.

(** Writing through the pointer replaces the value under the key. *)
Lemma write_through_spec o k rest v w :
  obj_inv o -> wf_cstr (k ++ "."%c :: rest) -> assoc k (entries o) = Some w ->
  exists o', write_through o (k ++ "."%c :: rest) (strlen k) v = Success o' /\ obj_inv o' /\
    entries o' = assoc_set k v (entries o).
Proof.
  intros Hinv Hw Hk. destruct (get_cell_ix_spec o (k ++ "."%c :: rest) (strlen k) Hinv Hw) as [H|[Hnot _]].
  { unfold strlen. rewrite length_app. lia. }
  2:{ rewrite take_key in Hnot. unfold entries in Hk. by rewrite assoc_zip_absent in Hk. }
  rewrite take_key in H. destruct H as (i & ix & u & Hi & Hu & Hc & Hg). unfold write_through.
  rewrite hash_string_take, take_key by (done || apply strlen_range). rewrite Hg, Hc. eexists. split; [done|].
  pose proof (lookup_lt_Some _ _ _ Hu). split.
  - destruct Hinv as [[] ? ? ?]. split; simpl; try done. split; simpl; try done. by rewrite length_insert.
  - unfold entries. simpl. symmetry. apply assoc_set_found; [apply (ok_nodup o (inv_table o Hinv))|done|done].
Qed.

Lemma assoc_set_same {V} k (v : V) l : assoc k (assoc_set k v l) = Some v.
Proof.
  induction l as [|[k' v'] l IH]; simpl; [by rewrite bool_decide_true|].
  case_bool_decide; simpl; [by rewrite bool_decide_true|]. by rewrite bool_decide_false.
Qed.

Lemma assoc_set_other {V} k k' (v : V) l : k' <> k -> assoc k' (assoc_set k v l) = assoc k' l.
Proof.
  intros Hne. induction l as [|[k2 v2] l IH]; simpl; [by rewrite bool_decide_false|].
  case_bool_decide; simpl; [subst; by rewrite !bool_decide_false|]. by rewrite IH.
Qed.

Lemma assoc_app_new {V} k (v : V) l : assoc k l = None -> assoc k (l ++ [(k, v)]) = Some v.
Proof.
  induction l as [|[k2 v2] l IH]; simpl; [by rewrite bool_decide_true|]. case_bool_decide; [done|auto].
Qed.

Lemma assoc_app_other {V} k k' (v : V) l : k' <> k -> assoc k' (l ++ [(k, v)]) = assoc k' l.
Proof. intros Hne. induction l as [|[k2 v2] l IH]; simpl; [by rewrite bool_decide_false|]. by rewrite IH. Qed.

(** ** Changes of one key, and of one path *)

Definition changes (o : json_object JSON_Value) (k : bytes) (ov : option JSON_Value) (o' : json_object JSON_Value) : Prop :=
  forall k', assoc k' (entries o') = if bool_decide (k' = k) then ov else assoc k' (entries o).

Definition updates (p : list bytes) (ov : option JSON_Value) (o o' : json_object JSON_Value) : Prop :=
  follow p o' = ov /\ forall ks, independent ks p -> follow ks o' = follow ks o.

Lemma changes_same o k ov o' : changes o k ov o' -> assoc k (entries o') = ov.
Proof. intros H. by rewrite H, bool_decide_true. Qed.

Lemma changes_other o k ov o' k' : changes o k ov o' -> k' <> k -> assoc k' (entries o') = assoc k' (entries o).
Proof. intros H Hne. by rewrite H, bool_decide_false. Qed.

Lemma changes_set o k v o' : entries o' = assoc_set k v (entries o) -> changes o k (Some v) o'.
Proof. intros He k'. rewrite He. case_bool_decide; [subst; apply assoc_set_same|by apply assoc_set_other]. Qed.

Lemma changes_add o k v o' :
  assoc k (entries o) = None -> entries o' = entries o ++ [(k, v)] -> changes o k (Some v) o'.
Proof. intros Hn He k'. rewrite He. case_bool_decide; [subst; by apply assoc_app_new|by apply assoc_app_other]. Qed.

Lemma changes_ok n m o k ov o' :
  obj_ok n o -> obj_inv o' -> changes o k ov o' -> (forall v, ov = Some v -> json_ok m v) -> obj_ok (Nat.max n m) o'.
Proof.
  intros [Hinv Hvs] Hinv' Hch Hov. split; [done|].
  rewrite (values_entries o' (inv_table o' Hinv')), Forall_forall. intros v Hv.
  apply list_elem_of_fmap in Hv as ([k' v'] & -> & Hin). apply assoc_Some in Hin; [|by apply entries_nodup].
  rewrite Hch in Hin. simpl. case_bool_decide.
  - apply (json_ok_mono m); [lia|by apply Hov].
  - apply (json_ok_mono n); [lia|]. apply assoc_Some in Hin; [|by apply entries_nodup].
    eapply (json_ok_child n o k' v'); [by constructor|done].
Qed.

Lemma independent_cons k1 ks k p :
  independent (k1 :: ks) (k :: p) -> k1 <> k \/ (k1 = k /\ independent ks p).
Proof.
  intros [H1 H2]. destruct (decide (k1 = k)) as [-> |]; [right|by left]. split; [done|].
  split; intros Hp; [apply H1|apply H2]; by apply prefix_cons.
Qed.

Lemma independent_nonempty ks p : independent ks p -> ks <> [].
Proof. intros [H _] ->. apply H, prefix_nil. Qed.

Lemma follow_other k1 ks o o' : assoc k1 (entries o') = assoc k1 (entries o) -> follow (k1 :: ks) o' = follow (k1 :: ks) o.
Proof. intros H. simpl. by rewrite H. Qed.

Lemma updates_leaf o k ov o' : changes o k ov o' -> updates [k] ov o o'.
Proof.
  intros Hch. split; [by eapply changes_same|]. intros [|k1 ks] Hi; [by apply independent_nonempty in Hi|].
  apply independent_cons in Hi as [Hne|[_ [_ Hn]]]; [|by destruct Hn; apply prefix_nil].
  apply follow_other. by eapply changes_other.
Qed.

(** [t] is the object under [k], or an empty one if there is none. *)
Lemma updates_nested o o' k p ov t t' :
  p <> [] -> changes o k (Some (JSONObject t')) o' ->
  (assoc k (entries o) = Some (JSONObject t) \/ (assoc k (entries o) = None /\ t = json_object_make)) ->
  updates p ov t t' -> updates (k :: p) ov o o'.
Proof.
  intros Hp Hch Ht [Hf Ho]. split.
  - rewrite follow_step by done. by rewrite (changes_same _ _ _ _ Hch).
  - intros [|k1 ks] Hi; [by apply independent_nonempty in Hi|].
    apply independent_cons in Hi as [Hne|[-> Hi]]; [apply follow_other; by eapply changes_other|].
    pose proof (independent_nonempty _ _ Hi). rewrite !follow_step by done.
    rewrite (changes_same _ _ _ _ Hch), (Ho ks Hi). destruct Ht as [-> |[-> ->]]; [done|].
    by destruct ks as [|k1 [|]].
Qed.

(** ** Reading *)

Lemma rest_length k (rest : bytes) fuel : (length (k ++ "."%c :: rest) <= S fuel)%nat -> (length rest <= fuel)%nat.
Proof. rewrite length_app. simpl. lia. Qed.

Lemma dotget_null fuel name : (length name <= fuel)%nat -> dotget_value fuel None name = Some None.
Proof.
  revert name. induction fuel as [|fuel IH]; intros name Hl;
    destruct (path_cases name) as [(_ & Hc & _)|(k & rest & _ & -> & Hc & _)]; cbn [dotget_value]; rewrite Hc; try done.
  - rewrite length_app in Hl. simpl in Hl. lia.
  - cbn [mbind option_bind json_value_get_object]. apply IH. by apply rest_length in Hl.
Qed.

Lemma dotget_follows fuel n o name :
  (length name <= fuel)%nat -> obj_ok n o -> wf_cstr name ->
  dotget_value fuel (Some o) name = Some (follow (path name) o).
Proof.
  revert n o name. induction fuel as [|fuel IH]; intros n o name Hl [Hinv Hvs] Hw;
    destruct (path_cases name) as [(_ & Hc & Hp)|(k & rest & Hk & -> & Hc & Hp)]; cbn [dotget_value]; rewrite Hc, Hp;
    try by apply get_value_entries.
  { rewrite length_app in Hl. simpl in Hl. lia. }
  rewrite key_len, get_key by done. cbn [mbind option_bind]. rewrite follow_step by apply path_nonempty.
  apply rest_length in Hl. apply wf_key in Hw as [_ Hw]. change (drop 1 (46 :: rest)) with rest.
  destruct (assoc k (entries o)) as [v|] eqn:Ev; [|by apply dotget_null].
  apply assoc_Some in Ev; [|by apply entries_nodup].
  pose proof (json_ok_child n o k v ltac:(by constructor) Ev) as Hv.
  destruct Hv as [| | | | |m t Ht Hts]; try by apply dotget_null. by apply (IH m).
Qed.

(** ** Writing *)

Lemma blocked_make ks : blocked ks json_object_make = false.
Proof. by destruct ks as [|k [|]]. Qed.

Lemma nested_spec o k rest t t' r :
  obj_inv o -> wf_cstr (k ++ "."%c :: rest) -> assoc k (entries o) = Some (JSONObject t) -> r = Success t' ->
  exists o', nested o (k ++ "."%c :: rest) (strlen k) r = Success o' /\ obj_inv o' /\ changes o k (Some (JSONObject t')) o'.
Proof.
  intros Hinv Hw Hk ->. destruct (write_through_spec o k rest (JSONObject t') _ Hinv Hw Hk) as (o' & H1 & H2 & H3).
  exists o'. split_and!; [done|done|by apply changes_set].
Qed.

Lemma count_small (o : json_object JSON_Value) : obj_inv o -> Z.of_nat (widest (JSONObject o)) < 2 ^ 30 -> count o < 2 ^ 30.
Proof.
  intros Hinv Hs. change (count o) with (json_object_get_count o). rewrite count_entries by done.
  pose proof (widest_entries o). lia.
Qed.

Lemma dotset_spec fuel n m o name value :
  (length name <= fuel)%nat -> obj_ok n o -> wf_cstr name -> json_ok m value ->
  Z.of_nat (widest (JSONObject o)) < 2 ^ 30 ->
  if blocked (path name) o then dotset fuel o name value = Failure
  else exists o', dotset fuel o name value = Success o' /\ (exists l, obj_ok l o') /\ updates (path name) (Some value) o o'.
Proof.
  revert n o name. induction fuel as [|fuel IH]; intros n o name Hl [Hinv Hvs] Hw Hval Hsmall;
    destruct (path_cases name) as [(_ & Hc & Hp)|(k & rest & Hk & -> & Hc & Hp)]; cbn [dotset]; rewrite Hc, Hp.
  1,3: simpl; destruct (set_value_spec o name value Hinv Hw (count_small o Hinv Hsmall)) as (o' & -> & Hinv' & He & _);
       apply changes_set in He; exists o'; split_and!; [done| |by apply updates_leaf];
       eexists; eapply (changes_ok n m o); [by split|done|done|by intros ? [= <-]].
  { rewrite length_app in Hl. simpl in Hl. lia. }
  cbv zeta. rewrite key_len, get_key, blocked_step by (done || apply path_nonempty).
  apply rest_length in Hl. pose proof (wf_key k rest Hw) as [Hwk Hwr]. change (drop 1 (46 :: rest)) with rest.
  destruct (assoc k (entries o)) as [v|] eqn:Ev.
  - pose proof Ev as Hin. apply assoc_Some in Hin; [|by apply entries_nodup].
    pose proof (json_ok_child n o k v ltac:(by constructor) Hin) as Hv.
    destruct Hv as [| | | | |l t Ht Hts]; try done. cbn [json_value_get_object].
    assert (Z.of_nat (widest (JSONObject t)) < 2 ^ 30) as Hst.
    { pose proof (widest_object o (JSONObject t)) as Hwo. rewrite (values_entries o (inv_table o Hinv)) in Hwo.
      specialize (Hwo ltac:(apply list_elem_of_fmap; by exists (k, JSONObject t))). lia. }
    specialize (IH l t rest Hl (conj Ht Hts) Hwr Hval Hst). destruct (blocked (path rest) t); [by rewrite IH|].
    destruct IH as (t' & Hset & [l' Hok'] & Hup).
    destruct (nested_spec o k rest t t' _ Hinv Hw Ev Hset) as (o' & -> & Hinv' & Hch). exists o'. split_and!; [done| |].
    + eexists. eapply (changes_ok (S l) (S l') o); [by split|done|done|]. intros ? [= <-]. constructor; apply Hok'.
    + eapply updates_nested; [apply path_nonempty|done|by left|done].
  - assert (obj_ok n json_object_make) as Hmake by (split; [apply json_object_make_inv|constructor]).
    specialize (IH n json_object_make rest Hl Hmake Hwr Hval ltac:(done)). rewrite blocked_make in IH.
    destruct IH as (t' & -> & [l' Hok'] & Hup). rewrite take_key.
    destruct (add_spec o k (JSONObject t') Hinv Hwk (count_small o Hinv Hsmall)) as [_ Hadd].
    destruct Hadd as (o' & -> & Hinv' & He & _ & _).
    { intros Hk'. rewrite <-(entries_keys o Hinv) in Hk'. apply list_elem_of_fmap in Hk' as ([k2 v] & -> & Hin).
      simpl in Ev. apply assoc_Some in Hin; [by rewrite Ev in Hin|by apply entries_nodup]. }
    pose proof (changes_add o k _ o' Ev He) as Hch. exists o'. split_and!; [done| |].
    + eexists. eapply (changes_ok n (S l') o); [by split|done|done|]. intros ? [= <-]. constructor; apply Hok'.
    + eapply updates_nested; [apply path_nonempty|done|by right|done].
Qed.

(** ** Removing *)

Lemma remove_key_spec n o name :
  obj_ok n o -> wf_cstr name ->
  match follow [name] o with
  | None => json_object_remove_internal o name = Failure
  | Some _ => exists o', json_object_remove_internal o name = Success o' /\ obj_ok n o' /\ updates [name] None o o'
  end.
Proof.
  intros [Hinv Hvs] Hw. simpl. destruct (remove_spec o name Hinv Hw) as [(i & o' & Hi & Hr & Hinv' & He)|[Hnot Hr]].
  - destruct (lookup_lt_is_Some_2 (values o) i) as [v Hv].
    { rewrite (ok_len_values o (inv_table o Hinv)). by eapply lookup_lt_Some. }
    assert (entries o !! i = Some (name, v)) as Hent by (unfold entries; by rewrite lookup_zip_with, Hi, Hv).
    pose proof Hent as Hin. apply list_elem_of_lookup_2, assoc_Some in Hin; [|by apply entries_nodup]. rewrite Hin.
    assert (changes o name None o') as Hch by (intros k; by eapply assoc_removed).
    exists o'. split_and!; [done| |by apply updates_leaf].
    replace n with (Nat.max n n) by lia. by eapply (changes_ok n n o); [split|..].
  - unfold entries. by rewrite assoc_zip_absent.
Qed.

Lemma dotremove_spec fuel n o name :
  (length name <= fuel)%nat -> obj_ok n o -> wf_cstr name ->
  match follow (path name) o with
  | None => dotremove fuel o name = Failure
  | Some _ => exists o', dotremove fuel o name = Success o' /\ obj_ok n o' /\ updates (path name) None o o'
  end.
Proof.
  revert n o name. induction fuel as [|fuel IH]; intros n o name Hl [Hinv Hvs] Hw;
    destruct (path_cases name) as [(_ & Hc & Hp)|(k & rest & Hk & -> & Hc & Hp)]; cbn [dotremove]; rewrite Hc, Hp.
  1,3: by apply (remove_key_spec n).
  { rewrite length_app in Hl. simpl in Hl. lia. }
  cbv zeta. rewrite key_len, get_key, follow_step by (done || apply path_nonempty).
  apply rest_length in Hl. pose proof (wf_key k rest Hw) as [Hwk Hwr]. change (drop 1 (46 :: rest)) with rest.
  destruct (assoc k (entries o)) as [v|] eqn:Ev; [|done].
  pose proof Ev as Hin. apply assoc_Some in Hin; [|by apply entries_nodup].
  pose proof (json_ok_child n o k v ltac:(by constructor) Hin) as Hv.
  destruct Hv as [| | | | |l t Ht Hts]; try done. cbn [json_value_get_object].
  specialize (IH l t rest Hl (conj Ht Hts) Hwr). destruct (follow (path rest) t) as [w|]; [|by rewrite IH].
  destruct IH as (t' & Hrem & Hok' & Hup).
  destruct (nested_spec o k rest t t' _ Hinv Hw Ev Hrem) as (o' & -> & Hinv' & Hch). exists o'. split_and!; [done| |].
  - replace (S l) with (Nat.max (S l) (S l)) by lia.
    eapply (changes_ok (S l) (S l) o); [by split|done|done|]. intros ? [= <-]. constructor; apply Hok'.
  - eapply updates_nested; [apply path_nonempty|done|by left|done].
Qed.

(** ** Theorems *)

Lemma dotget_path n o name : obj_ok n o -> wf_cstr name -> json_object_dotget_value o name = Some (follow (path name) o).
Proof. intros Ho Hw. by apply (dotget_follows _ n). Qed.

(** After an update, its own name and the names independent of it. *)
Lemma updates_get n n' o o' name ov :
  obj_ok n o -> obj_ok n' o' -> wf_cstr name -> updates (path name) ov o o' ->
  json_object_dotget_value o' name = Some ov /\
  forall other, wf_cstr other -> independent (path other) (path name) ->
    json_object_dotget_value o' other = json_object_dotget_value o other.
Proof.
  intros Ho Ho' Hw [Hf Hi]. split; [by rewrite (dotget_path n'), Hf|].
  intros other Hwo Hind. by rewrite (dotget_path n'), (dotget_path n), Hi.
Qed.

Lemma dotset_dotget n m o name value :
  obj_ok n o -> wf_cstr name -> json_ok m value -> Z.of_nat (widest (JSONObject o)) < 2 ^ 30 ->
  match json_object_dotset_value o name (Some value) with
  | Success o' =>
      blocked (path name) o = false /\ obj_inv o' /\ json_object_dotget_value o' name = Some (Some value) /\
      forall other, wf_cstr other -> independent (path other) (path name) ->
        json_object_dotget_value o' other = json_object_dotget_value o other
  | Failure => blocked (path name) o = true
  | Undef => False
  end.
Proof.
  intros Ho Hw Hv Hs. pose proof (dotset_spec (length name) n m o name value (le_n _) Ho Hw Hv Hs) as H.
  unfold json_object_dotset_value. destruct (blocked (path name) o); [by rewrite H|].
  destruct H as (o' & -> & [l Hok'] & Hup).
  destruct (updates_get n l o o' name _ Ho Hok' Hw Hup) as [Hg Hi]. split_and!; [done|apply Hok'|done|done].
Qed.

Lemma dotremove_dotget n o name :
  obj_ok n o -> wf_cstr name ->
  match json_object_dotremove o name with
  | Success o' =>
      (exists v, json_object_dotget_value o name = Some (Some v)) /\ obj_ok n o' /\
      json_object_dotget_value o' name = Some None /\
      forall other, wf_cstr other -> independent (path other) (path name) ->
        json_object_dotget_value o' other = json_object_dotget_value o other
  | Failure => json_object_dotget_value o name = Some None
  | Undef => False
  end.
Proof.
  intros Ho Hw. pose proof (dotremove_spec (length name) n o name (le_n _) Ho Hw) as H.
  unfold json_object_dotremove, json_object_dotremove_internal.
  rewrite (dotget_path n o name Ho Hw). destruct (follow (path name) o) as [v|]; [|by rewrite H].
  destruct H as (o' & -> & Hok' & Hup).
  destruct (updates_get n n o o' name _ Ho Hok' Hw Hup) as [Hg Hi]. split_and!; [by exists v|done|done|done].
Qed.

(** C32: dotted names, on a well-formed object.  [json_object_dotset_value]
    fails exactly when a value that is not an object stands in the way of the
    path; otherwise the objects missing on the path are created and
    [json_object_dotget_value] of the name returns the value.
    [json_object_dotremove] succeeds exactly when [json_object_dotget_value]
    finds a value, and afterwards it finds none.  After both, every name that is
    neither a prefix nor an extension of the one changed reads as before, and
    the object is well formed.  Neither leaves the bounds of a table. *)
Theorem dotted_names_correct n m o name value :
  obj_ok n o -> wf_cstr name -> json_ok m value -> Z.of_nat (widest (JSONObject o)) < 2 ^ 30 ->
  match json_object_dotset_value o name (Some value) with
  | Success o' =>
      blocked (path name) o = false /\ obj_inv o' /\ json_object_dotget_value o' name = Some (Some value) /\
      forall other, wf_cstr other -> independent (path other) (path name) ->
        json_object_dotget_value o' other = json_object_dotget_value o other
  | Failure => blocked (path name) o = true
  | Undef => False
  end /\
  match json_object_dotremove o name with
  | Success o' =>
      (exists v, json_object_dotget_value o name = Some (Some v)) /\ obj_ok n o' /\
      json_object_dotget_value o' name = Some None /\
      forall other, wf_cstr other -> independent (path other) (path name) ->
        json_object_dotget_value o' other = json_object_dotget_value o other
  | Failure => json_object_dotget_value o name = Some None
  | Undef => False
  end.
Proof. intros Ho Hw Hv Hs. split; [by apply (dotset_dotget n m)|by apply dotremove_dotget]. Qed.

Definition request_object : json_object JSON_Value :=
  default json_object_make (json_value_get_object (Some request_value)).

Lemma object_ok n o : json_ok (S n) (JSONObject o) -> obj_ok n o.
Proof. intros H. inversion H. by split. Qed.

Lemma request_object_ok : obj_ok MAX_NESTING request_object.
Proof.
  apply object_ok. replace (JSONObject request_object) with request_value by (vm_compute; reflexivity).
  exact request_value_ok.
Qed.

Lemma dotted_name_wf : wf_cstr (b2l "arguments.id").
Proof. repeat constructor; unfold is_char; lia. Qed.

Lemma dotted_names_correct_witness :
  match json_object_dotset_value request_object (b2l "arguments.id") (Some JSONNull) with
  | Success o' => json_object_dotget_value o' (b2l "arguments.id") = Some (Some JSONNull)
  | _ => False
  end /\
  match json_object_dotremove request_object (b2l "arguments.id") with
  | Success o' => json_object_dotget_value o' (b2l "arguments.id") = Some None
  | _ => False
  end.
Proof.
  destruct (dotted_names_correct MAX_NESTING 1 request_object (b2l "arguments.id") JSONNull request_object_ok dotted_name_wf
    ltac:(constructor) ltac:(vm_compute; reflexivity)) as [H1 H2]. split.
  - destruct (json_object_dotset_value _ _ _); [apply H1|vm_compute in H1; discriminate H1|exact H1].
  - destruct (json_object_dotremove _ _); [apply H2|vm_compute in H2; discriminate H2|exact H2].
Defined.
