(* ===== verification/JsonComments.v ===== *)
(** * JSON with comments (vendor/parson/parson.c)

    [json_parse_string_with_comments]: comments are overwritten with blanks in
    a copy of the text, block comments first, then line comments, and the copy
    is parsed. *)

From S2P Require Import Prelude Libc JsonObject Double Json JsonTheory JsonRoundtrip JsonValues.

Definition SPACE : Z := 32.

(** [strstr], for a needle that is not empty. *)
Fixpoint strstr (s needle : bytes) : option bytes :=
  if strncmp_eq (length needle) needle s then Some s
  else match s with [] => None | _ :: s' => strstr s' needle end.

Section comments.
Variable start_token end_token : bytes.

(** The text from [string] on, after the loop.  A comment without an end
    stops it after its start token.  Every turn moves on by one character at
    least, so that the length of the text is fuel enough. *)
Fixpoint remove_loop (fuel : nat) (string : bytes) (in_string escaped : bool) : bytes :=
  match fuel, string with
  | O, _ | _, [] => string
  | S fuel, current_char :: string' =>
      if (current_char =? BACKSLASH) && negb escaped then current_char :: remove_loop fuel string' in_string true
      else if (current_char =? QUOTE) && negb escaped then
        current_char :: remove_loop fuel string' (negb in_string) false
      else if negb in_string && strncmp_eq (length start_token) string start_token then
        let string := drop (length start_token) string in
        replicate (length start_token) SPACE ++
        match strstr string end_token with
        | None => string
        | Some ptr =>
            replicate (length string - length ptr + length end_token) SPACE ++
            remove_loop fuel (drop (length end_token) ptr) in_string false
        end
      else current_char :: remove_loop fuel string' in_string false
  end.

Definition remove_comments (string : bytes) : bytes :=
  if (length start_token =? 0)%nat || (length end_token =? 0)%nat then string
  else remove_loop (length string) string false false.
End comments.

Definition json_parse_string_with_comments (string : bytes) : parse_result JSON_Value :=
  let copy := remove_comments (b2l "/*") (b2l "*/") string in
  let copy := remove_comments (b2l "//") [NEWLINE] copy in
  parse_value (parse_fuel copy) copy 0.

Example comments_demo :
  remove_comments (b2l "/*") (b2l "*/") (jtext "{'a/*':/* '*/1/**/}") = jtext "{'a/*':      1    }" /\
  match json_parse_string_with_comments (jtext "{'a': /* one */ 1, 'b//': 'x\'/*'}") with
  | POk v _ => json_serialize_to_string v = Some (jtext "{'a':1,'b\/\/':'x\'\/*'}")
  | _ => False
  end.
Proof. vm_compute. auto. Qed.

(** ** Lemmas: what is overwritten *)

(** The same text, with some characters overwritten by blanks. *)
Definition blanked : bytes -> bytes -> Prop := Forall2 (fun c d => d = c \/ d = SPACE).

Lemma blanked_refl s : blanked s s.
Proof. apply Forall_Forall2_diag. apply Forall_true. by left. Qed.

Lemma blanked_spaces n s : blanked (take n s) (replicate (length (take n s)) SPACE).
Proof. induction (take n s) as [|c l IH]; simpl; constructor; auto. Qed.

Lemma blanked_take n k s t : length (take n s) = k -> blanked (drop n s) t -> blanked s (replicate k SPACE ++ t).
Proof. intros <- Ht. rewrite <-(take_drop n s) at 1. apply Forall2_app; [apply blanked_spaces|done]. Qed.

Lemma strstr_Some s needle p :
  wf_cstr s -> wf_cstr needle -> strstr s needle = Some p -> p `suffix_of` s /\ take (length needle) p = needle.
Proof.
  intros Hs Hn. induction s as [|c s IH]; cbn [strstr].
  - destruct (strncmp_eq _ _ _) eqn:E; [|done]. intros [= <-]. split; [done|]. rewrite strncmp_eq_spec in E by done.
    apply bool_decide_eq_true in E. rewrite <-E. by apply take_ge.
  - destruct (strncmp_eq _ _ _) eqn:E.
    + intros [= <-]. split; [done|]. rewrite strncmp_eq_spec in E by done. apply bool_decide_eq_true in E.
      rewrite <-E. by apply take_ge.
    + apply wf_cstr_cons in Hs as [_ Hs]. intros Hp. destruct (IH Hs Hp) as [H1 H2]. split; [by apply suffix_cons_r|done].
Qed.

Section blanked_theory.
Variable start_token end_token : bytes.
Hypothesis Hstart : wf_cstr start_token.
Hypothesis Hend : wf_cstr end_token.

Lemma remove_loop_blanked fuel s b e : wf_cstr s -> blanked s (remove_loop start_token end_token fuel s b e).
Proof.
  revert s b e. induction fuel as [|fuel IH]; intros [|c s] b e Hs; cbn [remove_loop]; try apply blanked_refl.
  pose proof Hs as [_ Hs']%wf_cstr_cons.
  assert (forall b e, blanked (c :: s) (c :: remove_loop start_token end_token fuel s b e)) as Hkeep.
  { intros b' e'. constructor; [by left|by apply IH]. }
  destruct (_ && _); [apply Hkeep|]. destruct (_ && _); [apply Hkeep|]. destruct (_ && _) eqn:Em; [|apply Hkeep].
  apply andb_prop in Em as [_ Em]. rewrite strncmp_eq_spec in Em by done. apply bool_decide_eq_true in Em.
  rewrite (take_ge start_token) in Em by done. cbv zeta.
  apply (blanked_take (length start_token)); [by rewrite Em|]. set (s1 := drop _ (c :: s)).
  assert (wf_cstr s1) as Hs1 by (by apply wf_cstr_drop).
  destruct (strstr s1 end_token) as [ptr|] eqn:Ep; [|apply blanked_refl].
  destruct (strstr_Some s1 end_token ptr Hs1 Hend Ep) as [[pre Hpre] Htake].
  assert (length end_token <= length ptr)%nat as Hl by (rewrite <-Htake, length_take; lia).
  assert (length s1 = length pre + length ptr)%nat as Hl1 by (by rewrite Hpre, length_app).
  apply (blanked_take (length pre + length end_token)); [rewrite length_take; lia|].
  rewrite Hpre, drop_app_ge by lia. replace (_ - _)%nat with (length end_token) by lia.
  apply IH, wf_cstr_drop. rewrite Hpre in Hs1. by apply Forall_app in Hs1 as [_ ?].
Qed.
End blanked_theory.

(** ** Lemmas: text the loop passes over *)

Section passing.
Variable start_token end_token : bytes.
Hypothesis Hslash : exists s, start_token = "/"%c :: s.

Abbreviation loop := (remove_loop start_token end_token).

(** The loop leaves [s] as it is and goes from one state to another. *)
Definition passes (s : bytes) (b e b' e' : bool) : Prop := forall fuel rest,
  (length (s ++ rest) <= fuel)%nat -> loop fuel (s ++ rest) b e = s ++ loop (fuel - length s) rest b' e'.

Lemma passes_nil b e : passes [] b e b e.
Proof. intros fuel rest _. by rewrite Nat.sub_0_r. Qed.

Lemma passes_app s t b e b1 e1 b2 e2 : passes s b e b1 e1 -> passes t b1 e1 b2 e2 -> passes (s ++ t) b e b2 e2.
Proof.
  intros Hs Ht fuel rest Hf. rewrite <-!app_assoc in *. rewrite Hs by done. f_equal. rewrite length_app in Hf.
  rewrite Ht by lia. f_equal. f_equal. rewrite length_app. lia.
Qed.

(** A character outside of strings. *)
Definition plain_char (c : Z) : Prop := c <> BACKSLASH /\ c <> QUOTE /\ c <> "/"%c.

Lemma not_start c s : c <> "/"%c -> strncmp_eq (length start_token) (c :: s) start_token = false.
Proof. intros Hc. destruct Hslash as [t ->]. cbn [length strncmp_eq deref]. by destruct (Z.eqb_spec c 47). Qed.

Lemma passes_char c b : (b = true /\ c <> BACKSLASH /\ c <> QUOTE) \/ plain_char c -> passes [c] b false b false.
Proof.
  intros Hc [|fuel] rest Hf; [simpl in Hf; lia|]. cbn [app remove_loop length]. rewrite Nat.sub_succ, Nat.sub_0_r.
  assert (c <> BACKSLASH /\ c <> QUOTE) as [H1 H2] by (unfold plain_char in Hc; tauto).
  destruct (Z.eqb_spec c BACKSLASH), (Z.eqb_spec c QUOTE); try done. cbn [andb].
  destruct Hc as [[-> _]|(_ & _ & H3)]; [done|]. rewrite not_start by done. by rewrite andb_false_r.
Qed.

Lemma passes_plain s : Forall plain_char s -> passes s false false false false.
Proof.
  induction 1 as [|c s Hc _ IH]; [apply passes_nil|].
  apply (passes_app [c] s _ _ false false); [|done]. apply passes_char. by right.
Qed.

Lemma passes_quote b : passes [QUOTE] b false (negb b) false.
Proof. intros [|fuel] rest Hf; [simpl in Hf; lia|]. cbn [app remove_loop length]. by rewrite Nat.sub_succ, Nat.sub_0_r. Qed.

Lemma passes_backslash e : passes [BACKSLASH; e] true false true false.
Proof.
  intros [|[|fuel]] rest Hf; [simpl in Hf; lia..|]. cbn [app remove_loop length]. rewrite !Nat.sub_succ, Nat.sub_0_r.
  cbn [andb negb]. rewrite Z.eqb_refl. cbn [andb]. by rewrite !andb_false_r.
Qed.

Lemma hex_plain c : hex_char_to_int c <> -1 -> c <> BACKSLASH /\ c <> QUOTE.
Proof.
  unfold hex_char_to_int, BACKSLASH, QUOTE. intros H. split; intros ->; by apply H.
Qed.

Lemma passes_escape c : is_byte c -> passes (escape c) true false true false.
Proof.
  intros Hc. destruct (escape_cases c Hc) as [(-> & _ & H1 & H2)|[(e & -> & _)|(a & b & d & e & -> & Hp & _)]].
  - apply passes_char. by left.
  - apply passes_backslash.
  - assert (Forall (fun c => c <> BACKSLASH /\ c <> QUOTE) [a; b; d; e]) as Hh.
    { unfold parse_utf16_hex in Hp. destruct (_ || _) eqn:E; [done|]. rewrite !orb_false_iff, !Z.eqb_neq in E.
      repeat constructor; apply hex_plain; tauto. }
    apply (passes_app [BACKSLASH; "u"%c] [a; b; d; e] _ _ true false); [apply passes_backslash|].
    clear Hp. induction Hh as [|x l Hx _ IH]; [apply passes_nil|].
    apply (passes_app [x] l _ _ true false); [|done]. apply passes_char. left. tauto.
Qed.

Lemma passes_string s : Forall is_byte s -> passes (json_serialize_string s) false false false false.
Proof.
  intros Hs. unfold json_serialize_string. apply (passes_app [QUOTE] _ _ _ true false); [apply passes_quote|].
  apply (passes_app _ [QUOTE] _ _ true false); [|apply passes_quote].
  induction Hs as [|c s Hc _ IH]; [apply passes_nil|]. cbn [map concat].
  eapply passes_app; [by apply passes_escape|done].
Qed.

Lemma passes_pretty p s : Forall plain_char s -> passes (pretty_str p s) false false false false.
Proof. intros Hs. destruct p; [by apply passes_plain|apply passes_nil]. Qed.

Lemma plain_indent k : Forall plain_char (append_indent k).
Proof. unfold append_indent. induction k as [|k IH]; simpl; [constructor|]. repeat (constructor; [done|]). done. Qed.

(** Text outside of strings that the loop leaves alone. *)
Definition transparent (s : bytes) : Prop := passes s false false false false.

Lemma transparent_app s t : transparent s -> transparent t -> transparent (s ++ t).
Proof. apply passes_app. Qed.

Lemma transparent_cons c s : plain_char c -> transparent s -> transparent (c :: s).
Proof. intros Hc. apply (transparent_app [c] s). apply passes_plain. by constructor. Qed.

Lemma transparent_nil : transparent [].
Proof. apply passes_nil. Qed.

Lemma transparent_pretty p s : Forall plain_char s -> transparent (pretty_str p s).
Proof. apply passes_pretty. Qed.

Lemma transparent_number d : int_number d -> transparent (format_g17 d).
Proof.
  intros (neg & n & Hn & ->). rewrite format_round by done. apply passes_plain, Forall_app. split.
  - destruct neg; repeat constructor; done.
  - apply Forall_forall. intros c Hc. pose proof (dec_digits n ltac:(lia)) as Hd. unfold digits in Hd.
    rewrite forallb_forall in Hd. specialize (Hd c ltac:(by apply list_elem_of_In)). apply isdigit_range in Hd.
    unfold plain_char, BACKSLASH, QUOTE. lia.
Qed.

Ltac see_through := repeat first
  [ done | apply transparent_app | (by apply passes_string) | apply transparent_cons | apply transparent_nil
  | apply transparent_pretty | apply plain_indent | (by repeat constructor) | case_match ].

Lemma transparent_items lvl p l body :
  Forall (fun v => forall t, json_serialize_to_buffer_r v (S lvl) p = Some t -> transparent t) l ->
  ser_items lvl p l = Some body -> transparent body.
Proof.
  intros Hl. revert body. induction Hl as [|x l Hx _ IH]; intros body; [intros [= <-]; apply transparent_nil|].
  rewrite ser_items_cons. destruct (json_serialize_to_buffer_r x (S lvl) p) as [t|]; [|done].
  destruct (ser_items lvl p l) as [b|]; [|done]. cbn [mbind option_bind]. intros [= <-].
  specialize (Hx t eq_refl). specialize (IH b eq_refl). see_through.
Qed.

Lemma transparent_entries lvl p ks l body :
  Forall (Forall is_byte) ks ->
  Forall (fun v => forall t, json_serialize_to_buffer_r v (S lvl) p = Some t -> transparent t) l ->
  ser_entries lvl p ks l = Some body -> transparent body.
Proof.
  intros Hks Hl. revert ks body Hks. induction Hl as [|x l Hx _ IH]; intros ks body Hks;
    [intros [= <-]; apply transparent_nil|]. destruct ks as [|k ks]; [done|]. apply Forall_cons in Hks as [Hk Hks].
  rewrite ser_entries_cons. destruct (json_serialize_to_buffer_r x (S lvl) p) as [t|]; [|done].
  destruct (ser_entries lvl p ks l) as [b|] eqn:Eb; [|done]. cbn [mbind option_bind]. intros <-%(inj Some).
  specialize (Hx t eq_refl). specialize (IH ks b Hks Eb). see_through.
Qed.

Lemma serialized_transparent n v lvl p t :
  json_ok n v -> int_numbers n v -> json_serialize_to_buffer_r v lvl p = Some t -> transparent t.
Proof.
  revert v lvl t. induction n as [|n IH]; intros v lvl t Hok Hint; [inversion Hok|].
  inversion Hok as [|? s Hs| | |? a Ha|? o Hinv Ho]; subst; inversion Hint as [| |? ? Hd| |? ? Hia|? ? Hio]; subst.
  - intros [= <-]. see_through.
  - intros [= <-]. by apply passes_string.
  - intros [= <-]. by apply transparent_number.
  - intros [= <-]. see_through.
  - rewrite ser_array. destruct (ser_items lvl p (items a)) as [body|] eqn:Eb; [|done]. intros [= <-].
    assert (transparent body).
    { eapply transparent_items; [|done]. rewrite Forall_forall in Ha, Hia |- *. eauto. }
    see_through.
  - rewrite ser_object. destruct (ser_entries lvl p (names o) (values o)) as [body|] eqn:Eb; [|done]. intros [= <-].
    assert (transparent body).
    { eapply transparent_entries; [| |done].
      - eapply Forall_impl; [apply (ok_wf o (inv_table o Hinv))|]. apply wf_cstr_bytes.
      - rewrite Forall_forall in Ho, Hio |- *. eauto. }
    see_through.
Qed.
End passing.

(** ** Theorems *)

Lemma remove_transparent start_token end_token s :
  (exists t, start_token = "/"%c :: t) -> transparent start_token end_token s -> remove_comments start_token end_token s = s.
Proof.
  intros Hst Hs. unfold remove_comments. destruct (_ || _); [done|].
  pose proof (Hs (length s) [] ltac:(rewrite app_nil_r; lia)) as H. rewrite app_nil_r in H. rewrite H.
  by destruct (length s - length s)%nat; simpl; rewrite app_nil_r.
Qed.

Lemma spaces_plain k : Forall plain_char (replicate k SPACE).
Proof. apply Forall_replicate. done. Qed.

Lemma parse_after_blanks v p t k :
  json_ok (S MAX_NESTING) v -> int_numbers (S MAX_NESTING) v -> json_serialize_to_buffer_r v 0 p = Some t ->
  Z.of_nat (length t) < 2 ^ 30 ->
  let copy := replicate k SPACE ++ t in
  exists v', parse_value (parse_fuel copy) copy 0 = POk v' [] /\ tree_of v' = tree_of v.
Proof.
  intros Hok Hint Ht Hl copy. rewrite <-parse_value_ws. unfold copy at 2.
  rewrite skip_ws_spaces by (induction k; [done|simpl; exact IHk]).
  pose proof (serialized_starts _ v _ _ _ Hint Ht) as Hst. rewrite <-(app_nil_r t), (skip_ws_starts t []) by done.
  apply (all_readable _ v 0%nat p t [] _ 0%nat Hok Hint Ht).
  - done.
  - done.
  - unfold parse_fuel, copy. rewrite app_nil_r, length_app. lia.
  - by rewrite app_nil_r.
Qed.

Lemma strstr_block c t :
  strstr c (b2l "*/") = None -> strstr (c ++ b2l "*/" ++ t) (b2l "*/") = Some (b2l "*/" ++ t).
Proof.
  induction c as [|x c IH]; [done|]. intros H. cbn [app strstr] in *.
  destruct (strncmp_eq _ _ (x :: c)) eqn:E; [done|]. specialize (IH H). rewrite IH.
  replace (strncmp_eq _ _ _) with false; [done|]. symmetry.
  destruct c as [|y c]; [|exact E].
  change (b2l "*/") with [42; 47]. cbn [length strncmp_eq deref drop app]. by destruct (42 =? x).
Qed.

Lemma strstr_line d t : NEWLINE ∉ d -> strstr (d ++ NEWLINE :: t) [NEWLINE] = Some (NEWLINE :: t).
Proof.
  induction d as [|x d IH]; [done|]. intros [Hx Hd]%not_elem_of_cons. cbn [app strstr]. rewrite IH by done.
  cbn [length strncmp_eq deref]. by destruct (Z.eqb_spec NEWLINE x).
Qed.

Lemma strncmp_prefix a r : strncmp_eq (length a) (a ++ r) a = true.
Proof.
  induction a as [|c a IH]; [done|]. cbn [length app strncmp_eq deref]. rewrite Z.eqb_refl. cbn [andb].
  change (drop 1 (c :: a ++ r)) with (a ++ r). change (drop 1 (c :: a)) with a. rewrite IH. apply orb_true_r.
Qed.

(** A comment is overwritten from its start to its end. *)
Lemma comment_step st en fuel body t :
  strstr (body ++ en ++ t) en = Some (en ++ t) ->
  remove_loop ("/"%c :: st) en (S fuel) ("/"%c :: st ++ body ++ en ++ t) false false =
  replicate (S (length st) + length body + length en) SPACE ++ remove_loop ("/"%c :: st) en fuel t false false.
Proof.
  intros Hf. cbn [remove_loop].
  assert (strncmp_eq (length ("/"%c :: st)) ("/"%c :: st ++ body ++ en ++ t) ("/"%c :: st) = true) as -> by exact (strncmp_prefix ("/"%c :: st) _).
  cbn [negb andb]. replace (drop (length ("/"%c :: st)) ("/"%c :: st ++ body ++ en ++ t)) with (body ++ en ++ t)
    by (symmetry; apply drop_app_length).
  rewrite Hf. change ((47 =? BACKSLASH) && true) with false. change ((47 =? QUOTE) && true) with false.
  cbv iota zeta. rewrite drop_app_length, (app_assoc (replicate (length _) _)), <-replicate_add. f_equal. f_equal. rewrite !length_app. cbn [length]. lia.
Qed.

Lemma leading_removed st en body t :
  en <> [] -> strstr (body ++ en ++ t) en = Some (en ++ t) ->
  transparent ("/"%c :: st) en t ->
  remove_comments ("/"%c :: st) en ("/"%c :: st ++ body ++ en ++ t) =
  replicate (S (length st) + length body + length en) SPACE ++ t.
Proof.
  intros Hen Hf Ht. unfold remove_comments.
  assert ((length en =? 0)%nat = false) as -> by (by destruct en).
  change (length ("/"%c :: st) =? 0)%nat with false. cbn [orb length]. rewrite comment_step by done. f_equal.
  pose proof (Ht (length (st ++ body ++ en ++ t)) []) as H. rewrite app_nil_r in H. rewrite H by (rewrite !length_app; lia).
  destruct (_ - _)%nat; simpl; by rewrite app_nil_r.
Qed.

(** The first pass goes over a line comment. *)
Lemma passes_line_start x : plain_char x -> x <> "*"%c -> transparent (b2l "/*") (b2l "*/") ["/"%c; "/"%c; x].
Proof.
  intros (H1 & H2 & H3) Hx [|[|[|fuel]]] rest Hf; [simpl in Hf; lia..|].
  change (b2l "/*") with [47; 42]. cbn [app remove_loop length strncmp_eq deref drop].
  rewrite !Nat.sub_succ, Nat.sub_0_r.
  destruct (Z.eqb_spec x BACKSLASH), (Z.eqb_spec x QUOTE), (Z.eqb_spec x 42), (Z.eqb_spec x 47); done.
Qed.

(** Comments are ignored.  The text of a well-formed value (compact or
    pretty, with integers below 2^53), preceded by a block comment of any
    contents or by a line comment without quotes, backslashes, slashes and
    asterisks, is parsed by [json_parse_string_with_comments] to the value,
    with nothing left over; what looks like a comment inside a string is left
    alone. *)
Theorem comments_ignored v is_pretty t :
  json_ok (S MAX_NESTING) v -> int_numbers (S MAX_NESTING) v ->
  json_serialize_to_buffer_r v 0 is_pretty = Some t -> Z.of_nat (length t) < 2 ^ 30 ->
  (forall c, strstr c (b2l "*/") = None -> exists v',
     json_parse_string_with_comments (b2l "/*" ++ c ++ b2l "*/" ++ t) = POk v' [] /\ tree_of v' = tree_of v) /\
  (forall d, Forall (fun c => plain_char c /\ c <> "*"%c /\ c <> NEWLINE) d -> exists v',
     json_parse_string_with_comments (b2l "//" ++ d ++ NEWLINE :: t) = POk v' [] /\ tree_of v' = tree_of v).
Proof.
  intros Hok Hint Ht Hl.
  assert (forall st en, transparent ("/"%c :: st) en t) as Htr
    by (intros st en; eapply serialized_transparent; [by eexists|done..]).
  assert (forall en k, transparent (b2l "//") en (replicate k SPACE ++ t)) as Htr2.
  { intros en k. apply transparent_app; [|apply Htr]. apply passes_plain; [by eexists|apply spaces_plain]. }
  unfold json_parse_string_with_comments. split.
  - intros c Hc. assert (remove_comments (b2l "/*") (b2l "*/") (b2l "/*" ++ c ++ b2l "*/" ++ t) = replicate (length c + 4) SPACE ++ t) as ->.
    { etransitivity; [apply (leading_removed ["*"%c] (b2l "*/") c t); [done|by apply strstr_block|apply Htr]|].
      f_equal. f_equal. simpl. lia. }
    rewrite (remove_transparent (b2l "//")) by (by eexists || apply Htr2). by apply (parse_after_blanks v is_pretty).
  - intros d Hd. rewrite (remove_transparent (b2l "/*")); [|by eexists|].
    + assert (remove_comments (b2l "//") [NEWLINE] (b2l "//" ++ d ++ NEWLINE :: t) = replicate (length d + 3) SPACE ++ t) as ->.
      { etransitivity; [apply (leading_removed ["/"%c] [NEWLINE] d t); [done| |apply Htr]|].
        - apply strstr_line. intros Hin. rewrite Forall_forall in Hd. by apply Hd in Hin as (_ & _ & ?).
        - f_equal. f_equal. simpl. lia. }
      by apply (parse_after_blanks v is_pretty).
    + assert (Forall (fun c => plain_char c /\ c <> "*"%c) (d ++ [NEWLINE])) as Hd'.
      { apply Forall_app. split; [|by repeat constructor]. eapply Forall_impl; [done|]. intros x. simpl. tauto. }
      replace (d ++ NEWLINE :: t) with ((d ++ [NEWLINE]) ++ t) by (by rewrite <-app_assoc).
      destruct (d ++ [NEWLINE]) as [|x l] eqn:El; [by destruct d|]. apply Forall_cons in Hd' as [[Hx1 Hx2] Hd'].
      apply (transparent_app _ _ [47; 47; x] (l ++ t)); [by apply passes_line_start|].
      apply transparent_app; [|apply Htr]. apply passes_plain; [by eexists|]. eapply Forall_impl; [done|]. intros y. simpl. tauto.
Qed.

(** Overwriting comments never moves or changes anything else: the text
    keeps its length, and each character is the original one or a blank. *)
Theorem remove_comments_blanks start_token end_token s :
  wf_cstr s -> wf_cstr start_token -> wf_cstr end_token ->
  Forall2 (fun c d => d = c \/ d = SPACE) s (remove_comments start_token end_token s).
Proof.
  intros Hs H1 H2. unfold remove_comments. destruct (_ || _); [apply blanked_refl|]. by apply remove_loop_blanked.
Qed.

(** A line comment that ends with the text is not ignored: without the newline
    only its start is overwritten. *)
Example last_line_comment :
  json_parse_string_with_comments (b2l "// 42") = POk (JSONNumber (of_int 42)) [] /\
  match json_parse_string_with_comments (b2l "// 42" ++ [NEWLINE] ++ b2l "7") with
  | POk v _ => v = JSONNumber (of_int 7)
  | _ => False
  end.
Proof. vm_compute. auto. Qed.

Lemma comments_ignored_witness :
  exists t v', json_serialize_to_buffer_r demo_value 0 true = Some t /\
    json_parse_string_with_comments (b2l "/*" ++ b2l " any // text " ++ b2l "*/" ++ t) = POk v' [] /\
    tree_of v' = tree_of demo_value.
Proof.
  destruct (json_serialize_to_buffer_r demo_value 0 true) as [t|] eqn:Et; [|vm_compute in Et; discriminate Et].
  destruct (comments_ignored demo_value true t) as [H _].
  - repeat constructor; unfold is_byte; lia.
  - repeat constructor. exists false, 8080. split; [lia|reflexivity].
  - exact Et.
  - vm_compute in Et. injection Et as <-. reflexivity.
  - destruct (H (b2l " any // text ") ltac:(vm_compute; reflexivity)) as (v' & Hv & Htree). exists t, v'. by split_and!.
Defined.

Lemma remove_comments_blanks_witness :
  Forall2 (fun c d => d = c \/ d = SPACE) (b2l "1 /* x */") (remove_comments (b2l "/*") (b2l "*/") (b2l "1 /* x */")).
Proof. apply remove_comments_blanks; repeat constructor; unfold is_char; lia. Defined.
