(* ===== verification/Api.v ===== *)
(** * The API socket (api.c)

    The requests add_hostfwd, list_hostfwd and remove_hostfwd and the socket
    around them, as programs over system calls and libslirp calls.  What
    [slirp_add_hostfwd] and [slirp_remove_hostfwd] answer is up to the
    environment. *)

From S2P Require Import Prelude Libc OS JsonObject Double Json.

Definition AF_UNIX : Z := 1.
Definition SOCK_STREAM : Z := 1.
Definition SHUT_RDWR : Z := 2.
Definition EXIT_FAILURE : Z := 1.

(** [sizeof(addr.sun_path)] *)
Definition SUN_PATH_SIZE : Z := 108.

Record api_hostfwd := Fwd {
  fwd_id : Z;
  is_udp : Z;
  host_addr : Z;
  host_port : Z;
  guest_addr : Z;
  guest_port : Z
}.

(** [ctx_addr] is the address of the structure itself and [buf] that of the
    buffer, whose contents do not outlive a request; of [cfg] the API uses
    [recommended_vguest]. *)
Record api_ctx := Ctx {
  ctx_addr : Z;
  buf : Z;
  buflen : Z;
  hostfwds : list api_hostfwd;
  hostfwds_nextid : Z;
  ctx_recommended_vguest : Z
}.

Definition with_hostfwds (ctx : api_ctx) (fwds : list api_hostfwd) (nextid : Z) : api_ctx :=
  Ctx (ctx_addr ctx) (buf ctx) (buflen ctx) fwds nextid (ctx_recommended_vguest ctx).

Section api.
Context `{E : Env} `{BO : ByteOrder}.

Definition api_bindlisten (api_socket : bytes) : M Z :=
  _ ← sys_ (Unlink api_socket);
  fd ← sys_ret (Socket AF_UNIX SOCK_STREAM 0);
  let cleanup_and_fail : M Z := _ ← sys_ (Close fd); mret (-1) in
  if fd <? 0 then cleanup_and_fail
  else if SUN_PATH_SIZE <=? strlen api_socket then cleanup_and_fail
  else
    rc ← sys_ret (Bind fd AF_UNIX api_socket);
    if rc <? 0 then cleanup_and_fail
    else
      rc ← sys_ret (Listen fd 0);
      if rc <? 0 then cleanup_and_fail else mret fd.

(** [malloc] answers 0 when it fails. *)
Definition api_ctx_alloc (recommended_vguest : Z) : M (option api_ctx) :=
  ctx ← sys_ret (Malloc 40);
  if ctx =? 0 then mret None
  else
    buf ← sys_ret (Malloc 4096);
    if buf =? 0 then _ ← sys_ (Free ctx); mret None
    else mret (Some (Ctx ctx buf 4096 [] 1 recommended_vguest)).

(** The entries [g_list_free_full] frees are given by their contents: the id,
    then the protocol, the host's address and port, the guest's address and
    port. *)
Definition fwd_contents (fwd : api_hostfwd) : Z * (Z * Z * Z * Z * Z) :=
  (fwd_id fwd, (is_udp fwd, host_addr fwd, host_port fwd, guest_addr fwd, guest_port fwd)).

Definition api_ctx_free (ctx : option api_ctx) : M unit :=
  match ctx with
  | None => mret tt
  | Some ctx =>
      _ ← (if buf ctx =? 0 then mret tt else sys_ (Free (buf ctx)));
      _ ← sys_ (GListFreeFull (map fwd_contents (hostfwds ctx)));
      sys_ (Free (ctx_addr ctx))
  end.

Definition write_ (fd : Z) (text : bytes) : M Z := sys_ret (Write fd text).

Definition bad_add (what : string) : bytes :=
  jtext "{'error':{'desc':'bad request: add_hostfwd: " ++ b2l what ++ jtext "'}}".

(** [strcmp] of NULL is undefined. *)
Definition api_handle_req_add_hostfwd (fd : Z) (ctx : api_ctx) (jo : json_object JSON_Value)
  : M (api_ctx * Z) :=
  proto ← lift_opt (json_object_dotget_string jo (b2l "arguments.proto"));
  host_addr_s ← lift_opt (json_object_dotget_string jo (b2l "arguments.host_addr"));
  guest_addr_s ← lift_opt (json_object_dotget_string jo (b2l "arguments.guest_addr"));
  proto_s ← lift_opt proto;
  let fail (err : bytes) : M (api_ctx * Z) := wrc ← write_ fd err; mret (ctx, wrc) in
  let is_udp :=
    if bool_decide (proto_s = b2l "udp") then 1
    else if bool_decide (proto_s = b2l "tcp") then 0 else -1 in
  if is_udp =? -1 then fail (bad_add "bad arguments.proto")
  else
    let host_addr_s :=
      match host_addr_s with Some (c :: s) => c :: s | _ => b2l "0.0.0.0" end in
    match inet_pton host_addr_s with
    | None => fail (bad_add "bad arguments.host_addr")
    | Some host_addr =>
        port ← lift_opt (json_object_dotget_number jo (b2l "arguments.host_port"));
        host_port ← lift_opt (cast_int port);
        if host_port =? 0 then fail (bad_add "bad arguments.host_port")
        else
          match (match guest_addr_s with
                 | Some (c :: s) => inet_pton (c :: s)
                 | _ => Some (ctx_recommended_vguest ctx)
                 end) with
          | None => fail (bad_add "bad arguments.guest_addr")
          | Some guest_addr =>
              port ← lift_opt (json_object_dotget_number jo (b2l "arguments.guest_port"));
              guest_port ← lift_opt (cast_int port);
              if guest_port =? 0 then fail (bad_add "bad arguments.guest_port")
              else
                rc ← sys_ret (SlirpAddHostfwd is_udp host_addr host_port guest_addr guest_port);
                if rc <? 0 then fail (bad_add "slirp_add_hostfwd failed")
                else
                  let id := hostfwds_nextid ctx in
                  (* hostfwds_nextid++ *)
                  if id =? INT_MAX then undefined
                  else
                    let fwd := Fwd id is_udp host_addr host_port guest_addr guest_port in
                    let ctx := with_hostfwds ctx (hostfwds ctx ++ [fwd]) (id + 1) in
                    let idbuf := jtext "{'return':{'id':" ++ dec_signed id ++ b2l "}}" in
                    if 64 <? Z.of_nat (length idbuf) then exit_ EXIT_FAILURE
                    else
                      wrc ← write_ fd (take 63 idbuf);
                      mret (ctx, wrc)
          end
    end.

(** The status of the [json_object_set_*] calls is ignored. *)
Definition set_ (r : result (json_object JSON_Value)) (o : json_object JSON_Value)
  : option (json_object JSON_Value) :=
  match r with Success o' => Some o' | Failure => Some o | Undef => None end.

Definition fwd_object (fwd : api_hostfwd) : option (json_object JSON_Value) :=
  let o := json_object_make in
  o ← set_ (json_object_set_number o (b2l "id") (of_int (fwd_id fwd))) o;
  o ← set_ (json_object_set_string o (b2l "proto") (if is_udp fwd =? 0 then b2l "tcp" else b2l "udp")) o;
  o ← set_ (json_object_set_string o (b2l "host_addr") (inet_ntop (host_addr fwd))) o;
  o ← set_ (json_object_set_number o (b2l "host_port") (of_int (host_port fwd))) o;
  o ← set_ (json_object_set_string o (b2l "guest_addr") (inet_ntop (guest_addr fwd))) o;
  o ← set_ (json_object_set_number o (b2l "guest_port") (of_int (guest_port fwd))) o;
  Some o.

(** [g_list_foreach] of the function below. *)
Fixpoint list_hostfwd_foreach (fwds : list api_hostfwd) (entries_array : json_array JSON_Value)
  : M (json_array JSON_Value) :=
  match fwds with
  | [] => mret entries_array
  | fwd :: fwds' =>
      o ← lift_opt (fwd_object fwd);
      match json_array_append_value entries_array (JSONObject o) with
      | None => exit_ EXIT_FAILURE
      | Some a => list_hostfwd_foreach fwds' a
      end
  end.

(** [strlen] of NULL is undefined. *)
Definition api_handle_req_list_hostfwd (fd : Z) (ctx : api_ctx) (jo : json_object JSON_Value)
  : M (api_ctx * Z) :=
  entries_array ← list_hostfwd_foreach (hostfwds ctx) json_array_make;
  root_object ← lift_opt
    (set_ (json_object_set_value json_object_make (b2l "entries") (JSONArray entries_array)) json_object_make);
  serialized_string ← lift_opt (json_serialize_to_string (JSONObject root_object));
  wrc ← write_ fd serialized_string;
  mret (ctx, wrc).

Definition bad_remove (what : string) : bytes :=
  jtext "{'error':{'desc':'bad request: remove_hostfwd: " ++ b2l what ++ jtext "'}}".

(** The comparison function of [g_list_find_custom], which finds the first
    entry with the id; that entry is removed. *)
Definition api_handle_remove_list_hostfwd_find (fwd : api_hostfwd) (id : Z) : Z :=
  if id =? fwd_id fwd then 0 else 1.

Lemma find_id fwd id : api_handle_remove_list_hostfwd_find fwd id = 0 <-> id = fwd_id fwd.
Proof. unfold api_handle_remove_list_hostfwd_find. destruct (Z.eqb_spec id (fwd_id fwd)); naive_solver. Qed.

Definition api_handle_req_remove_hostfwd (fd : Z) (ctx : api_ctx) (jo : json_object JSON_Value)
  : M (api_ctx * Z) :=
  x ← lift_opt (json_object_dotget_number jo (b2l "arguments.id"));
  id ← lift_opt (cast_int x);
  match list_find (fun fwd => api_handle_remove_list_hostfwd_find fwd id = 0) (hostfwds ctx) with
  | None => wrc ← write_ fd (bad_remove "bad arguments.id"); mret (ctx, wrc)
  | Some (i, fwd) =>
      rc ← sys_ret (SlirpRemoveHostfwd (is_udp fwd) (host_addr fwd) (host_port fwd));
      if rc <? 0 then
        wrc ← write_ fd (bad_remove "slirp_remove_hostfwd failed"); mret (ctx, wrc)
      else
        let ctx := with_hostfwds ctx (delete i (hostfwds ctx)) (hostfwds_nextid ctx) in
        wrc ← write_ fd (jtext "{'return':{}}"); mret (ctx, wrc)
  end.

(** [buf]: the NUL-terminated request. *)
Definition api_handle_req (fd : Z) (ctx : api_ctx) (buf : bytes) : M (api_ctx * Z) :=
  let fail (desc : string) : M (api_ctx * Z) :=
    wrc ← write_ fd (jtext "{'error':{'desc':'bad request: " ++ b2l desc ++ jtext "'}}"); mret (ctx, wrc) in
  match json_parse_string buf with
  | PUndef => undefined
  | PFuel => out_of_fuel
  | PNull => fail "cannot parse JSON"
  | POk jv _ =>
      match json_value_get_object (Some jv) with
      | None => fail "json_object() failed"
      | Some jo =>
          execute ← lift_opt (json_object_get_string jo (b2l "execute"));
          match execute with
          | None => fail "no execute found"
          | Some execute =>
              if bool_decide (execute = b2l "add_hostfwd") then api_handle_req_add_hostfwd fd ctx jo
              else if bool_decide (execute = b2l "list_hostfwd") then api_handle_req_list_hostfwd fd ctx jo
              else if bool_decide (execute = b2l "remove_hostfwd") then api_handle_req_remove_hostfwd fd ctx jo
              else fail "unknown execute"
          end
      end
  end.

(** The store of the terminator is undefined outside the buffer. *)
Definition api_handler (listenfd : Z) (ctx : api_ctx) : M (api_ctx * Z) :=
  fd ← sys_ret (Accept listenfd);
  if fd <? 0 then mret (ctx, -1)
  else
    let finish (ctx : api_ctx) (rc wrc : Z) : M (api_ctx * Z) :=
      _ ← sys_ (Shutdown fd SHUT_RDWR);
      let rc := if (rc =? 0) && negb (wrc =? 0) then wrc else rc in
      _ ← sys_ (Close fd);
      mret (ctx, rc) in
    a ← sys (Read fd (buflen ctx));
    let len := ret a in
    if len <? 0 then finish ctx len 0
    else if len =? buflen ctx then
      wrc ← write_ fd (jtext "{'error':{'desc':'bad request: too large message'}}");
      finish ctx (-1) wrc
    else if buflen ctx <? len then undefined
    else
      r ← api_handle_req fd ctx (cstr (take (Z.to_nat len) (out a)));
      finish r.1 0 r.2.
End api.

(** ** A session *)

Definition is_read (e : event) : bool := match e.1 with Read _ _ => true | _ => false end.

(** An environment for examples: the requests are read in order and libslirp
    accepts everything. *)
Definition session_env (requests : list bytes) : Env := fun h c =>
  match c with
  | Accept _ => Ans 7 0 [] []
  | Read _ _ =>
      let r := nth (length (List.filter is_read h)) requests [] in Ans (Z.of_nat (length r)) 0 r []
  | Write _ s => Ans (Z.of_nat (length s)) 0 [] []
  | _ => Ans 0 0 [] []
  end.

(** [n] requests, one after the other *)
Fixpoint serve `{Env} `{ByteOrder} (n : nat) (listenfd : Z) (ctx : api_ctx) : M api_ctx :=
  match n with
  | O => mret ctx
  | S n => r ← api_handler listenfd ctx; serve n listenfd r.1
  end.

Definition written (d : list event) : list bytes :=
  omap (fun e => match e.1 with Write _ s => Some s | _ => None end) d.

Definition session (requests : list string) : list bytes * outcome api_ctx :=
  let r := serve (H := session_env (map jtext requests)) (H0 := (true : ByteOrder))
             (length requests) 5 (Ctx 50 60 4096 [] 1 1677852682) [] in
  (written r.1, r.2).

Example session_demo :
  let '(replies, r) := session
    ["{'execute': 'add_hostfwd', 'arguments': {'proto': 'tcp', 'host_addr': '127.0.0.1', 'host_port': 8080, 'guest_port': 80}}";
     "{'execute': 'add_hostfwd', 'arguments': {'proto': 'udp', 'host_port': 53, 'guest_addr': '10.0.2.5', 'guest_port': 5353}}";
     "{'execute': 'list_hostfwd'}"; "{'execute': 'remove_hostfwd', 'arguments': {'id': 1}}";
     "{'execute': 'remove_hostfwd', 'arguments': {'id': 1}}"; "{'execute': 1}"; "[]"; "{"]%string in
  replies = map jtext
    ["{'return':{'id':1}}"; "{'return':{'id':2}}";
     "{'entries':[{'id':1,'proto':'tcp','host_addr':'127.0.0.1','host_port':8080,'guest_addr':'10.0.2.100','guest_port':80},{'id':2,'proto':'udp','host_addr':'0.0.0.0','host_port':53,'guest_addr':'10.0.2.5','guest_port':5353}]}";
     "{'return':{}}"; "{'error':{'desc':'bad request: remove_hostfwd: bad arguments.id'}}";
     "{'error':{'desc':'bad request: no execute found'}}"; "{'error':{'desc':'bad request: json_object() failed'}}";
     "{'error':{'desc':'bad request: cannot parse JSON'}}"]%string /\
  match r with Done ctx => map fwd_id (hostfwds ctx) = [2] /\ hostfwds_nextid ctx = 3 | _ => False end.
Proof. vm_compute. auto. Qed.
