(* ===== verification/ApiTheory.v ===== *)
(** * The API socket: theorems

    The forwarding table behind the API: its invariant, its agreement with
    what libslirp was told, the replies, and which requests are hazardous. *)

From Stdlib Require Import Sorted.
From S2P Require Import Prelude Libc OS JsonObject Double Json JsonTheory JsonRoundtrip Api.

(** ** Reading the request *)

Lemma strchr_app a b : "."%c ∉ a -> strchr (a ++ "."%c :: b) "."%c = Some ("."%c :: b).
Proof.
  induction a as [|x a IH]; simpl; [done|]. intros [Hx Ha]%not_elem_of_cons.
  destruct (Z.eqb_spec x 46); [congruence|auto].
Qed.

Lemma strchr_none a : "."%c ∉ a -> strchr a "."%c = None.
Proof.
  induction a as [|x a IH]; simpl; [done|]. intros [Hx Ha]%not_elem_of_cons.
  destruct (Z.eqb_spec x 46); [congruence|auto].
Qed.

(** The meaning of [json_object_dotget_value] on a name with one dot. *)
Definition dotted_value (o : json_object JSON_Value) (a b : bytes) : option JSON_Value :=
  match assoc a (entries o) with
  | Some (JSONObject o') => assoc b (entries o')
  | _ => None
  end.

Lemma assoc_elem {V} (k : bytes) (l : list (bytes * V)) v : assoc k l = Some v -> (k, v) ∈ l.
Proof.
  induction l as [|[k' v'] l IH]; simpl; [done|]. case_bool_decide as Hk.
  - intros [= ->]. subst. by left.
  - intros. right. auto.
Qed.

Lemma obj_ok_child n o k v : obj_ok n o -> assoc k (entries o) = Some v -> json_ok n v.
Proof.
  intros [Hinv Hv] Ha. apply assoc_elem in Ha. rewrite (values_entries o (inv_table o Hinv)) in Hv.
  rewrite Forall_forall in Hv. apply Hv. apply list_elem_of_fmap. by exists (k, v).
Qed.

Lemma dotget_value_spec n o a b :
  obj_ok n o -> wf_cstr a -> wf_cstr b -> "."%c ∉ a -> "."%c ∉ b ->
  json_object_dotget_value o (a ++ "."%c :: b) = Some (dotted_value o a b).
Proof.
  intros Ho Ha Hb Hda Hdb. unfold json_object_dotget_value.
  assert (exists f, length (a ++ "."%c :: b) = S f) as [f ->].
  { rewrite length_app. simpl. exists (length a + length b)%nat. lia. }
  cbn [dotget_value]. rewrite strchr_app by done.
  assert (Z.of_nat (length (a ++ "."%c :: b)) - Z.of_nat (length ("."%c :: b)) = Z.of_nat (length a)) as Hlen
    by (rewrite length_app; lia).
  rewrite Hlen, getn_value_spec.
  - rewrite Nat2Z.id, take_app_length. cbn [mbind option_bind drop]. rewrite ?drop_0. unfold dotted_value.
    destruct (assoc a (entries o)) as [v|] eqn:Ev.
    + pose proof (obj_ok_child n o a v Ho Ev) as Hv.
      destruct v as [| | |o'| |]; cbn [json_value_get_object]; try (destruct f; cbn [dotget_value]; by rewrite strchr_none).
      inversion Hv as [| | | | |n' o'' Hinv' Hvals]; subst.
      assert (json_object_get_value o' b = Some (assoc b (entries o'))) as Hg.
      { unfold json_object_get_value. rewrite getn_value_spec by (done || apply strlen_range).
        by rewrite take_strlen. }
      destruct f; cbn [dotget_value]; by rewrite strchr_none.
    + cbn [json_value_get_object]. destruct f; cbn [dotget_value]; by rewrite strchr_none.
  - apply Ho.
  - apply Forall_app. split; [done|]. constructor; [by unfold is_char|done].
  - unfold strlen. rewrite length_app. lia.
Qed.

Definition argument (jo : json_object JSON_Value) (name : string) : option JSON_Value :=
  dotted_value jo (b2l "arguments") (b2l name).

(** Decidable checks of the names used. *)
Definition plain_name (name : string) : bool :=
  forallb (fun c => (0 <? c) && (c <? 256) && negb (c =? "."%c)) (b2l name).

Lemma plain_name_spec name : plain_name name = true -> wf_cstr (b2l name) /\ "."%c ∉ b2l name.
Proof.
  unfold plain_name. rewrite forallb_forall. intros H. split.
  - apply Forall_forall. intros c Hc%list_elem_of_In. apply H in Hc. unfold is_char. lia.
  - intros Hc%list_elem_of_In. apply H in Hc. lia.
Qed.

Lemma dotget_argument n jo name full :
  obj_ok n jo -> plain_name name = true -> b2l full = b2l "arguments" ++ "."%c :: b2l name ->
  json_object_dotget_value jo (b2l full) = Some (argument jo name).
Proof.
  intros Ho Hp ->. destruct (plain_name_spec name Hp) as [Hw Hd].
  destruct (plain_name_spec "arguments") as [Hwa Hda]; [by vm_compute|].
  by eapply dotget_value_spec.
Qed.

Lemma dotget_string_argument n jo name full :
  obj_ok n jo -> plain_name name = true -> b2l full = b2l "arguments" ++ "."%c :: b2l name ->
  json_object_dotget_string jo (b2l full) = Some (json_value_get_string (argument jo name)).
Proof.
  intros. unfold json_object_dotget_string. by erewrite dotget_argument.
Qed.

Lemma dotget_number_argument n jo name full :
  obj_ok n jo -> plain_name name = true -> b2l full = b2l "arguments" ++ "."%c :: b2l name ->
  json_object_dotget_number jo (b2l full) = Some (json_value_get_number (argument jo name)).
Proof.
  intros. unfold json_object_dotget_number. by erewrite dotget_argument.
Qed.

Lemma get_execute n jo :
  obj_ok n jo ->
  json_object_get_string jo (b2l "execute") =
  Some (json_value_get_string (assoc (b2l "execute") (entries jo))).
Proof.
  intros [Hinv _]. destruct (plain_name_spec "execute") as [Hw _]; [by vm_compute|].
  unfold json_object_get_string, json_object_get_value.
  rewrite getn_value_spec by (done || apply strlen_range). by rewrite take_strlen.
Qed.

(** ** The forwarding table *)

Definition fwd_ok (fwd : api_hostfwd) : Prop :=
  (is_udp fwd = 0 \/ is_udp fwd = 1) /\ host_port fwd <> 0 /\ guest_port fwd <> 0 /\
  in_i32 (host_port fwd) /\ in_i32 (guest_port fwd) /\
  in_u32 (host_addr fwd) /\ in_u32 (guest_addr fwd).

(** Ids are handed out in increasing order and never reused. *)
Record api_inv (ctx : api_ctx) : Prop := {
  inv_buflen : buflen ctx = 4096;
  inv_nextid : 1 <= hostfwds_nextid ctx <= INT_MAX;
  inv_ids : Forall (fun fwd => 1 <= fwd_id fwd < hostfwds_nextid ctx) (hostfwds ctx);
  inv_sorted : StronglySorted Z.lt (map fwd_id (hostfwds ctx));
  inv_fwds : Forall fwd_ok (hostfwds ctx);
  inv_vguest : in_u32 (ctx_recommended_vguest ctx)
}.

(** What libslirp was told, read off the history: the forwards added and not
    removed since. *)
Definition forward : Type := Z * Z * Z * Z * Z.
Definition fkey (f : forward) : Z * Z * Z := f.1.1.

Fixpoint remove_key (k : Z * Z * Z) (l : list forward) : list forward :=
  match l with
  | [] => []
  | f :: l' => if bool_decide (fkey f = k) then l' else f :: remove_key k l'
  end.

Definition live_step (l : list forward) (e : event) : list forward :=
  match e.1 with
  | SlirpAddHostfwd u a p ga gp => if 0 <=? ret e.2 then l ++ [(u, a, p, ga, gp)] else l
  | SlirpRemoveHostfwd u a p => if 0 <=? ret e.2 then remove_key (u, a, p) l else l
  | _ => l
  end.

Definition live (h : history) : list forward := foldl live_step [] h.

Lemma live_app h d : live (h ++ d) = foldl live_step (live h) d.
Proof. apply foldl_app. Qed.

Definition fwd_tuple (fwd : api_hostfwd) : forward :=
  (is_udp fwd, host_addr fwd, host_port fwd, guest_addr fwd, guest_port fwd).

(** The table lists what libslirp forwards. *)
Definition agrees (h : history) (ctx : api_ctx) : Prop :=
  live h = map fwd_tuple (hostfwds ctx) /\ NoDup (map fkey (live h)).

(** libslirp refuses a forward whose protocol, address and port are already
    forwarded (the port is in use). *)
Definition slirp_exclusive (E : Env) : Prop := forall h u a p ga gp,
  (u, a, p) ∈ map fkey (live h) -> ret (env h (SlirpAddHostfwd u a p ga gp)) < 0.

(** The additions libslirp accepted. *)
Definition accepted_add (e : event) : bool :=
  match e.1 with SlirpAddHostfwd _ _ _ _ _ => 0 <=? ret e.2 | _ => false end.

Definition accepted (d : list event) : Z := Z.of_nat (length (List.filter accepted_add d)).

Lemma accepted_app d1 d2 : accepted (d1 ++ d2) = accepted d1 + accepted d2.
Proof. unfold accepted. rewrite List.filter_app, length_app. lia. Qed.

Lemma accepted_cons e d : accepted (e :: d) = (if accepted_add e then 1 else 0) + accepted d.
Proof. unfold accepted. simpl. destruct (accepted_add e); simpl; lia. Qed.

Lemma accepted_none d : Forall (fun e => accepted_add e = false) d -> accepted d = 0.
Proof. unfold accepted. induction 1 as [|e d He _ IH]; [done|]. simpl. by rewrite He. Qed.

Lemma refused_not_accepted u x p gx gp a n : ret a < 0 -> n + accepted [(SlirpAddHostfwd u x p gx gp, a)] = n.
Proof. intros H. rewrite accepted_cons. unfold accepted, accepted_add. simpl. destruct (Z.leb_spec 0 (ret a)); lia. Qed.

Lemma accepted_one u x p gx gp a n : 0 <= ret a -> n + accepted [(SlirpAddHostfwd u x p gx gp, a)] = n + 1.
Proof. intros H. rewrite accepted_cons. unfold accepted, accepted_add. simpl. destruct (Z.leb_spec 0 (ret a)); lia. Qed.

(** *** The checks of add_hostfwd *)

Definition arg_string (jo : json_object JSON_Value) (name : string) : option bytes :=
  json_value_get_string (argument jo name).
Definition arg_int (jo : json_object JSON_Value) (name : string) : option Z :=
  cast_int (json_value_get_number (argument jo name)).

(** An address that is missing or empty is the default. *)
Definition arg_addr `{ByteOrder} (jo : json_object JSON_Value) (name : string) (default : Z) : option Z :=
  match arg_string jo name with
  | Some (c :: s) => inet_pton (c :: s)
  | _ => Some default
  end.

(** The checks in their order, with the message of each; a check is [None]
    when making it is undefined behaviour: [strcmp] of a "proto" that is missing
    or not a string, the cast of a port that does not fit [int]. *)
Definition port_check (jo : json_object JSON_Value) (name : string) : option bool :=
  (fun port => negb (port =? 0)) <$> arg_int jo name.

Definition add_checks `{ByteOrder} (jo : json_object JSON_Value) : list (string * option bool) :=
  [("bad arguments.proto",
    (fun p => bool_decide (p = b2l "tcp" \/ p = b2l "udp")) <$> arg_string jo "proto");
   ("bad arguments.host_addr", Some (bool_decide (is_Some (arg_addr jo "host_addr" 0))));
   ("bad arguments.host_port", port_check jo "host_port");
   ("bad arguments.guest_addr",
    Some (bool_decide (is_Some (arg_addr jo "guest_addr" 0))));
   ("bad arguments.guest_port", port_check jo "guest_port")]%string.

(** The first check that is not passed. *)
Definition first_bad (checks : list (string * option bool)) : option (string * option bool) :=
  List.find (fun c => negb (bool_decide (c.2 = Some true))) checks.

(** Requests on which the behaviour of the code is undefined: a check that is
    reached is undefined, or all are passed and there is no id left (the next
    one is [nextid]); for remove_hostfwd an id that does not fit [int]. *)
Definition hazardous_add `{ByteOrder} (nextid : Z) (jo : json_object JSON_Value) : Prop :=
  (exists what, first_bad (add_checks jo) = Some (what, None)) \/
  (first_bad (add_checks jo) = None /\ nextid = INT_MAX).

Definition hazardous_remove (jo : json_object JSON_Value) : Prop :=
  cast_int (json_value_get_number (argument jo "id")) = None.

(** What a request handler does to the table, whatever it answers. *)
Definition req_post (h : history) (ctx : api_ctx) (hazard : Prop) (d : list event)
    (o : outcome (api_ctx * Z)) : Prop :=
  match o with
  | Done (ctx', _) =>
      api_inv ctx' /\ (agrees h ctx -> agrees (h ++ d) ctx') /\
      hostfwds_nextid ctx' = hostfwds_nextid ctx + accepted d
  | Undefined => hazard
  | Exited _ | OutOfFuel => False
  end.

Lemma cast_int_range x n : cast_int x = Some n -> in_i32 n.
Proof.
  unfold cast_int, in_i32, INT_MAX. destruct x as [neg m e| |]; try done.
  case_match eqn:E; [|done]. intros [= <-]. lia.
Qed.

(** A reply does not touch the table. *)
Lemma wp_reply `{E : Env} fd text ctx h h0 ctx0 hazard d0 :
  req_post h0 ctx0 hazard d0 (Done (ctx, 0)) -> h = h0 ++ d0 ->
  wp (wrc ← write_ fd text; mret (ctx, wrc)) h (fun d o => req_post h0 ctx0 hazard (d0 ++ d) o).
Proof.
  intros (Hinv & Hag & Hid) ->. unfold write_. apply wp_bind_sys_ret. intros a Ha. apply wp_ret.
  split_and!; [done| |rewrite accepted_app, Hid; unfold accepted; simpl; lia]. intros H. specialize (Hag H). unfold agrees in *.
  rewrite app_assoc, live_app. exact Hag.
Qed.

Lemma wp_reply_same `{E : Env} fd text ctx h hazard :
  api_inv ctx ->
  wp (wrc ← write_ fd text; mret (ctx, wrc)) h (req_post h ctx hazard).
Proof.
  intros Hinv. apply (wp_reply fd text ctx h h ctx hazard []); [|by rewrite app_nil_r].
  split_and!; [done| |unfold accepted; simpl; lia]. by rewrite app_nil_r.
Qed.

Lemma sorted_snoc (l : list Z) x : StronglySorted Z.lt l -> Forall (fun y => y < x) l -> StronglySorted Z.lt (l ++ [x]).
Proof.
  induction 1 as [|y l Hs IH Hy]; simpl; [repeat constructor|]. intros [Hx Hl]%Forall_cons.
  constructor; [auto|]. apply Forall_app. split; [done|by constructor].
Qed.

Lemma api_inv_add ctx fwd :
  api_inv ctx -> fwd_ok fwd -> fwd_id fwd = hostfwds_nextid ctx -> hostfwds_nextid ctx <> INT_MAX ->
  api_inv (with_hostfwds ctx (hostfwds ctx ++ [fwd]) (hostfwds_nextid ctx + 1)).
Proof.
  intros [H1 H2 H3 H4 H5 H6] Hf Hid Hn. split; simpl; [done|lia| | | |done].
  - apply Forall_app. split; [|constructor; [lia|constructor]].
    eapply Forall_impl; [exact H3|]. simpl. lia.
  - rewrite map_app. simpl. apply sorted_snoc; [done|].
    apply Forall_map. eapply Forall_impl; [exact H3|]. simpl. intros. lia.
  - apply Forall_app. split; [done|by constructor].
Qed.

Lemma dec_signed_length n : 0 < n <= INT_MAX -> (length (dec_signed n) <= 10)%nat.
Proof.
  intros Hn. unfold dec_signed, INT_MAX in *. destruct (Z.ltb_spec n 0); [lia|].
  pose proof (length_dec_le n 10 ltac:(lia) ltac:(lia)). lia.
Qed.

Lemma idbuf_length ctx :
  api_inv ctx ->
  (length (jtext "{'return':{'id':" ++ dec_signed (hostfwds_nextid ctx) ++ b2l "}}") <= 28)%nat.
Proof.
  intros Hinv. pose proof (inv_nextid ctx Hinv). pose proof (dec_signed_length (hostfwds_nextid ctx) ltac:(lia)).
  rewrite !length_app. simpl. change (length (b2l "}}")) with 2%nat.
  change (length (jtext "{'return':{'id':")) with 16%nat. lia.
Qed.

(** Reading an argument of the request. *)
Ltac wp_string name Ho :=
  eapply wp_bind_opt; [apply (dotget_string_argument _ _ name _ Ho); by vm_compute|].
Ltac wp_number name Ho :=
  eapply wp_bind_opt; [apply (dotget_number_argument _ _ name _ Ho); by vm_compute|].

Section handlers.
Context `{E : Env} `{BO : ByteOrder}.
Hypothesis Hexcl : slirp_exclusive E.

Lemma agrees_add h ctx fwd a nextid :
  let c := SlirpAddHostfwd (is_udp fwd) (host_addr fwd) (host_port fwd) (guest_addr fwd) (guest_port fwd) in
  env h c = a -> 0 <= ret a -> agrees h ctx ->
  agrees (h ++ [(c, a)]) (with_hostfwds ctx (hostfwds ctx ++ [fwd]) nextid).
Proof.
  intros c Ha Hret [Hl Hnd]. unfold agrees. rewrite live_app. simpl. unfold live_step. simpl.
  destruct (Z.leb_spec 0 (ret a)); [|lia]. rewrite Hl, map_app. split; [done|].
  rewrite map_app. apply NoDup_app. split_and!; [by rewrite <-Hl| |apply NoDup_singleton].
  intros k Hk Hin. simpl in Hin. apply list_elem_of_singleton in Hin as ->. rewrite <-Hl in Hk.
  pose proof (Hexcl h _ _ _ (guest_addr fwd) (guest_port fwd) Hk) as Hlt. simpl in Hlt. fold c in Hlt.
  rewrite Ha in Hlt. lia.
Qed.

Lemma undefined_hazard h h0 ctx hazard d :
  hazard -> wp (A := api_ctx * Z) undefined h (fun d' o => req_post h0 ctx hazard (d ++ d') o).
Proof. intros H. by apply wp_undefined. Qed.

Lemma add_hostfwd_table fd ctx jo n h :
  obj_ok n jo -> api_inv ctx ->
  wp (api_handle_req_add_hostfwd fd ctx jo) h (req_post h ctx True).
Proof.
  intros Ho Hinv. unfold api_handle_req_add_hostfwd.
  wp_string "proto" Ho. wp_string "host_addr" Ho. wp_string "guest_addr" Ho.
  destruct (json_value_get_string (argument jo "proto")) as [proto_s|] eqn:Ep.
  2:{ apply wp_bind. cbn [lift_opt]. done. }
  eapply wp_bind_opt; [done|]. cbv zeta.
  set (u := if bool_decide (proto_s = b2l "udp") then 1 else _).
  destruct (Z.eqb_spec u (-1)) as [|Hu]; [by apply wp_reply_same|].
  assert (u = 0 \/ u = 1) as Hu01 by (unfold u in *; repeat case_bool_decide; auto; done).
  clearbody u.
  destruct (inet_pton _) as [ha|] eqn:Eha; [|by apply wp_reply_same].
  wp_number "host_port" Ho.
  destruct (cast_int (json_value_get_number (argument jo "host_port"))) as [hp|] eqn:Ehp.
  2:{ apply wp_bind. cbn [lift_opt]. done. }
  eapply wp_bind_opt; [done|].
  destruct (Z.eqb_spec hp 0) as [|Hhp]; [by apply wp_reply_same|].
  destruct (match json_value_get_string (argument jo "guest_addr") with
            | Some (c :: s) => inet_pton (c :: s) | _ => _ end) as [ga|] eqn:Ega; [|by apply wp_reply_same].
  wp_number "guest_port" Ho.
  destruct (cast_int (json_value_get_number (argument jo "guest_port"))) as [gp|] eqn:Egp.
  2:{ apply wp_bind. cbn [lift_opt]. done. }
  eapply wp_bind_opt; [done|].
  destruct (Z.eqb_spec gp 0) as [|Hgp]; [by apply wp_reply_same|].
  set (fwd := Fwd (hostfwds_nextid ctx) u ha hp ga gp).
  assert (fwd_ok fwd) as Hfwd.
  { split_and!; simpl; try done; try by eapply cast_int_range.
    - by eapply inet_pton_range.
    - repeat case_match; try by eapply inet_pton_range. all: simplify_eq; apply Hinv. }
  apply wp_bind_sys_ret. intros a Ha.
  destruct (Z.ltb_spec (ret a) 0) as [Hneg|Hret].
  { apply (wp_reply fd _ ctx _ h ctx _ [(_, a)]); [|done]. split_and!; [done| |by rewrite refused_not_accepted].
    unfold agrees. rewrite live_app. simpl. unfold live_step. simpl.
    by destruct (Z.leb_spec 0 (ret a)); [lia|]. }
  destruct (Z.eqb_spec (hostfwds_nextid ctx) INT_MAX) as [Hmax|Hmax].
  { by apply wp_undefined. }
  pose proof (idbuf_length ctx Hinv) as Hlen.
  destruct (Z.ltb_spec 64 (Z.of_nat (length (jtext "{'return':{'id':" ++
    dec_signed (hostfwds_nextid ctx) ++ b2l "}}")))) as [|_]; [lia|].
  apply (wp_reply fd _ _ _ h ctx _ [(_, a)]); [|done].
  split_and!; cbn [hostfwds_nextid with_hostfwds]; [by apply (api_inv_add ctx fwd)| |by rewrite accepted_one].
  by apply (agrees_add h ctx fwd).
Qed.
End handlers.

(** ** Removing a forward *)

Lemma remove_key_delete l i f :
  NoDup (map fkey l) -> l !! i = Some f -> remove_key (fkey f) l = delete i l.
Proof.
  revert i. induction l as [|g l IH]; intros i Hnd Hi; [done|]. apply NoDup_cons in Hnd as [Hg Hnd].
  destruct i as [|i]; simpl in *.
  - injection Hi as ->. by rewrite bool_decide_true.
  - rewrite bool_decide_false; [by rewrite (IH i)|]. intros Heq. apply Hg. rewrite Heq.
    apply list_elem_of_fmap. exists f. split; [done|]. by eapply list_elem_of_lookup_2.
Qed.

Lemma map_delete {A B} (f : A -> B) l i : map f (delete i l) = delete i (map f l).
Proof. revert i. induction l as [|x l IH]; intros [|i]; simpl; [done..|]. f_equal. apply IH. Qed.

Lemma Forall_delete {A} (P : A -> Prop) l i : Forall P l -> Forall P (delete i l).
Proof. intros H. revert i. induction H; intros [|i]; simpl; try constructor; auto. Qed.

Lemma sorted_delete (l : list Z) i : StronglySorted Z.lt l -> StronglySorted Z.lt (delete i l).
Proof.
  intros H. revert i. induction H as [|x l Hs IH Hx]; intros [|i]; simpl; try constructor; auto.
  by apply Forall_delete.
Qed.

Lemma NoDup_delete {A} (l : list A) i : NoDup l -> NoDup (delete i l).
Proof.
  intros H. revert i. induction H as [|x l Hx Hnd IH]; intros [|i]; simpl; try constructor; auto.
  intros Hin. apply Hx. rewrite list_elem_of_lookup in Hin |- *. destruct Hin as [j Hj].
  destruct (decide (j < i)%nat).
  - rewrite list_lookup_delete_lt in Hj by done. by exists j.
  - rewrite list_lookup_delete_ge in Hj by lia. by exists (S j).
Qed.

Lemma api_inv_remove ctx i :
  api_inv ctx ->
  api_inv (with_hostfwds ctx (delete i (hostfwds ctx)) (hostfwds_nextid ctx)).
Proof.
  intros [H1 H2 H3 H4 H5 H6]. split; simpl; try done; [by apply Forall_delete| |by apply Forall_delete].
  rewrite map_delete. by apply sorted_delete.
Qed.

Lemma agrees_remove `{E : Env} h ctx i fwd a nextid :
  let c := SlirpRemoveHostfwd (is_udp fwd) (host_addr fwd) (host_port fwd) in
  0 <= ret a -> hostfwds ctx !! i = Some fwd -> agrees h ctx ->
  agrees (h ++ [(c, a)]) (with_hostfwds ctx (delete i (hostfwds ctx)) nextid).
Proof.
  intros c Hret Hi [Hl Hnd]. unfold agrees. rewrite live_app. simpl. unfold live_step. simpl.
  destruct (Z.leb_spec 0 (ret a)); [|lia].
  assert (live h !! i = Some (fwd_tuple fwd)) as Hli.
  { rewrite Hl. change (map fwd_tuple) with (fmap (M := list) fwd_tuple). by rewrite list_lookup_fmap, Hi. }
  change (is_udp fwd, host_addr fwd, host_port fwd) with (fkey (fwd_tuple fwd)).
  rewrite (remove_key_delete (live h) i (fwd_tuple fwd) Hnd Hli).
  split; [by rewrite Hl, map_delete|]. rewrite map_delete. by apply NoDup_delete.
Qed.

Lemma remove_hostfwd_post `{E : Env} fd ctx jo n h :
  obj_ok n jo -> api_inv ctx ->
  wp (api_handle_req_remove_hostfwd fd ctx jo) h (req_post h ctx (hazardous_remove jo)).
Proof.
  intros Ho Hinv. unfold api_handle_req_remove_hostfwd. wp_number "id" Ho.
  destruct (cast_int (json_value_get_number (argument jo "id"))) as [id|] eqn:Eid.
  2:{ apply wp_bind. exact Eid. }
  eapply wp_bind_opt; [done|].
  destruct (list_find _ (hostfwds ctx)) as [[i fwd]|] eqn:Ef; [|by apply wp_reply_same].
  apply list_find_Some in Ef as (Hi & _ & _).
  apply wp_bind_sys_ret. intros a Ha. destruct (Z.ltb_spec (ret a) 0) as [Hneg|Hret].
  - apply (wp_reply fd _ ctx _ h ctx _ [(_, a)]); [|done]. split_and!; [done| |unfold accepted; simpl; lia].
    unfold agrees. rewrite live_app. simpl. unfold live_step. simpl.
    by destruct (Z.leb_spec 0 (ret a)); [lia|].
  - apply (wp_reply fd _ _ _ h ctx _ [(_, a)]); [|done].
    split_and!; simpl; [by apply api_inv_remove| |unfold accepted; simpl; lia]. by apply agrees_remove.
Qed.

(** ** Listing the forwards *)

Lemma ascii_sequence c r : 0 < c < 128 -> verify_utf8_sequence (c :: r) = Some 1.
Proof.
  intros Hc. unfold verify_utf8_sequence. rewrite ?drop_0. cbn [deref].
  assert (num_bytes_in_utf8_sequence c = 1) as ->.
  { apply Z.eqb_eq. apply (check_range (fun c => num_bytes_in_utf8_sequence c =? 1) 0 128); [|lia].
    vm_compute. reflexivity. }
  cbn. destruct (Z.ltb_spec c 128); [|lia]. destruct (Z.ltb_spec c 2048); [|lia].
  destruct (Z.ltb_spec c 65536); [|lia]. cbn.
  destruct (Z.ltb_spec 1114111 c); [lia|]. by destruct (Z.leb_spec 55296 c); [lia|].
Qed.

Lemma ascii_valid s : Forall (fun c => 0 < c < 128) s -> json_value_init_string s = Some (JSONString s).
Proof.
  intros Hs. unfold json_value_init_string, json_value_init_string_with_len, is_valid_utf8, strlen.
  rewrite Nat2Z.id.
  assert (valid_utf8_loop (length s) s (Z.of_nat (length s)) = true) as ->.
  { induction Hs as [|c s Hc _ IH]; [done|]. cbn [length valid_utf8_loop].
    destruct (Z.leb_spec (Z.of_nat (S (length s))) 0); [lia|]. rewrite ascii_sequence by done.
    change (Z.to_nat 1) with 1%nat. cbn [drop]. rewrite ?drop_0.
    replace (Z.of_nat (S (length s)) - 1) with (Z.of_nat (length s)) by lia. exact IH. }
  by rewrite take_ge.
Qed.

Lemma dec_ascii n : 0 <= n -> Forall (fun c => 0 < c < 128) (dec n).
Proof.
  intros Hn. pose proof (dec_digits n Hn) as Hd. unfold digits in Hd. rewrite forallb_forall in Hd.
  apply Forall_forall. intros c Hc%list_elem_of_In. apply Hd, isdigit_range in Hc. lia.
Qed.

Lemma inet_ntop_ascii `{BO : ByteOrder} a : Forall (fun c => 0 < c < 128) (inet_ntop a).
Proof.
  assert (forall k h, Forall (fun c => 0 < c < 128) (dec (octet k h))) as Ho.
  { intros k h. apply dec_ascii. unfold octet. apply Z.mod_pos_bound. lia. }
  unfold inet_ntop. cbv zeta.
  repeat first [apply Forall_app; split | apply Ho | constructor; [lia|]].
Qed.

(** Setting an entry of an object under construction. *)
Lemma set_entry n o name v :
  obj_ok n o -> wf_cstr name -> count o < 2 ^ 30 -> json_ok n v ->
  exists o', set_ (json_object_set_opt o name (Some v)) o = Some o' /\ obj_ok n o' /\
    entries o' = assoc_set name v (entries o) /\ count o' <= count o + 1.
Proof.
  intros [Hinv Hvals] Hw Hc Hv. cbn [json_object_set_opt].
  destruct (set_value_spec o name v Hinv Hw Hc) as (o' & -> & Hinv' & He & Hc').
  exists o'. split_and!; [done| |done|done]. split; [done|].
  rewrite (values_entries o' (inv_table o' Hinv')), He.
  rewrite (values_entries o (inv_table o Hinv)) in Hvals. clear -Hvals Hv.
  induction (entries o) as [|[k w] l IH]; simpl in *; [by constructor|].
  apply Forall_cons in Hvals as [Hw Hl]. case_bool_decide; simpl; constructor; auto.
Qed.

Definition fwd_entries `{ByteOrder} (fwd : api_hostfwd) : list (bytes * JSON_Value) :=
  [(b2l "id", JSONNumber (of_int (fwd_id fwd)));
   (b2l "proto", JSONString (if is_udp fwd =? 0 then b2l "tcp" else b2l "udp"));
   (b2l "host_addr", JSONString (inet_ntop (host_addr fwd)));
   (b2l "host_port", JSONNumber (of_int (host_port fwd)));
   (b2l "guest_addr", JSONString (inet_ntop (guest_addr fwd)));
   (b2l "guest_port", JSONNumber (of_int (guest_port fwd)))].

Lemma of_int_number z : in_i32 z -> int_number (of_int z).
Proof. intros Hz. unfold in_i32 in Hz. exists (z <? 0), (Z.abs z). split; [lia|done]. Qed.

Lemma init_of_int z : in_i32 z -> json_value_init_number (of_int z) = Some (JSONNumber (of_int z)).
Proof.
  intros (neg & n & Hn & ->)%of_int_number. unfold json_value_init_number.
  by rewrite round_double_finite.
Qed.

Lemma json_ok_of_int n z : in_i32 z -> json_ok (S n) (JSONNumber (of_int z)).
Proof.
  intros (neg & m & Hm & ->)%of_int_number. pose proof (round_double_finite neg m Hm) as H.
  apply orb_false_iff in H as [? ?]. by constructor.
Qed.

Lemma json_ok_ascii n s : Forall (fun c => 0 < c < 128) s -> json_ok (S n) (JSONString s).
Proof.
  intros Hs. constructor. eapply Forall_impl; [exact Hs|]. unfold is_byte. simpl. lia.
Qed.

Lemma plain_wf name : plain_name name = true -> wf_cstr (b2l name).
Proof. apply plain_name_spec. Qed.

Lemma plain_ascii s : forallb (fun c => (0 <? c) && (c <? 128)) s = true -> Forall (fun c => 0 < c < 128) s.
Proof.
  rewrite forallb_forall. intros H. apply Forall_forall. intros c Hc%list_elem_of_In.
  apply H in Hc. lia.
Qed.

Lemma fwd_object_spec `{BO : ByteOrder} fwd :
  fwd_ok fwd -> in_i32 (fwd_id fwd) ->
  exists o, fwd_object fwd = Some o /\ obj_ok 1 o /\ entries o = fwd_entries fwd.
Proof.
  intros (_ & _ & _ & Hhp & Hgp & _) Hid. unfold fwd_object. cbv zeta.
  unfold json_object_set_number, json_object_set_string.
  pose proof (plain_ascii (b2l "tcp") eq_refl) as Htcp. pose proof (plain_ascii (b2l "udp") eq_refl) as Hudp.
  assert (Forall (fun c => 0 < c < 128) (if is_udp fwd =? 0 then b2l "tcp" else b2l "udp")) as Hp by by case_match.
  rewrite !init_of_int, !ascii_valid by first [done | apply inet_ntop_ascii].
  assert (obj_ok 1 json_object_make) as H0 by (split; [apply json_object_make_inv|constructor]).
  set (o0 := json_object_make) in *.
  assert (count o0 = 0) as C0 by done. assert (entries o0 = []) as E0 by done. clearbody o0.
  destruct (set_entry 1 o0 (b2l "id") _ H0 (plain_wf "id" eq_refl) ltac:(lia) (json_ok_of_int 0 _ Hid))
    as (o1 & -> & H1 & E1 & C1). cbn [mbind option_bind].
  destruct (set_entry 1 o1 (b2l "proto") _ H1 (plain_wf "proto" eq_refl) ltac:(lia) (json_ok_ascii 0 _ Hp))
    as (o2 & -> & H2 & E2 & C2). cbn [mbind option_bind].
  destruct (set_entry 1 o2 (b2l "host_addr") _ H2 (plain_wf "host_addr" eq_refl) ltac:(lia)
    (json_ok_ascii 0 _ (inet_ntop_ascii (host_addr fwd)))) as (o3 & -> & H3 & E3 & C3). cbn [mbind option_bind].
  destruct (set_entry 1 o3 (b2l "host_port") _ H3 (plain_wf "host_port" eq_refl) ltac:(lia)
    (json_ok_of_int 0 _ Hhp)) as (o4 & -> & H4 & E4 & C4). cbn [mbind option_bind].
  destruct (set_entry 1 o4 (b2l "guest_addr") _ H4 (plain_wf "guest_addr" eq_refl) ltac:(lia)
    (json_ok_ascii 0 _ (inet_ntop_ascii (guest_addr fwd)))) as (o5 & -> & H5 & E5 & C5). cbn [mbind option_bind].
  destruct (set_entry 1 o5 (b2l "guest_port") _ H5 (plain_wf "guest_port" eq_refl) ltac:(lia)
    (json_ok_of_int 0 _ Hgp)) as (o6 & -> & H6 & E6 & C6). cbn [mbind option_bind].
  exists o6. split_and!; [done|done|]. rewrite E6, E5, E4, E3, E2, E1, E0. reflexivity.
Qed.

Lemma int_numbers_mono n m v : (n <= m)%nat -> int_numbers n v -> int_numbers m v.
Proof.
  revert m v. induction n as [|n IH]; intros m v Hle Hok; [inversion Hok|].
  destruct m as [|m]; [lia|]. inversion Hok; subst; constructor; try done.
  all: eapply Forall_impl; [eassumption|]; intros; apply IH; [lia|done].
Qed.

Lemma foreach_spec `{BO : ByteOrder} fwds a :
  Forall fwd_ok fwds -> Forall (fun fwd => in_i32 (fwd_id fwd)) fwds ->
  exists os c,
    (forall h, list_hostfwd_foreach fwds a h = ([], Done (Arr (items a ++ map JSONObject os) c))) /\
    Forall2 (fun fwd o => obj_ok 1 o /\ entries o = fwd_entries fwd) fwds os.
Proof.
  intros Hok. revert a. induction Hok as [|fwd fwds Hf _ IH]; intros a Hid.
  - exists [], (arr_capacity a). split; [|constructor]. intros h. simpl. rewrite app_nil_r. by destruct a.
  - apply Forall_cons in Hid as [Hi Hid]. destruct (fwd_object_spec fwd Hf Hi) as (o & Hfo & Hoo & Heo).
    destruct (json_array_add_spec a (JSONObject o)) as [c1 Hadd].
    destruct (IH (Arr (items a ++ [JSONObject o]) c1) Hid) as (os & c & Hrun & HF).
    exists (o :: os), c. split; [|by constructor].
    intros h. cbn [list_hostfwd_foreach]. rewrite Hfo. cbn [lift_opt].
    unfold mbind, M_bind, mret, M_ret. unfold json_array_append_value. rewrite Hadd, app_nil_r, Hrun.
    cbn [items]. by rewrite <-app_assoc.
Qed.

(** The tree of one entry of the reply. *)
Definition fwd_tree `{ByteOrder} (fwd : api_hostfwd) : tree :=
  TObject (map (fun e => (e.1, tree_of e.2)) (fwd_entries fwd)).

Lemma fwd_objects_ok `{BO : ByteOrder} fwds os :
  Forall fwd_ok fwds -> Forall (fun fwd => in_i32 (fwd_id fwd)) fwds ->
  Forall2 (fun fwd o => obj_ok 1 o /\ entries o = fwd_entries fwd) fwds os ->
  Forall (json_ok 2) (map JSONObject os) /\ Forall (int_numbers 2) (map JSONObject os) /\
  map tree_of (map JSONObject os) = map fwd_tree fwds.
Proof.
  intros Hok Hid HF. induction HF as [|fwd o fwds os [[Hinv Hv] He] HF IH]; [done|].
  apply Forall_cons in Hok as [Hf Hok], Hid as [Hi Hid]. destruct (IH Hok Hid) as (H1 & H2 & H3).
  destruct Hf as (_ & _ & _ & Hhp & Hgp & _).
  cbn [map]. split_and!.
  - constructor; [by constructor|done].
  - constructor; [|done]. constructor. rewrite (values_entries o (inv_table o Hinv)), He. cbn [fwd_entries map snd].
    repeat constructor; by apply of_int_number.
  - rewrite H3, tree_of_object, He. done.
Qed.

Section list_handler.
Context `{E : Env} `{BO : ByteOrder}.

(** The reply to list_hostfwd. *)
Lemma list_hostfwd_reply fd ctx jo h :
  api_inv ctx ->
  wp (api_handle_req_list_hostfwd fd ctx jo) h (fun d o => exists text v a,
    d = [(Write fd text, a)] /\ o = Done (ctx, ret a) /\
    json_serialize_to_buffer_r v 0 false = Some text /\
    json_ok 4 v /\ int_numbers 4 v /\
    tree_of v = TObject [(b2l "entries", TArray (map fwd_tree (hostfwds ctx)))]).
Proof.
  intros Hinv. assert (Forall (fun fwd => in_i32 (fwd_id fwd)) (hostfwds ctx)) as Hid.
  { eapply Forall_impl; [apply (inv_ids ctx Hinv)|]. pose proof (inv_nextid ctx Hinv) as Hn.
    unfold in_i32, INT_MAX in *. simpl. lia. }
  destruct (foreach_spec (hostfwds ctx) json_array_make (inv_fwds ctx Hinv) Hid) as (os & c & Hrun & HF).
  destruct (fwd_objects_ok _ _ (inv_fwds ctx Hinv) Hid HF) as (Hok & Hint & Htree).
  cbn [items json_array_make app] in Hrun. set (arr := Arr (map JSONObject os) c) in *.
  destruct (set_entry 3 json_object_make (b2l "entries") (JSONArray arr)) as (root & Hset & [Hri Hrv] & He & _).
  { split; [apply json_object_make_inv|constructor]. } { by apply plain_wf. } { done. } { by constructor. }
  cbn [json_object_set_opt] in Hset.
  assert (json_ok 4 (JSONObject root)) as Hroot by by constructor.
  destruct (serialize_total 4 (JSONObject root) 0 false Hroot) as [text Ht].
  assert (json_serialize_to_string (JSONObject root) = Some text) as Hs.
  { unfold json_serialize_to_string, json_serialize_to_buffer, json_serialization_size. rewrite Ht.
    destruct (Z.eqb_spec (Z.of_nat (length text) + 1) 0); [lia|].
    by destruct (Z.ltb_spec (Z.of_nat (length text) + 1) (Z.of_nat (length text) + 1)); [lia|]. }
  unfold api_handle_req_list_hostfwd. apply wp_bind. unfold wp. rewrite Hrun. cbn [fst snd bind_post].
  eapply wp_bind_opt; [exact Hset|]. eapply wp_bind_opt; [exact Hs|].
  unfold write_. apply wp_bind_sys_ret. intros a Ha. apply wp_ret.
  exists text, (JSONObject root), a. split_and!; [done|done|exact Ht|exact Hroot| |].
  - constructor. rewrite (values_entries root (inv_table root Hri)), He. cbn.
    constructor; [|constructor]. by constructor.
  - rewrite tree_of_object, He.
    change (assoc_set (b2l "entries") (JSONArray arr) (entries json_object_make))
      with [(b2l "entries", JSONArray arr)]. cbn [map fst snd]. rewrite tree_of_array. unfold arr. cbn [items].
    by rewrite Htree.
Qed.

Lemma list_hostfwd_post fd ctx jo h hazard :
  api_inv ctx ->
  wp (api_handle_req_list_hostfwd fd ctx jo) h (req_post h ctx hazard).
Proof.
  intros Hinv. eapply wp_mono; [by apply list_hostfwd_reply|].
  intros d o (text & v & a & -> & -> & _). split_and!; [done| |unfold accepted; simpl; lia]. intros [Hl Hn]. unfold agrees.
  rewrite live_app. by split.
Qed.
End list_handler.

(** ** The verdict on an add_hostfwd request *)

Section verdict.
Context `{E : Env} `{BO : ByteOrder}.

Lemma inet_pton_any : inet_pton (b2l "0.0.0.0") = Some 0.
Proof. unfold inet_pton. destruct BO; reflexivity. Qed.

(** The forward a request that passes the checks asks for. *)
Definition requested (ctx : api_ctx) (jo : json_object JSON_Value) : api_hostfwd :=
  Fwd (hostfwds_nextid ctx) (if bool_decide (arg_string jo "proto" = Some (b2l "udp")) then 1 else 0)
    (default 0 (arg_addr jo "host_addr" 0)) (default 0 (arg_int jo "host_port"))
    (default 0 (arg_addr jo "guest_addr" (ctx_recommended_vguest ctx))) (default 0 (arg_int jo "guest_port")).

Definition add_call (fwd : api_hostfwd) : call :=
  SlirpAddHostfwd (is_udp fwd) (host_addr fwd) (host_port fwd) (guest_addr fwd) (guest_port fwd).
Definition remove_call (fwd : api_hostfwd) : call :=
  SlirpRemoveHostfwd (is_udp fwd) (host_addr fwd) (host_port fwd).

(** The outcome of a request that is answered with [text] and leaves [ctx']:
    the calls [cs] are made before the reply. *)
Definition answered (fd : Z) (cs : list call) (text : bytes) (ctx' : api_ctx) (d : list event)
    (o : outcome (api_ctx * Z)) : Prop :=
  exists a, calls_of d = cs ++ [Write fd text] /\ last d = Some (Write fd text, a) /\ o = Done (ctx', ret a).

Lemma wp_answered fd text ctx' h cs d0 (Q : list event -> outcome (api_ctx * Z) -> Prop) :
  calls_of d0 = cs -> (forall d o, answered fd cs text ctx' (d0 ++ d) o -> Q d o) ->
  wp (wrc ← write_ fd text; mret (ctx', wrc)) h Q.
Proof.
  intros Hc HQ. apply wp_bind_sys_ret. intros a Ha. apply wp_ret. apply HQ. exists a.
  rewrite <-Hc. unfold calls_of. rewrite map_app. by rewrite last_snoc.
Qed.

(** What [add_hostfwd] does with a request that passes the checks: libslirp
    is asked, and its answer decides.  With no id left the increment of the
    counter overflows. *)
Definition asked (fd : Z) (ctx : api_ctx) (fwd : api_hostfwd) (h : history) (d : list event)
    (o : outcome (api_ctx * Z)) : Prop :=
  let a := env h (add_call fwd) in
  if ret a <? 0 then answered fd [add_call fwd] (bad_add "slirp_add_hostfwd failed") ctx d o
  else if hostfwds_nextid ctx =? INT_MAX then d = [(add_call fwd, a)] /\ o = Undefined
  else answered fd [add_call fwd]
         (jtext "{'return':{'id':" ++ dec_signed (fwd_id fwd) ++ b2l "}}")
         (with_hostfwds ctx (hostfwds ctx ++ [fwd]) (hostfwds_nextid ctx + 1)) d o.

Lemma add_hostfwd_ask fd ctx fwd h :
  api_inv ctx -> fwd_id fwd = hostfwds_nextid ctx ->
  wp (rc ← sys_ret (add_call fwd);
      if rc <? 0 then wrc ← write_ fd (bad_add "slirp_add_hostfwd failed"); mret (ctx, wrc)
      else
        let id := hostfwds_nextid ctx in
        if id =? INT_MAX then undefined
        else
          let ctx := with_hostfwds ctx (hostfwds ctx ++ [fwd]) (id + 1) in
          let idbuf := jtext "{'return':{'id':" ++ dec_signed id ++ b2l "}}" in
          if 64 <? Z.of_nat (length idbuf) then exit_ EXIT_FAILURE
          else wrc ← write_ fd (take 63 idbuf); mret (ctx, wrc)) h (asked fd ctx fwd h).
Proof.
  intros Hinv Hid. apply wp_bind_sys_ret. intros a Ha. unfold asked. rewrite Ha. cbv zeta. destruct (ret a <? 0).
  { by apply (wp_answered _ _ _ _ [add_call fwd] [(add_call fwd, a)]). }
  destruct (hostfwds_nextid ctx =? INT_MAX); [by apply wp_undefined|].
  pose proof (idbuf_length ctx Hinv) as Hlen.
  destruct (Z.ltb_spec 64 (Z.of_nat (length (jtext "{'return':{'id':" ++
    dec_signed (hostfwds_nextid ctx) ++ b2l "}}")))) as [|_]; [lia|].
  rewrite take_ge by lia. rewrite Hid. by apply (wp_answered _ _ _ _ [add_call fwd] [(add_call fwd, a)]).
Qed.

(** The verdict on a request. *)
Definition add_post (fd : Z) (ctx : api_ctx) (jo : json_object JSON_Value) (h : history) (d : list event)
    (o : outcome (api_ctx * Z)) : Prop :=
  match first_bad (add_checks jo) with
  | Some (_, None) => d = [] /\ o = Undefined
  | Some (what, Some _) => answered fd [] (bad_add what) ctx d o
  | None => asked fd ctx (requested ctx jo) h d o
  end.

Lemma guest_addr_default jo d :
  bool_decide (is_Some (arg_addr jo "guest_addr" d)) = bool_decide (is_Some (arg_addr jo "guest_addr" 0)).
Proof. unfold arg_addr. by destruct (arg_string jo "guest_addr") as [[|c s]|]. Qed.

(** One check at a time. *)
Lemma first_bad_pass what l : first_bad ((what, Some true) :: l) = first_bad l.
Proof. done. Qed.
Lemma first_bad_fail what l : first_bad ((what, Some false) :: l) = Some (what, Some false).
Proof. done. Qed.
Lemma first_bad_undefined what l : first_bad ((what, None) :: l) = Some (what, None).
Proof. done. Qed.

Lemma port_check_value jo name port : arg_int jo name = Some port -> port_check jo name = Some (negb (port =? 0)).
Proof. unfold port_check. by intros ->. Qed.

Lemma add_hostfwd_run fd ctx jo n h :
  obj_ok n jo -> api_inv ctx -> wp (api_handle_req_add_hostfwd fd ctx jo) h (add_post fd ctx jo h).
Proof.
  intros Ho Hinv. unfold api_handle_req_add_hostfwd.
  wp_string "proto" Ho. wp_string "host_addr" Ho. wp_string "guest_addr" Ho.
  unfold add_post, add_checks, requested. fold (arg_string jo "proto").
  destruct (arg_string jo "proto") as [proto_s|]; cbn [fmap option_fmap option_map].
  2:{ apply wp_bind. rewrite first_bad_undefined. done. }
  eapply wp_bind_opt; [done|]. cbv zeta.
  fold (arg_string jo "host_addr") (arg_string jo "guest_addr").
  assert (inet_pton match arg_string jo "host_addr" with
                    | Some (c :: s) => c :: s | _ => b2l "0.0.0.0" end = arg_addr jo "host_addr" 0) as ->.
  { unfold arg_addr. destruct (arg_string jo "host_addr") as [[|c s]|]; first [apply inet_pton_any | reflexivity]. }
  fold (arg_addr jo "guest_addr" (ctx_recommended_vguest ctx)).
  destruct (decide (proto_s = b2l "tcp" \/ proto_s = b2l "udp")) as [Hproto|Hproto].
  2:{ rewrite (bool_decide_false (proto_s = b2l "udp")), (bool_decide_false (proto_s = b2l "tcp")) by tauto.
      rewrite bool_decide_false, first_bad_fail by done. by apply (wp_answered _ _ _ _ [] []). }
  rewrite (bool_decide_true (proto_s = _ \/ _)), first_bad_pass by done.
  set (u := if bool_decide (Some proto_s = Some (b2l "udp")) then 1 else 0).
  assert ((if bool_decide (proto_s = b2l "udp") then 1
           else if bool_decide (proto_s = b2l "tcp") then 0 else -1) = u) as ->.
  { unfold u. destruct Hproto as [-> | ->]; reflexivity. }
  assert (u <> -1) as Hu by (unfold u; by case_bool_decide). clearbody u.
  destruct (Z.eqb_spec u (-1)) as [|_]; [done|].
  destruct (arg_addr jo "host_addr" 0) as [ha|].
  2:{ rewrite bool_decide_false, first_bad_fail by (by intros [? ?]). by apply (wp_answered _ _ _ _ [] []). }
  rewrite (bool_decide_true (is_Some (Some ha))), first_bad_pass by done.
  wp_number "host_port" Ho. fold (arg_int jo "host_port").
  destruct (arg_int jo "host_port") as [hp|] eqn:Ehp.
  2:{ apply wp_bind. unfold port_check. rewrite Ehp. rewrite first_bad_undefined. done. }
  rewrite (port_check_value _ _ _ Ehp). eapply wp_bind_opt; [done|].
  destruct (hp =? 0); cbn [negb]; [rewrite first_bad_fail; by apply (wp_answered _ _ _ _ [] [])|rewrite first_bad_pass].
  rewrite <-(guest_addr_default jo (ctx_recommended_vguest ctx)).
  destruct (arg_addr jo "guest_addr" (ctx_recommended_vguest ctx)) as [ga|].
  2:{ rewrite bool_decide_false, first_bad_fail by (by intros [? ?]). by apply (wp_answered _ _ _ _ [] []). }
  rewrite (bool_decide_true (is_Some (Some ga))), first_bad_pass by done.
  wp_number "guest_port" Ho. fold (arg_int jo "guest_port").
  destruct (arg_int jo "guest_port") as [gp|] eqn:Egp.
  2:{ apply wp_bind. unfold port_check. rewrite Egp. rewrite first_bad_undefined. done. }
  rewrite (port_check_value _ _ _ Egp). eapply wp_bind_opt; [done|].
  destruct (gp =? 0); cbn [negb]; [rewrite first_bad_fail; by apply (wp_answered _ _ _ _ [] [])|rewrite first_bad_pass].
  by apply (add_hostfwd_ask fd ctx (Fwd (hostfwds_nextid ctx) u ha hp ga gp)).
Qed.
End verdict.

Lemma add_hostfwd_post `{E : Env} `{BO : ByteOrder} fd ctx jo n h :
  slirp_exclusive E -> obj_ok n jo -> api_inv ctx ->
  wp (api_handle_req_add_hostfwd fd ctx jo) h (req_post h ctx (hazardous_add (hostfwds_nextid ctx) jo)).
Proof.
  intros Hexcl Ho Hinv. pose proof (add_hostfwd_table Hexcl fd ctx jo n h Ho Hinv) as H1.
  pose proof (add_hostfwd_run fd ctx jo n h Ho Hinv) as H2. unfold wp, add_post, asked in *.
  destruct (api_handle_req_add_hostfwd fd ctx jo h) as [d [[ctx' rc]|s| |]]; cbn [fst snd req_post] in *; try done.
  unfold hazardous_add. destruct (first_bad (add_checks jo)) as [[what [b|]]|]; [|eauto|].
  - by destruct H2 as (a & _ & _ & ?).
  - right. split; [done|]. cbv zeta in H2. destruct (_ <? 0); [by destruct H2 as (a & _ & _ & ?)|].
    destruct (Z.eqb_spec (hostfwds_nextid ctx) INT_MAX); [done|]. by destruct H2 as (a & _ & _ & ?).
Qed.

(** ** A request *)

Definition executes (jo : json_object JSON_Value) (what : string) : Prop :=
  json_value_get_string (assoc (b2l "execute") (entries jo)) = Some (b2l what).

(** The request is a hazard: see [hazardous_add] and [hazardous_remove]. *)
Definition hazardous `{ByteOrder} (nextid : Z) (buf : bytes) : Prop :=
  exists jo rest, json_parse_string buf = POk (JSONObject jo) rest /\
  (executes jo "add_hostfwd" /\ hazardous_add nextid jo \/
   executes jo "remove_hostfwd" /\ hazardous_remove jo).

(** The events of a trace that are no new connections and no reads. *)
Definition serving (e : event) : Prop := match e.1 with Accept _ | Read _ _ => False | _ => True end.

(** The trace ends in a request whose behaviour is undefined: it is the last
    connection accepted on [listenfd], its text is what was read from it, and
    the id counter, [nextid] at the start, is the one the additions accepted
    before that connection give. *)
Definition hazard_read `{ByteOrder} (nextid listenfd : Z) (d : list event) : Prop :=
  exists d1 c a d2,
    d = d1 ++ (Accept listenfd, c) :: (Read (ret c) 4096, a) :: d2 /\ 0 <= ret c /\ Forall serving d2 /\
    hazardous (nextid + accepted d1) (cstr (take (Z.to_nat (ret a)) (out a))).

Lemma hazard_read_app `{ByteOrder} nextid fd d0 d :
  hazard_read (nextid + accepted d0) fd d -> hazard_read nextid fd (d0 ++ d).
Proof.
  intros (d1 & c & a & d2 & -> & Hc & Hd2 & Hz). exists (d0 ++ d1), c, a, d2.
  split_and!; [by rewrite <-app_assoc|done|done|]. by rewrite accepted_app, Z.add_assoc.
Qed.

(** What [read] answers: at most as many bytes as asked for. *)
Definition read_ok (E : Env) : Prop := forall h fd n,
  let a := env h (Read fd n) in
  ret a <= n /\ (0 <= ret a -> Z.of_nat (length (out a)) = ret a) /\ Forall is_byte (out a).

Lemma req_post_weaken h ctx (P Q : Prop) d o : (P -> Q) -> req_post h ctx P d o -> req_post h ctx Q d o.
Proof. intros H. destruct o as [[]| | |]; simpl; auto. Qed.

Section request.
Context `{E : Env} `{BO : ByteOrder}.
Hypothesis Hexcl : slirp_exclusive E.

Lemma api_handle_req_post fd ctx buf h :
  api_inv ctx -> wf_cstr buf -> Z.of_nat (length buf) < 2 ^ 30 ->
  wp (api_handle_req fd ctx buf) h (req_post h ctx (hazardous (hostfwds_nextid ctx) buf)).
Proof.
  intros Hinv Hwf Hl. unfold api_handle_req. pose proof (parse_string_fine buf Hwf Hl) as Hp.
  destruct (json_parse_string buf) as [jv rest| | |] eqn:Ep; simpl in Hp; try done.
  2:{ by apply wp_reply_same. }
  destruct Hp as [Hok _].
  destruct jv as [| | |jo| |]; cbn [json_value_get_object]; try by apply wp_reply_same.
  inversion Hok as [| | | | |n o Hi Hv]; subst. assert (obj_ok MAX_NESTING jo) as Ho by done.
  eapply wp_bind_opt; [by eapply get_execute|].
  destruct (json_value_get_string (assoc (b2l "execute") (entries jo))) as [x|] eqn:Ex; [|by apply wp_reply_same].
  case_bool_decide; [subst x|case_bool_decide; [|case_bool_decide; [subst x|by apply wp_reply_same]]].
  - eapply wp_mono; [by eapply (add_hostfwd_post _ _ _ _ _ Hexcl)|]. intros d o'. apply req_post_weaken.
    intros Hz. exists jo, rest. split; [done|]. by left.
  - by apply list_hostfwd_post.
  - eapply wp_mono; [by eapply remove_hostfwd_post|]. intros d o'. apply req_post_weaken.
    intros Hz. exists jo, rest. split; [done|]. by right.
Qed.

Lemma foreach_serving fwds arr : emits serving (list_hostfwd_foreach fwds arr).
Proof. revert arr. induction fwds as [|f fwds IH]; intros arr; cbn [list_hostfwd_foreach]; repeat emits_step; auto. Qed.

Lemma api_handle_req_serving fd ctx buf : emits serving (api_handle_req fd ctx buf).
Proof.
  unfold api_handle_req, api_handle_req_add_hostfwd, api_handle_req_list_hostfwd, api_handle_req_remove_hostfwd, write_.
  repeat first [emits_step | apply foreach_serving]; done.
Qed.

Lemma wf_cstr_cstr s : Forall is_byte s -> wf_cstr (cstr s) /\ (length (cstr s) <= length s)%nat.
Proof.
  induction 1 as [|c s Hc _ [IH1 IH2]]; simpl; [by split; [constructor|]|].
  destruct (Z.eqb_spec c 0); [by split; [constructor|simpl; lia]|]. unfold is_byte in Hc.
  split; [constructor; [unfold is_char; lia|done]|simpl; lia].
Qed.

(** The end of [api_handler]: the connection is shut down and closed. *)
Lemma wp_finish fd ctx0 ctx rc h h0 d0 hazard :
  h = h0 ++ d0 -> req_post h0 ctx0 hazard d0 (Done (ctx, 0)) ->
  wp (_ ← sys_ (Shutdown fd SHUT_RDWR); _ ← sys_ (Close fd); mret (ctx, rc)) h
    (fun d o => req_post h0 ctx0 hazard (d0 ++ d) o /\
       exists a b, d = [(Shutdown fd SHUT_RDWR, a); (Close fd, b)]).
Proof.
  intros -> (Hi & Ha & Hn). wp_step. wp_step. wp_step. split; [|by eexists _, _].
  split_and!; [done| |rewrite accepted_app, Hn; unfold accepted; simpl; lia].
  intros H. destruct (Ha H) as [Hl Hnd]. unfold agrees.
  rewrite app_assoc, live_app. by split.
Qed.
End request.

Section api_theorems.
Context `{E : Env} `{BO : ByteOrder}.
Hypothesis Hread : read_ok E.
Hypothesis Hexcl : slirp_exclusive E.

(** The connection accepted is closed at the end; without one nothing else
    happens. *)
Definition connection_closed (listenfd : Z) (d : list event) : Prop :=
  (exists a, d = [(Accept listenfd, a)] /\ ret a < 0) \/
  (exists a mid b c, 0 <= ret a /\
     d = (Accept listenfd, a) :: mid ++ [(Shutdown (ret a) SHUT_RDWR, b); (Close (ret a), c)]).

Definition handler_post (listenfd : Z) (h : history) (ctx : api_ctx) (d : list event)
    (o : outcome (api_ctx * Z)) : Prop :=
  match o with
  | Done (ctx', _) =>
      api_inv ctx' /\ (agrees h ctx -> agrees (h ++ d) ctx') /\
      hostfwds_nextid ctx' = hostfwds_nextid ctx + accepted d /\ connection_closed listenfd d
  | Undefined => hazard_read (hostfwds_nextid ctx) listenfd d
  | Exited _ | OutOfFuel => False
  end.

Lemma agrees_quiet h e ctx :
  match e.1 with SlirpAddHostfwd _ _ _ _ _ | SlirpRemoveHostfwd _ _ _ => False | _ => True end ->
  agrees h ctx -> agrees (h ++ [e]) ctx.
Proof.
  intros He [Hl Hn]. unfold agrees. rewrite live_app. simpl. unfold live_step.
  destruct e as [[] a]; simpl in *; done.
Qed.

Lemma handler_done listenfd h ctx hazard a d0 d o :
  req_post h ctx hazard ((Accept listenfd, a) :: d0 ++ d) o ->
  (exists b c, d = [(Shutdown (ret a) SHUT_RDWR, b); (Close (ret a), c)]) ->
  0 <= ret a -> match o with Done _ => True | _ => False end ->
  handler_post listenfd h ctx ((Accept listenfd, a) :: d0 ++ d) o.
Proof.
  intros Hp (b & c & ->) Ha Ho. destruct o as [[ctx' rc]| | |]; try done.
  destruct Hp as (H1 & H2 & H3). split_and!; try done. right. exists a, d0, b, c. by split.
Qed.

(** The end of the handler, after the events [d0]. *)
Lemma wp_leave listenfd ctx ctx' rc a d0 h hh :
  0 <= ret a -> hh = h ++ (Accept listenfd, a) :: d0 ->
  req_post h ctx False ((Accept listenfd, a) :: d0) (Done (ctx', 0)) ->
  wp (_ ← sys_ (Shutdown (ret a) SHUT_RDWR); _ ← sys_ (Close (ret a)); mret (ctx', rc)) hh
    (fun d o => handler_post listenfd h ctx ((Accept listenfd, a) :: d0 ++ d) o).
Proof.
  intros Hfd -> Hp. eapply wp_mono; [by apply (wp_finish (ret a) ctx ctx' rc _ h ((Accept listenfd, a) :: d0) False)|].
  intros d o [Hq Hd]. apply (handler_done listenfd h ctx False a d0 d o Hq Hd Hfd). by destruct o as [[]| | |].
Qed.

(** Events that are no calls for forwards. *)
Lemma req_post_quiet h ctx d :
  api_inv ctx ->
  Forall (fun e : event => match e.1 with SlirpAddHostfwd _ _ _ _ _ | SlirpRemoveHostfwd _ _ _ => False | _ => True end) d ->
  req_post h ctx False d (Done (ctx, 0)).
Proof.
  intros Hinv Hd. split_and!; [done| |].
  2:{ rewrite accepted_none; [lia|]. eapply Forall_impl; [exact Hd|]. by intros [[] a]. }
  revert h. induction Hd as [|e d He _ IH]; intros h Hag.
  - by rewrite app_nil_r.
  - change (e :: d) with ([e] ++ d). rewrite app_assoc. apply IH. by apply agrees_quiet.
Qed.

Lemma api_handler_wp listenfd ctx h :
  api_inv ctx -> wp (api_handler listenfd ctx) h (handler_post listenfd h ctx).
Proof.
  intros Hinv. unfold api_handler. apply wp_bind_sys_ret. intros a Ha.
  destruct (Z.ltb_spec (ret a) 0) as [Hneg|Hfd].
  { apply wp_ret. split_and!; [done|by apply agrees_quiet|unfold accepted; simpl; lia|]. left. by exists a. }
  apply wp_bind_sys. intros r Hr. destruct (Hread (h ++ [(Accept listenfd, a)]) (ret a) (buflen ctx)) as (R1 & R2 & R3).
  rewrite Hr in R1, R2, R3. cbv zeta.
  set (e1 := (Accept listenfd, a)) in *. set (e2 := (Read (ret a) (buflen ctx), r)) in *.
  destruct (Z.ltb_spec (ret r) 0).
  { apply (wp_leave listenfd ctx ctx _ a [e2] h); [done|by rewrite <-app_assoc|]. apply req_post_quiet; [done|]. by repeat constructor. }
  destruct (Z.eqb_spec (ret r) (buflen ctx)) as [|Hlen].
  { set (text := jtext "{'error':{'desc':'bad request: too large message'}}").
    apply wp_bind_sys_ret. intros w Hw. cbn [andb]. set (e3 := (Write (ret a) text, w)).
    apply (wp_leave listenfd ctx ctx (-1) a [e2; e3] h); [done|by rewrite <-!app_assoc|].
    apply req_post_quiet; [done|]. by repeat constructor. }
  destruct (Z.ltb_spec (buflen ctx) (ret r)); [lia|].
  set (buf := cstr (take (Z.to_nat (ret r)) (out r))).
  destruct (wf_cstr_cstr (take (Z.to_nat (ret r)) (out r))) as [Hwf Hbl]; [by apply Forall_take|].
  rewrite length_take in Hbl. rewrite (inv_buflen ctx Hinv) in *.
  apply wp_bind. eapply wp_mono.
  { apply (wp_emits serving); [apply api_handle_req_serving|].
    apply (api_handle_req_post Hexcl (ret a) ctx buf); [done|exact Hwf|].
    change (2 ^ 30) with 1073741824. unfold buf. lia. }
  intros d o [Hs Hp]. destruct o as [[ctx' wrc]|s| |]; cbn [bind_post fst snd]; try done.
  - destruct Hp as (P1 & P2 & P3).
    apply (wp_leave listenfd ctx ctx' _ a (e2 :: d) h); [done|by rewrite <-!app_assoc|].
    split_and!; [done| |by rewrite !accepted_cons, P3].
    intros Hag. fold e1. replace (h ++ e1 :: e2 :: d) with (((h ++ [e1]) ++ [e2]) ++ d) by (by rewrite <-!app_assoc).
    apply P2. apply agrees_quiet; [done|]. by apply agrees_quiet.
  - exists [], a, r, d. unfold accepted. rewrite Z.add_0_r. split_and!; [|done|exact Hs|exact Hp].
    unfold e1, e2. by rewrite (inv_buflen ctx Hinv).
Qed.

(** C1: the forwarding table.  For every request and every answer of libslirp
    and of the kernel: the handler returns with the table invariant (ids
    strictly increasing and below the next id, never reused, ports non-zero,
    protocol udp or tcp), and if the table listed exactly the forwards libslirp
    has, it still does; the next id grows by one for each addition libslirp
    accepted; the connection is shut down and closed.  The behaviour is
    undefined only when the request just read is hazardous, and the handler
    never exits nor runs out of fuel. *)
Theorem api_table_refines_libslirp listenfd ctx h :
  api_inv ctx ->
  handler_post listenfd h ctx (api_handler listenfd ctx h).1 (api_handler listenfd ctx h).2.
Proof. apply api_handler_wp. Qed.

(** C21: list_hostfwd answers with one message, the JSON text of an object
    whose only entry is "entries": the forwards in the order of their ids,
    each with id, proto, host_addr, host_port, guest_addr and guest_port.
    Parsing the answer, if it has less than 2^30 bytes, gives that object back.
    There is no "return" object around it, where the manual and the test of the
    socket (tests/test-slirp4netns-api-socket.sh) look for the entries. *)
Theorem list_hostfwd_reply_correct fd ctx jo h :
  api_inv ctx ->
  exists text a, api_handle_req_list_hostfwd fd ctx jo h = ([(Write fd text, a)], Done (ctx, ret a)) /\
  (Z.of_nat (length text) < 2 ^ 30 ->
   exists v, json_parse_string text = POk v [] /\
     tree_of v = TObject [(b2l "entries", TArray (map fwd_tree (hostfwds ctx)))]).
Proof.
  intros Hinv. destruct (list_hostfwd_reply fd ctx jo h Hinv) as (text & v & a & Hd & Ho & Ht & Hok & Hint & Htree).
  exists text, a. split.
  - destruct (api_handle_req_list_hostfwd fd ctx jo h) as [d o]. simpl in Hd, Ho. by subst.
  - intros Hl. unfold json_parse_string.
    pose proof (json_ok_mono 4 (S MAX_NESTING) v ltac:(unfold MAX_NESTING; lia) Hok) as Hok'.
    pose proof (int_numbers_mono 4 (S MAX_NESTING) v ltac:(unfold MAX_NESTING; lia) Hint) as Hint'.
    rewrite (starts_no_bom _ _ _ _ _ Hint' Ht).
    destruct (all_readable _ v 0%nat false text [] (parse_fuel text) 0%nat Hok' Hint' Ht) as (v' & Hp & Hv').
    + done.
    + done.
    + rewrite app_nil_r. unfold parse_fuel. lia.
    + by rewrite app_nil_r.
    + exists v'. rewrite app_nil_r in Hp. split; [done|]. by rewrite Hv'.
Qed.

(** *** Finding the entry to remove *)

Lemma remove_hostfwd_missing fd ctx jo n h id :
  obj_ok n jo -> arg_int jo "id" = Some id -> (id ∉ map fwd_id (hostfwds ctx)) ->
  wp (api_handle_req_remove_hostfwd fd ctx jo) h (answered fd [] (bad_remove "bad arguments.id") ctx).
Proof.
  intros Ho Hid Hn. unfold api_handle_req_remove_hostfwd. wp_number "id" Ho.
  eapply wp_bind_opt; [exact Hid|].
  destruct (list_find _ (hostfwds ctx)) as [[i fwd]|] eqn:Ef.
  - apply list_find_Some in Ef as (Hi & ->%find_id & _). exfalso. apply Hn. apply list_elem_of_fmap.
    exists fwd. split; [done|]. by eapply list_elem_of_lookup_2.
  - by apply (wp_answered _ _ _ _ [] []).
Qed.

Lemma sorted_unique (l : list Z) i j x :
  StronglySorted Z.lt l -> l !! i = Some x -> l !! j = Some x -> i = j.
Proof.
  intros Hs. revert i j. induction Hs as [|y l Hs IH Hy]; intros [|i] [|j] Hi Hj; simpl in *; try done.
  - rewrite Forall_forall in Hy. apply list_elem_of_lookup_2, Hy in Hj. simplify_eq. lia.
  - rewrite Forall_forall in Hy. apply list_elem_of_lookup_2, Hy in Hi. simplify_eq. lia.
  - f_equal. eauto.
Qed.

Lemma remove_hostfwd_found fd ctx jo n h id i fwd :
  obj_ok n jo -> api_inv ctx -> arg_int jo "id" = Some id -> hostfwds ctx !! i = Some fwd -> fwd_id fwd = id ->
  wp (api_handle_req_remove_hostfwd fd ctx jo) h (fun d o =>
   if ret (env h (remove_call fwd)) <? 0
   then answered fd [remove_call fwd] (bad_remove "slirp_remove_hostfwd failed") ctx d o
   else answered fd [remove_call fwd] (jtext "{'return':{}}")
          (with_hostfwds ctx (delete i (hostfwds ctx)) (hostfwds_nextid ctx)) d o).
Proof.
  intros Ho Hinv Hid Hi Hfid. unfold api_handle_req_remove_hostfwd. wp_number "id" Ho.
  eapply wp_bind_opt; [exact Hid|].
  assert (list_find (fun fwd => api_handle_remove_list_hostfwd_find fwd id = 0) (hostfwds ctx) = Some (i, fwd)) as ->.
  { apply list_find_Some. split_and!; [done|by apply find_id|]. intros j y Hj Hlt Hy%find_id.
    assert (i = j); [|lia]. apply (sorted_unique (map fwd_id (hostfwds ctx)) i j id); [apply Hinv| |].
    all: change (map fwd_id) with (fmap (M := list) fwd_id); rewrite list_lookup_fmap, ?Hi, ?Hj; simpl; congruence. }
  apply wp_bind_sys_ret. intros a Ha.
  change (remove_call fwd) with (SlirpRemoveHostfwd (is_udp fwd) (host_addr fwd) (host_port fwd)).
  rewrite Ha. destruct (ret a <? 0); by apply (wp_answered _ _ _ _ [remove_call fwd] [(remove_call fwd, a)]).
Qed.

(** C38: an add_hostfwd request whose "proto" is missing or not a string is
    undefined behaviour ([strcmp] of NULL), whatever else it says. *)
Theorem add_hostfwd_without_proto_undefined fd ctx jo n h :
  obj_ok n jo -> json_value_get_string (argument jo "proto") = None ->
  api_handle_req_add_hostfwd fd ctx jo h = ([], Undefined).
Proof.
  intros Ho Hp.
  assert (wp (api_handle_req_add_hostfwd fd ctx jo) h (fun d o => d = [] /\ o = Undefined)) as [Hd Ho'].
  { unfold api_handle_req_add_hostfwd. wp_string "proto" Ho. wp_string "host_addr" Ho.
    wp_string "guest_addr" Ho. apply wp_bind. rewrite Hp. done. }
  destruct (api_handle_req_add_hostfwd fd ctx jo h). simpl in *. by subst.
Qed.

(** C19: the verdict on add_hostfwd.  The arguments are checked in the order
    proto, host_addr, host_port, guest_addr, guest_port, up to the first check
    that is not passed.  If that check is bad, it is named in the reply,
    libslirp is not called and the table is unchanged; if making it is
    undefined (a "proto" that is missing or not a string, a port that does not
    fit [int]), so is the behaviour.  If all are passed, libslirp is asked for
    exactly the forward of the request (an address left out is 0.0.0.0 on the
    host and the recommended guest address in the namespace); if it refuses,
    the reply says so and the table is unchanged, otherwise the forward is
    appended with the next id, which is the id replied, unless that id is
    INT_MAX: then incrementing the counter is undefined. *)
Theorem add_hostfwd_correct fd ctx jo n h :
  obj_ok n jo -> api_inv ctx ->
  let fwd := requested ctx jo in
  let a := env h (add_call fwd) in
  let run := api_handle_req_add_hostfwd fd ctx jo h in
  match first_bad (add_checks jo) with
  | Some (_, None) => run = ([], Undefined)
  | Some (what, Some _) => answered fd [] (bad_add what) ctx run.1 run.2
  | None =>
      if ret a <? 0
      then answered fd [add_call fwd] (bad_add "slirp_add_hostfwd failed") ctx run.1 run.2
      else if hostfwds_nextid ctx =? INT_MAX then run = ([(add_call fwd, a)], Undefined)
      else answered fd [add_call fwd]
             (jtext "{'return':{'id':" ++ dec_signed (fwd_id fwd) ++ b2l "}}")
             (with_hostfwds ctx (hostfwds ctx ++ [fwd]) (hostfwds_nextid ctx + 1))
             run.1 run.2
  end.
Proof.
  intros Ho Hinv fwd a run. pose proof (add_hostfwd_run fd ctx jo n h Ho Hinv) as H.
  unfold wp, add_post, asked in H. fold fwd a run in H. cbv zeta in H. fold a in H. rewrite (surjective_pairing run).
  destruct (first_bad _) as [[what [?|]]|]; [exact H|by destruct H as [-> ->]|].
  destruct (_ <? 0); [exact H|]. destruct (_ =? _); [by destruct H as [-> ->]|exact H].
Qed.

(** C20: remove_hostfwd.  With the id of an entry of the table, libslirp is
    asked to remove that entry's forward, and on success exactly that entry
    leaves the table; if libslirp refuses, or no entry has the id, the reply
    is an error and the table is unchanged. *)
Theorem remove_hostfwd_correct fd ctx jo n h id :
  obj_ok n jo -> api_inv ctx -> arg_int jo "id" = Some id ->
  let run := api_handle_req_remove_hostfwd fd ctx jo h in
  (id ∉ map fwd_id (hostfwds ctx) -> answered fd [] (bad_remove "bad arguments.id") ctx run.1 run.2) /\
  (forall i fwd, hostfwds ctx !! i = Some fwd -> fwd_id fwd = id ->
   if ret (env h (remove_call fwd)) <? 0
   then answered fd [remove_call fwd] (bad_remove "slirp_remove_hostfwd failed") ctx run.1 run.2
   else answered fd [remove_call fwd] (jtext "{'return':{}}")
          (with_hostfwds ctx (delete i (hostfwds ctx)) (hostfwds_nextid ctx))
          run.1 run.2).
Proof.
  intros Ho Hinv Hid run. split.
  - intros Hn. unfold run. apply (remove_hostfwd_missing fd ctx jo n h id Ho Hid Hn).
  - intros i fwd Hi Hfid. apply (remove_hostfwd_found fd ctx jo n h id i fwd Ho Hinv Hid Hi Hfid).
Qed.
End api_theorems.

(** ** The theorems on concrete requests *)

(** An environment in which libslirp refuses a forward that exists and every
    connection sends [request]. *)
Definition one_request (request : bytes) : Env := fun h c =>
  match c with
  | Accept _ => Ans 7 0 [] []
  | Read _ n => Ans (Z.min n (Z.of_nat (length request))) 0 (take (Z.to_nat n) request) []
  | Write _ s => Ans (Z.of_nat (length s)) 0 [] []
  | SlirpAddHostfwd u a p _ _ => Ans (if bool_decide ((u, a, p) ∈ map fkey (live h)) then -1 else 0) 0 [] []
  | _ => Ans 0 0 [] []
  end.

Lemma one_request_read r : Forall is_byte r -> read_ok (one_request r).
Proof.
  intros Hr h fd n. cbn. split_and!; [lia| |by apply Forall_take].
  intros H. rewrite length_take. lia.
Qed.

Lemma one_request_exclusive r : slirp_exclusive (one_request r).
Proof. intros h u a p ga gp H. cbn. by rewrite bool_decide_true. Qed.

Definition add_request : bytes :=
  jtext "{'execute':'add_hostfwd','arguments':{'proto':'tcp','host_port':8080,'guest_port':80}}".

Definition ctx0 : api_ctx := Ctx 50 60 4096 [Fwd 1 0 0 22 1677852682 22] 2 1677852682.

Lemma ctx0_inv : api_inv ctx0.
Proof.
  split; simpl; unfold in_u32, INT_MAX; try lia; repeat constructor; simpl; unfold in_i32, in_u32; lia.
Qed.

(** A decidable test that [jo] is well formed: it was parsed. *)
Definition parsed (text : bytes) : json_object JSON_Value :=
  match json_parse_string text with POk (JSONObject o) _ => o | _ => json_object_make end.

Lemma parsed_ok text :
  forallb (fun c => (0 <? c) && (c <? 256)) text = true -> Z.of_nat (length text) < 2 ^ 30 ->
  obj_ok MAX_NESTING (parsed text).
Proof.
  intros Ht Hl. unfold parsed.
  assert (wf_cstr text) as Hw.
  { rewrite forallb_forall in Ht. apply Forall_forall. intros c Hc%list_elem_of_In. apply Ht in Hc.
    unfold is_char. lia. }
  assert (obj_ok MAX_NESTING json_object_make) as Hmake by (split; [apply json_object_make_inv|constructor]).
  pose proof (parse_string_fine text Hw Hl) as Hp.
  destruct (json_parse_string text) as [v rest| | |]; try done.
  destruct v as [| | |o| |]; try done. destruct Hp as [Hp _].
  by inversion Hp.
Qed.

Definition h0 : history := [(SlirpAddHostfwd 0 0 22 1677852682 22, Ans 0 0 [] [])].
Definition ctx1 : api_ctx :=
  Ctx 50 60 4096 [Fwd 1 0 0 22 1677852682 22; Fwd 2 0 0 8080 1677852682 80] 3 1677852682.

Lemma api_table_refines_libslirp_witness :
  let run := api_handler (E := one_request add_request) (BO := true) 5 ctx0 h0 in
  exists rc, run.2 = Done (ctx1, rc) /\ api_inv ctx1 /\ agrees (h0 ++ run.1) ctx1.
Proof.
  intros run. exists 19.
  pose proof (api_table_refines_libslirp (E := one_request add_request) (BO := true)
    (one_request_read add_request ltac:(repeat constructor; unfold is_byte; lia)) (one_request_exclusive _) 5 ctx0 h0 ctx0_inv) as H.
  fold run in H. assert (run.2 = Done (ctx1, 19)) as Hr by (vm_compute; reflexivity).
  split; [exact Hr|]. rewrite Hr in H. destruct H as (H1 & H2 & _). split; [exact H1|]. apply H2.
  split; [reflexivity|]. apply NoDup_singleton.
Defined.

Lemma list_hostfwd_reply_correct_witness :
  exists text a,
    api_handle_req_list_hostfwd (E := one_request []) (BO := true) 7 ctx1 json_object_make [] =
      ([(Write 7 text, a)], Done (ctx1, ret a)) /\
    text = jtext "{'entries':[{'id':1,'proto':'tcp','host_addr':'0.0.0.0','host_port':22,'guest_addr':'10.0.2.100','guest_port':22},{'id':2,'proto':'tcp','host_addr':'0.0.0.0','host_port':8080,'guest_addr':'10.0.2.100','guest_port':80}]}".
Proof.
  destruct (list_hostfwd_reply_correct (E := one_request []) (BO := true) 7 ctx1 json_object_make [])
    as (text & a & H & _).
  - split; simpl; unfold in_u32, INT_MAX; try lia; repeat constructor; simpl; unfold in_i32, in_u32; lia.
  - exists text, a. split; [exact H|]. vm_compute in H. injection H as <- _ _. vm_compute. reflexivity.
Defined.

Lemma add_hostfwd_without_proto_undefined_witness :
  let jo := parsed (jtext "{'execute':'add_hostfwd','arguments':{'host_port':8080,'guest_port':80}}") in
  api_handle_req_add_hostfwd (E := one_request []) (BO := true) 7 ctx0 jo [] = ([], Undefined).
Proof.
  intros jo. apply (add_hostfwd_without_proto_undefined (E := one_request []) (BO := true) 7 ctx0 jo MAX_NESTING).
  - apply parsed_ok; vm_compute; reflexivity.
  - vm_compute. reflexivity.
Defined.

Lemma add_hostfwd_correct_witness :
  let jo := parsed add_request in
  let run := api_handle_req_add_hostfwd (E := one_request []) (BO := true) 7 ctx0 jo h0 in
  answered 7 [SlirpAddHostfwd 0 0 8080 1677852682 80] (jtext "{'return':{'id':2}}") ctx1 run.1 run.2.
Proof.
  intros jo run.
  pose proof (add_hostfwd_correct (E := one_request []) (BO := true) 7 ctx0 jo MAX_NESTING h0
    ltac:(apply parsed_ok; vm_compute; reflexivity) ctx0_inv) as H.
  change (first_bad (add_checks (H := true) jo)) with (@None (string * option bool)) in H. exact H.
Defined.

Lemma remove_hostfwd_correct_witness :
  let jo := parsed (jtext "{'execute':'remove_hostfwd','arguments':{'id':1}}") in
  let run := api_handle_req_remove_hostfwd (E := one_request []) 7 ctx0 jo h0 in
  answered 7 [SlirpRemoveHostfwd 0 0 22] (jtext "{'return':{}}") (Ctx 50 60 4096 [] 2 1677852682) run.1 run.2.
Proof.
  intros jo run.
  destruct (remove_hostfwd_correct (E := one_request []) 7 ctx0 jo MAX_NESTING h0 1
    ltac:(apply parsed_ok; vm_compute; reflexivity) ctx0_inv ltac:(vm_compute; reflexivity)) as [_ H].
  exact (H 0%nat (Fwd 1 0 0 22 1677852682 22) eq_refl eq_refl).
Defined.
