(* ===== verification/ApiSession.v ===== *)
(** * Sessions on the API socket

    What a sequence of connections does to the forwarding table: each request
    takes at most one step on it, whatever the client sends and whatever
    libslirp answers. *)

From S2P Require Import Prelude Libc OS JsonObject Double Json Api ApiTheory.

Definition succeeded (c : call) (d : list event) : Prop := exists a, (c, a) ∈ d /\ 0 <= ret a.

Lemma succeeded_app_l c d1 d2 : succeeded c d1 -> succeeded c (d1 ++ d2).
Proof. intros (a & ? & ?). exists a. rewrite elem_of_app. auto. Qed.
Lemma succeeded_app_r c d1 d2 : succeeded c d2 -> succeeded c (d1 ++ d2).
Proof. intros (a & ? & ?). exists a. rewrite elem_of_app. auto. Qed.

#[local] Hint Resolve succeeded_app_l succeeded_app_r : core.

(** The steps of the table: an entry is appended under the next id after
    libslirp took it, or leaves after libslirp let go of it. *)
Inductive table_step (ctx : api_ctx) (d : list event) : api_ctx -> Prop :=
| step_same : table_step ctx d ctx
| step_add fwd :
    fwd_id fwd = hostfwds_nextid ctx -> succeeded (add_call fwd) d ->
    table_step ctx d (with_hostfwds ctx (hostfwds ctx ++ [fwd]) (hostfwds_nextid ctx + 1))
| step_remove i fwd :
    hostfwds ctx !! i = Some fwd -> succeeded (remove_call fwd) d ->
    table_step ctx d (with_hostfwds ctx (delete i (hostfwds ctx)) (hostfwds_nextid ctx)).

Lemma table_step_mono ctx d0 d d1 ctx' : table_step ctx d ctx' -> table_step ctx (d0 ++ d ++ d1) ctx'.
Proof. destruct 1; econstructor; eauto. Qed.

(** Nothing is claimed of a run that does not return. *)
Definition steps_table (ctx : api_ctx) (d : list event) (o : outcome (api_ctx * Z)) : Prop :=
  match o with Done r => table_step ctx d r.1 | _ => True end.

Section session.
Context `{E : Env} `{BO : ByteOrder}.

Lemma wp_lift_any {A B} (o : option A) (k : A -> M B) h Q :
  Q [] Undefined -> (forall a, wp (k a) h Q) -> wp (lift_opt o ≫= k) h Q.
Proof. intros Hu Hk. destruct o as [a|]; [by eapply wp_bind_opt|]. apply wp_bind. exact Hu. Qed.

Lemma wp_reply_step fd text ctx ctx' h d0 :
  table_step ctx d0 ctx' ->
  wp (wrc ← write_ fd text; mret (ctx', wrc)) h (fun d o => steps_table ctx (d0 ++ d) o).
Proof.
  intros Hs. apply wp_bind_sys_ret. intros a _. apply wp_ret. apply (table_step_mono ctx [] d0 [_] ctx' Hs).
Qed.

Lemma wp_reply_none fd text ctx h : wp (wrc ← write_ fd text; mret (ctx, wrc)) h (steps_table ctx).
Proof. apply (wp_reply_step fd text ctx ctx h []). constructor. Qed.

Lemma add_hostfwd_step fd ctx jo h : wp (api_handle_req_add_hostfwd fd ctx jo) h (steps_table ctx).
Proof.
  unfold api_handle_req_add_hostfwd.
  do 3 (apply wp_lift_any; [exact I|]; intros ?). apply wp_lift_any; [exact I|]. intros proto. cbv zeta.
  set (u := if bool_decide (proto = _) then 1 else _). destruct (u =? -1); [apply wp_reply_none|].
  destruct (inet_pton _) as [ha|]; [|apply wp_reply_none].
  apply wp_lift_any; [exact I|]. intros x. apply wp_lift_any; [exact I|]. intros hp.
  destruct (hp =? 0); [apply wp_reply_none|].
  set (gaddr := match _ with Some (c :: s) => inet_pton (c :: s) | _ => _ end).
  destruct gaddr as [ga|]; [|apply wp_reply_none].
  apply wp_lift_any; [exact I|]. intros y. apply wp_lift_any; [exact I|]. intros gp.
  destruct (gp =? 0); [apply wp_reply_none|].
  apply wp_bind_sys_ret. intros w _. destruct (Z.ltb_spec (ret w) 0).
  { apply (wp_reply_step _ _ _ _ _ [(_, w)]), step_same. }
  destruct (_ =? INT_MAX); [by apply wp_undefined|]. destruct (64 <? _); [by apply wp_exit|].
  apply (wp_reply_step _ _ _ _ _ [(_, w)]), step_add; [done|]. exists w. by split; [left|].
Qed.

Lemma remove_hostfwd_step fd ctx jo h : wp (api_handle_req_remove_hostfwd fd ctx jo) h (steps_table ctx).
Proof.
  unfold api_handle_req_remove_hostfwd. do 2 (apply wp_lift_any; [exact I|]; intros ?).
  destruct (list_find _ (hostfwds ctx)) as [[i fwd]|] eqn:Ef; [|apply wp_reply_none].
  apply list_find_Some in Ef as (Hi & _ & _).
  apply wp_bind_sys_ret. intros w _. destruct (Z.ltb_spec (ret w) 0).
  - apply (wp_reply_step _ _ _ _ _ [(_, w)]), step_same.
  - apply (wp_reply_step _ _ _ _ _ [(_, w)]). eapply step_remove; [exact Hi|]. exists w. by split; [left|].
Qed.

Lemma list_foreach_silent fwds a h :
  wp (list_hostfwd_foreach fwds a) h (fun d _ => d = []).
Proof.
  revert a h. induction fwds as [|fwd fwds IH]; intros a h; cbn [list_hostfwd_foreach]; [by apply wp_ret|].
  apply wp_lift_any; [done|]. intros o. destruct (json_array_append_value _ _); [apply IH|by apply wp_exit].
Qed.

Lemma list_hostfwd_step fd ctx jo h : wp (api_handle_req_list_hostfwd fd ctx jo) h (steps_table ctx).
Proof.
  unfold api_handle_req_list_hostfwd. apply wp_bind. eapply wp_mono; [apply list_foreach_silent|].
  intros d o ->. destruct o as [a| | |]; cbn [bind_post]; [|exact I..]. rewrite app_nil_r.
  do 2 (apply wp_lift_any; [exact I|]; intros ?). apply wp_reply_none.
Qed.

Lemma api_handle_req_step fd ctx req h : wp (api_handle_req fd ctx req) h (steps_table ctx).
Proof.
  unfold api_handle_req. cbv zeta. destruct (json_parse_string req); try done; [|apply wp_reply_none].
  destruct (json_value_get_object _) as [jo|]; [|apply wp_reply_none].
  apply wp_lift_any; [exact I|]. intros [ex|]; [|apply wp_reply_none].
  repeat case_bool_decide; auto using add_hostfwd_step, list_hostfwd_step, remove_hostfwd_step, wp_reply_none.
Qed.

Lemma wp_finish_step fd ctx ctx' (r : Z) h d0 :
  table_step ctx d0 ctx' ->
  wp (_ ← sys_ (Shutdown fd SHUT_RDWR); _ ← sys_ (Close fd); mret (ctx', r)) h (fun d o => steps_table ctx (d0 ++ d) o).
Proof.
  intros Hs. do 2 (apply wp_bind_sys_; intros ? _). apply wp_ret. apply (table_step_mono ctx [] d0 _ ctx' Hs).
Qed.

Lemma api_handler_step listenfd ctx h : wp (api_handler listenfd ctx) h (steps_table ctx).
Proof.
  unfold api_handler. apply wp_bind_sys_ret. intros fd _. destruct (ret fd <? 0); [apply wp_ret; constructor|].
  cbv zeta. apply wp_bind_sys. intros a _. destruct (ret a <? 0).
  { apply (wp_finish_step _ ctx ctx _ _ [_; _]), step_same. }
  destruct (ret a =? buflen ctx).
  { apply wp_bind_sys_ret. intros w _. apply (wp_finish_step _ ctx ctx _ _ [_; _; _]), step_same. }
  destruct (buflen ctx <? ret a); [done|]. apply wp_bind. eapply wp_mono; [apply api_handle_req_step|].
  intros d [[ctx' rc]| | |] Hd; cbn [bind_post steps_table fst snd] in *; try done.
  apply (wp_finish_step _ ctx ctx' _ _ (_ :: _ :: d)).
  rewrite <-(app_nil_r d). by apply (table_step_mono ctx [_; _] d [] ctx').
Qed.

(** What holds of the table after any number of steps. *)
Record table_history (ctx : api_ctx) (d : list event) (ctx' : api_ctx) : Prop := {
  th_nextid : hostfwds_nextid ctx <= hostfwds_nextid ctx';
  th_kept fwd : fwd ∈ hostfwds ctx -> fwd ∈ hostfwds ctx' \/ succeeded (remove_call fwd) d;
  th_new fwd : fwd ∈ hostfwds ctx' -> fwd ∈ hostfwds ctx \/
    (hostfwds_nextid ctx <= fwd_id fwd < hostfwds_nextid ctx' /\ succeeded (add_call fwd) d)
}.

Lemma table_history_refl ctx : table_history ctx [] ctx.
Proof. split; [lia|auto|auto]. Qed.

Lemma table_history_step ctx d ctx' : table_step ctx d ctx' -> table_history ctx d ctx'.
Proof.
  destruct 1 as [|fwd Hid Hadd|i fwd Hi Hrem].
  - split; [lia|auto|auto].
  - split; simpl; [lia| |]; intros f; rewrite elem_of_app; [auto|]. intros [?|Hf]; [auto|]. apply list_elem_of_singleton in Hf as ->.
    right. split; [lia|done].
  - split; simpl; [lia| |]; intros f.
    + intros [j Hj]%list_elem_of_lookup. destruct (decide (j = i)) as [-> |Hne]; [simplify_eq; by right|]. left.
      rewrite (delete_take_drop _ i), elem_of_app, !list_elem_of_lookup.
      destruct (decide (j < i)%nat).
      * left. exists j. by rewrite lookup_take_lt.
      * right. exists (j - S i)%nat. rewrite lookup_drop, <-Hj. f_equal. lia.
    + intros Hf. left. by eapply list_elem_of_delete_inv.
Qed.

Lemma table_history_trans c1 d1 c2 d2 c3 :
  table_history c1 d1 c2 -> table_history c2 d2 c3 -> table_history c1 (d1 ++ d2) c3.
Proof.
  intros [N1 K1 A1] [N2 K2 A2]. split; [lia| |].
  - intros fwd Hf. destruct (K1 fwd Hf) as [Hf'|?]; [|auto]. destruct (K2 fwd Hf') as [?|?]; auto.
  - intros fwd Hf. destruct (A2 fwd Hf) as [Hf'|[? ?]]; [destruct (A1 fwd Hf') as [?|[? ?]]|]; [auto|right|right];
      (split; [lia|auto]).
Qed.

(** What a session does. *)
Definition session_post (listenfd : Z) (h : history) (ctx : api_ctx) (d : list event) (o : outcome api_ctx) : Prop :=
  match o with
  | Done ctx' =>
      api_inv ctx' /\ (agrees h ctx -> agrees (h ++ d) ctx') /\ table_history ctx d ctx' /\
      hostfwds_nextid ctx' = hostfwds_nextid ctx + accepted d
  | Undefined => hazard_read (hostfwds_nextid ctx) listenfd d
  | Exited _ | OutOfFuel => False
  end.

Hypothesis Hread : read_ok E.
Hypothesis Hexcl : slirp_exclusive E.

(** C13: the life of a forward.  Over any number of connections, with any
    requests and answers: a forward stays in the table, under its id and
    unchanged, until libslirp removed it, and every other forward found in the
    table at the end was accepted by libslirp and has an id that was not given
    out before, so an id never comes to mean another forward.  The table
    invariant and the agreement with libslirp hold at the end, the next id has
    grown by the number of additions libslirp accepted, and only a request that
    is hazardous with the id counter of that moment stops the session. *)
Theorem session_ids n listenfd ctx h :
  api_inv ctx -> session_post listenfd h ctx (serve n listenfd ctx h).1 (serve n listenfd ctx h).2.
Proof.
  revert ctx h. induction n as [|n IH]; intros ctx h Hinv.
  { split_and!; [done|by rewrite app_nil_r|apply table_history_refl|unfold accepted; simpl; lia]. }
  change (wp (serve (S n) listenfd ctx) h (session_post listenfd h ctx)). cbn [serve]. apply wp_bind.
  pose proof (api_handler_wp Hread Hexcl listenfd ctx h Hinv) as H1. pose proof (api_handler_step listenfd ctx h) as H2.
  unfold wp in *. destruct (api_handler listenfd ctx h) as [d [[ctx' rc]|s| |]]; cbn [fst snd bind_post] in *; try done.
  destruct H1 as (Hinv' & Hag & Hid & _). eapply wp_mono; [apply (IH ctx' (h ++ d) Hinv')|].
  intros d' [ctx''|s| |] Hp; cbn [session_post] in *; try done.
  - destruct Hp as (Hinv2 & Hag2 & Hth & Hid2). split; [done|]. rewrite app_assoc, accepted_app. split; [auto|].
    split; [eapply table_history_trans; [by apply table_history_step|done]|lia].
  - apply hazard_read_app. by rewrite <-Hid.
Qed.
End session.

(** Two connections that send the same request: the second is refused. *)
Lemma session_ids_witness :
  let run := serve (H := one_request add_request) (H0 := (true : ByteOrder)) 2 5 ctx0 h0 in
  run.2 = Done ctx1 /\ table_history ctx0 run.1 ctx1.
Proof.
  intros run. pose proof (session_ids (E := one_request add_request) (BO := true)
    (one_request_read add_request ltac:(repeat constructor; unfold is_byte; lia)) (one_request_exclusive _)
    2 5 ctx0 h0 ctx0_inv) as H.
  fold run in H. assert (run.2 = Done ctx1) as Hr by (vm_compute; reflexivity).
  split; [exact Hr|]. rewrite Hr in H. apply H.
Defined.
