(* ===== verification/Sandbox.v ===== *)
(** * The sandbox (sandbox.c)

    [create_sandbox] as a program over system calls and the proof of what it
    leaves behind: the sequence of calls is fixed, every failure that is not
    explicitly tolerated stops it with a negative value, and on success the
    process has no new privileges, an empty ambient set, and no capability but
    [CAP_NET_BIND_SERVICE]. *)

From S2P Require Import Prelude Libc OS.

Definition CLONE_NEWNS : Z := 0x20000.
Definition MS_RDONLY : Z := 1.
Definition MS_NOSUID : Z := 2.
Definition MS_NODEV : Z := 4.
Definition MS_NOEXEC : Z := 8.
Definition MS_REMOUNT : Z := 32.
Definition MS_BIND : Z := 4096.
Definition MS_REC : Z := 16384.
Definition MS_PRIVATE : Z := Z.shiftl 1 18.
Definition MS_SLAVE : Z := Z.shiftl 1 19.
Definition MNT_DETACH : Z := 2.
Definition PR_CAPBSET_DROP : Z := 24.
Definition PR_SET_NO_NEW_PRIVS : Z := 38.
Definition PR_CAP_AMBIENT : Z := 47.
Definition PR_CAP_AMBIENT_CLEAR_ALL : Z := 4.
Definition CAP_NET_BIND_SERVICE : Z := 10.
Definition LINUX_CAPABILITY_VERSION_3 : Z := 0x20080522.

Definition or_flags (l : list Z) : Z := foldl Z.lor 0 l.

Definition bind_flags : Z := or_flags [MS_BIND; MS_REC; MS_SLAVE; MS_NOSUID; MS_NODEV; MS_NOEXEC].
Definition remount_flags : Z := or_flags [MS_REMOUNT; MS_BIND; MS_RDONLY; MS_NOSUID; MS_NODEV; MS_NOEXEC].

(** [g_str_has_prefix] *)
Definition has_prefix (s prefix : bytes) : bool := bool_decide (take (length prefix) s = prefix).

Section sandbox.
Context `{E : Env}.

(** glib's [g_path_get_dirname] *)
Variable g_path_get_dirname : bytes -> bytes.

Definition add_mount (from to : bytes) : M Z :=
  a ← sys (Mount [] from [] (or_flags [MS_SLAVE; MS_REC]) None);
  if (ret a <? 0) && negb (errno a =? EINVAL) then mret (ret a)
  else
    checked (Mount from to [] bind_flags None) (
    checked (Mount [] to [] (or_flags [MS_SLAVE; MS_REC]) None) (
    checked (Mount from to [] remount_flags None) (
    mret 0))).

(** [realpath] answers 0 for NULL. *)
Definition bind_escaped_resolv_conf (root : bytes) : M Z :=
  r ← sys (Realpath (b2l "/etc/resolv.conf"));
  let real_resolv := out r in
  if (ret r =? 0) || has_prefix real_resolv (b2l "/etc") || has_prefix real_resolv (b2l "/run")
  then mret 0
  else
    let resolv_dest := root ++ real_resolv in
    let resolv_dest_dir := g_path_get_dirname resolv_dest in
    checked (MkdirWithParents resolv_dest_dir 493 (* 0755 *)) (
    ret ← sys_ret (Creat resolv_dest 420 (* 0644 *));
    if ret <? 0 then mret ret
    else
      _ ← sys_ (Close ret);
      add_mount real_resolv resolv_dest).

(** [for (i = 0;; i++)] dropping capability [i]; 0 when the loop is left by
    [break]. *)
Fixpoint drop_caps (fuel : nat) (i : Z) : M Z :=
  match fuel with
  | O => out_of_fuel
  | S fuel =>
      if i =? CAP_NET_BIND_SERVICE then drop_caps fuel (i + 1)
      else
        a ← sys (Prctl PR_CAPBSET_DROP i);
        if ret a <? 0 then
          if errno a =? EINVAL then mret 0 else mret (ret a)
        else drop_caps fuel (i + 1)
  end.

Definition cap_data : list (Z * Z * Z) :=
  let bit := Z.shiftl 1 CAP_NET_BIND_SERVICE in [(bit, bit, bit); (0, 0, 0)].

Definition create_sandbox (fuel : nat) : M Z :=
  checked (Unshare CLONE_NEWNS) (
  checked (Mount [] (b2l "/") [] MS_PRIVATE None) (
  checked (Mount (b2l "tmpfs") (b2l "/tmp") (b2l "tmpfs")
             (or_flags [MS_NOSUID; MS_NODEV; MS_NOEXEC]) (Some (b2l "size=1k"))) (
  checked (Mkdir (b2l "/tmp/etc") 493 (* 0755 *)) (
  checked (Mkdir (b2l "/tmp/old") 493) (
  checked (Mkdir (b2l "/tmp/run") 493) (
  checked_call (add_mount (b2l "/etc") (b2l "/tmp/etc")) (
  checked_call (bind_escaped_resolv_conf (b2l "/tmp")) (
  checked_call (add_mount (b2l "/run") (b2l "/tmp/run")) (
  checked (Chdir (b2l "/tmp")) (
  checked (PivotRoot (b2l ".") (b2l "old")) (
  checked (Chdir (b2l "/")) (
  checked (Umount2 (b2l "/old") MNT_DETACH) (
  checked (Rmdir (b2l "/old")) (
  _ ← sys_ (Mount (b2l "tmpfs") (b2l "/") (b2l "tmpfs") (or_flags [MS_REMOUNT; MS_RDONLY])
              (Some (b2l "size=0k")));
  checked (Prctl PR_SET_NO_NEW_PRIVS 1) (
  checked (Prctl PR_CAP_AMBIENT PR_CAP_AMBIENT_CLEAR_ALL) (
  checked_call (drop_caps fuel 0) (
  checked (Capset LINUX_CAPABILITY_VERSION_3 cap_data) (
  mret 0)))))))))))))))))).
End sandbox.

(** ** The sequence of calls *)

Section spec.
Variable g_path_get_dirname : bytes -> bytes.

Definition add_mount_steps (from to : bytes) : list step :=
  [tolerant (Mount [] from [] (or_flags [MS_SLAVE; MS_REC]) None) EINVAL;
   must (Mount from to [] bind_flags None);
   must (Mount [] to [] (or_flags [MS_SLAVE; MS_REC]) None);
   must (Mount from to [] remount_flags None)].

(** [/etc/resolv.conf] resolves to a file that is neither under /etc nor under
    /run (as far as the first four characters tell). *)
Definition escapes (real : answer) : bool :=
  negb (ret real =? 0) && negb (has_prefix (out real) (b2l "/etc"))
  && negb (has_prefix (out real) (b2l "/run")).

Definition resolv_steps (root : bytes) (real : answer) (fd : Z) : list step :=
  let dest := root ++ out real in
  answers (Realpath (b2l "/etc/resolv.conf")) real ::
  if escapes real then
    [must (MkdirWithParents (g_path_get_dirname dest) 493);
     Step (Creat dest 420) (fun a => 0 <= ret a /\ ret a = fd) (fun a => ret a < 0);
     ignored (Close fd)] ++ add_mount_steps (out real) dest
  else [].

(** Dropping the capabilities from [i] on when [n] is the first the kernel
    does not know. *)
Definition kept_out (i n : Z) : list Z := filter (fun c => c <> CAP_NET_BIND_SERVICE) (seqZ i (n - i)).

Definition drop_steps (i n : Z) : list step :=
  map (fun c => unless (Prctl PR_CAPBSET_DROP c) EINVAL) (kept_out i n) ++
  [refused (Prctl PR_CAPBSET_DROP n) EINVAL].

Definition tmpfs_steps : list step :=
  [must (Unshare CLONE_NEWNS);
   must (Mount [] (b2l "/") [] MS_PRIVATE None);
   must (Mount (b2l "tmpfs") (b2l "/tmp") (b2l "tmpfs")
           (or_flags [MS_NOSUID; MS_NODEV; MS_NOEXEC]) (Some (b2l "size=1k")));
   must (Mkdir (b2l "/tmp/etc") 493);
   must (Mkdir (b2l "/tmp/old") 493);
   must (Mkdir (b2l "/tmp/run") 493)].

Definition pivot_steps : list step :=
  [must (Chdir (b2l "/tmp"));
   must (PivotRoot (b2l ".") (b2l "old"));
   must (Chdir (b2l "/"));
   must (Umount2 (b2l "/old") MNT_DETACH);
   must (Rmdir (b2l "/old"));
   ignored (Mount (b2l "tmpfs") (b2l "/") (b2l "tmpfs") (or_flags [MS_REMOUNT; MS_RDONLY])
              (Some (b2l "size=0k")))].

Definition privilege_steps (n : Z) : list step :=
  [must (Prctl PR_SET_NO_NEW_PRIVS 1);
   must (Prctl PR_CAP_AMBIENT PR_CAP_AMBIENT_CLEAR_ALL)] ++
  drop_steps 0 n ++
  [must (Capset LINUX_CAPABILITY_VERSION_3 cap_data)].

Definition sandbox_steps (real : answer) (fd n : Z) : list step :=
  tmpfs_steps ++
  add_mount_steps (b2l "/etc") (b2l "/tmp/etc") ++
  resolv_steps (b2l "/tmp") real fd ++
  add_mount_steps (b2l "/run") (b2l "/tmp/run") ++
  pivot_steps ++ privilege_steps n.

(** All steps stop on negative answers only. *)
Lemma add_mount_steps_proper from to : Forall proper_step (add_mount_steps from to).
Proof. repeat constructor; auto with steps. Qed.

Lemma resolv_steps_proper root real fd : Forall proper_step (resolv_steps root real fd).
Proof.
  unfold resolv_steps. constructor; [auto with steps|]. destruct (escapes real); [|constructor].
  repeat constructor; auto with steps. by intros a.
Qed.

Lemma drop_steps_proper i n : Forall proper_step (drop_steps i n).
Proof.
  apply Forall_app. split; [|repeat constructor; auto with steps].
  apply Forall_map, Forall_true. auto with steps.
Qed.

Lemma tmpfs_steps_proper : Forall proper_step tmpfs_steps.
Proof. repeat constructor; auto with steps. Qed.

Lemma pivot_steps_proper : Forall proper_step pivot_steps.
Proof. repeat constructor; auto with steps. Qed.

Lemma privilege_steps_proper n : Forall proper_step (privilege_steps n).
Proof.
  unfold privilege_steps. apply Forall_app; split; [|apply Forall_app; split; [apply drop_steps_proper|]].
  all: repeat constructor; auto with steps.
Qed.

Lemma sandbox_steps_proper real fd n : Forall proper_step (sandbox_steps real fd n).
Proof.
  unfold sandbox_steps. apply Forall_app; split; [apply tmpfs_steps_proper|].
  apply Forall_app; split; [apply add_mount_steps_proper|].
  apply Forall_app; split; [apply resolv_steps_proper|].
  apply Forall_app; split; [apply add_mount_steps_proper|].
  apply Forall_app; split; [apply pivot_steps_proper|apply privilege_steps_proper].
Qed.
End spec.

Section correctness.
Context `{E : Env}.
Variable g_path_get_dirname : bytes -> bytes.

(** The kernel answers [EINVAL] for a capability number it does not know; [N]
    is the number of capabilities it knows (prctl(2), [PR_CAPBSET_DROP]). *)
Definition knows_caps (N : Z) : Prop := forall h i, N <= i ->
  let a := env h (Prctl PR_CAPBSET_DROP i) in ret a < 0 /\ errno a = EINVAL.

Lemma add_mount_runs from to h : wp (add_mount from to) h (returns (runs (add_mount_steps from to))).
Proof.
  unfold add_mount. apply wp_bind_sys. intros a Ha. unfold add_mount_steps.
  set (first := Mount [] from [] (or_flags [MS_SLAVE; MS_REC]) None) in *.
  destruct ((ret a <? 0) && negb (errno a =? EINVAL)) eqn:Hb.
  - apply wp_ret. apply (runs_stop (tolerant first EINVAL)). simpl. lia.
  - eapply wp_mono.
    + do 3 (apply wp_checked_runs; intros). apply wp_ret. apply runs_done.
    + intros d [r| | |] Hr; simpl in *; try done. apply (runs_go (tolerant first EINVAL)); [|done].
      simpl. lia.
Qed.

Lemma resolv_runs root h :
  wp (bind_escaped_resolv_conf g_path_get_dirname root) h
    (returns (fun d r => exists real fd, runs (resolv_steps g_path_get_dirname root real fd) d r)).
Proof.
  unfold bind_escaped_resolv_conf. apply wp_bind_sys. intros real Hreal.
  set (c := Realpath (b2l "/etc/resolv.conf")) in *. cbv zeta.
  destruct ((ret real =? 0) || has_prefix (out real) (b2l "/etc") || has_prefix (out real) (b2l "/run")) eqn:Hb.
  - apply wp_ret. exists real, 0. unfold resolv_steps.
    assert (escapes real = false) as ->. { unfold escapes. destruct (ret real =? 0), (has_prefix _ _), (has_prefix _ _); done. }
    apply (runs_go (answers c real)); [done|constructor].
  - assert (escapes real = true) as Hesc by (unfold escapes; destruct (ret real =? 0), (has_prefix _ _), (has_prefix _ _); done).
    set (dest := root ++ out real).
    assert (forall l d r, runs l d r -> runs (answers c real :: l) ((c, real) :: d) r) as Hgo.
    { intros l d r. by apply (runs_go (answers c real)). }
    apply wp_checked.
    { intros a Hneg. exists real, 0. unfold resolv_steps. rewrite Hesc. apply Hgo. by apply (runs_stop (must _)). }
    intros m Hm. apply wp_bind_sys_ret. intros f Hf. destruct (Z.ltb_spec (ret f) 0) as [Hneg|Hfd].
    { apply wp_ret. exists real, 0. unfold resolv_steps. rewrite Hesc. apply Hgo.
      apply (runs_go (must _)); [done|]. by apply (runs_stop (Step _ _ _)). }
    apply wp_bind_sys_. intros x _. eapply wp_mono; [apply add_mount_runs|].
    intros d [r| | |] Hr; simpl in *; try done. exists real, (ret f). unfold resolv_steps. rewrite Hesc.
    apply Hgo. apply (runs_go (must _)); [done|]. apply (runs_go (Step _ _ _)); [done|].
    by apply (runs_go (ignored _)).
Qed.

Lemma kept_out_nil i : kept_out i i = [].
Proof. unfold kept_out. by rewrite Z.sub_diag. Qed.

Lemma kept_out_cons i n :
  i < n -> kept_out i n = if bool_decide (i = CAP_NET_BIND_SERVICE) then kept_out (i + 1) n else i :: kept_out (i + 1) n.
Proof.
  intros Hi. unfold kept_out. rewrite (seqZ_cons i) by lia.
  replace (Z.pred (n - i)) with (n - (i + 1)) by lia. replace (Z.succ i) with (i + 1) by lia.
  rewrite filter_cons. by case_decide; case_bool_decide.
Qed.

Lemma drop_caps_runs N fuel i h :
  knows_caps N -> (Z.to_nat (N - i) + (if (i <=? CAP_NET_BIND_SERVICE)%Z then 2 else 1) <= fuel)%nat ->
  wp (drop_caps fuel i) h
    (returns (fun d r => exists n, i <= n /\ n <> CAP_NET_BIND_SERVICE /\ runs (drop_steps i n) d r)).
Proof.
  intros HN. revert i h. induction fuel as [|fuel IH]; intros i h Hf; [destruct (i <=? CAP_NET_BIND_SERVICE); lia|].
  cbn [drop_caps]. assert (CAP_NET_BIND_SERVICE = 10) as H10 by done.
  destruct (Z.eqb_spec i CAP_NET_BIND_SERVICE) as [Hi|Hi].
  { eapply wp_mono; [apply IH|].
    - destruct (Z.leb_spec i CAP_NET_BIND_SERVICE), (Z.leb_spec (i + 1) CAP_NET_BIND_SERVICE); lia.
    - intros d [r| | |] Hr; simpl in *; try done. destruct Hr as (n & Hn & Hn' & Hr). exists n.
      split_and!; [lia|done|]. unfold drop_steps in *. rewrite kept_out_cons by lia. by rewrite bool_decide_true. }
  apply wp_bind_sys. intros a Ha. destruct (Z.ltb_spec (ret a) 0) as [Hneg|Hok].
  - destruct (Z.eqb_spec (errno a) EINVAL) as [Herr|Herr].
    + apply wp_ret. exists i. split_and!; [lia|done|]. unfold drop_steps. rewrite kept_out_nil.
      apply (runs_go (refused _ _)); [done|constructor].
    + apply wp_ret. exists (if i + 1 =? CAP_NET_BIND_SERVICE then i + 2 else i + 1).
      split_and!; [destruct (Z.eqb_spec (i + 1) CAP_NET_BIND_SERVICE); lia
                  |destruct (Z.eqb_spec (i + 1) CAP_NET_BIND_SERVICE); lia|].
      unfold drop_steps. rewrite kept_out_cons by (destruct (Z.eqb_spec (i + 1) CAP_NET_BIND_SERVICE); lia).
      rewrite bool_decide_false by done. by apply (runs_stop (unless _ _)).
  - eapply wp_mono; [apply IH|].
    + destruct (Z.le_gt_cases N i) as [Hle|Hgt]; [destruct (HN h i Hle) as [Hlt _]; rewrite Ha in Hlt; lia|].
      destruct (Z.leb_spec i CAP_NET_BIND_SERVICE), (Z.leb_spec (i + 1) CAP_NET_BIND_SERVICE); lia.
    + intros d [r| | |] Hr; simpl in *; try done. destruct Hr as (n & Hn & Hn' & Hr). exists n.
      split_and!; [lia|done|]. unfold drop_steps in *. rewrite kept_out_cons by lia. rewrite bool_decide_false by done.
      by apply (runs_go (unless _ _)).
Qed.

(** The sequences [create_sandbox] may run. *)
Definition sandbox_runs (l : list step) : Prop :=
  exists real fd n, (0 <= n /\ n <> CAP_NET_BIND_SERVICE) /\ l = sandbox_steps g_path_get_dirname real fd n.

(** Some run begins with the calls made so far. *)
Ltac some_run real fd :=
  eexists; exists real, fd, 0; split; [by split|]; cbv beta; unfold sandbox_steps; reflexivity.
Ltac next_call real fd := apply wp_checked_follows; [some_run real fd|]; intros h'; clear h'.

Lemma create_sandbox_follows N fuel h :
  knows_caps N -> (Z.to_nat N + 2 <= fuel)%nat ->
  wp (create_sandbox g_path_get_dirname fuel) h (follows sandbox_runs).
Proof.
  intros HN Hf. unfold create_sandbox.
  assert (forall from to h', wp (add_mount from to) h' (follows (fun l => l = add_mount_steps from to))) as Hadd.
  { intros from to h'. eapply wp_mono; [apply add_mount_runs|]. intros d [r| | |] Hr; simpl in *; try done. by eexists. }
  do 6 (apply wp_checked_follows; [some_run (Ans 0 0 [] []) 0|]; intros ?).
  eapply wp_call_follows; [apply Hadd|intros l ->; apply add_mount_steps_proper
    |intros l ->; some_run (Ans 0 0 [] []) 0|]. intros ? ? ->.
  eapply (wp_call_follows _ _ _ (fun l => exists real fd, l = resolv_steps g_path_get_dirname (b2l "/tmp") real fd)).
  { eapply wp_mono; [apply resolv_runs|]. intros d [r| | |] Hr; simpl in *; try done.
    destruct Hr as (real & fd & Hr). eexists. by split; [eexists _, _|]. }
  { intros l (real & fd & ->). apply resolv_steps_proper. }
  { intros l (real & fd & ->). some_run real fd. }
  intros ? ? (real & fd & ->).
  eapply wp_call_follows; [apply Hadd|intros l ->; apply add_mount_steps_proper
    |intros l ->; some_run real fd|]. intros ? ? ->.
  do 5 (apply wp_checked_follows; [some_run real fd|]; intros ?).
  apply wp_ignored_follows. intros ?.
  do 2 (apply wp_checked_follows; [some_run real fd|]; intros ?).
  eapply (wp_call_follows _ _ _ (fun l => exists n, (0 <= n /\ n <> CAP_NET_BIND_SERVICE) /\ l = drop_steps 0 n)).
  { eapply wp_mono; [apply (drop_caps_runs N); [done|]|].
    - change (0 <=? CAP_NET_BIND_SERVICE) with true. replace (N - 0) with N by lia. done.
    - intros d [r| | |] Hr; simpl in *; try done. destruct Hr as (n & Hn & Hn' & Hr).
      eexists. by split; [exists n|]. }
  { intros l (n & _ & ->). apply drop_steps_proper. }
  { intros l (n & Hn & ->). eexists. exists real, fd, n. split; [done|]. reflexivity. }
  intros ? ? (n & Hn & ->).
  apply wp_checked_follows; [eexists; exists real, fd, n; split; [done|]; reflexivity|]. intros ?.
  apply wp_done_follows. exists real, fd, n. by split.
Qed.

(** C27: [create_sandbox] ends, and what it did is a run of the fixed sequence
    [sandbox_steps]: it stops at the first call that fails, with the value of
    that call (only a failing propagation change of a source that is no mount
    point, and the final read-only remount, are tolerated), and it returns 0
    only after the whole sequence.  [Z.to_nat N + 2] iterations are enough for
    the capability loop when the kernel knows [N] capabilities. *)
Theorem create_sandbox_correct N fuel h :
  knows_caps N -> (Z.to_nat N + 2 <= fuel)%nat ->
  exists d r real fd n,
    create_sandbox g_path_get_dirname fuel h = (d, Done r) /\ r <= 0 /\
    runs (sandbox_steps g_path_get_dirname real fd n) d r /\
    (r = 0 -> calls_of d = map step_call (sandbox_steps g_path_get_dirname real fd n)).
Proof.
  intros HN Hf. pose proof (create_sandbox_follows N fuel h HN Hf) as H. unfold wp in H.
  destruct (create_sandbox g_path_get_dirname fuel h) as [d [r| | |]]; simpl in H; try done.
  destruct H as (l & (real & fd & n & Hn & ->) & Hr).
  pose proof (sandbox_steps_proper g_path_get_dirname real fd n) as Hp.
  exists d, r, real, fd, n. split_and!; [done|by eapply runs_result|done|].
  intros ->. by apply runs_complete.
Qed.

(** What a confined process looks like in the trace. *)
Record confined (d : list event) : Prop := {
  (* no new privileges, no ambient capabilities *)
  conf_no_new_privs : exists a, (Prctl PR_SET_NO_NEW_PRIVS 1, a) ∈ d /\ 0 <= ret a;
  conf_ambient : exists a, (Prctl PR_CAP_AMBIENT PR_CAP_AMBIENT_CLEAR_ALL, a) ∈ d /\ 0 <= ret a;
  (* every capability but one is dropped from the bounding set, or unknown to the kernel *)
  conf_bounding : forall c, 0 <= c -> c <> CAP_NET_BIND_SERVICE ->
    (exists a, (Prctl PR_CAPBSET_DROP c, a) ∈ d /\ 0 <= ret a) \/
    (exists n a, n <= c /\ (Prctl PR_CAPBSET_DROP n, a) ∈ d /\ ret a < 0 /\ errno a = EINVAL);
  conf_kept : forall a, ((Prctl PR_CAPBSET_DROP CAP_NET_BIND_SERVICE, a) ∉ d);
  (* at the end the process has that capability only *)
  conf_capset : exists a, last d = Some (Capset LINUX_CAPABILITY_VERSION_3 cap_data, a) /\ 0 <= ret a;
  (* the root was changed, and then the old one detached *)
  conf_root : exists d1 d2 d3 a b,
    d = d1 ++ (PivotRoot (b2l ".") (b2l "old"), a) :: d2 ++ (Umount2 (b2l "/old") MNT_DETACH, b) :: d3 /\
    0 <= ret a /\ 0 <= ret b
}.

(** The steps before the privileges are dropped. *)
Definition before_privileges (real : answer) (fd : Z) : list step :=
  tmpfs_steps ++ add_mount_steps (b2l "/etc") (b2l "/tmp/etc") ++
  resolv_steps g_path_get_dirname (b2l "/tmp") real fd ++
  add_mount_steps (b2l "/run") (b2l "/tmp/run") ++ pivot_steps.

Lemma sandbox_steps_split real fd n :
  sandbox_steps g_path_get_dirname real fd n = before_privileges real fd ++ privilege_steps n.
Proof. unfold sandbox_steps, before_privileges. by rewrite <-!app_assoc. Qed.

Lemma before_privileges_proper real fd : Forall proper_step (before_privileges real fd).
Proof.
  pose proof (sandbox_steps_proper g_path_get_dirname real fd 0) as H. rewrite sandbox_steps_split in H.
  by apply Forall_app in H as [H _].
Qed.

Lemma before_privileges_prctl real fd :
  Forall (fun s => match step_call s with Prctl _ _ => False | _ => True end) (before_privileges real fd).
Proof.
  unfold before_privileges, resolv_steps. repeat (apply Forall_app; split); [repeat constructor..| | |].
  - constructor; [done|]. destruct (escapes real); repeat constructor.
  - repeat constructor.
  - repeat constructor.
Qed.

Lemma kept_out_elem i n c : c ∈ kept_out i n <-> i <= c < n /\ c <> CAP_NET_BIND_SERVICE.
Proof. unfold kept_out. rewrite list_elem_of_filter, elem_of_seqZ. intuition lia. Qed.

Lemma privilege_steps_drop n c s :
  s ∈ privilege_steps n -> step_call s = Prctl PR_CAPBSET_DROP c -> c = n \/ c ∈ kept_out 0 n.
Proof.
  unfold privilege_steps, drop_steps. rewrite !elem_of_app.
  intros [Hs|[[Hs|Hs]|Hs]]; revert Hs.
  - rewrite !elem_of_cons, elem_of_nil. intros [-> |[-> |[]]]; simpl; discriminate.
  - rewrite list_elem_of_In, in_map_iff. intros (x & <- & Hx%list_elem_of_In). simpl. intros [= ->]. by right.
  - rewrite elem_of_cons, elem_of_nil. intros [-> |[]]. simpl. intros [= ->]. by left.
  - rewrite elem_of_cons, elem_of_nil. intros [-> |[]]. simpl. discriminate.
Qed.

(** The order of the change of root and of detaching the old one. *)
Lemma pivot_then_detach real fd d :
  runs (before_privileges real fd) d 0 ->
  exists d1 d2 d3 a b,
    d = d1 ++ (PivotRoot (b2l ".") (b2l "old"), a) :: d2 ++ (Umount2 (b2l "/old") MNT_DETACH, b) :: d3 /\
    0 <= ret a /\ 0 <= ret b.
Proof.
  intros Hr. unfold before_privileges in Hr. rewrite !app_assoc in Hr.
  pose proof (before_privileges_proper real fd) as Hp. unfold before_privileges in Hp. rewrite !app_assoc in Hp.
  apply Forall_app in Hp as [Hp _]. apply runs_split in Hr as (d1 & d2 & -> & _ & Hr); [|done].
  apply (runs_split [must (Chdir (b2l "/tmp")); must (PivotRoot (b2l ".") (b2l "old"))]) in Hr
    as (d3 & d4 & -> & H3 & H4); [|repeat constructor; auto with steps].
  apply (runs_split [must (Chdir (b2l "/")); must (Umount2 (b2l "/old") MNT_DETACH)]) in H4
    as (d5 & d6 & -> & H5 & H6); [|repeat constructor; auto with steps].
  inversion H3 as [|? x1 ? ? ? _ H3' |]; subst; [|simpl in *; lia].
  inversion H3' as [|? x2 ? ? ? G2 H3'' |]; subst; [|simpl in *; lia]. inversion H3''; subst.
  inversion H5 as [|? x3 ? ? ? _ H5' |]; subst; [|simpl in *; lia].
  inversion H5' as [|? x4 ? ? ? G4 H5'' |]; subst; [|simpl in *; lia]. inversion H5''; subst.
  exists (d1 ++ [(Chdir (b2l "/tmp"), x1)]), [(Chdir (b2l "/"), x3)], d6, x2, x4.
  split; [|by split]. by rewrite <-!app_assoc.
Qed.

Lemma sandbox_steps_confine real fd n d :
  0 <= n -> n <> CAP_NET_BIND_SERVICE ->
  runs (sandbox_steps g_path_get_dirname real fd n) d 0 -> confined d.
Proof.
  intros Hn0 Hn Hr. rewrite sandbox_steps_split in Hr.
  pose proof (before_privileges_proper real fd) as Hp1. pose proof (privilege_steps_proper n) as Hp2.
  apply runs_split in Hr as (d1 & d2 & -> & H1 & H2); [|done].
  assert (forall s, s ∈ privilege_steps n -> exists a, (step_call s, a) ∈ d1 ++ d2 /\ goes_on s a) as Hev.
  { intros s Hs. destruct (runs_step _ _ s Hp2 H2 Hs) as (a & Ha & Hg). exists a. split; [|done].
    apply elem_of_app. by right. }
  split.
  - apply (Hev (must _)). by left.
  - apply (Hev (must _)). by right; left.
  - intros c Hc Hcap. destruct (Z.lt_ge_cases c n) as [Hlt|Hge].
    + left. apply (Hev (unless (Prctl PR_CAPBSET_DROP c) EINVAL)). unfold privilege_steps, drop_steps.
      apply elem_of_app. right. apply elem_of_app. left. apply elem_of_app. left.
      apply list_elem_of_In, in_map_iff. exists c. split; [done|]. apply list_elem_of_In, kept_out_elem. lia.
    + right. destruct (Hev (refused (Prctl PR_CAPBSET_DROP n) EINVAL)) as (a & Ha & Hg).
      { unfold privilege_steps, drop_steps. apply elem_of_app. right. apply elem_of_app. left.
        apply elem_of_app. right. by left. }
      exists n, a. split; [lia|]. by split.
  - intros a [Hin|Hin]%elem_of_app.
    + destruct (runs_event _ _ _ _ Hp1 H1 Hin) as (s & Hs & Hc & _).
      pose proof (before_privileges_prctl real fd) as Hf. rewrite Forall_forall in Hf. specialize (Hf s Hs).
      by rewrite Hc in Hf.
    + destruct (runs_event _ _ _ _ Hp2 H2 Hin) as (s & Hs & Hc & _).
      destruct (privilege_steps_drop n _ s Hs Hc) as [?|Hk%kept_out_elem]; [done|]. by destruct Hk.
  - unfold privilege_steps in H2. rewrite app_assoc in H2. unfold privilege_steps in Hp2. rewrite app_assoc in Hp2.
    apply Forall_app in Hp2 as [Hp2 _]. apply runs_split in H2 as (d3 & d4 & -> & _ & H4); [|done].
    inversion H4 as [|? a ? ? ? Hg H4' |]; subst; [|simpl in *; lia]. inversion H4'; subst.
    exists a. split; [|done]. rewrite app_assoc. apply last_snoc.
  - destruct (pivot_then_detach real fd d1 H1) as (e1 & e2 & e3 & a & b & -> & Ha & Hb).
    exists e1, e2, (e3 ++ d2), a, b. split; [|by split]. by rewrite <-!app_assoc; simpl; rewrite <-!app_assoc.
Qed.

(** C7: a sandbox that was created confines the process. *)
Theorem sandbox_confines N fuel h d :
  knows_caps N -> (Z.to_nat N + 2 <= fuel)%nat ->
  create_sandbox g_path_get_dirname fuel h = (d, Done 0) -> confined d.
Proof.
  intros HN Hf Hrun. pose proof (create_sandbox_follows N fuel h HN Hf) as H. unfold wp in H.
  rewrite Hrun in H. destruct H as (l & (real & fd & n & [Hn0 Hn] & ->) & Hr).
  by eapply sandbox_steps_confine.
Qed.
End correctness.

(** ** A kernel with 41 capabilities whose /etc/resolv.conf escapes *)

Definition kernel41 : Env := fun h c =>
  match c with
  | Prctl 24 i => if 41 <=? i then Ans (-1) EINVAL [] [] else Ans 0 0 [] []
  | Realpath _ => Ans 1 0 (b2l "/var/lib/resolv.conf") []
  | Creat _ _ => Ans 5 0 [] []
  | _ => Ans 0 0 [] []
  end.

Lemma kernel41_knows : knows_caps (E := kernel41) 41.
Proof.
  intros h i Hi. unfold env, kernel41, PR_CAPBSET_DROP. destruct (Z.leb_spec 41 i); [|lia]. by split.
Qed.

(** The part of a path before its last slash. *)
Definition dirname (s : bytes) : bytes :=
  rev (drop 1 (snd (span (fun c => negb (c =? "/"%c)) (rev s)))).

Definition sandbox41 : list event * outcome Z := create_sandbox (E := kernel41) dirname 43 [].

Lemma create_sandbox_correct_witness :
  exists d r, create_sandbox (E := kernel41) dirname 43 [] = (d, Done r) /\ r <= 0 /\
    MkdirWithParents (b2l "/tmp/var/lib") 493 ∈ calls_of d.
Proof.
  destruct (create_sandbox_correct (E := kernel41) dirname 41 43 [] kernel41_knows ltac:(vm_compute; lia))
    as (d & r & real & fd & n & Hrun & Hr & _).
  exists d, r. split_and!; [exact Hrun|exact Hr|]. vm_compute in Hrun. injection Hrun as <- _.
  apply list_elem_of_In. vm_compute. tauto.
Defined.

Lemma sandbox_confines_witness : confined sandbox41.1.
Proof.
  apply (sandbox_confines (E := kernel41) dirname 41 43 []); [apply kernel41_knows|vm_compute; lia|].
  vm_compute. reflexivity.
Defined.
