(* ===== verification/Seccomp.v ===== *)
(** * The seccomp filter (seccompfilter.c, seccompfilter_rules.h, seccomparch.h)

    The filter allows everything but a list of system calls.  libseccomp is
    the environment: whether it knows a system call and whether it accepts a
    rule is its answer. *)

From S2P Require Import Prelude Libc OS.

(** ** The architectures *)

Definition SCMP_ARCH_X86 : Z := 0x40000003.
Definition SCMP_ARCH_X86_64 : Z := 0xC000003E.
Definition SCMP_ARCH_X32 : Z := 0x4000003E.
Definition SCMP_ARCH_ARM : Z := 0x40000028.
Definition SCMP_ARCH_AARCH64 : Z := 0xC00000B7.
Definition SCMP_ARCH_MIPS : Z := 0x00000008.
Definition SCMP_ARCH_MIPS64 : Z := 0x80000008.
Definition SCMP_ARCH_MIPS64N32 : Z := 0xA0000008.
Definition SCMP_ARCH_MIPSEL : Z := 0x40000008.
Definition SCMP_ARCH_MIPSEL64 : Z := 0xC0000008.
Definition SCMP_ARCH_MIPSEL64N32 : Z := 0xE0000008.
Definition SCMP_ARCH_PPC : Z := 0x00000014.
Definition SCMP_ARCH_PPC64 : Z := 0x80000015.
Definition SCMP_ARCH_PPC64LE : Z := 0xC0000015.
Definition SCMP_ARCH_S390 : Z := 0x00000016.
Definition SCMP_ARCH_S390X : Z := 0x80000016.

(** The compiler's predefined macros the header looks at. *)
Inductive mips_sim := ABI32 | ABI64 | NABI32.
Record macros := Macros {
  __x86_64__ : bool; __ILP32__ : bool; __i386__ : bool; __aarch64__ : bool; __arm__ : bool;
  __mips__ : bool; big_endian : bool; _MIPS_SIM : mips_sim;
  __powerpc64__ : bool; __powerpc__ : bool; __s390x__ : bool; __s390__ : bool
}.

(** The table without its end marker: [seccomp_extra_archs_items] is one less
    than the number of elements. *)
Definition seccomp_extra_archs (t : macros) : list Z :=
  if __x86_64__ t && __ILP32__ t then [SCMP_ARCH_X86; SCMP_ARCH_X86_64]
  else if __x86_64__ t && negb (__ILP32__ t) then [SCMP_ARCH_X86; SCMP_ARCH_X32]
  else if __i386__ t then []
  else if __aarch64__ t then [SCMP_ARCH_ARM]
  else if __arm__ t then []
  else if __mips__ t then
    match _MIPS_SIM t, big_endian t with
    | ABI32, true => [SCMP_ARCH_MIPSEL]
    | ABI32, false => [SCMP_ARCH_MIPS]
    | ABI64, true => [SCMP_ARCH_MIPSEL; SCMP_ARCH_MIPS; SCMP_ARCH_MIPSEL64N32; SCMP_ARCH_MIPS64N32; SCMP_ARCH_MIPSEL64]
    | ABI64, false => [SCMP_ARCH_MIPS; SCMP_ARCH_MIPSEL; SCMP_ARCH_MIPS64N32; SCMP_ARCH_MIPSEL64N32; SCMP_ARCH_MIPS64]
    | NABI32, true => [SCMP_ARCH_MIPSEL; SCMP_ARCH_MIPS; SCMP_ARCH_MIPSEL64; SCMP_ARCH_MIPS64; SCMP_ARCH_MIPSEL64N32]
    | NABI32, false => [SCMP_ARCH_MIPS; SCMP_ARCH_MIPSEL; SCMP_ARCH_MIPS64; SCMP_ARCH_MIPSEL64; SCMP_ARCH_MIPS64N32]
    end
  else if __powerpc64__ t && big_endian t then [SCMP_ARCH_PPC; SCMP_ARCH_PPC64LE]
  else if __powerpc64__ t && negb (big_endian t) then [SCMP_ARCH_PPC; SCMP_ARCH_PPC64]
  else if __powerpc__ t then []
  else if __s390x__ t then [SCMP_ARCH_S390]
  else if __s390__ t then []
  else [].

(** ** The rules *)

Definition block_list : list bytes := map b2l
  ["execve"; "lookup_dcookie"; "pidfd_getfd"; "ptrace"; "process_vm_readv"; "process_vm_writev";
   "delete_module"; "finit_module"; "init_module"; "chroot"; "fsconfig"; "fsmount"; "fsopen";
   "fspick"; "mount"; "move_mount"; "open_tree"; "pivot_root"; "umount"; "umount2";
   "open_by_handle_at"; "execveat"; "pidfd_open"; "pidfd_send_signal"; "prctl"; "setns";
   "unshare"; "kexec_file_load"; "kexec_load"; "reboot"; "name_to_handle_at"]%string.

Definition SCMP_ACT_KILL_PROCESS : Z := 0x80000000.
Definition SCMP_ACT_KILL : Z := 0.
Definition SCMP_ACT_ALLOW : Z := 0x7fff0000.
Definition SECCOMP_RET_KILL_PROCESS : Z := 0x80000000.
Definition NR_SCMP_ERROR : Z := -1.

(** The three [GString]s. *)
Record rule_log := Log { blocked : bytes; skipped_undefined : bytes; skipped_failed : bytes }.

Section seccomp.
Context `{E : Env}.
(** The target, whether the headers define the kill-process action, and
    libc's [strerror]. *)
Variable target : macros.
Variable have_kill_process : bool.
Variable strerror : Z -> bytes.

Definition get_block_action : M Z :=
  if have_kill_process then
    rc ← sys_ret (SeccompGetActionAvail SECCOMP_RET_KILL_PROCESS);
    mret (if rc =? 0 then SCMP_ACT_KILL_PROCESS else SCMP_ACT_KILL)
  else mret SCMP_ACT_KILL.

Definition add_block_rule (block_action : Z) (log : rule_log) (name : bytes) : M rule_log :=
  num ← sys_ret (SeccompResolveName name);
  if num =? NR_SCMP_ERROR then
    mret (Log (blocked log) (skipped_undefined log ++ " "%c :: name) (skipped_failed log))
  else
    rc ← sys_ret (SeccompRuleAdd block_action num);
    if negb (rc =? 0) then
      mret (Log (blocked log) (skipped_undefined log)
              (skipped_failed log ++ " "%c :: name ++ "("%c :: strerror (- rc) ++ [")"%c]))
    else mret (Log (blocked log ++ " "%c :: name) (skipped_undefined log) (skipped_failed log)).

Fixpoint add_block_rules (block_action : Z) (log : rule_log) (names : list bytes) : M rule_log :=
  match names with
  | [] => mret log
  | name :: names' => log ← add_block_rule block_action log name; add_block_rules block_action log names'
  end.

(** A failure is only reported. *)
Fixpoint add_archs (archs : list Z) : M unit :=
  match archs with
  | [] => mret tt
  | arch :: archs' => _ ← sys_ (SeccompArchAdd arch); add_archs archs'
  end.

(** [seccomp_init] answers 0 for NULL. *)
Definition enable_seccomp : M Z :=
  block_action ← get_block_action;
  ctx ← sys_ret (SeccompInit SCMP_ACT_ALLOW);
  if ctx =? 0 then mret (-1)
  else
    _ ← add_archs (seccomp_extra_archs target);
    log ← add_block_rules block_action (Log [] [] []) block_list;
    rc ← sys_ret SeccompLoad;
    if negb (rc =? 0) then mret rc
    else
      _ ← sys_ (Printf (b2l "seccomp: The following syscalls are blocked:" ++ blocked log));
      mret rc.
End seccomp.

(** ** What the filter blocks *)

(** The macros of one of the supported targets, with its own architecture. *)
Inductive native : macros -> Z -> Prop :=
| nat_x32 be sim : native (Macros true true false false false false be sim false false false false) SCMP_ARCH_X32
| nat_x86_64 be sim : native (Macros true false false false false false be sim false false false false) SCMP_ARCH_X86_64
| nat_x86 ilp be sim : native (Macros false ilp true false false false be sim false false false false) SCMP_ARCH_X86
| nat_aarch64 ilp be sim : native (Macros false ilp false true false false be sim false false false false) SCMP_ARCH_AARCH64
| nat_arm ilp be sim : native (Macros false ilp false false true false be sim false false false false) SCMP_ARCH_ARM
| nat_mips ilp be sim :
    native (Macros false ilp false false false true be sim false false false false)
      (match sim, be with
       | ABI32, true => SCMP_ARCH_MIPS | ABI32, false => SCMP_ARCH_MIPSEL
       | ABI64, true => SCMP_ARCH_MIPS64 | ABI64, false => SCMP_ARCH_MIPSEL64
       | NABI32, true => SCMP_ARCH_MIPS64N32 | NABI32, false => SCMP_ARCH_MIPSEL64N32
       end)
| nat_ppc64 ilp be sim :
    native (Macros false ilp false false false false be sim true true false false)
      (if be then SCMP_ARCH_PPC64 else SCMP_ARCH_PPC64LE)
| nat_ppc ilp be sim : native (Macros false ilp false false false false be sim false true false false) SCMP_ARCH_PPC
| nat_s390x ilp be sim : native (Macros false ilp false false false false be sim false false true true) SCMP_ARCH_S390X
| nat_s390 ilp be sim : native (Macros false ilp false false false false be sim false false false true) SCMP_ARCH_S390.

(** The table of extra architectures does not contain the native one (as
    its comment says), nor the end marker, nor any architecture twice, for
    every target the header distinguishes. *)
Theorem extra_archs_not_native t a :
  native t a -> (a ∉ seccomp_extra_archs t) /\ (0xFFFFFFFF ∉ seccomp_extra_archs t) /\ NoDup (seccomp_extra_archs t).
Proof.
  assert (forall (x : Z) (l : list Z), bool_decide (x ∉ l) = true -> x ∉ l) as Hin by (intros x l H; exact (bool_decide_eq_true_1 _ H)).
  assert (forall l : list Z, bool_decide (NoDup l) = true -> NoDup l) as Hnd by (intros l H; exact (bool_decide_eq_true_1 _ H)).
  intros H. destruct H; repeat match goal with b : bool |- _ => destruct b | s : mips_sim |- _ => destruct s end;
    (split_and!; [apply Hin|apply Hin|apply Hnd]); vm_compute; reflexivity.
Qed.

Lemma extra_archs_not_native_witness :
  SCMP_ARCH_X86_64 ∉ seccomp_extra_archs (Macros true false false false false false false ABI32 false false false false).
Proof. exact (proj1 (extra_archs_not_native _ _ (nat_x86_64 false ABI32))). Defined.

(** What became of one system call, and the events that show it. *)
Inductive verdict := NotDefined | Refused (rc : Z) | IsBlocked.

Inductive rule_run (action : Z) (name : bytes) : list event -> verdict -> Prop :=
| rule_undefined a : ret a = NR_SCMP_ERROR -> rule_run action name [(SeccompResolveName name, a)] NotDefined
| rule_refused a b :
    ret a <> NR_SCMP_ERROR -> ret b <> 0 ->
    rule_run action name [(SeccompResolveName name, a); (SeccompRuleAdd action (ret a), b)] (Refused (ret b))
| rule_blocked a b :
    ret a <> NR_SCMP_ERROR -> ret b = 0 ->
    rule_run action name [(SeccompResolveName name, a); (SeccompRuleAdd action (ret a), b)] IsBlocked.

Definition is_blocked (nv : bytes * verdict) : bool := match nv.2 with IsBlocked => true | _ => false end.
Definition is_undefined (nv : bytes * verdict) : bool := match nv.2 with NotDefined => true | _ => false end.

(** The names with a verdict, each after a blank. *)
Definition spaced (p : bytes * verdict -> bool) (nvs : list (bytes * verdict)) : bytes :=
  concat (map (fun nv => " "%c :: nv.1) (List.filter p nvs)).

Section correctness.
Context `{E : Env}.
Variable target : macros.
Variable have_kill_process : bool.
Variable strerror : Z -> bytes.

Definition rules_post (action : Z) (names : list bytes) (log : rule_log) (d : list event) (log' : rule_log) : Prop :=
  exists nvs dss, map fst nvs = names /\ d = concat dss /\
    Forall2 (fun nv ds => rule_run action nv.1 ds nv.2) nvs dss /\
    blocked log' = blocked log ++ spaced is_blocked nvs /\
    skipped_undefined log' = skipped_undefined log ++ spaced is_undefined nvs.

Lemma add_block_rule_spec action log name h :
  wp (add_block_rule strerror action log name) h (returns (fun d log' =>
    exists v, rule_run action name d v /\
      blocked log' = blocked log ++ spaced is_blocked [(name, v)] /\
      skipped_undefined log' = skipped_undefined log ++ spaced is_undefined [(name, v)])).
Proof.
  unfold add_block_rule. apply wp_bind_sys_ret. intros a Ha. destruct (Z.eqb_spec (ret a) NR_SCMP_ERROR).
  - apply wp_ret. exists NotDefined. split; [by constructor|]. unfold spaced. simpl. by rewrite !app_nil_r.
  - apply wp_bind_sys_ret. intros b Hb. destruct (Z.eqb_spec (ret b) 0); cbn [negb].
    + apply wp_ret. exists IsBlocked. split; [by constructor|]. unfold spaced. simpl. by rewrite !app_nil_r.
    + apply wp_ret. exists (Refused (ret b)). split; [by constructor|]. unfold spaced. simpl. by rewrite !app_nil_r.
Qed.

Lemma spaced_cons p nv nvs : spaced p (nv :: nvs) = spaced p [nv] ++ spaced p nvs.
Proof. unfold spaced. simpl. destruct (p nv); simpl; [|done]. by rewrite app_nil_r. Qed.

Lemma add_block_rules_spec action names log h :
  wp (add_block_rules strerror action log names) h (returns (rules_post action names log)).
Proof.
  revert log h. induction names as [|name names IH]; intros log h; cbn [add_block_rules].
  - apply wp_ret. exists [], []. split_and!; try done; unfold spaced; simpl; by rewrite app_nil_r.
  - apply wp_bind. eapply wp_mono; [apply add_block_rule_spec|]. intros d [log1| | |] H; simpl in *; try done.
    destruct H as (v & Hv & Hb & Hu). eapply wp_mono; [apply IH|].
    intros d' [log2| | |] H; simpl in *; try done. destruct H as (nvs & dss & Hn & -> & Hf & Hb' & Hu').
    exists ((name, v) :: nvs), (d :: dss). split_and!; [simpl; by rewrite Hn|done|by constructor| |].
    + by rewrite Hb', Hb, (spaced_cons _ (name, v) nvs), app_assoc.
    + by rewrite Hu', Hu, (spaced_cons _ (name, v) nvs), app_assoc.
Qed.

Lemma add_archs_spec archs h :
  wp (add_archs archs) h (returns (fun d _ => calls_of d = map SeccompArchAdd archs)).
Proof.
  revert h. induction archs as [|a archs IH]; intros h; cbn [add_archs]; [by apply wp_ret|].
  apply wp_bind_sys_. intros x Hx. eapply wp_mono; [apply IH|].
  intros d [u| | |] H; simpl in *; try done. unfold calls_of in *. simpl. by rewrite H.
Qed.

Definition avail_calls : list call :=
  if have_kill_process then [SeccompGetActionAvail SECCOMP_RET_KILL_PROCESS] else [].

Lemma get_block_action_spec h :
  wp (get_block_action have_kill_process) h (returns (fun d action =>
    calls_of d = avail_calls /\ (action = SCMP_ACT_KILL_PROCESS \/ action = SCMP_ACT_KILL))).
Proof.
  unfold get_block_action, avail_calls. destruct have_kill_process.
  - apply wp_bind_sys_ret. intros a Ha. apply wp_ret. split; [done|]. destruct (ret a =? 0); auto.
  - apply wp_ret. by split; [|right].
Qed.

(** What [enable_seccomp] does, up to the point it gets to. *)
Definition seccomp_post (d : list event) (rc : Z) : Prop :=
  exists pre action, (action = SCMP_ACT_KILL_PROCESS \/ action = SCMP_ACT_KILL) /\
  ((exists a, d = pre ++ [(SeccompInit SCMP_ACT_ALLOW, a)] /\ calls_of pre = avail_calls /\ ret a = 0 /\ rc = -1) \/
   (exists nvs dss l post,
      calls_of pre = avail_calls ++ SeccompInit SCMP_ACT_ALLOW :: map SeccompArchAdd (seccomp_extra_archs target) /\
      map fst nvs = block_list /\ Forall2 (fun nv ds => rule_run action nv.1 ds nv.2) nvs dss /\
      d = pre ++ concat dss ++ (SeccompLoad, l) :: post /\ rc = ret l /\
      if ret l =? 0 then
        exists p, post = [(Printf (b2l "seccomp: The following syscalls are blocked:" ++ spaced is_blocked nvs), p)]
      else post = [])).

Lemma enable_seccomp_spec h :
  wp (enable_seccomp target have_kill_process strerror) h (returns seccomp_post).
Proof.
  unfold enable_seccomp. apply wp_bind. eapply wp_mono; [apply get_block_action_spec|].
  intros d0 [action| | |] H; cbn [bind_post returns] in *; try done. destruct H as [Hc0 Hact].
  apply wp_bind_sys_ret. intros a Ha. destruct (Z.eqb_spec (ret a) 0) as [Hz|Hnz].
  { apply wp_ret. exists d0, action. split; [done|]. left. by exists a. }
  apply wp_bind. eapply wp_mono; [apply add_archs_spec|]. intros d1 [u| | |] H1; cbn [bind_post returns] in *; try done.
  apply wp_bind. eapply wp_mono; [apply add_block_rules_spec|]. intros d2 [log| | |] H2; cbn [bind_post returns] in *; try done.
  destruct H2 as (nvs & dss & Hn & -> & Hf & Hb & _).
  assert (calls_of (d0 ++ (SeccompInit SCMP_ACT_ALLOW, a) :: d1) =
    avail_calls ++ SeccompInit SCMP_ACT_ALLOW :: map SeccompArchAdd (seccomp_extra_archs target)) as Hpre.
  { unfold calls_of. rewrite map_app. cbn [map fst]. by f_equal; [|f_equal]. }
  apply wp_bind_sys_ret. intros l Hl.
  set (pre := d0 ++ (SeccompInit SCMP_ACT_ALLOW, a) :: d1) in *.
  assert (forall post rc, seccomp_post (pre ++ concat dss ++ (SeccompLoad, l) :: post) rc ->
            seccomp_post (d0 ++ (SeccompInit SCMP_ACT_ALLOW, a) :: d1 ++ concat dss ++ (SeccompLoad, l) :: post) rc) as Hre.
  { intros post rc. unfold pre. by rewrite <-app_assoc. }
  destruct (Z.eqb_spec (ret l) 0) as [Hload|Hload]; cbn [negb].
  - apply wp_bind_sys_. intros p Hp. apply wp_ret. apply Hre. exists pre, action. split; [done|]. right.
    exists nvs, dss, l, [(Printf (b2l "seccomp: The following syscalls are blocked:" ++ blocked log), p)].
    split_and!; try done. destruct (Z.eqb_spec (ret l) 0); [|done]. exists p. by rewrite Hb.
  - apply wp_ret. apply Hre. exists pre, action. split; [done|]. right.
    exists nvs, dss, l, []. split_and!; try done. by destruct (Z.eqb_spec (ret l) 0).
Qed.

(** C28: what [enable_seccomp] installs.  The filter allows by default; for
    every system call of the list, in order, libseccomp is asked for its number
    and, if it has one, for a rule that kills; then, and only then, the filter
    is loaded.  So a listed call is killed by the loaded filter unless
    libseccomp does not know its name or refused the rule: such a call is
    skipped, it stays allowed, and the filter is loaded all the same.  The
    result is 0 iff the filter was loaded, and then the list of blocked calls
    that is printed is exactly the calls whose rule was accepted. *)
Theorem enable_seccomp_correct h :
  exists d rc, enable_seccomp target have_kill_process strerror h = (d, Done rc) /\ seccomp_post d rc.
Proof.
  pose proof (enable_seccomp_spec h) as H. unfold wp in H.
  destruct (enable_seccomp target have_kill_process strerror h) as [d [rc| | |]]; simpl in H; try done.
  by exists d, rc.
Qed.
End correctness.
