(* ===== verification/Netns.v ===== *)
(** * Entering the namespace (main.c: nsenter to recvfd)

    The child process joins the namespaces of the target, opens the tap device
    there, configures it and sends its descriptor to the parent; in BESS mode
    it sends an accepted connection instead.  Messages on standard error are
    left out. *)

From S2P Require Import Prelude Libc Cidr Options Config OS Api.

Definition O_RDONLY : Z := 0.
Definition O_RDWR : Z := 2.
Definition CLONE_NEWUSER : Z := 0x10000000.
Definition CLONE_NEWNET : Z := 0x40000000.
Definition IFF_UP : Z := 0x1.
Definition IFF_RUNNING : Z := 0x40.
Definition IFF_TAP : Z := 0x2.
Definition IFF_NO_PI : Z := 0x1000.
Definition TUNSETIFF : Z := 0x400454ca.
Definition SIOCADDRT : Z := 0x890B.
Definition SIOCSIFFLAGS : Z := 0x8914.
Definition SIOCSIFADDR : Z := 0x8916.
Definition SIOCSIFNETMASK : Z := 0x891c.
Definition SIOCSIFMTU : Z := 0x8922.
Definition SIOCSIFHWADDR : Z := 0x8924.
Definition RTF_UP : Z := 1.
Definition RTF_GATEWAY : Z := 2.
Definition INADDR_ANY : Z := 0.
Definition SOCK_DGRAM : Z := 2.
Definition SOCK_SEQPACKET : Z := 5.
Definition SCM_RIGHTS : Z := 1.

(** [strncpy(ifr.ifr_name, name, sizeof(ifr.ifr_name) - 1)] in a zeroed buffer *)
Definition ifr_name (name : bytes) : bytes := take 15 name.

Definition ns_path (pid : Z) (kind : string) : bytes := b2l "/proc/" ++ dec_signed pid ++ b2l "/ns/" ++ b2l kind.

Section netns.
Context `{E : Env} `{BO : ByteOrder}.

(** [if (fd != -1) close(fd)] *)
Definition close_unless (fd : Z) : M unit := if fd =? -1 then mret tt else sys_ (Close fd).

Definition nsenter (target_pid : Z) (netns userns : option bytes) (only_userns : bool) : M Z :=
  let fail (usernsfd netnsfd : Z) : M Z :=
    _ ← close_unless usernsfd; _ ← close_unless netnsfd; mret (-1) in
  (* the namespaces are joined *)
  let join (usernsfd netnsfd : Z) : M Z :=
    let join_net : M Z :=
      if netnsfd =? -1 then mret 0
      else
        r ← sys_ret (Setns netnsfd CLONE_NEWNET);
        if r <? 0 then fail (-1) netnsfd
        else _ ← sys_ (Close netnsfd); mret 0 in
    if usernsfd =? -1 then join_net
    else
      r ← sys_ret (Setns usernsfd CLONE_NEWUSER);
      if only_userns && (r <? 0) then fail usernsfd netnsfd
      else _ ← sys_ (Close usernsfd); join_net in
  (* both paths are opened *)
  let open_user (userns : option bytes) (netnsfd : Z) : M Z :=
    match userns with
    | None => join (-1) netnsfd
    | Some path =>
        usernsfd ← sys_ret (Open path O_RDONLY);
        if usernsfd <? 0 then fail usernsfd netnsfd else join usernsfd netnsfd
    end in
  let open_net (netns userns : option bytes) : M Z :=
    if only_userns then open_user userns (-1)
    else
      match netns with
      | None => undefined
      | Some path =>
          netnsfd ← sys_ret (Open path O_RDONLY);
          if netnsfd <? 0 then fail (-1) netnsfd else open_user userns netnsfd
      end in
  let userns_path (netns : option bytes) : M Z :=
    if bool_decide (userns = None) && negb (target_pid =? 0) then
      let path := ns_path target_pid "user" in
      r ← sys_ret (Asprintf path);
      if r <? 0 then fail (-1) (-1) else open_net netns (Some path)
    else open_net netns userns in
  if negb only_userns && bool_decide (netns = None) then
    let path := ns_path target_pid "net" in
    r ← sys_ret (Asprintf path);
    if r <? 0 then fail (-1) (-1) else userns_path (Some path)
  else userns_path netns.

Definition open_tap (tapname : option bytes) : M Z :=
  match tapname with
  | None => mret (-1)
  | Some name =>
      fd ← sys_ret (Open (b2l "/dev/net/tun") O_RDWR);
      if fd <? 0 then mret fd
      else
        r ← sys_ret (Ioctl fd TUNSETIFF (IfrFlags (ifr_name name) (Z.lor IFF_TAP IFF_NO_PI)));
        if r <? 0 then _ ← sys_ (Close fd); mret (-1)
        else mret fd
  end.

(** One byte of payload and the descriptor. *)
Definition sendfd (sock fd : Z) : M Z := sys_ret (Sendmsg sock [0] fd).

(** The [ioctl]s of [configure_network]: the value of the first that fails, or
    0. *)
Definition configure_ioctls (sockfd : Z) (tapname : bytes) (cfg : slirp4netns_config) : M Z :=
  let up := Z.lor IFF_UP IFF_RUNNING in
  checked (Ioctl sockfd SIOCSIFFLAGS (IfrFlags (b2l "lo") up)) (
  checked (Ioctl sockfd SIOCSIFFLAGS (IfrFlags (ifr_name tapname) up)) (
  checked (Ioctl sockfd SIOCSIFMTU (IfrMtu (ifr_name tapname) (i32 (cfg_mtu cfg)))) (
  checked_call
    (if 0 <? cfg_vmacaddress_len cfg then
       checked (Ioctl sockfd SIOCSIFHWADDR
                  (IfrHwaddr (ifr_name tapname) (sa_family (cfg_vmacaddress cfg)) (sa_data (cfg_vmacaddress cfg))))
         (mret 0)
     else mret 0) (
  checked (Ioctl sockfd SIOCSIFADDR (IfrAddr (ifr_name tapname) AF_INET 0 (recommended_vguest (cfg_net cfg)))) (
  checked (Ioctl sockfd SIOCSIFNETMASK (IfrAddr (ifr_name tapname) AF_INET 0 (vnetmask (cfg_net cfg)))) (
  checked (Ioctl sockfd SIOCADDRT
             (Rtentry (vhost (cfg_net cfg)) INADDR_ANY INADDR_ANY (Z.lor RTF_UP RTF_GATEWAY) 0 tapname)) (
  mret 0))))))).

(** The socket is closed on success and after [goto fail]. *)
Definition configure_network (tapname : bytes) (cfg : slirp4netns_config) : M Z :=
  sockfd ← sys_ret (Socket AF_INET SOCK_DGRAM 0);
  if sockfd <? 0 then mret (-1)
  else
    r ← configure_ioctls sockfd tapname cfg;
    _ ← sys_ (Close sockfd);
    mret (if r <? 0 then -1 else 0).

(** [tapname] is not NULL once the tap is open. *)
Definition child (sock target_pid : Z) (do_config_network : bool) (tapname netns_path userns_path : option bytes)
    (cfg : slirp4netns_config) : M Z :=
  checked_call (nsenter target_pid netns_path userns_path false) (
  tapfd ← open_tap tapname;
  if tapfd <? 0 then mret tapfd
  else
    configured ← (if do_config_network then
                    name ← lift_opt tapname; configure_network name cfg
                  else mret 0);
    if configured <? 0 then _ ← sys_ (Close tapfd); mret (-1)
    else
      r ← sendfd sock tapfd;
      _ ← sys_ (Close tapfd);
      _ ← sys_ (Close sock);
      mret (if r <? 0 then -1 else 0)).

Definition child_bess (sock : Z) (bess_socket : option bytes) : M Z :=
  let error (acceptfd listenfd : Z) : M Z :=
    _ ← sys_ (Close acceptfd); _ ← sys_ (Close listenfd); _ ← sys_ (Close sock); mret (-1) in
  listenfd ← sys_ret (Socket AF_UNIX SOCK_SEQPACKET 0);
  if listenfd =? -1 then error (-1) listenfd
  else
    match bess_socket with
    | None => error (-1) listenfd
    | Some path =>
        if SUN_PATH_SIZE <=? Z.of_nat (length path) then error (-1) listenfd
        else
          _ ← sys_ (Unlink path);
          r ← sys_ret (Bind listenfd AF_UNIX path);
          if r <? 0 then error (-1) listenfd
          else
            r ← sys_ret (Listen listenfd 0);
            if r <? 0 then error (-1) listenfd
            else
              acceptfd ← sys_ret (Accept listenfd);
              if acceptfd <? 0 then error acceptfd listenfd
              else
                r ← sendfd sock acceptfd;
                if r <? 0 then error acceptfd listenfd
                else _ ← sys_ (Close sock); _ ← sys_ (Close listenfd); mret 0
    end.

(** [outz]: the type of the first control message and the descriptor in it;
    empty when there is none. *)
Definition recvfd (sock : Z) : M Z :=
  a ← sys (Recvmsg sock 1);
  if ret a <? 0 then mret (i32 (ret a))
  else if ret a =? 0 then mret (-1)
  else
    match outz a with
    | cmsg_type :: fd :: _ => if cmsg_type =? SCM_RIGHTS then mret fd else mret (-1)
    | _ => mret (-1)
    end.
End netns.

(** ** Descriptors and namespaces *)

(** The descriptors a trace creates and closes. *)
Definition fds_opened (d : list event) : list Z := concat (map opened d).
Definition fds_closed (d : list event) : list Z := concat (map closed d).

Lemma fds_opened_app d1 d2 : fds_opened (d1 ++ d2) = fds_opened d1 ++ fds_opened d2.
Proof. unfold fds_opened. by rewrite map_app, concat_app. Qed.
Lemma fds_closed_app d1 d2 : fds_closed (d1 ++ d2) = fds_closed d1 ++ fds_closed d2.
Proof. unfold fds_closed. by rewrite map_app, concat_app. Qed.

(** The process joined the namespace at [path]. *)
Definition joined (path : bytes) (nstype : Z) (d : list event) : Prop :=
  exists a b, (Open path O_RDONLY, a) ∈ d /\ 0 <= ret a /\ (Setns (ret a) nstype, b) ∈ d /\ 0 <= ret b.

(** A call that creates a descriptor fails with -1. *)
Definition fails_with_minus1 (E : Env) : Prop := forall h c,
  match c with
  | Open _ _ | Socket _ _ _ | Accept _ => -1 <= ret (env h c)
  | _ => True
  end.

Section nsenter_theory.
Context `{E : Env}.
Hypothesis Hfd : fails_with_minus1 E.

Lemma wp_close_unless {B} fd (k : unit -> M B) h Q :
  (fd = -1 -> wp (k tt) h Q) ->
  (fd <> -1 -> forall a, wp (k tt) (h ++ [(Close fd, a)]) (fun d o => Q ((Close fd, a) :: d) o)) ->
  wp (close_unless fd ≫= k) h Q.
Proof.
  intros H1 H2. unfold close_unless. destruct (Z.eqb_spec fd (-1)).
  - apply wp_bind, wp_ret. cbn [bind_post]. rewrite app_nil_r. auto.
  - apply wp_bind_sys_. auto.
Qed.

(** The effect of [nsenter]: on success the namespaces are joined, and every
    descriptor it opens is closed again, whatever happens. *)
Definition nsenter_post (target_pid : Z) (netns userns : option bytes) (only_userns : bool)
    (d : list event) (r : Z) : Prop :=
  (r = 0 \/ r = -1) /\ fds_closed d ≡ₚ fds_opened d /\
  (r = 0 -> only_userns = false -> joined (default (ns_path target_pid "net") netns) CLONE_NEWNET d) /\
  (r = 0 -> only_userns = true ->
   match userns with
   | Some path => joined path CLONE_NEWUSER d
   | None => if target_pid =? 0 then d = [] else joined (ns_path target_pid "user") CLONE_NEWUSER d
   end).

Lemma wp_bind_open {B} path flags (k : Z -> M B) h Q :
  (forall a, -1 <= ret a ->
   wp (k (ret a)) (h ++ [(Open path flags, a)]) (fun d o => Q ((Open path flags, a) :: d) o)) ->
  wp (sys_ret (Open path flags) ≫= k) h Q.
Proof. intros H. apply wp_bind_sys_ret. intros a <-. apply H. apply (Hfd h (Open path flags)). Qed.

(** One step of symbolic execution; impossible branches are cut. *)
Ltac ns_step :=
  first
    [ progress cbv zeta
    | progress cbn [andb negb]
    | rewrite bool_decide_true by done
    | rewrite bool_decide_false by done
    | apply wp_bind_open; intros ?a ?
    | apply wp_close_unless; [intros ?|intros ? ?a]
    | wp_step ]; try (exfalso; clear -Hfd; lia); try (exfalso; lia).

(** The descriptors of a concrete trace. *)
Ltac count_fds :=
  unfold fds_closed, fds_opened; cbn [map concat app closed opened fst snd];
  repeat match goal with |- context [0 <=? ?x] => destruct (Z.leb_spec 0 x) end;
  cbn [app]; first [lia | reflexivity | apply Permutation_swap].

Ltac find_event := repeat first [apply list_elem_of_here | apply list_elem_of_further].

Ltac ns_joined :=
  intros; first [ discriminate | reflexivity |
    repeat match goal with |- context [?x =? 0] => destruct (Z.eqb_spec x 0); try lia end;
    first [reflexivity | eexists _, _; split_and!; [find_event|lia|find_event|lia]] ].

Ltac ns_done := split_and!; [first [by left | by right]|count_fds|ns_joined|ns_joined].

(** Symbolic execution of [nsenter], up to the final states. *)
Lemma nsenter_spec target_pid netns userns only_userns h :
  wp (nsenter target_pid netns userns only_userns) h
    (returns (nsenter_post target_pid netns userns only_userns)).
Proof.
  unfold nsenter. destruct only_userns, netns as [np|], userns as [up|].
  all: repeat ns_step; ns_done.
Qed.

(** ** The tap device *)

Definition tun_path : bytes := b2l "/dev/net/tun".
Definition tap_ifr (name : bytes) : ioctl_arg := IfrFlags (ifr_name name) (Z.lor IFF_TAP IFF_NO_PI).

Definition open_tap_post (tapname : option bytes) (d : list event) (r : Z) : Prop :=
  (r < 0 /\ fds_closed d ≡ₚ fds_opened d) \/
  (exists name a b, tapname = Some name /\ 0 <= ret a /\ 0 <= ret b /\ r = ret a /\
     d = [(Open tun_path O_RDWR, a); (Ioctl (ret a) TUNSETIFF (tap_ifr name), b)]).

Lemma open_tap_spec tapname h : wp (open_tap tapname) h (returns (open_tap_post tapname)).
Proof.
  unfold open_tap. destruct tapname as [name|]; [|by apply wp_ret; left].
  apply wp_bind_open. intros a Ha. destruct (Z.ltb_spec (ret a) 0).
  - apply wp_ret. left. split; [done|]. count_fds.
  - apply wp_bind_sys_ret. intros b Hb. destruct (Z.ltb_spec (ret b) 0).
    + repeat wp_step. left. split; [done|]. count_fds.
    + apply wp_ret. right. by exists name, a, b.
Qed.

(** ** Configuring the network *)

Definition configure_steps (sockfd : Z) (tapname : bytes) (cfg : slirp4netns_config) : list step :=
  let up := Z.lor IFF_UP IFF_RUNNING in
  [must (Ioctl sockfd SIOCSIFFLAGS (IfrFlags (b2l "lo") up));
   must (Ioctl sockfd SIOCSIFFLAGS (IfrFlags (ifr_name tapname) up));
   must (Ioctl sockfd SIOCSIFMTU (IfrMtu (ifr_name tapname) (i32 (cfg_mtu cfg))))] ++
  (if 0 <? cfg_vmacaddress_len cfg then
     [must (Ioctl sockfd SIOCSIFHWADDR
        (IfrHwaddr (ifr_name tapname) (sa_family (cfg_vmacaddress cfg)) (sa_data (cfg_vmacaddress cfg))))]
   else []) ++
  [must (Ioctl sockfd SIOCSIFADDR (IfrAddr (ifr_name tapname) AF_INET 0 (recommended_vguest (cfg_net cfg))));
   must (Ioctl sockfd SIOCSIFNETMASK (IfrAddr (ifr_name tapname) AF_INET 0 (vnetmask (cfg_net cfg))));
   must (Ioctl sockfd SIOCADDRT
     (Rtentry (vhost (cfg_net cfg)) INADDR_ANY INADDR_ANY (Z.lor RTF_UP RTF_GATEWAY) 0 tapname))].

Lemma configure_steps_proper sockfd tapname cfg : Forall proper_step (configure_steps sockfd tapname cfg).
Proof.
  unfold configure_steps. cbv zeta. apply Forall_app; split; [repeat constructor; auto with steps|].
  apply Forall_app; split; [case_match|]; repeat constructor; auto with steps.
Qed.

Lemma configure_ioctls_spec sockfd tapname cfg h :
  wp (configure_ioctls sockfd tapname cfg) h (returns (runs (configure_steps sockfd tapname cfg))).
Proof.
  unfold configure_ioctls, configure_steps. cbv zeta.
  do 3 (apply wp_checked_runs; intros ?).
  set (hw := if 0 <? cfg_vmacaddress_len cfg then [_] else []).
  eapply (wp_checked_call _ _ _ (runs hw)).
  - unfold hw. destruct (0 <? cfg_vmacaddress_len cfg); [apply wp_checked_runs; intros ?|]; apply wp_ret; constructor.
  - intros d r Hr Hneg. apply runs_app_stop; [done|lia].
  - intros d r Hr Hpos. assert (Forall proper_step hw) as Hp by (unfold hw; case_match; repeat constructor; auto with steps).
    pose proof (runs_result _ _ _ Hp Hr). replace r with 0 in Hr by lia.
    eapply wp_mono.
    + do 3 (apply wp_checked_runs; intros ?). apply wp_ret. constructor.
    + intros d' [r'| | |] Hr'; simpl in *; try done. by apply runs_app.
Qed.

(** All the [ioctl]s of the sequence were made, up to the first that failed,
    between creating a socket and closing it. *)
Definition configure_post (tapname : bytes) (cfg : slirp4netns_config) (d : list event) (r : Z) : Prop :=
  (exists a, d = [(Socket AF_INET SOCK_DGRAM 0, a)] /\ ret a < 0 /\ r = -1) \/
  (exists a d' z c, 0 <= ret a /\
     d = (Socket AF_INET SOCK_DGRAM 0, a) :: d' ++ [(Close (ret a), c)] /\
     runs (configure_steps (ret a) tapname cfg) d' z /\
     ((r = 0 /\ calls_of d' = map step_call (configure_steps (ret a) tapname cfg)) \/ (r = -1 /\ z < 0))).

Lemma configure_network_spec tapname cfg h :
  wp (configure_network tapname cfg) h (returns (configure_post tapname cfg)).
Proof.
  unfold configure_network. apply wp_bind_sys_ret. intros a Ha. destruct (Z.ltb_spec (ret a) 0).
  { apply wp_ret. left. by exists a. }
  apply wp_bind. eapply wp_mono; [apply configure_ioctls_spec|]. intros d' [z| | |] Hz; simpl in *; try done.
  apply wp_bind_sys_. intros c Hc. apply wp_ret. right. exists a, d', z, c. split_and!; [done|done|done|].
  destruct (Z.ltb_spec z 0); [by right|]. left. split; [done|].
  pose proof (configure_steps_proper (ret a) tapname cfg) as Hp. pose proof (runs_result _ _ _ Hp Hz).
  replace z with 0 in Hz by lia. by apply runs_complete.
Qed.

(** The steps of the configuration neither create nor close descriptors. *)
Lemma runs_ioctls_fds l d r :
  Forall (fun s => match step_call s with Ioctl _ _ _ => True | _ => False end) l -> runs l d r ->
  fds_opened d = [] /\ fds_closed d = [].
Proof.
  intros Hl. induction 1 as [|s a l d r Hg Hr IH|s a l Hs]; [done| |].
  - apply Forall_cons in Hl as [Hs Hl]. destruct (IH Hl) as [IH1 IH2]. unfold fds_opened, fds_closed in *. simpl.
    rewrite IH1, IH2. unfold opened, closed. simpl. by destruct (step_call s).
  - apply Forall_cons in Hl as [Hs' _]. unfold fds_opened, fds_closed, opened, closed. simpl.
    by destruct (step_call s).
Qed.

Lemma configure_steps_ioctls sockfd tapname cfg :
  Forall (fun s => match step_call s with Ioctl _ _ _ => True | _ => False end) (configure_steps sockfd tapname cfg).
Proof.
  unfold configure_steps. cbv zeta. apply Forall_app; split; [repeat constructor|].
  apply Forall_app; split; [case_match|]; repeat constructor.
Qed.

Lemma configure_fds tapname cfg d r :
  configure_post tapname cfg d r -> fds_closed d ≡ₚ fds_opened d.
Proof.
  intros [(a & -> & Hneg & _)|(a & d' & z & c & Hpos & -> & Hr & _)].
  - count_fds.
  - destruct (runs_ioctls_fds _ _ _ (configure_steps_ioctls _ _ _) Hr) as [Ho Hc].
    rewrite app_comm_cons, fds_opened_app, fds_closed_app. unfold fds_opened, fds_closed in *. simpl.
    rewrite Ho, Hc. unfold opened. simpl. destruct (Z.leb_spec 0 (ret a)); [done|lia].
Qed.

(** ** The child *)

(** The descriptors sent to the other process. *)
Definition sent (e : event) : list Z :=
  match e.1 with Sendmsg _ _ fd => if 0 <=? ret e.2 then [fd] else [] | _ => [] end.
Definition fds_sent (d : list event) : list Z := concat (map sent d).

Lemma fds_sent_app d1 d2 : fds_sent (d1 ++ d2) = fds_sent d1 ++ fds_sent d2.
Proof. unfold fds_sent. by rewrite map_app, concat_app. Qed.

Definition no_send (e : event) : Prop := match e.1 with Sendmsg _ _ _ => False | _ => True end.

Lemma no_send_none d : Forall no_send d -> fds_sent d = [].
Proof. induction 1 as [|[[] a] d He _ IH]; done. Qed.

Lemma nsenter_no_send target_pid netns userns only : emits no_send (nsenter target_pid netns userns only).
Proof. unfold nsenter, close_unless. repeat emits_step; done. Qed.

Lemma configure_network_no_send name cfg : emits no_send (configure_network name cfg).
Proof. unfold configure_network, configure_ioctls, checked_call, checked. repeat emits_step; done. Qed.

(** A successful child: it joined the network namespace, then created the tap
    device there, then configured it if asked to, then sent the descriptor,
    the only one it sent, and closed its copies. *)
Definition child_sent (sock target_pid : Z) (do_config_network : bool) (tapname netns_path userns_path : option bytes)
    (cfg : slirp4netns_config) (d : list event) : Prop :=
  exists name dns a b dcfg s c1 c2,
    tapname = Some name /\
    nsenter_post target_pid netns_path userns_path false dns 0 /\
    (if do_config_network then configure_post name cfg dcfg 0 else dcfg = []) /\
    0 <= ret a /\ 0 <= ret b /\ 0 <= ret s /\ fds_sent d = [ret a] /\
    d = dns ++ [(Open tun_path O_RDWR, a); (Ioctl (ret a) TUNSETIFF (tap_ifr name), b)] ++ dcfg ++
        [(Sendmsg sock [0] (ret a), s); (Close (ret a), c1); (Close sock, c2)].

Definition child_post (sock target_pid : Z) (do_config_network : bool) (tapname netns_path userns_path : option bytes)
    (cfg : slirp4netns_config) (d : list event) (r : Z) : Prop :=
  r <= 0 /\
  (fds_closed d ≡ₚ fds_opened d \/ fds_closed d ≡ₚ sock :: fds_opened d) /\
  (r = 0 -> child_sent sock target_pid do_config_network tapname netns_path userns_path cfg d).

Lemma balanced_app d1 d2 :
  fds_closed d1 ≡ₚ fds_opened d1 -> fds_closed d2 ≡ₚ fds_opened d2 ->
  fds_closed (d1 ++ d2) ≡ₚ fds_opened (d1 ++ d2).
Proof. intros H1 H2. rewrite fds_closed_app, fds_opened_app. by f_equiv. Qed.

Lemma balanced_app_extra d1 d2 x :
  fds_closed d1 ≡ₚ fds_opened d1 -> fds_closed d2 ≡ₚ x :: fds_opened d2 ->
  fds_closed (d1 ++ d2) ≡ₚ x :: fds_opened (d1 ++ d2).
Proof. intros H1 H2. rewrite fds_closed_app, fds_opened_app, H1, H2. symmetry. apply Permutation_middle. Qed.

(** What the child does once the tap is open as [tapfd]. *)
Definition child_tail (sock tapfd : Z) (do_config_network : bool) (name : bytes) (cfg : slirp4netns_config)
    (d : list event) (r : Z) : Prop :=
  r <= 0 /\
  (fds_closed d ≡ₚ tapfd :: fds_opened d \/ fds_closed d ≡ₚ sock :: tapfd :: fds_opened d) /\
  (r = 0 -> exists dcfg s c1 c2, (if do_config_network then configure_post name cfg dcfg 0 else dcfg = []) /\
     0 <= ret s /\ Forall no_send dcfg /\ d = dcfg ++ [(Sendmsg sock [0] tapfd, s); (Close tapfd, c1); (Close sock, c2)]).

Lemma child_tail_spec sock tapfd (do_config_network : bool) (name : bytes) (cfg : slirp4netns_config) h :
  wp (configured ← (if do_config_network then name ← lift_opt (Some name); configure_network name cfg else mret 0 : M Z);
      if configured <? 0 then _ ← sys_ (Close tapfd); mret (-1)
      else
        r ← sendfd sock tapfd; _ ← sys_ (Close tapfd); _ ← sys_ (Close sock); mret (if r <? 0 then -1 else 0)) h
    (returns (child_tail sock tapfd do_config_network name cfg)).
Proof.
  apply wp_bind.
  assert (wp (if do_config_network then name ← lift_opt (Some name); configure_network name cfg else mret 0 : M Z) h
    (returns (fun d r => fds_closed d ≡ₚ fds_opened d /\ r <= 0 /\
       Forall no_send d /\ (r = 0 -> if do_config_network then configure_post name cfg d 0 else d = [])))) as Hcfg.
  { destruct do_config_network; [|by apply wp_ret].
    eapply wp_bind_opt; [done|].
    eapply wp_mono; [apply (wp_emits no_send); [apply configure_network_no_send|apply configure_network_spec]|].
    intros d [r| | |] [Hsd Hr]; simpl in *; try done. split_and!; [by eapply configure_fds| |done|by intros ->].
    destruct Hr as [(? & _ & _ & ->)|(? & ? & ? & ? & _ & _ & _ & [[-> _]|[-> _]])]; lia. }
  eapply wp_mono; [exact Hcfg|]. intros dcfg [configured| | |] Hd; simpl in *; try done.
  destruct Hd as (Hfds & Hle & Hsd & Hok). destruct (Z.ltb_spec configured 0).
  { repeat wp_step. split_and!; [lia| |done]. left.
    rewrite fds_closed_app, fds_opened_app, Hfds. unfold fds_closed, fds_opened. simpl.
    rewrite !app_nil_r. rewrite <-Permutation_cons_append. done. }
  unfold sendfd. apply wp_bind_sys_ret. intros s Hs. repeat wp_step.
  split_and!; [by destruct (ret s <? 0)| |].
  - right. rewrite fds_closed_app, fds_opened_app, Hfds. unfold fds_closed, fds_opened. simpl.
    rewrite !app_nil_r. rewrite Permutation_app_comm. simpl. apply Permutation_swap.
  - destruct (Z.ltb_spec (ret s) 0); [done|]. intros _. exists dcfg, s. do 2 eexists. split_and!; [|done|done|done].
    apply Hok. lia.
Qed.

Lemma child_spec sock target_pid do_config_network tapname netns_path userns_path cfg h :
  wp (child sock target_pid do_config_network tapname netns_path userns_path cfg) h
    (returns (child_post sock target_pid do_config_network tapname netns_path userns_path cfg)).
Proof.
  unfold child. apply (wp_checked_call _ _ _
    (fun d r => Forall no_send d /\ nsenter_post target_pid netns_path userns_path false d r)).
  { eapply wp_mono; [apply (wp_emits no_send); [apply nsenter_no_send|apply nsenter_spec]|].
    by intros d [r| | |] [? ?]. }
  { intros d r [_ (Hr & Hfds & _)] Hneg. split_and!; [lia|by left|lia]. }
  intros dns r [Hsd Hns] Hpos. assert (r = 0) as -> by (destruct Hns as ([?|?] & _); lia).
  pose proof Hns as (_ & Hfds & _). apply wp_bind. eapply wp_mono; [apply open_tap_spec|].
  intros dt [tapfd| | |] Ht; simpl in *; try done.
  destruct Ht as [[Hneg Hbal]|(name & a & b & -> & Ha & Hb & -> & ->)].
  { destruct (Z.ltb_spec tapfd 0); [|lia]. apply wp_ret. simpl. rewrite app_nil_r. split_and!; [lia| |lia].
    left. by apply balanced_app. }
  destruct (Z.ltb_spec (ret a) 0); [lia|].
  eapply wp_mono; [apply child_tail_spec|]. intros d [r| | |] Hd; simpl in *; try done.
  destruct Hd as (Hle & Hbal & Hok). set (dt := [(Open tun_path O_RDWR, a); (Ioctl (ret a) TUNSETIFF (tap_ifr name), b)]).
  change (returns (child_post sock target_pid do_config_network (Some name) netns_path userns_path cfg)
    (dns ++ dt ++ d) (Done r)).
  assert (fds_opened (dt ++ d) = ret a :: fds_opened d /\ fds_closed (dt ++ d) = fds_closed d) as [Ho Hc].
  { rewrite fds_opened_app, fds_closed_app. unfold dt, fds_opened, fds_closed, opened. simpl.
    destruct (Z.leb_spec 0 (ret a)); [done|lia]. }
  split_and!; [done| |].
  - destruct Hbal as [Hbal|Hbal]; [left; apply balanced_app|right; apply balanced_app_extra]; try done;
      by rewrite Hc, Ho, Hbal.
  - intros ->. destruct (Hok eq_refl) as (dcfg & s & c1 & c2 & Hcfg & Hs & Hsc & ->).
    exists name, dns, a, b, dcfg, s, c1, c2. split_and!; try done. unfold dt. rewrite !fds_sent_app.
    rewrite (no_send_none dns), (no_send_none dcfg) by done. unfold fds_sent, sent. simpl.
    destruct (Z.leb_spec 0 (ret s)); [done|lia].
Qed.

(** [nsenter] joins the network namespace of the target (and with
    [only_userns] its user namespace) before it returns 0, and closes every
    descriptor it opened on every path, errors included. *)
Theorem nsenter_correct target_pid netns userns only_userns h :
  exists d r, nsenter target_pid netns userns only_userns h = (d, Done r) /\
    nsenter_post target_pid netns userns only_userns d r.
Proof.
  pose proof (nsenter_spec target_pid netns userns only_userns h) as H. unfold wp in H.
  destruct (nsenter target_pid netns userns only_userns h) as [d [r| | |]]; simpl in H; try done. by exists d, r.
Qed.

(** C8: the child returns 0 only if it joined the network namespace, created
    the tap device with the given name in it, configured it completely when
    asked to, and sent its descriptor, in this order; whatever happens it
    closes every descriptor it opened (and at most its socket besides). *)
Theorem child_correct sock target_pid do_config_network tapname netns_path userns_path cfg h :
  exists d r, child sock target_pid do_config_network tapname netns_path userns_path cfg h = (d, Done r) /\
    child_post sock target_pid do_config_network tapname netns_path userns_path cfg d r.
Proof.
  pose proof (child_spec sock target_pid do_config_network tapname netns_path userns_path cfg h) as H. unfold wp in H.
  destruct (child sock target_pid do_config_network tapname netns_path userns_path cfg h) as [d [r| | |]];
    simpl in H; try done. by exists d, r.
Qed.
End nsenter_theory.

(** ** The BESS child *)

(** A successful run: the socket is bound to the path, which fits, and
    listens; the connection accepted on it is sent. *)
Definition bess_sent (sock : Z) (bess_socket : option bytes) (d : list event) : Prop :=
  exists path s u b l a m c1 c2,
    bess_socket = Some path /\ Z.of_nat (length path) < SUN_PATH_SIZE /\
    ret s <> -1 /\ 0 <= ret b /\ 0 <= ret l /\ 0 <= ret a /\ 0 <= ret m /\
    d = [(Socket AF_UNIX SOCK_SEQPACKET 0, s); (Unlink path, u); (Bind (ret s) AF_UNIX path, b); (Listen (ret s) 0, l);
         (Accept (ret s), a); (Sendmsg sock [0] (ret a), m); (Close sock, c1); (Close (ret s), c2)].

Definition child_bess_post (sock : Z) (bess_socket : option bytes) (d : list event) (r : Z) : Prop :=
  (r = 0 /\ bess_sent sock bess_socket d) \/
  (r = -1 /\ (fds_opened d ⊆ fds_closed d) /\ sock ∈ fds_closed d).

Section bess.
Context `{E : Env}.

(** The label [error]. *)
Lemma bess_error_spec sock bess_socket acceptfd listenfd d0 h :
  (fds_opened d0 ⊆ [acceptfd; listenfd]) ->
  wp (_ ← sys_ (Close acceptfd); _ ← sys_ (Close listenfd); _ ← sys_ (Close sock); mret (-1)) h
    (fun d o => returns (child_bess_post sock bess_socket) (d0 ++ d) o).
Proof.
  intros Hsub. repeat wp_step. right. split; [done|].
  rewrite fds_opened_app, fds_closed_app. unfold fds_opened, fds_closed in *. simpl. rewrite app_nil_r. set_solver.
Qed.

(** The descriptors of a concrete trace are among those closed. *)
Ltac bess_fds :=
  unfold fds_opened, opened; cbn [map concat app fst snd];
  repeat match goal with |- context [0 <=? ?x] => destruct (Z.leb_spec 0 x) end; cbn [app]; set_solver.

Ltac bess_fail d0 := apply (bess_error_spec _ _ _ _ d0); bess_fds.

Lemma child_bess_spec sock bess_socket h :
  wp (child_bess sock bess_socket) h (returns (child_bess_post sock bess_socket)).
Proof.
  unfold child_bess. cbv zeta. apply wp_bind_sys_ret. intros s Hs.
  destruct (Z.eqb_spec (ret s) (-1)) as [Hs1|Hs1]. { bess_fail [(Socket AF_UNIX SOCK_SEQPACKET 0, s)]. }
  destruct bess_socket as [path|]; [|bess_fail [(Socket AF_UNIX SOCK_SEQPACKET 0, s)]].
  destruct (Z.leb_spec SUN_PATH_SIZE (Z.of_nat (length path))). { bess_fail [(Socket AF_UNIX SOCK_SEQPACKET 0, s)]. }
  apply wp_bind_sys_. intros u Hu. apply wp_bind_sys_ret. intros b Hb. destruct (Z.ltb_spec (ret b) 0).
  { bess_fail [(Socket AF_UNIX SOCK_SEQPACKET 0, s); (Unlink path, u); (Bind (ret s) AF_UNIX path, b)]. }
  apply wp_bind_sys_ret. intros l Hl. destruct (Z.ltb_spec (ret l) 0).
  { bess_fail [(Socket AF_UNIX SOCK_SEQPACKET 0, s); (Unlink path, u); (Bind (ret s) AF_UNIX path, b);
               (Listen (ret s) 0, l)]. }
  apply wp_bind_sys_ret. intros a Ha. destruct (Z.ltb_spec (ret a) 0).
  { bess_fail [(Socket AF_UNIX SOCK_SEQPACKET 0, s); (Unlink path, u); (Bind (ret s) AF_UNIX path, b);
               (Listen (ret s) 0, l); (Accept (ret s), a)]. }
  unfold sendfd. apply wp_bind_sys_ret. intros m Hm. destruct (Z.ltb_spec (ret m) 0).
  { bess_fail [(Socket AF_UNIX SOCK_SEQPACKET 0, s); (Unlink path, u); (Bind (ret s) AF_UNIX path, b);
               (Listen (ret s) 0, l); (Accept (ret s), a); (Sendmsg sock [0] (ret a), m)]. }
  repeat wp_step. left. split; [done|]. by exists path, s, u, b, l, a, m, a0, a1.
Qed.

(** C29: the child of the BESS target returns 0 only after it bound the socket
    to the given path, which fits into the address, listened on it, accepted a
    connection and sent it to the parent; on every error it returns -1 with
    every descriptor it created and its end of the socket pair closed. *)
Theorem child_bess_correct sock bess_socket h :
  exists d r, child_bess sock bess_socket h = (d, Done r) /\ child_bess_post sock bess_socket d r.
Proof.
  pose proof (child_bess_spec sock bess_socket h) as H. unfold wp in H.
  destruct (child_bess sock bess_socket h) as [d [r| | |]]; simpl in H; try done. by exists d, r.
Qed.
End bess.

(** [configure_network] makes the [ioctl]s that bring up lo and the tap,
    set its MTU, its MAC address if there is one, the recommended address and
    the netmask and add the default route through the gateway, in this order;
    it stops at the first that fails, returns 0 iff all succeeded, and closes
    its socket. *)
Theorem configure_network_correct `{E : Env} tapname cfg h :
  exists d r, configure_network tapname cfg h = (d, Done r) /\ configure_post tapname cfg d r.
Proof.
  pose proof (configure_network_spec tapname cfg h) as H. unfold wp in H.
  destruct (configure_network tapname cfg h) as [d [r| | |]]; simpl in H; try done. by exists d, r.
Qed.

(** ** A kernel in which everything succeeds *)

Definition is_open (e : event) : bool :=
  match e.1 with Open _ _ | Socket _ _ _ | Accept _ => true | _ => false end.

(** New descriptors are numbered from 3 on. *)
Definition obliging : Env := fun h c =>
  match c with
  | Open _ _ | Socket _ _ _ | Accept _ => Ans (3 + Z.of_nat (length (List.filter is_open h))) 0 [] []
  | Sendmsg _ _ _ => Ans 1 0 [] []
  | _ => Ans 0 0 [] []
  end.

Lemma obliging_fds : fails_with_minus1 obliging.
Proof. intros h c. destruct c; simpl; try done; lia. Qed.

(** The configuration of the manual's example. *)
Definition demo_config : slirp4netns_config :=
  Config 1500 (Netaddrs 131082 16777215 33685514 251789322 50462730 1677852682) false false false false
    false None false None false (Sockaddr AF_LOCAL []) 0.

Lemma nsenter_correct_witness :
  exists d, nsenter (E := obliging) 42 None None false [] = (d, Done 0) /\
    joined (b2l "/proc/42/ns/net") CLONE_NEWNET d /\ fds_closed d ≡ₚ fds_opened d.
Proof.
  destruct (nsenter_correct (E := obliging) obliging_fds 42 None None false []) as (d & r & Hrun & Hpost).
  exists d. assert (r = 0) as -> by (vm_compute in Hrun; by injection Hrun).
  destruct Hpost as (_ & Hfds & Hjoin & _). split_and!; [exact Hrun|exact (Hjoin eq_refl eq_refl)|exact Hfds].
Defined.

Lemma child_correct_witness :
  exists d, child (E := obliging) 9 42 true (Some (b2l "tap0")) None None demo_config [] = (d, Done 0) /\
    child_sent 9 42 true (Some (b2l "tap0")) None None demo_config d.
Proof.
  destruct (child_correct (E := obliging) obliging_fds 9 42 true (Some (b2l "tap0")) None None demo_config [])
    as (d & r & Hrun & Hpost).
  exists d. assert (r = 0) as -> by (vm_compute in Hrun; by injection Hrun).
  split; [exact Hrun|]. apply Hpost. reflexivity.
Defined.
