(* ===== verification/Loop.v ===== *)
(** * The main loop (slirp4netns.c: create_slirp and do_slirp)

    [do_slirp] sets libslirp, the poll array, the API socket, the sandbox and
    the seccomp filter up, tells the parent that it is ready and then serves
    events for ever.  The bounds of a run are the record [bounds]. *)

From S2P Require Import Prelude Libc Cidr Inet6 Config OS Api Sandbox Seccomp Glue.

Definition ETH_BUF_SIZE : Z := 65536.
Definition SIGPIPE : Z := 13.

(** The structure of the address an option names. *)
Definition sockaddr_fields (a : option sockaddr_in) : option (Z * Z * Z) :=
  (fun a => (sin_family a, sin_port a, sin_addr a)) <$> a.
Definition sockaddr6_fields (a : option sockaddr_in6) : option (Z * Z * bytes) :=
  (fun a => (sin6_family a, sin6_port a, sin6_addr a)) <$> a.

(** The number of iterations of the main loop a run looks at, of attempts at
    an interrupted call, of timers [check_ra_timeout] visits, and of rounds of
    the capability loop of the sandbox. *)
Record bounds := Bounds { iters : nat; tries : nat; visits : nat; caps : nat }.

(** The variables of [do_slirp] the loop does not change. *)
Record loop_vars := Vars {
  v_tapfd : Z;
  v_apifd : Z;
  n_fds : Z;
  pollfds_exitfd_idx : Z;
  pollfds_apifd_idx : Z
}.

Section loop.
Context `{E : Env} `{BO : ByteOrder} `{PF : PollFlags} `{SL : Libslirp}.
Variable SLIRP_CONFIG_VERSION_MAX : Z.
Variable g_path_get_dirname : bytes -> bytes.
Variable target : macros.
Variable have_kill_process : bool.
Variable strerror : Z -> bytes.

(** A zeroed [struct in6_addr] keeps its value when [inet_pton] fails. *)
Definition in6 (s : string) : bytes := default (replicate 16 0) (inet_pton6 (b2l s)).

Definition slirp_config (s4nn : slirp4netns_config) : SlirpConfig :=
  let net := cfg_net s4nn in
  let version := 1 in
  let out := (2 <=? SLIRP_CONFIG_VERSION_MAX) && cfg_enable_outbound_addr s4nn in
  let out6 := (2 <=? SLIRP_CONFIG_VERSION_MAX) && cfg_enable_outbound_addr6 s4nn in
  let dns := (3 <=? SLIRP_CONFIG_VERSION_MAX) && cfg_disable_dns s4nn in
  let version := if out then 2 else version in
  let version := if out6 then 2 else version in
  let version := if dns then 3 else version in
  let version := if 6 <=? SLIRP_CONFIG_VERSION_MAX then 6 else version in
  SlirpCfg version 0 true (vnetwork net) (vnetmask net) (vhost net) (cfg_enable_ipv6 s4nn)
    (in6 "fd00::") 64 (in6 "fd00::2") (vdhcp_start net) (vnameserver net) (in6 "fd00::3")
    (cfg_mtu s4nn) (cfg_mtu s4nn) (cfg_disable_host_loopback s4nn)
    (if out then sockaddr_fields (cfg_outbound_addr s4nn) else None)
    (if out6 then sockaddr6_fields (cfg_outbound_addr6 s4nn) else None) dns.

(** The result is 0 for NULL. *)
Definition create_slirp (s4nn : slirp4netns_config) (g : gstate) : M (gstate * Z) :=
  let cfg := slirp_config s4nn in
  enter (SlirpNew cfg) (fun h => slirp_new h cfg) g.

Definition G_IO_IN : Z := flag (b_in G_IO).
Definition G_IO_HUP : Z := flag (b_hup G_IO).

(** What [g_poll] writes: the [revents] of each entry. *)
Fixpoint set_revents (pfds : list GPollFD) (rs : list Z) : list GPollFD :=
  match pfds with
  | [] => []
  | p :: pfds' => Pfd (pfd_fd p) (pfd_events p) (u16 (default 0 (head rs))) :: set_revents pfds' (tail rs)
  end.

(** [pollfds_data[idx].revents] is set; undefined outside the array. *)
Definition revents_at (pfds : list GPollFD) (idx : Z) : M bool :=
  if idx <? 0 then undefined
  else p ← lift_opt (pfds !! Z.to_nat idx); mret (negb (pfd_revents p =? 0)).

(** An index of -1 stands for no entry. *)
Definition has_event (pfds : list GPollFD) (idx : Z) : M bool :=
  if 0 <=? idx then revents_at pfds idx else mret false.

(** The tap device: the state and the new value of [pollout]. *)
Definition tap_event (v : loop_vars) (g : gstate) : M (gstate * Z) :=
  a ← sys (Read (v_tapfd v) ETH_BUF_SIZE);
  if ret a <? 0 then mret (g, -1)
  else
    let pkt := take (Z.to_nat (ret a)) (out a) in
    r ← enter (SlirpInput pkt) (fun h => slirp_input h pkt) g;
    mret (r.1, -1).

(** The round from the answer of [g_poll] on: the state for the next one, or
    the value returned.  The pointer [pollfds_data] is only good while the
    array is not appended to. *)
Definition after_poll (b : bounds) (v : loop_vars) (apictx : option api_ctx) (g : gstate) (a : answer)
  : M ((gstate * option api_ctx) + Z) :=
  let pollout := ret a in
  if pollout <? 0 then mret (inr (-1))
  else
    let pollfds_data := set_revents (g_pollfds g) (outz a) in
    let g := with_pollfds g pollfds_data in
    tap ← revents_at pollfds_data 0;
    tapped ← (if tap : bool then tap_event v g else mret (g, pollout));
    let g := tapped.1 in
    let pollout := tapped.2 in
    if negb (Nat.eqb (length (g_pollfds g)) (length pollfds_data)) then undefined
    else
      exited ← has_event pollfds_data (pollfds_exitfd_idx v);
      if exited : bool then mret (inr 0)
      else
        api ← has_event pollfds_data (pollfds_apifd_idx v);
        apictx ← (if api : bool then
                    ctx ← lift_opt apictx;
                    r ← api_handler (v_apifd v) ctx;
                    mret (Some r.1)
                  else mret apictx);
        polled ← enter (SlirpPollfdsPoll (pollout <=? 0))
                   (fun h => slirp_pollfds_poll h (pollout <=? 0)) g;
        g ← check_ra_timeout (visits b) polled.1;
        mret (inl (g, apictx)).

(** One round of [while (1)]. *)
Definition iteration (b : bounds) (v : loop_vars) (g : gstate) (apictx : option api_ctx)
  : M ((gstate * option api_ctx) + Z) :=
  let timeout := u32 (-1) in
  let g := with_pollfds g (take (Z.to_nat (n_fds v)) (g_pollfds g)) in
  filled ← enter (SlirpPollfdsFill timeout) (fun h => slirp_pollfds_fill h timeout) g;
  let g := filled.1 in
  timeout ← update_ra_timeout filled.2 (g_data g);
  a ← retry (tries b) EINTR (Poll (g_pollfds g) (i32 timeout));
  after_poll b v apictx g a.

(** The value [do_slirp] will return and the API context as the loop leaves
    it. *)
Fixpoint main_loop (n : nat) (b : bounds) (v : loop_vars) (g : gstate) (apictx : option api_ctx)
  : M (Z * option api_ctx) :=
  match n with
  | O => out_of_fuel
  | S n =>
      r ← iteration b v g apictx;
      match r with
      | inl (g, apictx) => main_loop n b v g apictx
      | inr rc => mret (rc, apictx)
      end
  end.

(** The label [err]: the buffer is freed, if there is an API context it is
    freed with its list of forwards and the API socket is unlinked, and the poll
    array is freed. *)
Definition leave (pollfds buf : Z) (api_socket : option bytes) (apictx : option api_ctx) (rc : Z) : M Z :=
  _ ← (if buf =? 0 then mret tt else sys_ (Free buf));
  _ ← (match apictx, api_socket with
       | Some _, Some path => _ ← api_ctx_free apictx; sys_ (Unlink path)
       | _, _ => mret tt
       end);
  _ ← sys_ (GArrayFree pollfds);
  mret rc.

(** The API socket, if there is one: its descriptor and the context; [inr]:
    [goto err]. *)
Definition setup_api (api_socket : option bytes) (cfg : slirp4netns_config) : M ((Z * option api_ctx) + Z) :=
  match api_socket with
  | None => mret (inl (-1, None))
  | Some path =>
      apifd ← api_bindlisten path;
      if apifd <? 0 then mret (inr (-1))
      else
        ctx ← api_ctx_alloc (recommended_vguest (cfg_net cfg));
        match ctx with
        | None => mret (inr (-1))
        | Some ctx => mret (inl (apifd, Some ctx))
        end
  end.

(** The lock-down: a negative value is [goto err]. *)
Definition lock_down (b : bounds) (cfg : slirp4netns_config) : M Z :=
  _ ← sys_ (Signal SIGPIPE true);
  checked_call (if cfg_enable_sandbox cfg then create_sandbox g_path_get_dirname (caps b) else mret 0) (
  if cfg_enable_seccomp cfg then enable_seccomp target have_kill_process strerror else mret 0).

Definition notify_ready (b : bounds) (readyfd : Z) : M unit :=
  if 0 <=? readyfd then
    _ ← retry (tries b) EINTR (Write readyfd (b2l "1"));
    sys_ (Close readyfd)
  else mret tt.

Definition do_slirp (b : bounds) (tapfd readyfd exitfd : Z) (api_socket : option bytes)
    (cfg : slirp4netns_config) : M Z :=
  let tap_pollfd := Pfd tapfd (u16 (Z.lor G_IO_IN G_IO_HUP)) 0 in
  let exit_pollfd := Pfd exitfd (u16 G_IO_HUP) 0 in
  array ← sys_ret GArrayNew;
  slirp ← create_slirp cfg (G (libslirp_data_init tapfd) []);
  let g := slirp.1 in
  if slirp.2 =? 0 then leave array 0 api_socket None (-1)
  else
    buf ← sys_ret (Malloc ETH_BUF_SIZE);
    if buf =? 0 then leave array buf api_socket None (-1)
    else
      let pollfds := g_pollfds g ++ [tap_pollfd] in
      let pollfds := if 0 <=? exitfd then pollfds ++ [exit_pollfd] else pollfds in
      let n_fds := if 0 <=? exitfd then 2 else 1 in
      let exit_idx := if 0 <=? exitfd then n_fds - 1 else -1 in
      api ← setup_api api_socket cfg;
      match api with
      | inr rc => leave array buf api_socket None rc
      | inl (apifd, apictx) =>
          let api_pollfd := Pfd apifd (u16 (Z.lor G_IO_IN G_IO_HUP)) 0 in
          let pollfds := match apictx with Some _ => pollfds ++ [api_pollfd] | None => pollfds end in
          let n_fds := match apictx with Some _ => n_fds + 1 | None => n_fds end in
          let api_idx := match apictx with Some _ => n_fds - 1 | None => -1 end in
          locked ← lock_down b cfg;
          if locked <? 0 then leave array buf api_socket apictx (-1)
          else
            _ ← notify_ready b readyfd;
            r ← main_loop (iters b) b (Vars tapfd apifd n_fds exit_idx api_idx) (with_pollfds g pollfds) apictx;
            leave array buf api_socket r.2 r.1
      end.
End loop.
