(* ===== verification/LoopTheory.v ===== *)
(** * The main loop: theorems *)

From Stdlib Require Import Sorted.
From S2P Require Import Prelude Libc Cidr Inet6 Config OS JsonObject Double Json Api ApiTheory ApiSession Sandbox Seccomp Glue Loop.

(** ** What the API handler does not do *)

Definition api_event (e : event) : Prop :=
  match e.1 with
  | Accept _ | Read _ _ | Write _ _ | Shutdown _ _ | Close _
  | SlirpAddHostfwd _ _ _ _ _ | SlirpRemoveHostfwd _ _ _ => True
  | _ => False
  end.

Lemma list_hostfwd_foreach_emits fwds arr `{E : Env} `{BO : ByteOrder} :
  emits api_event (list_hostfwd_foreach fwds arr).
Proof. revert arr. induction fwds as [|f fwds IH]; intros arr; cbn [list_hostfwd_foreach]; repeat emits_step; auto. Qed.

Lemma api_handler_emits listenfd ctx `{E : Env} `{BO : ByteOrder} : emits api_event (api_handler listenfd ctx).
Proof.
  unfold api_handler, api_handle_req, api_handle_req_add_hostfwd, api_handle_req_list_hostfwd,
    api_handle_req_remove_hostfwd, write_.
  repeat first [emits_step | apply list_hostfwd_foreach_emits]; done.
Qed.

(** ** What the program relies on of libslirp

    [keeps T add nfds Q p]: the program [p] creates and frees no timer,
    modifies only those of [T] (to a plausible time), appends to the poll
    array only if [add], asks only for the first [nfds] entries, and its result
    satisfies [Q]. *)
Definition expire_ok (e : Z) : Prop := e = -1 \/ 0 <= e < 2 ^ 62.

Fixpoint keeps {A} (T : gset Z) (add : bool) (nfds : Z) (Q : A -> Prop) (p : cbprog A) : Prop :=
  match p with
  | CbRet a => Q a
  | CbSendPacket _ k => forall r, keeps T add nfds Q (k r)
  | CbGuestError _ k => keeps T add nfds Q k
  | CbClockGetNs k => forall ns, keeps T add nfds Q (k ns)
  | CbTimerNew _ _ _ | CbTimerFree _ _ => False
  | CbTimerMod t e k => t ∈ T /\ expire_ok e /\ keeps T add nfds Q k
  | CbRegisterPollFd _ k => keeps T add nfds Q k
  | CbUnregisterPollFd _ k => keeps T add nfds Q k
  | CbNotify k => keeps T add nfds Q k
  | CbAddPoll _ _ k => add = true /\ forall idx, keeps T add nfds Q (k idx)
  | CbGetRevents idx k => 0 <= idx < nfds /\ forall r, keeps T add nfds Q (k r)
  end.

(** The timers numbered 1 to [n]. *)
Definition timer_ids (n : nat) : gset Z := list_to_set (seqZ 1 (Z.of_nat n)).

(** [begins k n p]: with [n] timers already, the program creates timers until
    there are [k] and arms only timers it has; it does not use the poll
    array. *)
Fixpoint begins {A} (k n : nat) (p : cbprog A) : Prop :=
  match p with
  | CbRet _ => n = k
  | CbSendPacket _ f => forall r, begins k n (f r)
  | CbGuestError _ f => begins k n f
  | CbClockGetNs f => forall ns, begins k n (f ns)
  | CbTimerNew _ _ f => begins k (S n) (f (Z.of_nat n + 1))
  | CbTimerMod t e f => t ∈ timer_ids n /\ expire_ok e /\ begins k n f
  | CbRegisterPollFd _ f => begins k n f
  | CbUnregisterPollFd _ f => begins k n f
  | CbNotify f => begins k n f
  | CbTimerFree _ _ | CbAddPoll _ _ _ | CbGetRevents _ _ => False
  end.

(** The number of entries of the array last polled. *)
Definition poll_len (e : event) : option Z :=
  match e.1 with Poll fds _ => Some (Z.of_nat (length fds)) | _ => None end.
Definition polled_fds (h : history) : Z := default 0 (last (omap poll_len h)).

(** libslirp creates its timers when it is created (for router
    advertisements); it adds poll entries only when asked to fill the array,
    and asks only for entries of the array that was polled. *)
Class LibslirpContract `{SL : Libslirp} (k : nat) : Prop := {
  new_ok : forall h cfg, begins k 0 (slirp_new h cfg);
  fill_ok : forall h t, in_u32 t -> keeps (timer_ids k) true 0 in_u32 (slirp_pollfds_fill h t);
  input_ok : forall h pkt, keeps (timer_ids k) false 0 (fun _ => True) (slirp_input h pkt);
  poll_ok : forall h b, keeps (timer_ids k) false (polled_fds h) (fun _ => True) (slirp_pollfds_poll h b);
  timer_cb_ok : forall h cb op, keeps (timer_ids k) false 0 (fun _ => True) (timer_cb h cb op)
}.

(** ** The state between the calls *)

Record data_ok (T : gset Z) (fd : Z) (d : libslirp_data) : Prop := {
  ok_glue : glue_inv d;
  ok_dom : dom (heap d) = T;
  ok_expire : map_Forall (fun _ t => expire_ok (expire_timer_msec t)) (heap d);
  ok_tapfd : tapfd d = fd
}.

Lemma data_ok_mod T fd d t tm e :
  data_ok T fd d -> heap d !! t = Some tm -> expire_ok e ->
  data_ok T fd (set_heap (<[t := Timer (t_cb tm) (t_cb_opaque tm) e]> (heap d)) d) /\
  libslirp_timer_mod t e d = Some (set_heap (<[t := Timer (t_cb tm) (t_cb_opaque tm) e]> (heap d)) d).
Proof.
  intros [H1 H2 H3 H4] Ht He.
  assert (libslirp_timer_mod t e d = Some (set_heap (<[t := Timer (t_cb tm) (t_cb_opaque tm) e]> (heap d)) d)) as Hm
    by (unfold libslirp_timer_mod; by rewrite Ht).
  split; [|done]. split; [by eapply glue_inv_mod| | |done].
  - simpl. rewrite dom_insert_lookup_L by by eexists. done.
  - simpl. by apply map_Forall_insert_2.
Qed.

Section callbacks.
Context `{E : Env} `{PF : PollFlags}.
Hypothesis Hclock : clock_ok E.

(** The timers stay the same list. *)
Definition kept {A} (T : gset Z) (fd : Z) (add : bool) (Q : A -> Prop) (g : gstate) (d : list event)
    (o : outcome (gstate * A)) : Prop :=
  exists g' a, o = Done (g', a) /\ Q a /\ data_ok T fd (g_data g') /\ timers (g_data g') = timers (g_data g) /\
    (g_pollfds g `prefix_of` g_pollfds g') /\ (add = false -> g_pollfds g' = g_pollfds g) /\
    Forall (glue_event fd) d.

Lemma kept_event {A} T fd add (Q : A -> Prop) g e d o :
  glue_event fd e -> kept T fd add Q g d o -> kept T fd add Q g (e :: d) o.
Proof.
  intros He (g' & a & -> & H1 & H2 & H3 & H4 & H5 & H6). exists g', a. split_and!; try done. by constructor.
Qed.

Lemma kept_trans {A} T fd add (Q : A -> Prop) g g1 d o :
  timers (g_data g1) = timers (g_data g) -> (g_pollfds g `prefix_of` g_pollfds g1) ->
  (add = false -> g_pollfds g1 = g_pollfds g) -> kept T fd add Q g1 d o -> kept T fd add Q g d o.
Proof.
  intros Ht Hp Ha (g' & a & -> & H1 & H2 & H3 & H4 & H5 & H6). exists g', a. split_and!; try done.
  - by rewrite H3.
  - by etrans.
  - intros H. by rewrite H5, Ha.
Qed.

Lemma run_cb_keeps {A} T fd add nfds (Q : A -> Prop) (p : cbprog A) g h :
  data_ok T fd (g_data g) -> nfds <= Z.of_nat (length (g_pollfds g)) -> keeps T add nfds Q p ->
  wp (run_cb p g) h (kept T fd add Q g).
Proof.
  revert g h.
  induction p as [a|pkt k IH|msg k IH|k IH|cb op k IH|t k IH|t e k IH|f k IH|f k IH|k IH
                 |f ev k IH|idx k IH]; intros g h Hok Hn Hs; simpl in Hs |- *;
    try contradiction; try (apply wp_nop; by apply IH).
  - apply wp_ret. exists g, a. by split_and!.
  - apply wp_bind_sys_ret. intros r Hr. eapply wp_mono; [by apply IH|].
    intros d o Ho. apply kept_event; [|done]. apply Hok.
  - apply wp_bind, wp_clock; [done|]. intros a Ha. simpl. eapply wp_mono; [by apply IH|].
    intros d o Ho. by apply kept_event.
  - destruct Hs as (Ht & He & Hs). rewrite <-(ok_dom _ _ _ Hok) in Ht. apply elem_of_dom in Ht as [tm Ht].
    destruct (data_ok_mod T fd (g_data g) t tm e Hok Ht He) as [Hok' Hm].
    eapply wp_bind_opt; [exact Hm|]. eapply wp_mono; [by apply IH|]. intros d o. by apply kept_trans.
  - destruct Hs as [-> Hs]. eapply wp_mono; [apply IH; [done| |done]|].
    + simpl. rewrite length_app. lia.
    + intros d o. apply kept_trans; [done|by eexists|done].
  - destruct Hs as [Hi Hs]. destruct (lookup_lt_is_Some_2 (g_pollfds g) (Z.to_nat idx)) as [e He]; [lia|].
    eapply wp_bind_opt; [|by apply IH].
    unfold libslirp_get_revents. destruct (Z.ltb_spec idx 0); [lia|]. by rewrite He.
Qed.

(** *** Creating libslirp *)

Lemma timer_ids_S n : timer_ids (S n) = {[Z.of_nat n + 1]} ∪ timer_ids n.
Proof.
  unfold timer_ids. apply set_eq. intros x. rewrite elem_of_union, elem_of_singleton, !elem_of_list_to_set, !elem_of_seqZ.
  lia.
Qed.

Lemma data_ok_new n fd d cb op :
  data_ok (timer_ids n) fd d -> next d = Z.of_nat n + 1 ->
  data_ok (timer_ids (S n)) fd (libslirp_timer_new cb op d).1.
Proof.
  intros [H1 H2 H3 H4] Hn. split; simpl; [by apply glue_inv_new| | |done].
  - by rewrite dom_insert_L, H2, timer_ids_S, Hn.
  - apply map_Forall_insert_2; [|done]. by left.
Qed.

Lemma run_cb_begins {A} k n fd (p : cbprog A) g h :
  data_ok (timer_ids n) fd (g_data g) -> next (g_data g) = Z.of_nat n + 1 -> begins k n p ->
  wp (run_cb p g) h (fun d o => exists g' a, o = Done (g', a) /\
    data_ok (timer_ids k) fd (g_data g') /\ g_pollfds g' = g_pollfds g /\ Forall (glue_event fd) d).
Proof.
  revert n g h.
  induction p as [a|pkt f IH|msg f IH|f IH|cb op f IH|t f IH|t e f IH|c f IH|c f IH|f IH
                 |c ev f IH|idx f IH]; intros n g h Hok Hn Hs; simpl in Hs |- *;
    try contradiction; try (apply wp_nop; by eapply IH).
  - apply wp_ret. subst. by exists g, a.
  - apply wp_bind_sys_ret. intros r Hr. eapply wp_mono; [by eapply IH|].
    intros d o (g' & a & -> & H1 & H2 & H3). exists g', a. split_and!; try done.
    constructor; [apply Hok|done].
  - apply wp_bind, wp_clock; [done|]. intros a Ha. simpl. eapply wp_mono; [by eapply IH|].
    intros d o (g' & b & -> & H1 & H2 & H3). exists g', b. split_and!; try done. by constructor.
  - pose proof (data_ok_new n fd (g_data g) cb op Hok Hn) as Hnew. simpl in Hnew. rewrite Hn in Hnew |- *.
    eapply wp_mono; [eapply (IH _ (S n)); [exact Hnew|simpl; lia|exact Hs]|]. done.
  - destruct Hs as (Ht & He & Hs). rewrite <-(ok_dom _ _ _ Hok) in Ht. apply elem_of_dom in Ht as [tm Ht].
    destruct (data_ok_mod _ fd (g_data g) t tm e Hok Ht He) as [Hok' Hm].
    eapply wp_bind_opt; [exact Hm|]. eapply wp_mono; [by eapply (IH n)|done].
Qed.

(** *** The timers *)

Lemma data_ok_length k fd d : data_ok (timer_ids k) fd d -> length (timers d) = k.
Proof.
  intros [(Hnd & Hdom & _) H2 _ _].
  assert (list_to_set (timers d) =@{gset Z} timer_ids k) as Heq.
  { apply set_eq. intros x. rewrite <-H2, elem_of_list_to_set, elem_of_dom. apply Hdom. }
  apply (f_equal size) in Heq. rewrite size_list_to_set in Heq by done.
  unfold timer_ids in Heq. rewrite size_list_to_set in Heq by apply NoDup_seqZ. rewrite length_seqZ in Heq. lia.
Qed.

(** The time in milliseconds. *)
Lemma now_range h : 0 <= Z.quot (clock_ns (env h ClockGettime)) 1000000 < 2 ^ 62.
Proof.
  destruct (Hclock h) as [H1 H2]. unfold clock_ns.
  set (s := nth 0 (outz (env h ClockGettime)) 0) in *. set (n := nth 1 (outz (env h ClockGettime)) 0) in *.
  assert (0 <= s * 1000000000 + n) by lia. split; [apply Z.quot_pos; lia|].
  apply Z.quot_lt_upper_bound; lia.
Qed.

Lemma data_timers_ok T fd d now : data_ok T fd d -> 0 <= now < 2 ^ 62 -> timers_ok now (timers d) (heap d).
Proof.
  intros [(Hnd & Hdom & _) H2 H3 _] Hnow. unfold timers_ok. apply Forall_forall. intros p Hp.
  apply Hdom in Hp as [t Ht]. exists t. split; [done|]. intros Hne. specialize (H3 p t Ht). simpl in H3.
  destruct H3 as [?|?]; [done|]. lia.
Qed.

Lemma update_ra_timeout_spec T fd timeout (d : libslirp_data) h :
  data_ok T fd d -> in_u32 timeout ->
  wp (update_ra_timeout timeout d) h (fun ev o =>
    exists r, o = Done r /\ in_u32 r /\ calls_of ev = [ClockGettime]).
Proof.
  intros Hok Hu. apply wp_bind, wp_clock; [done|]. intros a Ha. cbn [bind_post].
  pose proof (now_range h) as Hn. rewrite Ha in Hn. set (now := Z.quot (clock_ns a) 1000000) in *.
  eapply lift_opt_Some; [apply ra_timeout_loop_min; [by eapply data_timers_ok|done]|].
  eexists. split_and!; [done| |done].
  pose proof (proj1 (min_list_le timeout (waits now (timers d) (heap d)))) as Hle.
  destruct (min_list_in timeout (waits now (timers d) (heap d))) as [He|Hin].
  - unfold in_u32 in *. lia.
  - apply list_elem_of_omap in Hin as (p & Hp & Hw). unfold in_u32 in *. split; [|lia].
    destruct (heap d !! p) as [t|]; [|done]. simpl in Hw. unfold timer_wait in Hw. repeat case_match; simplify_eq; lia.
Qed.
End callbacks.

(** ** Interrupted calls *)

Definition interrupted (a : answer) : Prop := ret a < 0 /\ errno a = EINTR.

(** A call is not interrupted more than [n] times in a row. *)
Definition patient (E : Env) (n : nat) : Prop := forall h c l,
  length l = n -> Forall (fun e => e.1 = c /\ interrupted e.2) l -> ~ interrupted (env (h ++ l) c).

Lemma wp_retry `{E : Env} n m c h :
  patient E n -> (S n <= m)%nat ->
  wp (retry m EINTR c) h (fun d o =>
    exists l a, o = Done a /\ d = l ++ [(c, a)] /\ ~ interrupted a /\ Forall (fun e => e.1 = c) l /\ env (h ++ l) c = a).
Proof.
  intros Hp Hm.
  assert (forall m' l h0, (S n <= m' + length l)%nat -> (length l <= n)%nat ->
    Forall (fun e => e.1 = c /\ interrupted e.2) l ->
    wp (retry m' EINTR c) (h0 ++ l) (fun d o =>
      exists l' a, o = Done a /\ d = l' ++ [(c, a)] /\ ~ interrupted a /\ Forall (fun e => e.1 = c) l' /\
        env ((h0 ++ l) ++ l') c = a)) as Hgen.
  { induction m' as [|m' IH]; intros l h0 H1 H2 Hl; [simpl in H1; lia|]. cbn [retry].
    apply wp_bind_sys. intros a Ha.
    destruct ((ret a <? 0) && (errno a =? EINTR)) eqn:Hb.
    - assert (interrupted a) as Hi by (unfold interrupted; lia).
      assert (length l <> n) as Hne. { intros Heq. apply (Hp h0 c l Heq Hl). by rewrite Ha. }
      rewrite <-app_assoc. eapply wp_mono; [apply IH|].
      + rewrite length_app. simpl. lia.
      + rewrite length_app. simpl. lia.
      + apply Forall_app. split; [done|]. by constructor.
      + intros d o (l' & b & -> & -> & Hb' & Hl' & He). exists ((c, a) :: l'), b. split_and!; try done; [by constructor|].
        rewrite <-He. f_equal. by rewrite <-!app_assoc.
    - apply wp_ret. exists [], a. split_and!; try done; [unfold interrupted; lia|]. by rewrite app_nil_r. }
  pose proof (Hgen m [] h) as H. rewrite app_nil_r in H. apply H; simpl; [lia|lia|constructor].
Qed.

(** ** Events that change neither the forwards nor what was polled *)

Definition quiet (e : event) : Prop :=
  match e.1 with
  | Poll _ _ | SlirpAddHostfwd _ _ _ _ _ | SlirpRemoveHostfwd _ _ _ => False
  | _ => True
  end.

Definition not_poll (e : event) : Prop := match e.1 with Poll _ _ => False | _ => True end.

Lemma quiet_not_poll e : quiet e -> not_poll e.
Proof. by destruct e as [[] a]. Qed.

Lemma glue_event_quiet fd e : glue_event fd e -> quiet e.
Proof. by destruct e as [[] a]. Qed.

Lemma api_event_not_poll e : api_event e -> not_poll e.
Proof. by destruct e as [[] a]. Qed.

Lemma live_quiet h d : Forall quiet d -> live (h ++ d) = live h.
Proof.
  intros Hd. rewrite live_app. revert h. induction Hd as [|e d He _ IH]; intros h; [done|]. simpl.
  assert (live_step (live h) e = live h) as -> by (unfold live_step; destruct e as [[] a]; done). apply IH.
Qed.

Lemma accepted_quiet d : Forall quiet d -> accepted d = 0.
Proof. intros Hd. apply accepted_none. eapply Forall_impl; [exact Hd|]. by intros [[] a]. Qed.

Lemma agrees_quiets h d ctx : Forall quiet d -> agrees h ctx -> agrees (h ++ d) ctx.
Proof. intros Hd. unfold agrees. by rewrite live_quiet. Qed.

Lemma polled_not_poll h d : Forall not_poll d -> polled_fds (h ++ d) = polled_fds h.
Proof.
  intros Hd. unfold polled_fds. rewrite omap_app.
  assert (omap poll_len d = []) as ->; [|by rewrite app_nil_r].
  induction Hd as [|[c a] d He _ IH]; [done|]. simpl. unfold not_poll in He. simpl in He. by destruct c.
Qed.

Lemma polled_snoc h fds t a : polled_fds (h ++ [(Poll fds t, a)]) = Z.of_nat (length fds).
Proof. unfold polled_fds. rewrite omap_app. simpl. by rewrite last_snoc. Qed.

(** Equality of concatenations *)
Ltac app_eq := rewrite <-?app_assoc; simpl; rewrite <-?app_assoc; simpl; rewrite ?app_nil_r; done.

(** The number of polls of a trace. *)
Definition polls (d : list event) : nat := length (omap poll_len d).

Lemma polls_app d1 d2 : polls (d1 ++ d2) = (polls d1 + polls d2)%nat.
Proof. unfold polls. by rewrite omap_app, length_app. Qed.

Section checking.
Context `{E : Env} `{PF : PollFlags} `{SL : Libslirp} (k : nat) `{HC : !LibslirpContract k}.
Hypothesis Hclock : clock_ok E.

Definition timer_event (fd : Z) (e : event) : Prop :=
  match e.1 with TimerCb _ _ => True | _ => glue_event fd e end.

Lemma check_ra_loop_safe fuel now pre suf fd g h :
  data_ok (timer_ids k) fd (g_data g) -> timers (g_data g) = pre ++ suf -> (length suf <= fuel)%nat ->
  0 <= now < 2 ^ 62 ->
  wp (check_ra_loop fuel now (head suf) g) h (fun d o => exists g', o = Done g' /\
    data_ok (timer_ids k) fd (g_data g') /\ g_pollfds g' = g_pollfds g /\ Forall (timer_event fd) d).
Proof.
  intros Hok Hts Hf Hnow. revert pre suf g h Hok Hts Hf. induction fuel as [|fuel IH]; intros pre suf g h Hok Hts Hf.
  { destruct suf as [|p suf]; [|simpl in Hf; lia]. apply wp_ret. by exists g. }
  destruct suf as [|p suf]; [apply wp_ret; by exists g|]. cbn [head check_ra_loop].
  pose proof (ok_glue _ _ _ Hok) as (Hnd & Hdom & _).
  assert (p ∈ timers (g_data g)) as Hin by (rewrite Hts; apply elem_of_app; right; by left).
  destruct (proj1 (Hdom p) Hin) as [t Ht].
  assert (p ∉ pre) as Hpre.
  { rewrite Hts in Hnd. apply NoDup_app in Hnd as (_ & Hd & _). intros Hp. apply (Hd p Hp). by left. }
  assert (wp (check_ra_timer now p g) h (fun d o => exists g1, o = Done g1 /\
    data_ok (timer_ids k) fd (g_data g1) /\ timers (g_data g1) = timers (g_data g) /\
    g_pollfds g1 = g_pollfds g /\ Forall (timer_event fd) d)) as Hstep.
  { unfold check_ra_timer. eapply wp_bind_opt; [exact Ht|].
    destruct (Z.eqb_spec (expire_timer_msec t) (-1)) as [|Hne]; [apply wp_ret; by exists g|].
    pose proof (ok_expire _ _ _ Hok p t Ht) as Hexp. simpl in Hexp. destruct Hexp as [?|Hexp]; [done|].
    cbv zeta. destruct (_ && _) eqn:Hb; [|exfalso; lia].
    destruct (expire_timer_msec t - now <=? 0); [|apply wp_ret; by exists g].
    destruct (data_ok_mod _ fd (g_data g) p t (-1) Hok Ht) as [Hok' Hm]; [by left|].
    eapply wp_bind_opt; [exact Hm|]. apply wp_bind, wp_enter. intros a Ha.
    eapply wp_mono; [apply (run_cb_keeps Hclock (timer_ids k) fd false 0 (fun _ => True)); [exact Hok'|simpl; lia|apply timer_cb_ok]|].
    intros d o (g' & [] & -> & _ & H1 & H2 & _ & H3 & H4). cbn [bind_post]. apply wp_ret.
    exists g'. split_and!; [done|done|by rewrite H2|by rewrite H3|].
    rewrite app_nil_r. constructor; [done|]. eapply Forall_impl; [exact H4|].
    intros e He. unfold timer_event. by destruct e as [[] b]. }
  apply wp_bind. eapply wp_mono; [exact Hstep|]. intros d o (g1 & -> & H1 & H2 & H3 & H4). cbn [bind_post].
  eapply wp_bind_opt; [rewrite H2, Hts; by apply next_node_app|].
  eapply wp_mono; [apply (IH (pre ++ [p]) suf)|].
  - done.
  - by rewrite H2, Hts, <-app_assoc.
  - simpl in Hf. lia.
  - intros d' o (g2 & -> & H5 & H6 & H7). exists g2. split_and!; [done|done|by rewrite H6|]. by apply Forall_app.
Qed.

Lemma check_ra_timeout_safe fuel fd g h :
  data_ok (timer_ids k) fd (g_data g) -> (k <= fuel)%nat ->
  wp (check_ra_timeout fuel g) h (fun d o => exists g', o = Done g' /\
    data_ok (timer_ids k) fd (g_data g') /\ g_pollfds g' = g_pollfds g /\ Forall (timer_event fd) d).
Proof.
  intros Hok Hf. unfold check_ra_timeout. apply wp_bind, wp_clock; [done|]. intros a Ha. cbn [bind_post].
  pose proof (now_range Hclock h) as Hn. rewrite Ha in Hn.
  eapply wp_mono; [apply (check_ra_loop_safe fuel _ [] (timers (g_data g)) fd g)|]; try done.
  - by rewrite (data_ok_length k fd).
  - intros d o (g' & -> & H1 & H2 & H3). exists g'. split_and!; try done. by constructor.
Qed.
End checking.

(** ** One round of the loop *)

Lemma length_set_revents pfds rs : length (set_revents pfds rs) = length pfds.
Proof. revert rs. induction pfds as [|p pfds IH]; intros rs; simpl; [done|]. by rewrite IH. Qed.

Lemma lookup_set_revents pfds rs i p :
  set_revents pfds rs !! i = Some p -> pfd_revents p = u16 (default 0 (rs !! i)).
Proof.
  revert rs i. induction pfds as [|q pfds IH]; intros rs [|i] Hi; simpl in *; try done.
  - injection Hi as <-. simpl. by destruct rs.
  - apply IH in Hi as ->. by destruct rs; [rewrite !lookup_nil|].
Qed.

(** The indices the loop uses are those of the entries it made. *)
Record vars_ok (v : loop_vars) : Prop := {
  ok_n : 1 <= n_fds v;
  ok_exit : pollfds_exitfd_idx v < n_fds v;
  ok_api : pollfds_apifd_idx v < n_fds v
}.

Section rounds.
Context `{E : Env} `{BO : ByteOrder} `{PF : PollFlags} `{SL : Libslirp} (k : nat) `{HC : !LibslirpContract k}.
Context (intr : nat) (b : bounds) (v : loop_vars).
Hypothesis Hclock : clock_ok E.
Hypothesis Hread : read_ok E.
Hypothesis Hexcl : slirp_exclusive E.
Hypothesis Hintr : patient E intr.
Hypothesis Htries : (S intr <= tries b)%nat.
Hypothesis Hvisits : (k <= visits b)%nat.
Hypothesis Hvars : vars_ok v.

Record loop_inv (h : history) (g : gstate) (apictx : option api_ctx) : Prop := {
  li_data : data_ok (timer_ids k) (v_tapfd v) (g_data g);
  li_fds : n_fds v <= Z.of_nat (length (g_pollfds g));
  li_api : 0 <= pollfds_apifd_idx v -> exists ctx, apictx = Some ctx /\ api_inv ctx /\ agrees h ctx
}.

(** Poll reported an event for entry [idx]. *)
Definition reported (idx : Z) (d : list event) : Prop :=
  exists fds t a, (Poll fds t, a) ∈ d /\ 0 <= ret a /\ u16 (default 0 (outz a !! Z.to_nat idx)) <> 0.

(** The next id of the table; without a table it plays no role. *)
Definition nextid_of (apictx : option api_ctx) : Z := default 1 (hostfwds_nextid <$> apictx).

(** Polling goes on only while there is no event on the exit descriptor: the
    last poll of [d] that was answered came after [n] others, succeeded and
    reported nothing for it. *)
Definition goes_on_after (n : nat) (h : history) (d : list event) : Prop :=
  exists d1 fds t d2, let a := env (h ++ d1) (Poll fds t) in
    d = d1 ++ (Poll fds t, a) :: d2 /\ (n <= polls d1)%nat /\ 0 <= ret a /\
    (0 <= pollfds_exitfd_idx v -> u16 (default 0 (outz a !! Z.to_nat (pollfds_exitfd_idx v))) = 0).

Lemma goes_on_intro n h d d1 fds t a d2 :
  env (h ++ d1) (Poll fds t) = a -> d = d1 ++ (Poll fds t, a) :: d2 -> (n <= polls d1)%nat -> 0 <= ret a ->
  (0 <= pollfds_exitfd_idx v -> u16 (default 0 (outz a !! Z.to_nat (pollfds_exitfd_idx v))) = 0) ->
  goes_on_after n h d.
Proof. intros <- -> H1 H2 H3. by exists d1, fds, t, d2. Qed.

Definition round_post (h : history) (apictx : option api_ctx) (d : list event)
    (o : outcome ((gstate * option api_ctx) + Z)) : Prop :=
  match o with
  | Done (inl (g, apictx')) =>
      loop_inv (h ++ d) g apictx' /\ nextid_of apictx' = nextid_of apictx + accepted d /\ goes_on_after 0 h d
  | Done (inr rc) =>
      (rc = 0 /\ 0 <= pollfds_exitfd_idx v /\ reported (pollfds_exitfd_idx v) d) \/
      (rc = -1 /\ exists fds t a, (Poll fds t, a) ∈ d /\ ret a < 0 /\ errno a <> EINTR)
  | Undefined => 0 <= pollfds_apifd_idx v /\ hazard_read (nextid_of apictx) (v_apifd v) d
  | Exited _ | OutOfFuel => False
  end.

Lemma revents_at_spec pfds rs idx h :
  0 <= idx < Z.of_nat (length pfds) ->
  wp (revents_at (set_revents pfds rs) idx) h (fun d o =>
    d = [] /\ o = Done (negb (u16 (default 0 (rs !! Z.to_nat idx)) =? 0))).
Proof.
  intros Hi. unfold revents_at. destruct (Z.ltb_spec idx 0); [lia|].
  destruct (lookup_lt_is_Some_2 (set_revents pfds rs) (Z.to_nat idx)) as [p Hp]; [rewrite length_set_revents; lia|].
  eapply wp_bind_opt; [exact Hp|]. apply wp_ret. split; [done|]. by rewrite (lookup_set_revents _ _ _ _ Hp).
Qed.

Lemma has_event_spec pfds rs idx h :
  idx < Z.of_nat (length pfds) ->
  wp (has_event (set_revents pfds rs) idx) h (fun d o => d = [] /\
    exists e : bool, o = Done e /\ (e = true <-> 0 <= idx /\ u16 (default 0 (rs !! Z.to_nat idx)) <> 0)).
Proof.
  intros Hi. unfold has_event. destruct (Z.leb_spec 0 idx).
  - eapply wp_mono; [apply revents_at_spec; lia|]. intros d o [-> ->]. split; [done|]. eexists. split; [done|].
    destruct (Z.eqb_spec (u16 (default 0 (rs !! Z.to_nat idx))) 0); simpl; naive_solver.
  - apply wp_ret. split; [done|]. exists false. split; [done|]. split; [done|lia].
Qed.

(** The tap device: a packet goes to libslirp. *)
Lemma tap_event_spec g h :
  data_ok (timer_ids k) (v_tapfd v) (g_data g) ->
  wp (tap_event v g) h (fun d o => exists g' pollout, o = Done (g', pollout) /\
    data_ok (timer_ids k) (v_tapfd v) (g_data g') /\ g_pollfds g' = g_pollfds g /\ Forall quiet d).
Proof.
  intros Hok. unfold tap_event. apply wp_bind_sys. intros a Ha. destruct (ret a <? 0).
  { apply wp_ret. exists g, (-1). split_and!; try done. by constructor. }
  cbv zeta. apply wp_bind, wp_enter. intros a' _.
  eapply wp_mono; [apply (run_cb_keeps Hclock (timer_ids k) (v_tapfd v) false 0 (fun _ => True));
    [exact Hok|lia|apply input_ok]|].
  intros d o (g' & [] & -> & _ & H1 & _ & _ & H3 & H4). cbn [bind_post]. apply wp_ret. exists g', (-1).
  split_and!; [done|done|by apply H3|]. rewrite app_nil_r. constructor; [done|]. constructor; [done|].
  eapply Forall_impl; [exact H4|]. intros e. apply glue_event_quiet.
Qed.

Definition api_ok (h : history) (apictx : option api_ctx) : Prop :=
  0 <= pollfds_apifd_idx v -> exists ctx, apictx = Some ctx /\ api_inv ctx /\ agrees h ctx.

(** The API socket: a request is handled. *)
Lemma api_part (e : bool) apictx h :
  (e = true -> 0 <= pollfds_apifd_idx v) -> api_ok h apictx ->
  wp (if e then ctx ← lift_opt apictx; r ← api_handler (v_apifd v) ctx; mret (Some r.1) else mret apictx) h
    (fun d o => Forall not_poll d /\
      match o with
      | Done c => api_ok (h ++ d) c /\ nextid_of c = nextid_of apictx + accepted d
      | Undefined => 0 <= pollfds_apifd_idx v /\ hazard_read (nextid_of apictx) (v_apifd v) d
      | Exited _ | OutOfFuel => False
      end).
Proof.
  intros He Hapi. destruct e.
  2:{ apply wp_ret. split; [constructor|]. rewrite app_nil_r. split; [done|]. unfold accepted. simpl. lia. }
  destruct (Hapi (He eq_refl)) as (ctx & -> & Hinv & Hag). eapply wp_bind_opt; [done|].
  apply wp_bind. eapply wp_mono.
  { apply (wp_emits api_event); [apply api_handler_emits|]. by apply (api_handler_wp Hread Hexcl). }
  intros d o [Hev Ho].
  assert (Forall not_poll d) as Hnp by (eapply Forall_impl; [exact Hev|]; apply api_event_not_poll).
  destruct o as [[ctx' rc]|s| |]; cbn [bind_post] in *; try done.
  - apply wp_ret. rewrite app_nil_r. split; [done|]. destruct Ho as (H1 & H2 & H3 & _). split; [|exact H3].
    intros _. exists ctx'. split_and!; [done|done|by apply H2].
  - split; [done|]. split; [auto|exact Ho].
Qed.

(** The end of a round: libslirp looks at the events, and the timers are
    checked. *)
Lemma finish_round (sel : bool) (apictx : option api_ctx) g h :
  data_ok (timer_ids k) (v_tapfd v) (g_data g) -> polled_fds h = Z.of_nat (length (g_pollfds g)) ->
  wp (polled ← enter (SlirpPollfdsPoll sel) (fun h => slirp_pollfds_poll h sel) g;
      g ← check_ra_timeout (visits b) polled.1;
      mret (inl (g, apictx) : (gstate * option api_ctx) + Z)) h
    (fun d o => exists g', o = Done (inl (g', apictx)) /\
       data_ok (timer_ids k) (v_tapfd v) (g_data g') /\ g_pollfds g' = g_pollfds g /\ Forall quiet d).
Proof.
  intros Hok Hp. apply wp_bind, wp_enter. intros a _.
  assert (polled_fds (h ++ [(SlirpPollfdsPoll sel, a)]) <= Z.of_nat (length (g_pollfds g))) as Hle.
  { rewrite polled_not_poll; [lia|]. by constructor. }
  eapply wp_mono; [eapply (run_cb_keeps Hclock (timer_ids k) (v_tapfd v) false); [exact Hok|exact Hle|apply poll_ok]|].
  intros d o (g1 & [] & -> & _ & H1 & _ & _ & H3 & H4). cbn [bind_post fst]. apply wp_bind.
  eapply wp_mono; [apply (check_ra_timeout_safe k Hclock (visits b) (v_tapfd v)); [exact H1|exact Hvisits]|].
  intros d' o (g2 & -> & H5 & H6 & H7). cbn [bind_post]. apply wp_ret. exists g2.
  split_and!; [done|done|by rewrite H6, H3|]. rewrite app_nil_r. constructor; [done|]. apply Forall_app. split.
  - eapply Forall_impl; [exact H4|]. intros e. apply glue_event_quiet.
  - eapply Forall_impl; [exact H7|]. intros e He. unfold timer_event in He. by destruct e as [[] x].
Qed.

Lemma quiets_not_poll d : Forall quiet d -> Forall not_poll d.
Proof. intros H. eapply Forall_impl; [exact H|]. apply quiet_not_poll. Qed.

(** Filling the poll array and polling. *)
Lemma fill_and_poll_spec {B} (K : gstate -> answer -> M B) g h (Q : list event -> outcome B -> Prop) :
  data_ok (timer_ids k) (v_tapfd v) (g_data g) -> n_fds v <= Z.of_nat (length (g_pollfds g)) ->
  (forall g' a t d1 l, data_ok (timer_ids k) (v_tapfd v) (g_data g') ->
     n_fds v <= Z.of_nat (length (g_pollfds g')) -> Forall quiet d1 ->
     Forall (fun e => e.1 = Poll (g_pollfds g') t) l -> ~ interrupted a ->
     env (h ++ d1 ++ l) (Poll (g_pollfds g') t) = a ->
     let d := d1 ++ l ++ [(Poll (g_pollfds g') t, a)] in
     wp (K g' a) (h ++ d) (fun d' o => Q (d ++ d') o)) ->
  wp (filled ← enter (SlirpPollfdsFill (u32 (-1))) (fun h => slirp_pollfds_fill h (u32 (-1)))
                (with_pollfds g (take (Z.to_nat (n_fds v)) (g_pollfds g)));
      timeout ← update_ra_timeout filled.2 (g_data filled.1);
      a ← retry (tries b) EINTR (Poll (g_pollfds filled.1) (i32 timeout));
      K filled.1 a) h Q.
Proof.
  intros Hok Hn HK. apply wp_bind, wp_enter. intros a0 _.
  eapply wp_mono; [eapply (run_cb_keeps Hclock (timer_ids k) (v_tapfd v) true 0); [exact Hok|lia|]|].
  { apply fill_ok. unfold in_u32, u32. apply Z.mod_pos_bound. lia. }
  intros d0 o (g1 & timeout & -> & Hu & H1 & _ & Hpre & _ & H4). cbn [bind_post fst snd].
  apply wp_bind. eapply wp_mono; [by eapply (update_ra_timeout_spec Hclock)|].
  intros dc o (r & -> & Hr & Hdc). cbn [bind_post]. apply wp_bind.
  eapply wp_mono; [by eapply (wp_retry intr)|]. intros dp o (l & a & -> & -> & Hni & Hl & Henv). cbn [bind_post].
  pose proof (ok_n v Hvars) as Hn1.
  assert (n_fds v <= Z.of_nat (length (g_pollfds g1))) as Hlen.
  { apply prefix_length in Hpre. simpl in Hpre. rewrite length_take in Hpre. lia. }
  set (d1 := (SlirpPollfdsFill (u32 (-1)), a0) :: d0 ++ dc).
  assert (Forall quiet d1) as Hq.
  { constructor; [done|]. apply Forall_app. split.
    - eapply Forall_impl; [exact H4|]. intros e. apply glue_event_quiet.
    - destruct dc as [|[c x] [|? ?]]; simplify_eq/=. by constructor. }
  assert (env (h ++ d1 ++ l) (Poll (g_pollfds g1) (i32 r)) = a) as Henv'.
  { rewrite <-Henv. f_equal. unfold d1. app_eq. }
  pose proof (HK g1 a (i32 r) d1 l H1 Hlen Hq Hl Hni Henv') as HKd. cbv zeta in HKd.
  match goal with |- wp _ ?hist _ =>
    replace hist with (h ++ d1 ++ l ++ [(Poll (g_pollfds g1) (i32 r), a)])
      by (unfold d1; rewrite <-!app_assoc; simpl; by rewrite <-!app_assoc) end.
  eapply wp_mono; [exact HKd|]. intros d' o HQ. unfold d1 in HQ. simpl in HQ. rewrite <-!app_assoc in HQ.
  simpl. by rewrite <-!app_assoc.
Qed.

Lemma polls_last g h t a d1 l d2 :
  Forall not_poll d2 ->
  polled_fds ((h ++ d1 ++ l ++ [(Poll (g_pollfds g) t, a)]) ++ d2) = Z.of_nat (length (g_pollfds g)).
Proof. intros H2. rewrite polled_not_poll by done. rewrite !app_assoc. apply polled_snoc. Qed.

Lemma live_polls h c l fds t : c = Poll fds t -> Forall (fun e : event => e.1 = c) l -> live (h ++ l) = live h.
Proof.
  intros -> Hl. rewrite live_app. induction Hl as [|[c a] l Hc _ IH]; [done|]. simpl in *. subst. exact IH.
Qed.

Lemma api_ok_mono h d apictx : live (h ++ d) = live h -> api_ok h apictx -> api_ok (h ++ d) apictx.
Proof.
  intros Hl Ha Hi. destruct (Ha Hi) as (ctx & -> & H1 & H2). exists ctx. split_and!; [done|done|].
  unfold agrees in *. by rewrite Hl.
Qed.

(** After the poll: what a round does, given the events [dp] up to it. *)
Lemma after_poll_spec g a h0 dp apictx t :
  data_ok (timer_ids k) (v_tapfd v) (g_data g) -> n_fds v <= Z.of_nat (length (g_pollfds g)) ->
  0 <= ret a -> (exists d1, dp = d1 ++ [(Poll (g_pollfds g) t, a)] /\ env (h0 ++ d1) (Poll (g_pollfds g) t) = a) ->
  (forall d2, Forall not_poll d2 -> polled_fds ((h0 ++ dp) ++ d2) = Z.of_nat (length (g_pollfds g))) ->
  api_ok (h0 ++ dp) apictx -> accepted dp = 0 ->
  wp (after_poll b v apictx g a) (h0 ++ dp)
    (fun d o => round_post h0 apictx (dp ++ d) o).
Proof.
  intros Hok Hn Hret (d1p & Hdp & Henv) Hpolled Hapi Hacc. pose proof Hvars as [Hn1 Hex Hap]. unfold after_poll.
  destruct (Z.ltb_spec (ret a) 0) as [|_]; [lia|]. cbv zeta. set (pollfds_data := set_revents (g_pollfds g) (outz a)).
  apply wp_bind. eapply wp_mono; [apply revents_at_spec; lia|]. intros ? ? [-> ->]. cbn [bind_post].
  rewrite app_nil_r. set (tap := negb _). clearbody tap. apply wp_bind.
  assert (wp (if tap then tap_event v (with_pollfds g pollfds_data) else mret (with_pollfds g pollfds_data, ret a))
    (h0 ++ dp) (fun d o => exists g' pollout, o = Done (g', pollout) /\
    data_ok (timer_ids k) (v_tapfd v) (g_data g') /\ g_pollfds g' = pollfds_data /\ Forall quiet d)) as Htap.
  { destruct tap; [by apply tap_event_spec|]. apply wp_ret. eexists _, _. by split_and!. }
  eapply wp_mono; [exact Htap|]. intros d1 o (g1 & pollout & -> & Hok1 & Hp1 & Hq1). cbn [bind_post fst snd].
  rewrite Hp1, Nat.eqb_refl. cbn [negb].
  assert (length pollfds_data = length (g_pollfds g)) as Hlen by apply length_set_revents.
  apply wp_bind. eapply wp_mono; [apply has_event_spec; lia|]. intros ? ? [-> (exited & -> & Hexited)]. cbn [bind_post].
  rewrite app_nil_r. destruct exited.
  { apply wp_ret. left. destruct (proj1 Hexited eq_refl) as [Hi Hr]. split_and!; [done|done|].
    exists (g_pollfds g), t, a. split_and!; [|done|done]. rewrite Hdp, !elem_of_app. left. right. by left. }
  apply wp_bind. eapply wp_mono; [apply has_event_spec; lia|]. intros ? ? [-> (api & -> & Hev)]. cbn [bind_post].
  rewrite app_nil_r. apply wp_bind.
  assert (api_ok ((h0 ++ dp) ++ d1) apictx) as Hapi1 by (apply api_ok_mono; [by apply live_quiet|done]).
  eapply wp_mono; [apply api_part; [intros; by apply Hev|exact Hapi1]|].
  intros d2 o [Hnp2 Ho]. destruct o as [apictx'|s| |]; cbn [bind_post]; try done.
  2:{ destruct Ho as [Hi Hz]. split; [done|]. simpl.
      apply (hazard_read_app _ _ dp), (hazard_read_app _ _ d1).
      rewrite Hacc, (accepted_quiet d1), !Z.add_0_r by done. exact Hz. }
  destruct Ho as [Hapi2 Hid2].
  eapply wp_mono; [apply finish_round; [exact Hok1|]|].
  { rewrite Hp1, Hlen. rewrite <-app_assoc. apply Hpolled. apply Forall_app. split; [by apply quiets_not_poll|done]. }
  intros d3 o (g2 & -> & Hok2 & Hp2 & Hq3). cbn [round_post]. split; [|split].
  2:{ cbn [app]. rewrite !accepted_app, Hid2, Hacc, (accepted_quiet d1), (accepted_quiet d3) by done. lia. }
  2:{ apply (goes_on_intro 0 h0 _ d1p (g_pollfds g) t a (d1 ++ d2 ++ d3)); [done| |lia|done|].
      - rewrite Hdp. app_eq.
      - intros Hi. destruct (Z.eq_dec (u16 (default 0 (outz a !! Z.to_nat (pollfds_exitfd_idx v)))) 0); [done|].
        by assert (false = true) by tauto. }
  split.
  - exact Hok2.
  - rewrite Hp2, Hp1, Hlen. exact Hn.
  - change (api_ok (h0 ++ dp ++ d1 ++ d2 ++ d3) apictx'). rewrite !app_assoc.
    apply api_ok_mono; [by apply live_quiet|done].
Qed.

Lemma iteration_spec g apictx h :
  loop_inv h g apictx -> wp (iteration b v g apictx) h (round_post h apictx).
Proof.
  intros [Hok Hn Hapi]. unfold iteration.
  apply (fill_and_poll_spec (after_poll b v apictx) g h); [exact Hok|exact Hn|].
  intros g1 a t d1 l Hok1 Hn1 Hq1 Hl Hni Henv d.
  destruct (Z.le_gt_cases 0 (ret a)) as [Hpos|Hneg].
  2:{ unfold after_poll. destruct (Z.ltb_spec (ret a) 0); [|lia]. apply wp_ret. rewrite app_nil_r. right. split; [done|]. exists (g_pollfds g1), t, a.
    split_and!; [|done|unfold interrupted in Hni; tauto]. unfold d. rewrite !elem_of_app. right. right. by left. }
  eapply (after_poll_spec g1 a h d apictx t); [exact Hok1|exact Hn1|exact Hpos| | | |].
  - exists (d1 ++ l). split; [unfold d; app_eq|done].
  - intros d2 Hd2. unfold d. by apply polls_last.
  - apply api_ok_mono; [|exact Hapi]. unfold d.
    rewrite !app_assoc, live_app.
    transitivity (live ((h ++ d1) ++ l)); [done|].
    rewrite (live_polls (h ++ d1) (Poll (g_pollfds g1) t) l (g_pollfds g1) t) by done. by rewrite live_quiet.
  - unfold d. rewrite !accepted_app, (accepted_quiet d1) by done. rewrite (accepted_none l); [done|].
    eapply Forall_impl; [exact Hl|]. intros [c x] Hc. simpl in Hc. by subst.
Qed.
End rounds.

(** ** The API context across the rounds *)

(** Nothing is claimed of a run that does not return. *)
Definition if_done {A} (P : list event -> A -> Prop) (d : list event) (o : outcome A) : Prop :=
  match o with Done a => P d a | _ => True end.

(** The context the loop returns is the one it was given, with another table. *)
Definition same_blocks (c c' : option api_ctx) : Prop :=
  (fun ctx => (Api.buf ctx, ctx_addr ctx)) <$> c' = (fun ctx => (Api.buf ctx, ctx_addr ctx)) <$> c.

Lemma same_blocks_None c c' : same_blocks c c' -> c' = None <-> c = None.
Proof. unfold same_blocks. by destruct c, c'. Qed.

Section outcomes.
Context `{E : Env} `{BO : ByteOrder} `{PF : PollFlags} `{SL : Libslirp}.

(** A property of the outcome alone, kept by whatever comes before. *)
Lemma wp_outcome_bind {A B} (m : M A) (f : A -> M B) h (P : A -> Prop) (Q : B -> Prop) :
  wp m h (if_done (fun _ => P)) -> (forall a h', P a -> wp (f a) h' (if_done (fun _ => Q))) ->
  wp (m ≫= f) h (if_done (fun _ => Q)).
Proof.
  intros Hm Hf. apply wp_bind. eapply wp_mono; [exact Hm|]. intros d [a|s| |] Ha; cbn [bind_post]; [|done..].
  by eapply wp_mono; [apply Hf|].
Qed.

Lemma wp_outcome_any {A B} (m : M A) (f : A -> M B) h (Q : B -> Prop) :
  (forall a h', wp (f a) h' (if_done (fun _ => Q))) -> wp (m ≫= f) h (if_done (fun _ => Q)).
Proof. intros Hf. apply (wp_outcome_bind m f h (fun _ => True)); [|auto]. unfold wp. by destruct (m h) as [d []]. Qed.

Lemma iteration_blocks b v g apictx h :
  wp (iteration b v g apictx) h (if_done (fun _ r => match r with inl (_, c) => same_blocks apictx c | inr _ => True end)).
Proof.
  unfold iteration, after_poll. cbv zeta. do 3 (apply wp_outcome_any; intros). destruct (_ <? 0); [by apply wp_ret|].
  do 2 (apply wp_outcome_any; intros). destruct (negb _); [done|].
  apply wp_outcome_any; intros [] ?; [by apply wp_ret|]. apply wp_outcome_any. intros api ?.
  apply (wp_outcome_bind _ _ _ (same_blocks apictx)).
  - destruct api; [|by apply wp_ret]. destruct apictx as [ctx|]; [|done]. eapply wp_bind_opt; [done|].
    eapply (wp_outcome_bind _ _ _ (fun r => same_blocks (Some ctx) (Some r.1))); [|intros; by apply wp_ret].
    eapply wp_mono; [apply api_handler_step|]. intros d [r|s| |] Hs; [|done..].
    cbn [if_done steps_table] in *. by destruct Hs.
  - intros c ? Hc. do 2 (apply wp_outcome_any; intros). by apply wp_ret.
Qed.

Lemma main_loop_blocks n b v g apictx h :
  wp (main_loop n b v g apictx) h (if_done (fun _ r => same_blocks apictx r.2)).
Proof.
  revert g apictx h. induction n as [|n IH]; intros g apictx h; cbn [main_loop]; [done|].
  eapply wp_outcome_bind; [apply iteration_blocks|]. intros [[g' c]|rc] h' Hc; [|by apply wp_ret].
  eapply wp_mono; [apply IH|]. intros d [[rc c']|s| |] Hc'; [|done..]. simpl in *. unfold same_blocks in *. congruence.
Qed.
End outcomes.

(** ** The configuration of libslirp *)

Lemma sockaddr_fields_is_Some a : is_Some (sockaddr_fields a) <-> is_Some a.
Proof. apply fmap_is_Some. Qed.
Lemma sockaddr6_fields_is_Some a : is_Some (sockaddr6_fields a) <-> is_Some a.
Proof. apply fmap_is_Some. Qed.

(** A feature that is only enabled with headers that have it. *)
Lemma guarded_flag n version_max (e : bool) : (e = true -> n <= version_max) -> (n <=? version_max) && e = e.
Proof. intros H. destruct e; [|apply andb_false_r]. specialize (H eq_refl). rewrite andb_true_r. lia. Qed.

(** The addresses in the IPv6 prefix. *)
Lemma ipv6_addresses :
  NoDup [in6 "fd00::"; in6 "fd00::2"; in6 "fd00::3"] /\
  Forall (fun a => length a = 16%nat /\ take 8 a = take 8 (in6 "fd00::")) [in6 "fd00::2"; in6 "fd00::3"].
Proof.
  split; [apply (bool_decide_eq_true_1 (NoDup _)); vm_compute; reflexivity|].
  repeat constructor; vm_compute; reflexivity.
Qed.

(** C30: the configuration handed to libslirp.  Its version is one the
    headers know and covers the fields that are set (libslirp ignores the
    outbound addresses below version 2 and [disable_dns] below 3); these fields
    are set exactly if the options ask for them; the addresses and the MTU are
    those of the configuration, and the IPv6 gateway and name server are
    distinct addresses of the IPv6 prefix. *)
Theorem slirp_config_correct version_max cfg :
  typed_config version_max cfg ->
  let sc := slirp_config version_max cfg in
  1 <= sc_version sc <= Z.max 1 version_max /\
  (is_Some (sc_outbound_addr sc) <-> cfg_enable_outbound_addr cfg = true) /\
  (is_Some (sc_outbound_addr6 sc) <-> cfg_enable_outbound_addr6 cfg = true) /\
  (is_Some (sc_outbound_addr sc) \/ is_Some (sc_outbound_addr6 sc) -> 2 <= sc_version sc) /\
  sc_disable_dns sc = cfg_disable_dns cfg /\ (sc_disable_dns sc = true -> 3 <= sc_version sc) /\
  [sc_vnetwork sc; sc_vnetmask sc; sc_vhost sc; sc_vdhcp_start sc; sc_vnameserver sc; sc_if_mtu sc; sc_if_mru sc] =
  [vnetwork (cfg_net cfg); vnetmask (cfg_net cfg); vhost (cfg_net cfg); vdhcp_start (cfg_net cfg);
   vnameserver (cfg_net cfg); cfg_mtu cfg; cfg_mtu cfg] /\
  NoDup [sc_vprefix_addr6 sc; sc_vhost6 sc; sc_vnameserver6 sc] /\
  Forall (fun a => length a = 16%nat /\ take 8 a = take 8 (sc_vprefix_addr6 sc)) [sc_vhost6 sc; sc_vnameserver6 sc].
Proof.
  intros Hty. destruct Hty as [_ _ H4 H6 Hd _ _]. cbv zeta. unfold slirp_config. cbn -[in6 b2l].
  assert (cfg_enable_outbound_addr cfg = true -> 2 <= version_max /\ is_Some (cfg_outbound_addr cfg)) as H4'.
  { intros E. rewrite E in H4. destruct H4 as (a & -> & _ & ?). by split. }
  assert (cfg_enable_outbound_addr6 cfg = true -> 2 <= version_max /\ is_Some (cfg_outbound_addr6 cfg)) as H6'.
  { intros E. rewrite E in H6. destruct H6 as (a & -> & _ & ?). by split. }
  rewrite !guarded_flag by tauto. destruct ipv6_addresses as [H1 H2].
  assert (forall (e : bool), is_Some (if e then sockaddr_fields (cfg_outbound_addr cfg) else None) <->
    (e = true /\ is_Some (cfg_outbound_addr cfg))) as Hs4.
  { intros []; rewrite ?sockaddr_fields_is_Some; [tauto|]. split; [by intros [? ?]|by intros [? _]]. }
  assert (forall (e : bool), is_Some (if e then sockaddr6_fields (cfg_outbound_addr6 cfg) else None) <->
    (e = true /\ is_Some (cfg_outbound_addr6 cfg))) as Hs6.
  { intros []; rewrite ?sockaddr6_fields_is_Some; [tauto|]. split; [by intros [? ?]|by intros [? _]]. }
  rewrite !Hs4, !Hs6. clear Hs4 Hs6.
  split; [|split; [tauto|split; [tauto|split; [|split; [done|split; [|done]]]]]];
    clear H1 H2; destruct (cfg_enable_outbound_addr cfg), (cfg_enable_outbound_addr6 cfg), (cfg_disable_dns cfg),
      (Z.leb_spec 6 version_max); intuition (discriminate || lia).
Qed.

(** An outbound address and no DNS. *)
Definition outbound_config : slirp4netns_config :=
  Config 1500 (Netaddrs 131082 16777215 33685514 251789322 50462730 1677852682) true false true true
    true (Some (SockaddrIn AF_INET 0 84281354)) false None true (Sockaddr 0 (replicate 14 0)) 0.

Lemma slirp_config_correct_witness :
  typed_config 4 outbound_config /\ sc_version (slirp_config 4 outbound_config) = 3 /\
  is_Some (sc_outbound_addr (slirp_config 4 outbound_config)).
Proof.
  assert (typed_config 4 outbound_config) as Hty.
  { split; cbn; unfold in_u32, is_byte; try lia; try done.
    - repeat constructor; lia.
    - eexists. split; [reflexivity|]. lia.
    - split; [done|]. repeat constructor; lia. }
  split; [exact Hty|]. split; [reflexivity|].
  destruct (slirp_config_correct 4 outbound_config Hty) as (_ & H & _). apply H. reflexivity.
Defined.

(** ** The whole run *)

(** Before the loop nothing is polled, read or accepted, no forward is made,
    and only libslirp writes (to the tap device). *)
Definition early (fd : Z) (e : event) : Prop :=
  match e.1 with
  | Poll _ _ | Read _ _ | Accept _ | SlirpAddHostfwd _ _ _ _ _ | SlirpRemoveHostfwd _ _ _
  | SlirpPollfdsFill _ | SlirpPollfdsPoll _ | SlirpInput _ => False
  | Write f _ => f = fd
  | _ => True
  end.

Lemma early_quiet fd e : early fd e -> quiet e.
Proof. by destruct e as [[] a]. Qed.
Lemma glue_event_early fd e : glue_event fd e -> early fd e.
Proof. by destruct e as [[] a]. Qed.

(** The lock-down only makes calls of this kind. *)
Definition lock_call (e : event) : Prop :=
  match e.1 with
  | Poll _ _ | Read _ _ | Write _ _ | Accept _ | Malloc _ | Free _ | GArrayNew | GArrayFree _ | GListFreeFull _
  | SlirpAddHostfwd _ _ _ _ _ | SlirpRemoveHostfwd _ _ _
  | SlirpNew _ | SlirpPollfdsFill _ | SlirpPollfdsPoll _ | SlirpInput _ | TimerCb _ _ => False
  | _ => True
  end.

Section emitting.
Context `{E : Env}.

Lemma add_mount_calls from to : emits lock_call (add_mount from to).
Proof. unfold add_mount, checked. repeat emits_step; done. Qed.

Lemma resolv_calls dn root : emits lock_call (bind_escaped_resolv_conf dn root).
Proof.
  unfold bind_escaped_resolv_conf, checked. repeat first [emits_step | apply add_mount_calls]; done.
Qed.

Lemma drop_caps_calls n i : emits lock_call (drop_caps n i).
Proof. revert i. induction n as [|n IH]; intros i; cbn [drop_caps]; repeat first [emits_step | apply IH]; done. Qed.

Lemma create_sandbox_calls dn n : emits lock_call (create_sandbox dn n).
Proof.
  unfold create_sandbox, checked_call, checked.
  repeat first [emits_step | apply add_mount_calls | apply resolv_calls | apply drop_caps_calls]; done.
Qed.

Lemma add_block_rules_calls se action log names : emits lock_call (add_block_rules se action log names).
Proof.
  revert log. induction names as [|n names IH]; intros log; cbn [add_block_rules]; unfold add_block_rule;
    repeat first [emits_step | apply IH]; done.
Qed.

Lemma add_archs_calls archs : emits lock_call (add_archs archs).
Proof. induction archs as [|a archs IH]; cbn [add_archs]; repeat first [emits_step | apply IH]; done. Qed.

Lemma enable_seccomp_calls t kp se : emits lock_call (enable_seccomp t kp se).
Proof.
  unfold enable_seccomp, get_block_action.
  repeat first [emits_step | apply add_block_rules_calls | apply add_archs_calls]; done.
Qed.

Lemma lock_down_calls dn t kp se b cfg : emits lock_call (lock_down dn t kp se b cfg).
Proof.
  unfold lock_down, checked_call.
  repeat first [emits_step | apply create_sandbox_calls | apply enable_seccomp_calls]; done.
Qed.

Lemma lock_down_early fd dn t kp se b cfg : emits (early fd) (lock_down dn t kp se b cfg).
Proof. eapply emits_mono; [apply lock_down_calls|]. by intros [[] a]. Qed.

Lemma setup_api_early fd path cfg : emits (early fd) (setup_api path cfg).
Proof. unfold setup_api, api_bindlisten, api_ctx_alloc. repeat emits_step; done. Qed.
End emitting.

(** *** Setting up *)

Definition api_setup_post (api_socket : option bytes) (cfg : slirp4netns_config) (d : list event)
    (r : (Z * option api_ctx) + Z) : Prop :=
  match r with
  | inr rc => rc = -1 /\ api_socket <> None
  | inl (apifd, None) => apifd = -1 /\ api_socket = None
  | inl (apifd, Some ctx) =>
      0 <= apifd /\ ctx = Ctx (ctx_addr ctx) (Api.buf ctx) 4096 [] 1 (recommended_vguest (cfg_net cfg)) /\ api_socket <> None /\
      exists a, (Listen apifd 0, a) ∈ d /\ 0 <= ret a
  end.

Lemma setup_api_spec `{E : Env} api_socket cfg h :
  wp (setup_api api_socket cfg) h (returns (api_setup_post api_socket cfg)).
Proof.
  unfold setup_api. destruct api_socket as [path|]; [|by apply wp_ret]. apply wp_bind.
  assert (wp (api_bindlisten path) h (returns (fun d fd =>
    fd < 0 \/ (0 <= fd /\ exists a, (Listen fd 0, a) ∈ d /\ 0 <= ret a)))) as Hbl.
  { unfold api_bindlisten. repeat wp_step; simpl; try (left; lia).
    right. split; [lia|]. eexists. split; [|apply Z.ltb_ge; eassumption]. repeat first [apply list_elem_of_here | apply list_elem_of_further]. }
  eapply wp_mono; [exact Hbl|]. intros d [fd| | |] Hd; cbn [returns bind_post] in *; try done.
  destruct (Z.ltb_spec fd 0); [by apply wp_ret|]. destruct Hd as [?|[Hfd (a & Ha & Hpos)]]; [lia|].
  apply wp_bind. unfold api_ctx_alloc.
  repeat wp_step; cbn [bind_post]; apply wp_ret; simpl; try done.
  split_and!; try done. exists a. split; [|done]. apply elem_of_app. by left.
Qed.

Section run.
Context `{E : Env} `{BO : ByteOrder} `{PF : PollFlags} `{SL : Libslirp} (k : nat) `{HC : !LibslirpContract k}.
Context (intr : nat) (N : Z) (b : bounds).
Context (version_max : Z) (dn : bytes -> bytes) (t : macros) (kp : bool) (se : Z -> bytes).
Hypothesis Hclock : clock_ok E.
Hypothesis Hread : read_ok E.
Hypothesis Hexcl : slirp_exclusive E.
Hypothesis Hcaps : knows_caps N.
Hypothesis Hcapsb : (Z.to_nat N + 2 <= caps b)%nat.
Hypothesis Hintr : patient E intr.
Hypothesis Htries : (S intr <= tries b)%nat.
Hypothesis Hvisits : (k <= visits b)%nat.

(** The process is locked down as the configuration asks. *)
Definition locked_down (cfg : slirp4netns_config) (d : list event) : Prop :=
  (cfg_enable_sandbox cfg = true -> exists d1 ds d2, d = d1 ++ ds ++ d2 /\ confined ds) /\
  (cfg_enable_seccomp cfg = true -> exists a, (SeccompLoad, a) ∈ d /\ 0 <= ret a).

Lemma locked_down_app cfg d1 d2 : locked_down cfg d2 -> locked_down cfg (d1 ++ d2).
Proof.
  intros [H1 H2]. split.
  - intros Hs. destruct (H1 Hs) as (e1 & ds & e2 & -> & Hc). exists (d1 ++ e1), ds, e2. by rewrite <-app_assoc.
  - intros Hs. destruct (H2 Hs) as (a & Ha & Ha'). exists a. split; [|done]. apply elem_of_app. by right.
Qed.

Lemma lock_down_spec cfg h :
  wp (lock_down dn t kp se b cfg) h (returns (fun d r => r < 0 \/ (0 <= r /\ locked_down cfg d))).
Proof.
  unfold lock_down. apply wp_bind_sys_. intros s Hs.
  assert (forall h', wp (if cfg_enable_sandbox cfg then create_sandbox dn (caps b) else mret 0) h'
    (returns (fun d r => r < 0 \/ (r = 0 /\ (cfg_enable_sandbox cfg = true -> confined d))))) as Hsb.
  { intros h'. destruct (cfg_enable_sandbox cfg); [|apply wp_ret; right; by split].
    eapply wp_mono; [by apply (create_sandbox_follows dn N)|]. intros d [r| | |] Hd; simpl in *; try done.
    destruct Hd as (l & (real & fd & n & [Hn0 Hn] & ->) & Hr).
    pose proof (runs_result _ _ _ (sandbox_steps_proper dn real fd n) Hr).
    destruct (Z.eq_dec r 0) as [->|]; [|left; lia]. right. split; [done|]. intros _. exact (sandbox_steps_confine dn real fd n d Hn0 Hn Hr). }
  eapply wp_mono.
  { eapply (wp_checked_call _ _ _ _ (fun d r => r < 0 \/ (0 <= r /\ locked_down cfg d))); [apply Hsb| |].
    - intros d r _ Hneg. by left.
    - intros d r Hd Hpos. destruct Hd as [?|[-> Hconf]]; [lia|].
      assert (forall h', wp (if cfg_enable_seccomp cfg then enable_seccomp t kp se else mret 0) h'
        (returns (fun d' r' => r' < 0 \/ (0 <= r' /\ (cfg_enable_seccomp cfg = true -> exists a, (SeccompLoad, a) ∈ d' /\ 0 <= ret a))))) as Hsec.
      { intros h'. destruct (cfg_enable_seccomp cfg); [|apply wp_ret; right; by split].
        eapply wp_mono; [apply enable_seccomp_spec|]. intros d' [r'| | |] Hd'; simpl in *; try done.
        destruct Hd' as (pre & action & _ & [(a & _ & _ & _ & ->)|(nvs & dss & l & post & _ & _ & _ & -> & -> & _)]); [by left|].
        destruct (Z.lt_ge_cases (ret l) 0); [by left|]. right. split; [done|]. intros _. exists l. split; [|done].
        rewrite !elem_of_app. right. right. by left. }
      eapply wp_mono; [apply Hsec|]. intros d' [r'| | |] Hd'; simpl in *; try done.
      destruct Hd' as [?|[Hr' Hl]]; [by left|]. right. split; [done|]. split.
      + intros Hsb'. exists [], d, d'. split; [done|auto].
      + intros Hsc. destruct (Hl Hsc) as (a & Ha & Ha'). exists a. split; [|done]. apply elem_of_app. by right. }
  intros d [r| | |] Hd; simpl in *; try done. destruct Hd as [?|[Hr [H1 H2]]]; [by left|]. right. split; [done|]. split.
  - intros Hsb'. destruct (H1 Hsb') as (d1 & ds & d2 & -> & Hc). by exists ((Signal SIGPIPE true, s) :: d1), ds, d2.
  - intros Hsc. destruct (H2 Hsc) as (a & Ha & Ha'). exists a. split; [|done]. by right.
Qed.

Definition ready_post (readyfd : Z) (d : list event) : Prop :=
  if 0 <=? readyfd then
    exists l a c, d = l ++ [(Write readyfd (b2l "1"), a); (Close readyfd, c)] /\ ~ interrupted a /\
      Forall (fun e => e.1 = Write readyfd (b2l "1")) l
  else d = [].

Lemma notify_ready_spec readyfd h : wp (notify_ready b readyfd) h (returns (fun d _ => ready_post readyfd d)).
Proof.
  unfold notify_ready, ready_post. destruct (0 <=? readyfd); [|by apply wp_ret].
  apply wp_bind. eapply wp_mono; [by eapply (wp_retry intr)|]. intros d o (l & a & -> & -> & Hni & Hl & _). cbn [bind_post].
  unfold sys_. wp_step. wp_step. exists l, a, a0. split_and!; [|done|done]. by rewrite <-app_assoc.
Qed.

(** *** The loop *)

(** How a run of the loop looks after [n] rounds: it goes on in a good state
    (and then there were [n] polls without an event on the exit descriptor), or
    it ended for one of the reasons given. *)
Definition loop_post (v : loop_vars) (n : nat) (h : history) (nextid : Z) (d : list event)
    (o : outcome (Z * option api_ctx)) : Prop :=
  match o with
  | Done (rc, _) =>
      (rc = 0 /\ 0 <= pollfds_exitfd_idx v /\ reported (pollfds_exitfd_idx v) d) \/
      (rc = -1 /\ exists fds t a, (Poll fds t, a) ∈ d /\ ret a < 0 /\ errno a <> EINTR)
  | Undefined => 0 <= pollfds_apifd_idx v /\ hazard_read nextid (v_apifd v) d
  | OutOfFuel => (exists g apictx, loop_inv k v (h ++ d) g apictx) /\ ((0 < n)%nat -> goes_on_after v (n - 1) h d)
  | Exited _ => False
  end.

Lemma reported_app idx d1 d2 : reported idx d2 -> reported idx (d1 ++ d2).
Proof. intros (fds & tm & a & Hin & H). exists fds, tm, a. split; [|done]. apply elem_of_app. by right. Qed.

Lemma goes_on_app v n h d1 d2 :
  goes_on_after v n (h ++ d1) d2 -> goes_on_after v (polls d1 + n) h (d1 ++ d2).
Proof.
  intros (e & fds & tm & e2 & -> & Hn & H1 & H2). rewrite <-app_assoc in *.
  apply (goes_on_intro v _ _ _ (d1 ++ e) fds tm _ e2 eq_refl); [app_eq| |done|done].
  rewrite polls_app. lia.
Qed.

Lemma goes_on_polls v n h d : goes_on_after v n h d -> (n < polls d)%nat.
Proof.
  intros (e & fds & tm & e2 & -> & Hn & _). rewrite polls_app. unfold polls in *. simpl. lia.
Qed.

Lemma goes_on_weaken v n m h d d' :
  (m <= n)%nat -> goes_on_after v n h d -> goes_on_after v m h (d ++ d').
Proof.
  intros Hm (e & fds & tm & e2 & -> & Hn & H1 & H2).
  apply (goes_on_intro v _ _ _ e fds tm _ (e2 ++ d') eq_refl); [app_eq|lia|done|done].
Qed.

Lemma loop_post_app v n h nextid d1 d2 o :
  goes_on_after v 0 h d1 -> loop_post v n (h ++ d1) (nextid + accepted d1) d2 o ->
  loop_post v (S n) h nextid (d1 ++ d2) o.
Proof.
  intros Hgo. destruct o as [[rc c]|s| |]; simpl; [|done| |].
  - intros [(? & ? & ?)|(? & fds & tm & a & Hin & ?)]; [left; by split_and!; [| |apply reported_app]|right].
    split; [done|]. exists fds, tm, a. split; [|done]. apply elem_of_app. by right.
  - intros [? ?]. split; [done|]. by apply hazard_read_app.
  - intros [Hinv Hn]. rewrite app_assoc. split; [done|]. intros _. rewrite Nat.sub_0_r.
    destruct n as [|n]; [by apply (goes_on_weaken v 0)|].
    pose proof (goes_on_polls _ _ _ _ Hgo).
    pose proof (goes_on_app v _ h d1 d2 (Hn ltac:(lia))) as Hd.
    rewrite <-(app_nil_r (d1 ++ d2)). eapply goes_on_weaken; [|exact Hd]. lia.
Qed.

Lemma main_loop_spec v n g apictx h :
  vars_ok v -> loop_inv k v h g apictx -> wp (main_loop n b v g apictx) h (loop_post v n h (nextid_of apictx)).
Proof.
  intros Hv. revert g apictx h. induction n as [|n IH]; intros g apictx h Hinv; cbn [main_loop].
  - split; [|lia]. exists g, apictx. by rewrite app_nil_r.
  - apply wp_bind. eapply wp_mono; [by apply (iteration_spec k intr b v)|].
    intros d o Ho. destruct o as [[[g' c']|rc]|s| |]; cbn [bind_post] in *; try done.
    + destruct Ho as (Ho & Hid & Hgo). eapply wp_mono; [by apply IH|]. intros d' o'. rewrite Hid. by apply loop_post_app.
    + apply wp_ret. rewrite app_nil_r. exact Ho.
Qed.

(** *** do_slirp *)

(** The calls at the label [err]. *)
Definition cleanup (array buf : Z) (api_socket : option bytes) (apictx : option api_ctx) : list call :=
  (if buf =? 0 then [] else [Free buf]) ++
  match apictx, api_socket with
  | Some ctx, Some path =>
      (if Api.buf ctx =? 0 then [] else [Free (Api.buf ctx)]) ++
      [GListFreeFull (map fwd_contents (hostfwds ctx)); Free (ctx_addr ctx); Unlink path]
  | _, _ => []
  end ++ [GArrayFree array].

Definition release (c : call) : Prop := match c with Free _ | GListFreeFull _ => True | _ => False end.

(** When the loop returned, memory is released and the API socket unlinked. *)
Definition ends_with (api_socket : option bytes) (o' : outcome (Z * option api_ctx)) (du : list event)
    (o : outcome Z) : Prop :=
  match o' with
  | Done (rc, _) =>
      o = Done rc /\ exists rel array, Forall release rel /\
        calls_of du = rel ++ match api_socket with Some path => [Unlink path] | None => [] end ++ [GArrayFree array]
  | Exited s => o = Exited s /\ du = []
  | Undefined => o = Undefined /\ du = []
  | OutOfFuel => o = OutOfFuel /\ du = []
  end.

(** A run of [do_slirp] either fails during the set-up, without having polled,
    read or accepted anything, and returns -1; or it sets everything up, locks
    the process down, then notifies the parent, then serves: connections are
    accepted on the socket that listens, and the id counter starts at 1. *)
Definition do_slirp_post (tapfd readyfd exitfd : Z) (api_socket : option bytes) (cfg : slirp4netns_config)
    (h : history) (d : list event) (o : outcome Z) : Prop :=
  (o = Done (-1) /\ Forall (early tapfd) d) \/
  (exists v ds dr dl du o', d = ds ++ dr ++ dl ++ du /\
     v_tapfd v = tapfd /\ pollfds_exitfd_idx v = (if 0 <=? exitfd then 1 else -1) /\
     (0 <= pollfds_apifd_idx v <-> api_socket <> None) /\
     (api_socket <> None -> exists a, (Listen (v_apifd v) 0, a) ∈ ds /\ 0 <= ret a) /\
     Forall (early tapfd) ds /\ locked_down cfg ds /\ ready_post readyfd dr /\
     loop_post v (iters b) (h ++ ds ++ dr) 1 dl o' /\
     ends_with api_socket o' du o).

Lemma create_slirp_spec cfg fd h :
  wp (create_slirp version_max cfg (G (libslirp_data_init fd) [])) h (fun d o => exists g r,
    o = Done (g, r) /\ data_ok (timer_ids k) fd (g_data g) /\ g_pollfds g = [] /\ Forall (early fd) d).
Proof.
  unfold create_slirp. apply wp_enter. intros a _.
  eapply wp_mono; [apply (run_cb_begins Hclock k 0 fd); [|done|apply new_ok]|].
  - split; [apply glue_inv_init|done|apply map_Forall_empty|done].
  - intros d o (g & r & -> & H1 & H2 & H3). exists g, r. split_and!; [done|done|done|]. constructor; [done|].
    eapply Forall_impl; [exact H3|]. intros e. apply glue_event_early.
Qed.

(** One part of the end of the program, which makes the calls [cs]. *)
Lemma wp_part {B} (m : M unit) (f : unit -> M B) h cs rest (o : outcome B) :
  (forall h', wp m h' (returns (fun d _ => calls_of d = cs))) ->
  (forall h', wp (f tt) h' (fun d o' => o' = o /\ calls_of d = rest)) ->
  wp (m ≫= f) h (fun d o' => o' = o /\ calls_of d = cs ++ rest).
Proof.
  intros Hm Hk. apply wp_bind. eapply wp_mono; [apply Hm|]. intros d [[]| | |] Hd; cbn [returns bind_post] in *; try done.
  eapply wp_mono; [apply Hk|]. intros d' o' [-> <-]. split; [done|]. rewrite <-Hd. apply map_app.
Qed.

Lemma leave_spec array buf api_socket apictx rc h :
  wp (leave array buf api_socket apictx rc) h
    (fun d o => o = Done rc /\ calls_of d = cleanup array buf api_socket apictx).
Proof.
  unfold leave, cleanup, api_ctx_free. apply wp_part.
  { intros h'. unfold sys_. destruct (buf =? 0); by repeat wp_step. }
  intros h1. apply wp_part.
  2:{ intros h2. unfold sys_. by repeat wp_step. }
  intros h2. destruct apictx as [ctx|], api_socket as [path|]; try by apply wp_ret.
  unfold sys_. destruct (Api.buf ctx =? 0); repeat first [wp_step | rewrite <-wp_bind]; cbn [bind_post];
    repeat first [wp_step | rewrite <-wp_bind]; cbn [bind_post]; by repeat wp_step.
Qed.

Lemma cleanup_early fd array buf api_socket apictx d :
  calls_of d = cleanup array buf api_socket apictx -> Forall (early fd) d.
Proof.
  intros Hd.
  assert (Forall (fun c => match c with Free _ | GListFreeFull _ | Unlink _ | GArrayFree _ => True | _ => False end)
    (calls_of d)) as H.
  { rewrite Hd. unfold cleanup. destruct apictx, api_socket; repeat case_match; repeat constructor. }
  unfold calls_of in H. rewrite List.Forall_map in H. eapply Forall_impl; [exact H|]. by intros [[] a].
Qed.

Lemma cleanup_releases array buf api_socket apictx :
  (apictx = None <-> api_socket = None) -> exists rel, Forall release rel /\
  cleanup array buf api_socket apictx =
    rel ++ match api_socket with Some path => [Unlink path] | None => [] end ++ [GArrayFree array].
Proof.
  intros Hsame. unfold cleanup. set (l := if buf =? 0 then [] else [Free buf]).
  assert (Forall release l) as Hl by (unfold l; case_match; by repeat constructor).
  destruct apictx as [ctx|], api_socket as [path|].
  - exists (l ++ (if Api.buf ctx =? 0 then [] else [Free (Api.buf ctx)]) ++
      [GListFreeFull (map fwd_contents (hostfwds ctx)); Free (ctx_addr ctx)]).
    split; [|app_eq]. repeat (apply Forall_app; split); [done|case_match|]; by repeat constructor.
  - exfalso. naive_solver.
  - exfalso. naive_solver.
  - by exists l.
Qed.

Lemma serve_spec v g apictx array buf api_socket h :
  vars_ok v -> loop_inv k v h g apictx -> (apictx = None <-> api_socket = None) ->
  wp (r ← main_loop (iters b) b v g apictx; leave array buf api_socket r.2 r.1) h (fun d o =>
    exists dl du o', d = dl ++ du /\ loop_post v (iters b) h (nextid_of apictx) dl o' /\ ends_with api_socket o' du o).
Proof.
  intros Hv Hinv Hsame. apply wp_bind. pose proof (main_loop_blocks (iters b) b v g apictx h) as Hc.
  pose proof (main_loop_spec v (iters b) g apictx h Hv Hinv) as Hl. unfold wp in *.
  destruct (main_loop (iters b) b v g apictx h) as [dl [[rc c]|s| |]]; cbn [fst snd bind_post] in *; [|done| |].
  - eapply wp_mono; [apply leave_spec|]. intros du o [-> Hdu]. exists dl, du, (Done (rc, c)).
    split_and!; [done|done|]. split; [done|]. rewrite Hdu.
    destruct (cleanup_releases array buf api_socket c) as (rel & Hrel & ->); [by rewrite (same_blocks_None _ _ Hc)|]. by exists rel, array.
  - exists dl, [], Undefined. by rewrite app_nil_r.
  - exists dl, [], OutOfFuel. by rewrite app_nil_r.
Qed.

Lemma ready_quiet readyfd d : ready_post readyfd d -> Forall quiet d.
Proof.
  unfold ready_post. destruct (0 <=? readyfd); [|by intros ->]. intros (l & a & c & -> & _ & Hl).
  apply Forall_app. split; [|by repeat constructor]. eapply Forall_impl; [exact Hl|].
  intros [c' x] Hc. simpl in Hc. by subst.
Qed.

(** The state the loop starts in. *)
Lemma initial_inv g tapfd apifd apictx pollfds nfds exit_idx api_idx vguest h :
  data_ok (timer_ids k) tapfd (g_data g) -> in_u32 vguest -> live h = [] ->
  Z.of_nat (length pollfds) = nfds -> 1 <= nfds -> exit_idx < nfds -> api_idx < nfds ->
  (0 <= api_idx -> exists addr buf, apictx = Some (Ctx addr buf 4096 [] 1 vguest)) ->
  let v := Vars tapfd apifd nfds exit_idx api_idx in
  vars_ok v /\ loop_inv k v h (with_pollfds g pollfds) apictx.
Proof.
  intros Hok Hvg Hlive Hlen H1 He Ha Hctx v. split; [by split|]. split; simpl; [done|lia|].
  intros Hi. destruct (Hctx Hi) as (addr & buf & ->). eexists. split_and!; [done| |].
  - split; simpl; unfold INT_MAX; try done; try lia; constructor.
  - unfold agrees. rewrite Hlive. split; [done|constructor].
Qed.

(** Leaving during the set-up, after the events [ds]. *)
Lemma setup_fails tapfd readyfd exitfd api_socket cfg h ds array buf apictx h' :
  Forall (early tapfd) ds ->
  wp (leave array buf api_socket apictx (-1)) h'
    (fun d o => do_slirp_post tapfd readyfd exitfd api_socket cfg h (ds ++ d) o).
Proof.
  intros Hds. eapply wp_mono; [apply leave_spec|]. intros d o [-> Hd]. left. split; [done|].
  apply Forall_app. split; [done|]. by eapply cleanup_early.
Qed.

Lemma api_setup_mono api_socket cfg d0 d d1 r :
  api_setup_post api_socket cfg d r -> api_setup_post api_socket cfg (d0 ++ d ++ d1) r.
Proof.
  destruct r as [[apifd [ctx|]]|rc]; [|done..]. intros (H1 & H2 & H3 & a & Ha & Hpos). split_and!; [done..|].
  exists a. split; [|done]. rewrite !elem_of_app. auto.
Qed.

(** The rest of [do_slirp] once the events [ds] have set everything up. *)
Lemma serve_locked tapfd readyfd exitfd api_socket cfg h ds g apifd apictx array buf :
  live h = [] -> in_u32 (recommended_vguest (cfg_net cfg)) ->
  data_ok (timer_ids k) tapfd (g_data g) -> g_pollfds g = [] ->
  Forall (early tapfd) ds -> locked_down cfg ds -> api_setup_post api_socket cfg ds (inl (apifd, apictx)) ->
  let n := if 0 <=? exitfd then 2 else 1 in
  let n_fds := match apictx with Some _ => n + 1 | None => n end in
  let pollfds := g_pollfds g ++ [Pfd tapfd (u16 (Z.lor G_IO_IN G_IO_HUP)) 0] in
  let pollfds := if 0 <=? exitfd then pollfds ++ [Pfd exitfd (u16 G_IO_HUP) 0] else pollfds in
  let pollfds := match apictx with Some _ => pollfds ++ [Pfd apifd (u16 (Z.lor G_IO_IN G_IO_HUP)) 0] | None => pollfds end in
  let v := Vars tapfd apifd n_fds (if 0 <=? exitfd then n - 1 else -1)
             (match apictx with Some _ => n_fds - 1 | None => -1 end) in
  wp (_ ← notify_ready b readyfd;
      r ← main_loop (iters b) b v (with_pollfds g pollfds) apictx;
      leave array buf api_socket r.2 r.1) (h ++ ds)
    (fun d o => do_slirp_post tapfd readyfd exitfd api_socket cfg h (ds ++ d) o).
Proof.
  intros Hlive Hvg Hok Hpf Hds Hlock Hapi n n_fds p1 p2 pollfds v.
  assert (apictx = None <-> api_socket = None) as Hsame.
  { destruct apictx as [ctx|]; destruct api_socket; simpl in Hapi; naive_solver. }
  assert (api_socket <> None -> exists a, (Listen apifd 0, a) ∈ ds /\ 0 <= ret a) as Hlisten.
  { destruct apictx as [ctx|]; [|tauto]. by destruct Hapi as (_ & _ & _ & ?). }
  assert (forall ctx, apictx = Some ctx ->
    exists addr buf, apictx = Some (Ctx addr buf 4096 [] 1 (recommended_vguest (cfg_net cfg)))) as Hctx.
  { intros ctx ->. destruct Hapi as (_ & -> & _). by eexists _, _. }
  assert (nextid_of apictx = 1) as Hone.
  { destruct apictx as [ctx|]; [|done]. by destruct (Hctx ctx eq_refl) as (? & ? & ->). }
  apply wp_bind. eapply wp_mono; [apply notify_ready_spec|]. intros dr o Hr.
  destruct o as [[]| | |]; cbn [returns] in Hr; try done. cbn [bind_post]. rewrite <-app_assoc.
  assert (live (h ++ ds ++ dr) = []) as Hlive'.
  { rewrite live_quiet, Hlive; [done|]. apply Forall_app. split; [|by eapply ready_quiet].
    eapply Forall_impl; [exact Hds|]. intros e. apply early_quiet. }
  destruct (initial_inv g tapfd apifd apictx pollfds n_fds (pollfds_exitfd_idx v) (pollfds_apifd_idx v)
    (recommended_vguest (cfg_net cfg)) (h ++ ds ++ dr) Hok Hvg Hlive') as [Hv Hinv].
  1-4: unfold pollfds, p2, p1, v, n_fds, n; destruct apictx, (0 <=? exitfd); rewrite ?Hpf; simpl; lia.
  { simpl. destruct apictx as [ctx|]; [|lia]. intros _. by eapply Hctx. }
  assert (pollfds_exitfd_idx v = (if 0 <=? exitfd then 1 else -1) /\ (0 <= pollfds_apifd_idx v <-> api_socket <> None)) as [Hxi Hai].
  { unfold v, n_fds, n. simpl. split; [destruct (Z.leb_spec 0 exitfd); lia|].
    destruct apictx as [ctx|]; [destruct (0 <=? exitfd)|]; split; try lia; intros ?; try tauto; naive_solver. }
  eapply wp_mono; [apply (serve_spec v); [exact Hv|exact Hinv|exact Hsame]|]. rewrite Hone.
  intros d' o (dl & du & o' & -> & Hl & He). right. exists v, ds, dr, dl, du, o'. by do 9 (split; [done|]).
Qed.

Lemma do_slirp_spec tapfd readyfd exitfd api_socket cfg h :
  live h = [] -> in_u32 (recommended_vguest (cfg_net cfg)) ->
  wp (do_slirp version_max dn t kp se b tapfd readyfd exitfd api_socket cfg) h
    (do_slirp_post tapfd readyfd exitfd api_socket cfg h).
Proof.
  intros Hlive Hvg. unfold do_slirp. cbv zeta. apply wp_bind_sys_ret. intros array _. apply wp_bind.
  eapply wp_mono; [apply create_slirp_spec|]. intros d0 o (g & r & -> & Hok & Hpf & He0). cbn [bind_post fst snd].
  assert (early tapfd (GArrayNew, array)) as Ha by done.
  destruct (r =? 0).
  { apply (setup_fails _ _ _ _ _ _ ((GArrayNew, array) :: d0)). by constructor. }
  apply wp_bind_sys_ret. intros buf _. set (ds0 := (GArrayNew, array) :: d0 ++ [(Malloc ETH_BUF_SIZE, buf)]).
  assert (Forall (early tapfd) ds0) as Hds0 by (constructor; [done|]; apply Forall_app; by repeat constructor).
  destruct (ret buf =? 0).
  { eapply wp_mono; [by apply (setup_fails tapfd readyfd exitfd api_socket cfg h ds0)|]. intros d o'. unfold ds0. by rewrite <-app_comm_cons, <-app_assoc. }
  apply wp_bind. eapply wp_mono; [apply (wp_emits (early tapfd)); [apply setup_api_early|apply setup_api_spec]|].
  intros d1 o [He1 Ho]. destruct o as [api| | |]; cbn [returns] in Ho; try done. cbn [bind_post].
  destruct api as [[apifd apictx]|rc].
  2:{ destruct Ho as [-> _]. eapply wp_mono; [apply (setup_fails tapfd readyfd exitfd api_socket cfg h (ds0 ++ d1)); by apply Forall_app|].
      intros d o'. unfold ds0. by rewrite <-!app_comm_cons, <-!app_assoc. }
  apply wp_bind. eapply wp_mono; [apply (wp_emits (early tapfd)); [apply lock_down_early|apply lock_down_spec]|].
  intros d2 o [He2 Hl]. destruct o as [locked| | |]; cbn [returns] in Hl; try done. cbn [bind_post].
  set (ds := ds0 ++ d1 ++ d2). assert (Forall (early tapfd) ds) as Hds by (repeat (apply Forall_app; split); done).
  destruct (Z.ltb_spec locked 0) as [Hneg|Hpos].
  { eapply wp_mono; [by apply (setup_fails tapfd readyfd exitfd api_socket cfg h ds)|].
    intros d o'. unfold ds, ds0. by rewrite <-!app_comm_cons, <-!app_assoc. }
  destruct Hl as [?|[_ Hlock]]; [lia|].
  match goal with |- wp _ ?hist _ => replace hist with (h ++ ds) by (unfold ds, ds0; app_eq) end.
  eapply wp_mono; [apply (serve_locked tapfd readyfd exitfd api_socket cfg h ds g apifd apictx); try done|].
  - unfold ds. rewrite app_assoc. by apply locked_down_app.
  - by apply api_setup_mono.
  - intros d o'. unfold ds, ds0. by rewrite <-!app_comm_cons, <-!app_assoc.
Qed.

(** From the [n]th poll on, a poll that succeeds reports an event on the exit
    descriptor (a hang-up stays reported). *)
Definition exit_requested (n : nat) : Prop := forall h fds tm, (n <= polls h)%nat ->
  let a := env h (Poll fds tm) in 0 <= ret a -> u16 (default 0 (outz a !! 1%nat)) <> 0.

Lemma exit_stops v n m h d :
  exit_requested n -> pollfds_exitfd_idx v = 1 -> (n <= m)%nat -> ~ goes_on_after v m h d.
Proof.
  intros Hex Hidx Hn (d1 & fds & tm & d2 & _ & Hm & Hpos & Hno). rewrite Hidx in Hno.
  apply (Hex (h ++ d1) fds tm); [rewrite polls_app; lia|exact Hpos|]. by apply Hno.
Qed.

(** C6: one round of the main loop.  From a good state (consistent timers,
    the poll array with its own entries, the API table agreeing with libslirp)
    and for every answer of the kernel and of a libslirp that keeps its
    contract, a round ends: in a good state, after a poll that reported nothing
    for the exit descriptor, with the id counter grown by the additions of the
    round; or with 0 because the exit descriptor had an event; or with -1
    because polling failed with something else than an interruption; or with
    undefined behaviour, if the round accepted a connection on the API socket
    and the request it read there is hazardous with the id counter of the
    table.  It never uses a freed timer, a stale pointer or an index out of
    range. *)
Theorem iteration_correct v g apictx h :
  vars_ok v -> loop_inv k v h g apictx ->
  round_post k v h apictx (iteration b v g apictx h).1 (iteration b v g apictx h).2.
Proof. intros Hv Hinv. by apply (iteration_spec k intr b v). Qed.

(** C2: a run of [do_slirp].  Whatever the kernel answers, either the set-up
    fails and -1 is returned before anything was polled, read or accepted; or
    libslirp, the API socket, the sandbox and the seccomp filter were set up as
    the configuration asks, and only then the ready byte is written and the
    loop serves; the loop ends only for an event on the exit descriptor (0), a
    failing poll (-1) or a hazardous API request: the last one accepted and
    read on the listening socket, hazardous with the id counter this run has
    reached (1 plus the additions libslirp accepted before).  When it returns,
    the API socket is unlinked and the poll array freed. *)
Theorem do_slirp_correct tapfd readyfd exitfd api_socket cfg h :
  live h = [] -> in_u32 (recommended_vguest (cfg_net cfg)) ->
  let run := do_slirp version_max dn t kp se b tapfd readyfd exitfd api_socket cfg h in
  do_slirp_post tapfd readyfd exitfd api_socket cfg h run.1 run.2.
Proof. apply do_slirp_spec. Qed.

(** C10: [do_slirp] comes to an end.  When the exit descriptor is given and
    hangs up at some point (from the [n]th poll on every poll that succeeds
    says so), the run returns within [n + 1] rounds, with 0 or -1; the only
    other end is the undefined behaviour of the last API request, if that
    request is hazardous with the id counter this run has reached (1 plus the
    additions libslirp accepted before it). *)
Theorem do_slirp_terminates n tapfd readyfd exitfd api_socket cfg h :
  live h = [] -> in_u32 (recommended_vguest (cfg_net cfg)) ->
  0 <= exitfd -> exit_requested n -> (n < iters b)%nat ->
  let run := do_slirp version_max dn t kp se b tapfd readyfd exitfd api_socket cfg h in
  run.2 = Done 0 \/ run.2 = Done (-1) \/
  (run.2 = Undefined /\ api_socket <> None /\ exists apifd, hazard_read 1 apifd run.1).
Proof.
  intros Hlive Hvg Hexit Hex Hn run.
  destruct (do_slirp_spec tapfd readyfd exitfd api_socket cfg h Hlive Hvg)
    as [[Ho _]|(v & ds & dr & dl & du & o' & Hd & _ & Hidx & Hapi & _ & Hds & _ & Hr & Hl & Ho)]; [right; by left|].
  destruct (Z.leb_spec 0 exitfd); [|lia]. fold run in Hd, Ho.
  destruct o' as [[rc c]|s| |]; simpl in Hl.
  - assert (run.2 = Done rc) as -> by (destruct Ho as [Ho _]; exact Ho).
    destruct Hl as [[-> _]|[-> _]]; [by left|right; by left].
  - done.
  - destruct Ho as [Ho ->], Hl as [Hi Hz]. right. right. split_and!; [exact Ho|by apply Hapi|]. exists (v_apifd v).
    rewrite Hd, app_nil_r. apply (hazard_read_app _ _ ds), (hazard_read_app _ _ dr).
    rewrite (accepted_quiet ds), (accepted_quiet dr); [exact Hz|by eapply ready_quiet|].
    eapply Forall_impl; [exact Hds|]. intros e. apply early_quiet.
  - destruct Hl as [_ Hl]. exfalso. eapply exit_stops; [exact Hex|exact Hidx| |apply Hl; lia]. lia.
Qed.
End run.

(** ** A world in which the theorems apply *)

(** Everything succeeds; a block of [n] bytes is at address [n], the array at 128; libslirp refuses forwards that exist; the second
    polled entry has an event. *)
Definition world : Env := fun h c =>
  match c with
  | ClockGettime => Ans 0 0 [] [5; 0]
  | Prctl 24 i => if 41 <=? i then Ans (-1) EINVAL [] [] else Ans 0 0 [] []
  | Realpath _ => Ans 1 0 (b2l "/etc/resolv.conf") []
  | Malloc n => Ans n 0 [] []
  | GArrayNew => Ans 128 0 [] []
  | SeccompInit _ => Ans 1 0 [] []
  | Socket _ _ _ => Ans 6 0 [] []
  | Accept _ => Ans 7 0 [] []
  | Read _ n => Ans (Z.min n 0) 0 [] []
  | Poll _ _ => Ans 1 0 [] [0; 16]
  | SlirpAddHostfwd u a p _ _ => Ans (if bool_decide ((u, a, p) ∈ map fkey (live h)) then -1 else 0) 0 [] []
  | _ => Ans 0 0 [] []
  end.

(** One timer, armed when libslirp is created; one socket to poll. *)
Definition small_slirp : Libslirp := {|
  slirp_new := fun _ _ => CbTimerNew 40 41 (fun t => CbTimerMod t 4000 (CbRet 1));
  slirp_pollfds_fill := fun _ t => CbAddPoll 9 1 (fun _ => CbRet t);
  slirp_pollfds_poll := fun _ _ => CbRet tt;
  slirp_input := fun _ pkt => CbSendPacket pkt (fun _ => CbRet tt);
  timer_cb := fun _ _ _ => CbSendPacket [1] (fun _ => CbTimerMod 1 9000 (CbRet tt))
|}.

Lemma first_timer : 1 ∈ timer_ids 1.
Proof. unfold timer_ids. rewrite elem_of_list_to_set, elem_of_seqZ. lia. Qed.

Lemma small_contract : LibslirpContract (SL := small_slirp) 1.
Proof.
  split; intros; cbn -[timer_ids]; unfold expire_ok.
  - split_and!; [exact first_timer|lia|done].
  - by split.
  - done.
  - done.
  - intros _. split_and!; [exact first_timer|lia|done].
Qed.

Lemma world_clock : clock_ok world.
Proof. intros h. vm_compute. split; split; (discriminate || reflexivity). Qed.
Lemma world_read : read_ok world.
Proof. intros h fd n. cbn. split_and!; [lia|lia|constructor]. Qed.
Lemma world_exclusive : slirp_exclusive world.
Proof. intros h u a p ga gp H. cbn. by rewrite bool_decide_true. Qed.
Lemma world_caps : knows_caps (E := world) 41.
Proof. intros h i Hi. unfold env, world, PR_CAPBSET_DROP. destruct (Z.leb_spec 41 i); [|lia]. by split. Qed.
Lemma world_patient : patient world 0.
Proof.
  intros h c l _ _ [Hneg Herr]. unfold env, world in *.
  destruct c; simpl in *; repeat case_match; simpl in *; try discriminate; unfold EINTR, EINVAL in *; lia.
Qed.

Definition small_bounds : bounds := Bounds 2 1 1 43.
Definition x86_64 : macros := Macros true false false false false false false ABI32 false false false false.

Definition locked_config : slirp4netns_config :=
  Config 1500 (Netaddrs 131082 16777215 33685514 251789322 50462730 1677852682) true false true true
    false None false None false (Sockaddr 1 []) 0.

Definition small_run : list event * outcome Z :=
  do_slirp (E := world) (BO := true) (PF := linux_flags) (SL := small_slirp) 4 dirname x86_64 true (fun _ => [])
    small_bounds 3 4 5 (Some (b2l "/tmp/api.sock")) locked_config [].

Lemma do_slirp_correct_witness :
  small_run.2 = Done 0 /\
  do_slirp_post (E := world) (BO := true) 1 small_bounds 3 4 5 (Some (b2l "/tmp/api.sock")) locked_config [] small_run.1 small_run.2.
Proof.
  split; [vm_compute; reflexivity|].
  apply (do_slirp_correct (E := world) (BO := true) (PF := linux_flags) (SL := small_slirp) 1 (HC := small_contract) 0 41
    small_bounds 4 dirname x86_64 true (fun _ => []) world_clock world_read world_exclusive world_caps
    ltac:(vm_compute; lia) world_patient ltac:(simpl; lia) ltac:(simpl; lia) 3 4 5 (Some (b2l "/tmp/api.sock"))).
  - reflexivity.
  - vm_compute. split; [discriminate|reflexivity].
Defined.

Lemma do_slirp_terminates_witness :
  exit_requested (E := world) 0 /\
  (small_run.2 = Done 0 \/ small_run.2 = Done (-1) \/
   (small_run.2 = Undefined /\ Some (b2l "/tmp/api.sock") <> None /\
    exists apifd, hazard_read (H := (true : ByteOrder)) 1 apifd small_run.1)).
Proof.
  assert (exit_requested (E := world) 0) as Hex by (intros h fds tm _ a _; vm_compute; discriminate).
  split; [exact Hex|].
  apply (do_slirp_terminates (E := world) (BO := true) (PF := linux_flags) (SL := small_slirp) 1 (HC := small_contract)
    0 41 small_bounds 4 dirname x86_64 true (fun _ => []) world_clock world_read world_exclusive world_caps
    ltac:(vm_compute; lia) world_patient ltac:(simpl; lia) ltac:(simpl; lia) 0 3 4 5 (Some (b2l "/tmp/api.sock"))
    locked_config []).
  - reflexivity.
  - vm_compute. split; [discriminate|reflexivity].
  - lia.
  - exact Hex.
  - simpl. lia.
Defined.

Definition small_vars : loop_vars := Vars 3 6 3 1 2.
Definition small_data : libslirp_data := Data 3 [1] {[ 1 := Timer 40 41 4000 ]} 2.
Definition small_state : gstate := G small_data [Pfd 3 17 0; Pfd 5 16 0; Pfd 6 17 0].
Definition small_ctx : api_ctx := Ctx 50 60 4096 [] 1 1677852682.

Lemma small_inv : loop_inv 1 small_vars [] small_state (Some small_ctx).
Proof.
  split; simpl; [|lia|].
  - split; simpl.
    + split_and!; simpl; [apply NoDup_singleton| |].
      * intros p. rewrite list_elem_of_singleton, lookup_singleton_is_Some. naive_solver.
      * intros p ->%list_elem_of_singleton. lia.
    + vm_compute. reflexivity.
    + apply map_Forall_singleton. right. simpl. lia.
    + reflexivity.
  - intros _. exists small_ctx. split_and!; [done| |].
    + split; simpl; unfold in_u32, INT_MAX; try lia; constructor.
    + split; [reflexivity|constructor].
Qed.

Lemma iteration_correct_witness :
  let run := iteration (E := world) (BO := true) (PF := linux_flags) (SL := small_slirp) small_bounds small_vars
               small_state (Some small_ctx) [] in
  run.2 = Done (inr 0) /\ reported 1 run.1.
Proof.
  intros run.
  assert (vars_ok small_vars) as Hv by (split; simpl; lia).
  pose proof (iteration_correct (E := world) (BO := true) (PF := linux_flags) (SL := small_slirp) 1 (HC := small_contract)
    0 small_bounds world_clock world_read world_exclusive world_patient ltac:(simpl; lia) ltac:(simpl; lia)
    small_vars small_state (Some small_ctx) [] Hv small_inv) as H.
  fold run in H. assert (run.2 = Done (inr 0)) as Hr by (vm_compute; reflexivity).
  split; [exact Hr|]. rewrite Hr in H. destruct H as [(_ & _ & H)|[H _]]; [exact H|discriminate].
Defined.
