(* ===== verification/LoopHeap.v ===== *)
(** * The main loop: memory

    The blocks [do_slirp] takes (the packet buffer, the poll array, the API
    context and its request buffer) are given back when [do_slirp] returns, on
    every path. *)

From S2P Require Import Prelude Libc Config OS Api ApiTheory ApiSession Sandbox Seccomp Glue Loop LoopTheory.

(** The blocks a trace allocates and frees. *)
Definition allocated_by (e : event) : option Z :=
  match e.1 with
  | Malloc _ => if ret e.2 =? 0 then None else Some (ret e.2)
  | GArrayNew => Some (ret e.2)
  | _ => None
  end.
Definition freed_by (e : event) : option Z :=
  match e.1 with Free p | GArrayFree p => Some p | _ => None end.

Definition allocated (d : list event) : list Z := omap allocated_by d.
Definition freed (d : list event) : list Z := omap freed_by d.

Lemma allocated_app d1 d2 : allocated (d1 ++ d2) = allocated d1 ++ allocated d2.
Proof. apply omap_app. Qed.
Lemma freed_app d1 d2 : freed (d1 ++ d2) = freed d1 ++ freed d2.
Proof. apply omap_app. Qed.

Definition no_heap (e : event) : Prop :=
  match e.1 with Malloc _ | Free _ | GArrayNew | GArrayFree _ => False | _ => True end.

Lemma no_heap_neutral d : Forall no_heap d -> allocated d = [] /\ freed d = [].
Proof.
  induction 1 as [|[c a] d He _ [IH1 IH2]]; [done|]. unfold allocated, freed in *. simpl.
  destruct c; try done; by rewrite IH1, IH2.
Qed.

(** Most of the program neither allocates nor asks libslirp for a forward. *)
Definition plain (e : event) : Prop :=
  match e.1 with
  | Malloc _ | Free _ | GArrayNew | GArrayFree _ | GListFreeFull _
  | SlirpAddHostfwd _ _ _ _ _ | SlirpRemoveHostfwd _ _ _ => False
  | _ => True
  end.

Lemma plain_no_heap {A} (m : M A) : emits plain m -> emits no_heap m.
Proof. intros H. eapply emits_mono; [exact H|]. by intros [[] a]. Qed.

Section heap.
Context `{E : Env} `{BO : ByteOrder} `{PF : PollFlags} `{SL : Libslirp}.

(** The run gives back the blocks [own] and everything it takes itself. *)
Definition settles {A} (own : list Z) : list event -> outcome A -> Prop :=
  if_done (fun d _ => freed d ≡ₚ own ++ allocated d).

Lemma settles_bind {A B} (m : M A) (k : A -> M B) h own (got : A -> list Z) (Q : A -> Prop) :
  wp m h (if_done (fun d a => own ++ allocated d ≡ₚ freed d ++ got a /\ Q a)) ->
  (forall a h', Q a -> wp (k a) h' (settles (got a))) -> wp (m ≫= k) h (settles own).
Proof.
  intros Hm Hk. apply wp_bind. eapply wp_mono; [exact Hm|]. intros d [a| | |] Ha; simpl in *; try done.
  destruct Ha as [Ha HQ]. eapply wp_mono; [by apply Hk|]. intros d' [r| | |] Hr; simpl in *; try done.
  rewrite freed_app, allocated_app, Hr, !app_assoc, Ha. done.
Qed.

(** A part of the program that neither allocates nor frees. *)
Lemma settles_neutral {A B} (m : M A) (k : A -> M B) h own :
  emits no_heap m -> (forall a h', wp (k a) h' (settles own)) -> wp (m ≫= k) h (settles own).
Proof.
  intros Hm Hk. apply (settles_bind m k h own (fun _ => own) (fun _ => True)); [|auto]. unfold wp. specialize (Hm h).
  apply no_heap_neutral in Hm as [H1 H2]. destruct (m h) as [d [a|s| |]]; simpl in *; try done.
  by rewrite H1, H2, app_nil_r.
Qed.

(** *** Callbacks *)

Lemma run_cb_plain {A} (p : cbprog A) g : emits plain (run_cb p g).
Proof.
  revert g. induction p; intros g; cbn [run_cb]; unfold libslirp_send_packet, libslirp_clock_get_ns,
    libslirp_guest_error, libslirp_register_poll_fd, libslirp_unregister_poll_fd, libslirp_notify;
    repeat first [emits_step | done | match goal with IH : forall _, emits _ _ |- _ => apply IH
                                        | IH : forall _ _, emits _ _ |- _ => apply IH end].
Qed.

Lemma enter_plain {A} c (p : history -> cbprog A) g : plain (c, Ans 0 0 [] []) -> emits plain (enter c p g).
Proof.
  intros Hc. unfold enter. apply emits_bind; [apply emits_sys_; intros a; by destruct c|].
  intros _ h. apply run_cb_plain.
Qed.

Lemma check_ra_loop_plain n now f g : emits plain (check_ra_loop n now f g).
Proof.
  revert f g. induction n as [|n IH]; intros [p|] g; cbn [check_ra_loop]; unfold check_ra_timer;
    repeat first [emits_step | by apply enter_plain | apply IH].
Qed.

Lemma clock_plain : emits plain libslirp_clock_get_ns.
Proof. unfold libslirp_clock_get_ns. repeat emits_step; done. Qed.

(** *** The parts of [do_slirp] *)

Lemma lock_down_plain dn t kp se b cfg : emits plain (lock_down dn t kp se b cfg).
Proof. eapply emits_mono; [apply lock_down_calls|]. by intros [[] a]. Qed.

Lemma notify_ready_plain b fd : emits plain (notify_ready b fd).
Proof. unfold notify_ready. repeat emits_step; done. Qed.

Lemma api_handler_no_heap fd ctx : emits no_heap (api_handler fd ctx).
Proof. eapply emits_mono; [apply api_handler_emits|]. by intros [[] a]. Qed.

Lemma iteration_no_heap b v g ctx : emits no_heap (iteration b v g ctx).
Proof.
  unfold iteration, update_ra_timeout, after_poll, has_event, revents_at, tap_event, check_ra_timeout.
  repeat first [emits_step | apply api_handler_no_heap | apply plain_no_heap; first [by apply enter_plain
               | apply clock_plain | apply check_ra_loop_plain] | done].
Qed.

Lemma main_loop_no_heap n b v g ctx : emits no_heap (main_loop n b v g ctx).
Proof.
  revert g ctx. induction n as [|n IH]; intros g ctx; cbn [main_loop];
    repeat first [emits_step | apply iteration_no_heap | apply IH].
Qed.

(** *** Taking and giving back *)

(** What [leave] frees. *)
Definition owned (array : list Z) (buf : Z) (apictx : option api_ctx) : list Z :=
  (if buf =? 0 then [] else [buf]) ++
  match apictx with Some ctx => [Api.buf ctx; ctx_addr ctx] | None => [] end ++ array.

Definition ctx_ok (api_socket : option bytes) (apictx : option api_ctx) : Prop :=
  match apictx with Some ctx => Api.buf ctx <> 0 /\ api_socket <> None | None => True end.

Definition freed_call (c : call) : option Z := match c with Free p | GArrayFree p => Some p | _ => None end.

Lemma freed_calls d : freed d = omap freed_call (calls_of d).
Proof. induction d as [|[c a] d IH]; [done|]. destruct c; simpl; rewrite ?IH; done. Qed.

Lemma leave_settles array buf api_socket apictx rc h :
  ctx_ok api_socket apictx -> wp (leave array buf api_socket apictx rc) h (settles (owned [array] buf apictx)).
Proof.
  intros Hctx. eapply wp_mono; [apply leave_spec|]. intros d o [-> Hd]. simpl.
  assert (allocated d = []) as ->.
  { assert (Forall (fun c => match c with Malloc _ | GArrayNew => False | _ => True end) (calls_of d)) as Hm.
    { rewrite Hd. unfold cleanup. destruct apictx, api_socket; repeat case_match; repeat constructor. }
    clear Hd. unfold calls_of in Hm. rewrite List.Forall_map in Hm.
    induction Hm as [|[[] a] d Hc Hm IH]; done. }
  rewrite freed_calls, Hd, app_nil_r. unfold cleanup, owned. rewrite !omap_app. f_equiv; [by case_match|].
  destruct apictx as [ctx|], api_socket as [path|]; try done; destruct Hctx as [H1 H2]; [|done].
  destruct (Z.eqb_spec (Api.buf ctx) 0); [done|reflexivity].
Qed.

(** The two blocks of the API context, or none. *)
Lemma api_ctx_alloc_heap v h :
  wp (api_ctx_alloc v) h (if_done (fun d r => allocated d ≡ₚ freed d ++ owned [] 0 r /\
    match r with Some ctx => Api.buf ctx <> 0 | None => True end)).
Proof.
  unfold api_ctx_alloc. apply wp_bind_sys_ret. intros c _. unfold owned, allocated, freed.
  destruct (Z.eqb_spec (ret c) 0) as [Hc|Hc].
  { apply wp_ret. cbn. unfold allocated_by. simpl. by rewrite Hc. }
  apply wp_bind_sys_ret. intros m _. destruct (Z.eqb_spec (ret m) 0) as [Hm|Hm].
  - apply wp_bind_sys_. intros f _. apply wp_ret. cbn. unfold allocated_by. simpl. rewrite Hm.
    destruct (Z.eqb_spec (ret c) 0); done.
  - apply wp_ret. cbn. unfold allocated_by. simpl.
    destruct (Z.eqb_spec (ret c) 0); [done|]. destruct (Z.eqb_spec (ret m) 0); [done|]. split; [|done].
    apply Permutation_swap.
Qed.

Definition api_of (r : (Z * option api_ctx) + Z) : option api_ctx := match r with inl (_, ctx) => ctx | inr _ => None end.

Lemma setup_api_heap api_socket cfg h :
  wp (setup_api api_socket cfg) h (if_done (fun d r =>
    allocated d ≡ₚ freed d ++ owned [] 0 (api_of r) /\ ctx_ok api_socket (api_of r))).
Proof.
  unfold setup_api. destruct api_socket as [path|]; [|by apply wp_ret]. apply wp_bind.
  assert (emits no_heap (api_bindlisten path)) as Hb by (unfold api_bindlisten; repeat emits_step; done).
  unfold wp. specialize (Hb h). apply no_heap_neutral in Hb as [H1 H2].
  destruct (api_bindlisten path h) as [d [fd|s| |]]; simpl in *; try done.
  destruct (fd <? 0). { apply wp_ret. simpl. rewrite app_nil_r, H1, H2. done. }
  apply wp_bind. eapply wp_mono; [apply api_ctx_alloc_heap|]. intros d' [r| | |] Hr; cbn [bind_post if_done] in *; try done.
  destruct Hr as [Hr Hbuf]. destruct r as [ctx|]; apply wp_ret; cbn [if_done api_of];
    rewrite app_nil_r, allocated_app, freed_app, H1, H2; done.
Qed.

Lemma ctx_owned array buf apictx : owned [] 0 apictx ++ owned array buf None ≡ₚ owned array buf apictx.
Proof. unfold owned. cbn [Z.eqb app]. rewrite app_nil_r. apply Permutation_app_swap_app. Qed.

Lemma same_blocks_owned c c' array buf api_socket :
  same_blocks c c' -> owned array buf c' = owned array buf c /\ (ctx_ok api_socket c -> ctx_ok api_socket c').
Proof.
  unfold same_blocks, owned, ctx_ok. intros H. destruct c as [ctx|], c' as [ctx'|]; simplify_eq/=; try done.
  assert (Api.buf ctx' = Api.buf ctx /\ ctx_addr ctx' = ctx_addr ctx) as [-> ->] by by split. done.
Qed.

(** Everything [do_slirp] allocates is freed when it returns. *)
Lemma do_slirp_settles version_max dn t kp se b tapfd readyfd exitfd api_socket cfg h :
  wp (do_slirp version_max dn t kp se b tapfd readyfd exitfd api_socket cfg) h (settles []).
Proof.
  unfold do_slirp. cbv zeta.
  apply (settles_bind _ _ _ _ (fun p => owned [p] 0 None) (fun _ => True)).
  { unfold sys_ret. apply wp_bind_sys. intros a _. by apply wp_ret. }
  intros array h0 _. apply settles_neutral; [by apply plain_no_heap, enter_plain|]. intros slirp h1.
  destruct (slirp.2 =? 0); [by apply (leave_settles array 0 api_socket None)|].
  apply (settles_bind _ _ _ _ (fun p => owned [array] p None) (fun _ => True)).
  { unfold sys_ret. apply wp_bind_sys. intros a _. apply wp_ret. cbn. unfold allocated, freed, allocated_by, owned. simpl.
    destruct (ret a =? 0); split; [done|done|apply Permutation_swap|done]. }
  intros buf h2 _. destruct (buf =? 0); [by apply leave_settles|].
  apply (settles_bind _ _ _ _ (fun r => owned [array] buf (api_of r)) (fun r => ctx_ok api_socket (api_of r))).
  { eapply wp_mono; [apply setup_api_heap|]. intros d [r| | |] Hr; simpl in *; try done. destruct Hr as [Hr Hctx].
    split; [|done]. rewrite Hr, <-(ctx_owned [array] buf (api_of r)), Permutation_app_comm, <-app_assoc. done. }
  intros [[apifd apictx]|e] h3 Hctx; [|by apply (leave_settles array buf api_socket None)]. cbn [api_of] in *.
  apply settles_neutral; [apply plain_no_heap, lock_down_plain|]. intros locked h4. destruct (locked <? 0); [by apply leave_settles|].
  apply settles_neutral; [apply plain_no_heap, notify_ready_plain|]. intros [] h5.
  apply (settles_bind _ _ _ _ (fun r => owned [array] buf r.2) (fun r => ctx_ok api_socket r.2)); [|intros; by apply leave_settles].
  match goal with |- wp (main_loop ?n ?b ?v ?g ?c) ?h' _ =>
    pose proof (main_loop_no_heap n b v g c h') as Hn; pose proof (main_loop_blocks n b v g c h') as Hb end.
  unfold wp in *. destruct (main_loop _ _ _ _ _ _) as [d [r|s| |]]; cbn [fst snd if_done] in *; [|done..].
  apply no_heap_neutral in Hn as [-> ->]. destruct (same_blocks_owned apictx r.2 [array] buf api_socket Hb) as [-> Hc].
  rewrite app_nil_r. split; [done|auto].
Qed.
End heap.
