(* ===== verification/LoopForwards.v ===== *)
(** * The main loop: forwards

    The calls a run of [do_slirp] makes to [slirp_add_hostfwd] and
    [slirp_remove_hostfwd], seen over the whole run: the API handler, the table
    it keeps between requests and the loop that calls it taken together; and
    what is freed at the end, the entries of the table included. *)

From Stdlib Require Import Sorted.
From S2P Require Import Prelude Libc Cidr Config OS JsonObject Double Json Api ApiTheory ApiSession Sandbox Seccomp Glue Loop LoopTheory LoopHeap.

(** What may be asked of libslirp at a point of the run: only what is
    forwarded then may be removed, and only a well-formed forward added. *)
Definition allowed (h : history) (c : call) : Prop :=
  match c with
  | SlirpAddHostfwd u a p ga gp =>
      (u = 0 \/ u = 1) /\ in_u32 a /\ in_u32 ga /\ (in_i32 p /\ p <> 0) /\ (in_i32 gp /\ gp <> 0)
  | SlirpRemoveHostfwd u a p => (u, a, p) ∈ map fkey (live h)
  | _ => True
  end.

(** Every call of [d] is allowed where it is made, after [h]. *)
Fixpoint orderly (h : history) (d : list event) : Prop :=
  match d with
  | [] => True
  | e :: d' => allowed h e.1 /\ orderly (h ++ [e]) d'
  end.

Lemma orderly_app h d1 d2 : orderly h d1 -> orderly (h ++ d1) d2 -> orderly h (d1 ++ d2).
Proof.
  revert h. induction d1 as [|e d1 IH]; intros h H1 H2; simpl in *; [by rewrite app_nil_r in H2|].
  destruct H1 as [He H1]. split; [done|]. apply IH; [done|]. by rewrite <-app_assoc.
Qed.

Lemma orderly_split h d1 e d2 : orderly h (d1 ++ e :: d2) -> allowed (h ++ d1) e.1.
Proof.
  revert h. induction d1 as [|e' d1 IH]; intros h H; simpl in *; [rewrite app_nil_r; apply H|].
  rewrite (app_assoc h [e'] d1 : h ++ e' :: d1 = _). apply IH, H.
Qed.

(** The entries of the table that were freed with the list. *)
Definition listed_by (e : event) : list (Z * forward) := match e.1 with GListFreeFull l => l | _ => [] end.
Definition entries_freed (d : list event) : list (Z * forward) := d ≫= listed_by.

Lemma entries_freed_app d1 d2 : entries_freed (d1 ++ d2) = entries_freed d1 ++ entries_freed d2.
Proof. apply bind_app. Qed.

(** Calls of other kinds change nothing. *)
Definition no_forward (e : event) : Prop :=
  match e.1 with SlirpAddHostfwd _ _ _ _ _ | SlirpRemoveHostfwd _ _ _ | GListFreeFull _ => False | _ => True end.

Lemma no_forward_entries h d : Forall no_forward d -> entries_freed (h ++ d) = entries_freed h.
Proof.
  intros Hd. rewrite entries_freed_app. induction Hd as [|[c a] d He _ IH]; [apply app_nil_r|]. by destruct c.
Qed.

Lemma api_event_entries h d : Forall api_event d -> entries_freed (h ++ d) = entries_freed h.
Proof.
  intros Hd. rewrite entries_freed_app. induction Hd as [|[c a] d He _ IH]; [apply app_nil_r|]. by destruct c.
Qed.

Lemma no_forward_orderly h d : Forall no_forward d -> orderly h d.
Proof. intros Hd. revert h. induction Hd as [|[[] a] d He _ IH]; intros h; simpl; auto; done. Qed.

Lemma no_forward_live h d : Forall no_forward d -> live (h ++ d) = live h.
Proof.
  intros Hd. rewrite live_app. generalize (live h) as l. induction Hd as [|[[] a] d He _ IH]; intros l; simpl; auto; done.
Qed.

Lemma quiet_orderly h d : Forall quiet d -> orderly h d.
Proof. intros Hd. revert h. induction Hd as [|[[] a] d He _ IH]; intros h; simpl; auto; done. Qed.

Lemma plain_no_forward {A} (m : M A) : emits plain m -> emits no_forward m.
Proof. intros H. eapply emits_mono; [exact H|]. by intros [[] a]. Qed.

(** Between the calls: the table of the API, where there is one, is well
    formed and lists what libslirp forwards, which is nothing where there is
    none; no more entries were freed than [before] the run, and there is only a
    table if the socket is [served]. *)
Definition api_table_ok (before : list (Z * forward)) (served : Prop) (h : history) (apictx : option api_ctx) : Prop :=
  entries_freed h = before /\
  match apictx with Some ctx => served /\ api_inv ctx /\ agrees h ctx | None => live h = [] end.

Lemma table_ok_other F P h d apictx :
  Forall no_forward d -> api_table_ok F P h apictx -> api_table_ok F P (h ++ d) apictx.
Proof.
  intros Hd [H1 H2]. unfold api_table_ok, agrees. rewrite no_forward_entries, no_forward_live by done. by split.
Qed.

(** The run is orderly however it ends, and [Q] holds when it returns. *)
Definition keeps_order {A} (Q : history -> A -> Prop) (h : history) (d : list event) (o : outcome A) : Prop :=
  orderly h d /\ match o with Done a => Q (h ++ d) a | _ => True end.

Section forwards.
Context `{E : Env} `{BO : ByteOrder} `{PF : PollFlags} `{SL : Libslirp} (F : list (Z * forward)) (P : Prop).

Lemma keeps_order_bind {A B} (m : M A) (k : A -> M B) h (R : history -> A -> Prop) Q :
  wp m h (keeps_order R h) -> (forall a h', R h' a -> wp (k a) h' (keeps_order Q h')) -> wp (m ≫= k) h (keeps_order Q h).
Proof.
  intros Hm Hk. apply wp_bind. eapply wp_mono; [exact Hm|]. intros d [a|s| |] [Ho HR]; cbn [bind_post]; try by split.
  eapply wp_mono; [by apply Hk|]. intros d' o [Ho' HQ]. split; [by apply orderly_app|]. by rewrite app_assoc.
Qed.

(** A part of the program that asks for no forward keeps the table right. *)
Lemma keeps_order_other {A B} (m : M A) (k : A -> M B) h apictx Q :
  emits no_forward m -> api_table_ok F P h apictx ->
  (forall a h', api_table_ok F P h' apictx -> wp (k a) h' (keeps_order Q h')) -> wp (m ≫= k) h (keeps_order Q h).
Proof.
  intros Hm Ht Hk. apply (keeps_order_bind m k h (fun h' _ => api_table_ok F P h' apictx)); [|auto]. specialize (Hm h). split.
  - by apply no_forward_orderly.
  - case_match; [|done..]. by apply table_ok_other.
Qed.

Lemma keeps_order_end {A} (m : M A) h : emits no_forward m -> wp m h (keeps_order (fun _ _ => True) h).
Proof. intros Hm. split; [by apply no_forward_orderly|by case_match]. Qed.

(** *** The handlers of the API *)

(** The events after the call to libslirp are replies. *)
Lemma orderly_call {A} h c a (m : M A) :
  allowed h c -> emits no_forward m -> wp m (h ++ [(c, a)]) (fun d _ => orderly h ((c, a) :: d)).
Proof. intros Hc Hm. split; [done|]. apply no_forward_orderly, Hm. Qed.

Lemma orderly_other {A} h (m : M A) : emits no_forward m -> wp m h (fun d _ => orderly h d).
Proof. intros Hm. apply no_forward_orderly, Hm. Qed.

Lemma reply_no_forward {A} fd text (r : Z -> A) : emits no_forward (wrc ← write_ fd text; mret (r wrc)).
Proof. unfold write_. repeat emits_step; done. Qed.

Create HintDb forwards.
#[local] Hint Resolve orderly_call orderly_other reply_no_forward : forwards.

Lemma add_hostfwd_orderly fd ctx jo h :
  api_inv ctx -> wp (api_handle_req_add_hostfwd fd ctx jo) h (fun d _ => orderly h d).
Proof.
  intros Hinv. unfold api_handle_req_add_hostfwd.
  do 3 (apply wp_lift_any; [exact I|]; intros ?). apply wp_lift_any; [exact I|]. intros proto. cbv zeta.
  set (u := if bool_decide (proto = _) then 1 else _).
  assert (u = -1 \/ u = 0 \/ u = 1) as Hu by (unfold u; repeat case_bool_decide; auto). clearbody u.
  destruct (Z.eqb_spec u (-1)) as [|Hne]; [auto with forwards|].
  destruct (inet_pton _) as [ha|] eqn:Eha; [|auto with forwards]. apply inet_pton_range in Eha.
  apply wp_lift_any; [exact I|]. intros x. destruct (cast_int x) as [hp|] eqn:Ehp; [|exact I]. apply cast_int_range in Ehp.
  eapply wp_bind_opt; [done|]. destruct (Z.eqb_spec hp 0); [auto with forwards|].
  destruct (match _ with Some (c :: s) => inet_pton (c :: s) | _ => _ end) as [ga|] eqn:Ega; [|auto with forwards].
  assert (in_u32 ga) as Hga.
  { repeat case_match; simplify_eq; eauto using inet_pton_range; apply Hinv. }
  apply wp_lift_any; [exact I|]. intros y. destruct (cast_int y) as [gp|] eqn:Egp; [|exact I]. apply cast_int_range in Egp.
  eapply wp_bind_opt; [done|]. destruct (Z.eqb_spec gp 0); [auto with forwards|].
  apply wp_bind_sys_ret. intros w _. apply orderly_call; [unfold allowed; naive_solver|].
  repeat first [apply reply_no_forward | emits_step].
Qed.

(** Only an entry of the table is removed, and the table lists what libslirp
    forwards. *)
Lemma remove_hostfwd_orderly fd ctx jo h :
  agrees h ctx -> wp (api_handle_req_remove_hostfwd fd ctx jo) h (fun d _ => orderly h d).
Proof.
  intros [Hl _]. unfold api_handle_req_remove_hostfwd. do 2 (apply wp_lift_any; [exact I|]; intros ?).
  destruct (list_find _ (hostfwds ctx)) as [[i fwd]|] eqn:Ef; [|auto with forwards].
  apply list_find_Some in Ef as (Hi & _ & _). apply wp_bind_sys_ret. intros w _. apply orderly_call.
  - simpl. rewrite Hl, map_map. apply list_elem_of_fmap. exists fwd. split; [done|]. by eapply list_elem_of_lookup_2.
  - repeat first [apply reply_no_forward | emits_step].
Qed.

Lemma list_foreach_no_forward fwds a : emits no_forward (list_hostfwd_foreach fwds a).
Proof. intros h. pose proof (list_foreach_silent fwds a h) as H. unfold wp in H. by rewrite H. Qed.

Lemma api_handle_req_orderly fd ctx req h :
  api_inv ctx -> agrees h ctx -> wp (api_handle_req fd ctx req) h (keeps_order (fun _ _ => True) h).
Proof.
  intros Hinv Hag. apply (wp_mono _ _ (fun d _ => orderly h d)); [|intros d o Ho; split; [done|by case_match]].
  unfold api_handle_req. cbv zeta. destruct (json_parse_string req); [|auto with forwards|exact I..].
  destruct (json_value_get_object _) as [jo|]; [|auto with forwards].
  apply wp_lift_any; [exact I|]. intros [ex|]; [|auto with forwards].
  repeat case_bool_decide; auto using add_hostfwd_orderly, remove_hostfwd_orderly with forwards.
  unfold api_handle_req_list_hostfwd. apply orderly_other.
  apply emits_bind; [apply list_foreach_no_forward|intros ?].
  do 2 (apply emits_bind; [apply emits_lift|intros ?]). apply reply_no_forward.
Qed.

(** A connection, with the table it leaves. *)
Definition next_table (h : history) (r : api_ctx * Z) : Prop := api_table_ok F P h (Some r.1).

Hypothesis Hread : read_ok E.
Hypothesis Hexcl : slirp_exclusive E.

Lemma api_handler_orderly listenfd ctx h :
  api_table_ok F P h (Some ctx) -> wp (api_handler listenfd ctx) h (keeps_order next_table h).
Proof.
  intros Ht.
  assert (wp (api_handler listenfd ctx) h (keeps_order (fun _ _ => True) h)) as [Ho _].
  { unfold api_handler. eapply keeps_order_other; [repeat emits_step; done|exact Ht|]. intros fd h1 H1.
    destruct (fd <? 0); [apply keeps_order_end; repeat emits_step|]. cbv zeta.
    eapply keeps_order_other; [repeat emits_step; done|exact H1|]. intros a h2 (_ & _ & Hinv & Hag).
    destruct (ret a <? 0); [apply keeps_order_end; repeat emits_step; done|].
    destruct (ret a =? buflen ctx); [apply keeps_order_end; unfold write_; repeat emits_step; done|].
    destruct (buflen ctx <? ret a); [apply keeps_order_end, emits_undefined|].
    eapply keeps_order_bind; [by apply api_handle_req_orderly|]. intros r h3 _.
    apply keeps_order_end; repeat emits_step; done. }
  destruct Ht as (HF & HP & Hinv & Hag). pose proof (api_handler_wp Hread Hexcl listenfd ctx h Hinv) as Hp.
  pose proof (api_handler_emits listenfd ctx h) as He. unfold wp in *.
  split; [exact Ho|]. destruct (api_handler listenfd ctx h) as [d [[c r]|s| |]]; simpl in *; [|done..].
  split; [by rewrite api_event_entries|]. split_and!; [done|apply Hp|by apply Hp].
Qed.

(** *** The loop *)

Definition next_round (apictx : option api_ctx) (h : history) (r : (gstate * option api_ctx) + Z) : Prop :=
  api_table_ok F P h (match r with inl (_, apictx') => apictx' | inr _ => apictx end).

Lemma keeps_order_ret {A} (a : A) h (Q : history -> A -> Prop) : Q h a -> wp (mret a) h (keeps_order Q h).
Proof. intros H. apply wp_ret. split; [done|]. by rewrite app_nil_r. Qed.

Lemma keeps_order_undefined {A} h (Q : history -> A -> Prop) : wp undefined h (keeps_order Q h).
Proof. by apply wp_undefined. Qed.

Lemma has_event_no_forward pfds idx : emits no_forward (has_event pfds idx).
Proof. unfold has_event, revents_at. repeat emits_step. Qed.

Lemma tap_event_no_forward v g : emits no_forward (tap_event v g).
Proof. unfold tap_event. repeat first [emits_step | by apply plain_no_forward, enter_plain]; done. Qed.

Lemma after_poll_orderly b v apictx g a h :
  api_table_ok F P h apictx -> wp (after_poll b v apictx g a) h (keeps_order (next_round apictx) h).
Proof.
  intros Ht. unfold after_poll. cbv zeta. destruct (ret a <? 0); [by apply keeps_order_ret|].
  eapply keeps_order_other; [unfold revents_at; repeat emits_step|exact Ht|]. intros tap h1 H1.
  eapply keeps_order_other; [destruct tap; [apply tap_event_no_forward|apply emits_ret]|exact H1|]. intros tapped h2 H2.
  destruct (negb _); [apply keeps_order_undefined|].
  eapply keeps_order_other; [apply has_event_no_forward|exact H2|]. intros [] h3 H3; [by apply keeps_order_ret|].
  eapply keeps_order_other; [apply has_event_no_forward|exact H3|]. intros api h4 H4.
  apply (keeps_order_bind _ _ _ (api_table_ok F P)).
  - destruct api; [|by apply keeps_order_ret]. destruct apictx as [ctx|]; [|apply keeps_order_undefined].
    eapply wp_bind_opt; [done|]. eapply keeps_order_bind; [by apply api_handler_orderly|].
    intros r h5 H5. by apply keeps_order_ret.
  - intros apictx' h5 H5. eapply keeps_order_other; [by apply plain_no_forward, enter_plain|exact H5|]. intros polled h6 H6.
    eapply keeps_order_other; [|exact H6|].
    + apply plain_no_forward. unfold check_ra_timeout.
      repeat first [emits_step | apply clock_plain | apply check_ra_loop_plain].
    + intros g' h7 H7. by apply keeps_order_ret.
Qed.

Lemma iteration_orderly b v g apictx h :
  api_table_ok F P h apictx -> wp (iteration b v g apictx) h (keeps_order (next_round apictx) h).
Proof.
  intros Ht. unfold iteration. cbv zeta.
  eapply keeps_order_other; [by apply plain_no_forward, enter_plain|exact Ht|]. intros filled h1 H1.
  eapply keeps_order_other; [|exact H1|].
  { apply plain_no_forward. unfold update_ra_timeout. repeat first [emits_step | apply clock_plain]. }
  intros timeout h2 H2. eapply keeps_order_other; [by apply emits_retry|exact H2|]. intros a h3 H3.
  by apply after_poll_orderly.
Qed.

Lemma main_loop_orderly n b v g apictx h :
  api_table_ok F P h apictx -> wp (main_loop n b v g apictx) h (keeps_order (fun h' r => api_table_ok F P h' r.2) h).
Proof.
  revert g apictx h. induction n as [|n IH]; intros g apictx h Ht; cbn [main_loop]; [by split|].
  eapply keeps_order_bind; [by apply iteration_orderly|].
  intros [[g' apictx']|rc] h' H'; [by apply IH|by apply keeps_order_ret].
Qed.

(** *** The run *)

(** At the end the entries freed with the list have different ids and are, in
    their order, the forwards libslirp still has. *)
Definition table_freed (h : history) : Prop :=
  exists l, entries_freed h = F ++ l /\ NoDup (map fst l) /\ map snd l = live h.

Lemma sorted_NoDup (l : list Z) : StronglySorted Z.lt l -> NoDup l.
Proof.
  induction 1 as [|x l _ IH Hx]; constructor; [|done]. intros Hin. rewrite Forall_forall in Hx. apply Hx in Hin. lia.
Qed.

Lemma entries_calls d : entries_freed d = calls_of d ≫= (fun c => listed_by (c, Ans 0 0 [] [])).
Proof. induction d as [|[c a] d IH]; [done|]. apply (f_equal2 app); [by destruct c|exact IH]. Qed.

Lemma cleanup_entries array buf api_socket apictx d :
  (apictx <> None -> api_socket <> None) -> calls_of d = cleanup array buf api_socket apictx ->
  entries_freed d = match apictx with Some ctx => map fwd_contents (hostfwds ctx) | None => [] end.
Proof.
  intros Hs Hd. rewrite entries_calls, Hd. unfold cleanup. rewrite !bind_app.
  destruct apictx as [ctx|]; [|by case_match]. destruct api_socket as [path|]; [|by destruct (Hs ltac:(done))].
  rewrite !bind_app. case_match; case_match; simpl; by rewrite ?app_nil_r.
Qed.

Lemma leave_orderly array buf api_socket apictx rc h :
  (P -> api_socket <> None) -> api_table_ok F P h apictx ->
  wp (leave array buf api_socket apictx rc) h (keeps_order (fun h' _ => table_freed h') h).
Proof.
  intros HP [HF Ht]. eapply wp_mono; [apply leave_spec|]. intros d o [-> Hd].
  assert (Forall quiet d) as Hq by (eapply Forall_impl; [exact (cleanup_early 0 _ _ _ _ d Hd)|]; intros e; apply early_quiet).
  assert (live (h ++ d) = live h) as Hlive by by apply live_quiet.
  split; [apply quiet_orderly; exact Hq|]. unfold table_freed. rewrite Hlive, entries_freed_app, HF.
  destruct apictx as [ctx|].
  - destruct Ht as (Hp & Hinv & [Hl _]), api_socket as [path|]; [|by destruct (HP Hp)].
    exists (map fwd_contents (hostfwds ctx)). rewrite (cleanup_entries array buf (Some path) (Some ctx) d) by done.
    rewrite Hl, !map_map. split_and!; [done|apply sorted_NoDup, Hinv|done].
  - exists []. rewrite Ht. split_and!; [|constructor|done]. f_equal.
    by apply (cleanup_entries array buf api_socket None).
Qed.

(** The table is empty when the loop starts. *)
Lemma setup_api_orderly api_socket cfg h :
  P = (api_socket <> None) -> api_table_ok F P h None -> in_u32 (recommended_vguest (cfg_net cfg)) ->
  wp (setup_api api_socket cfg) h (keeps_order (fun h' r => api_table_ok F P h' (api_of r)) h).
Proof.
  intros HP Ht Hg. assert (emits no_forward (setup_api api_socket cfg)) as Hn.
  { unfold setup_api, api_bindlisten, api_ctx_alloc. repeat emits_step; done. }
  specialize (Hn h). pose proof (setup_api_spec api_socket cfg h) as Hs. unfold wp in *.
  destruct (setup_api api_socket cfg h) as [d [r|s| |]]; simpl in *; (split; [by apply no_forward_orderly|]); [|done..].
  apply (table_ok_other F P h d) in Ht; [|done].
  destruct r as [[apifd [ctx|]]|rc]; [|exact Ht..]. destruct Hs as (_ & -> & Hp & _), Ht as [HF Hl].
  split; [done|]. split_and!; [by rewrite HP| |].
  - split; simpl; unfold INT_MAX; try done; try lia; constructor.
  - unfold agrees. rewrite Hl. split; [done|constructor].
Qed.

Lemma do_slirp_orderly version_max dn t kp se b tapfd readyfd exitfd api_socket cfg h :
  P = (api_socket <> None) -> api_table_ok F P h None -> in_u32 (recommended_vguest (cfg_net cfg)) ->
  wp (do_slirp version_max dn t kp se b tapfd readyfd exitfd api_socket cfg) h (keeps_order (fun h' _ => table_freed h') h).
Proof.
  intros HP Ht Hg. unfold do_slirp. cbv zeta.
  assert (P -> api_socket <> None) as HP' by by rewrite HP.
  eapply keeps_order_other; [repeat emits_step; done|exact Ht|]. intros array h0 H0.
  eapply keeps_order_other; [by apply plain_no_forward, enter_plain|exact H0|].
  intros slirp h1 H1. destruct (slirp.2 =? 0); [by apply leave_orderly|].
  eapply keeps_order_other; [repeat emits_step; done|exact H1|].
  intros buf h2 H2. destruct (buf =? 0); [by apply leave_orderly|].
  eapply keeps_order_bind; [by apply setup_api_orderly|]. intros [[apifd apictx]|e] h3 H3; [|by apply leave_orderly].
  eapply keeps_order_other; [apply plain_no_forward, lock_down_plain|exact H3|]. intros locked h4 H4.
  destruct (locked <? 0); [by apply leave_orderly|].
  eapply keeps_order_other; [apply plain_no_forward, notify_ready_plain|exact H4|]. intros [] h5 H5.
  eapply keeps_order_bind; [by apply main_loop_orderly|]. intros r h6 H6. by apply leave_orderly.
Qed.
End forwards.

Section runs.
Context `{E : Env} `{BO : ByteOrder} `{PF : PollFlags} `{SL : Libslirp}.
Hypothesis Hread : read_ok E.
Hypothesis Hexcl : slirp_exclusive E.

(** C14: memory.  Whatever the kernel, libslirp and the clients of the API
    socket do, when [do_slirp] returns, on success, on an error of the set-up or
    after the loop: the packet buffer, the poll array, the API context and its
    request buffer, as far as they were allocated, have been freed, each exactly
    once, and no other block was freed with [free] or [g_array_free]; and
    [g_list_free_full] was given entries with different ids that are, in their
    order, exactly the forwards libslirp still has, the contents of the
    forwarding table. *)
Theorem do_slirp_frees version_max dn t kp se b tapfd readyfd exitfd api_socket cfg h rc :
  live h = [] -> in_u32 (recommended_vguest (cfg_net cfg)) ->
  let run := do_slirp version_max dn t kp se b tapfd readyfd exitfd api_socket cfg h in
  run.2 = Done rc ->
  freed run.1 ≡ₚ allocated run.1 /\
  NoDup (map fst (entries_freed run.1)) /\ map snd (entries_freed run.1) = live (h ++ run.1).
Proof.
  intros Hl Hg run Hrc.
  pose proof (do_slirp_settles version_max dn t kp se b tapfd readyfd exitfd api_socket cfg h) as H1.
  destruct (do_slirp_orderly (entries_freed h) (api_socket <> None) Hread Hexcl version_max dn t kp se b tapfd readyfd exitfd
    api_socket cfg h eq_refl (conj eq_refl Hl) Hg) as [_ H2].
  unfold wp in H1. fold run in H1, H2. rewrite Hrc in H1, H2. split; [exact H1|].
  destruct H2 as (l & He & Hnd & Hlive). rewrite entries_freed_app in He. apply app_inv_head in He as ->. by split.
Qed.

(** C12: what libslirp is asked over a whole run.  Starting with no forwards,
    whatever the kernel, libslirp and the clients of the API socket do and
    however the run ends, every call of [slirp_remove_hostfwd] names a forward
    libslirp holds at that moment, and every call of [slirp_add_hostfwd] has
    the protocol 0 or 1, two addresses of 32 bits and two non-zero ports of the
    type [int]. *)
Theorem do_slirp_forwards version_max dn t kp se b tapfd readyfd exitfd api_socket cfg h d1 c a d2 :
  live h = [] -> in_u32 (recommended_vguest (cfg_net cfg)) ->
  (do_slirp version_max dn t kp se b tapfd readyfd exitfd api_socket cfg h).1 = d1 ++ (c, a) :: d2 ->
  allowed (h ++ d1) c.
Proof.
  intros Hl Hg Hd.
  destruct (do_slirp_orderly (entries_freed h) (api_socket <> None) Hread Hexcl version_max dn t kp se b tapfd readyfd exitfd
    api_socket cfg h eq_refl (conj eq_refl Hl) Hg) as [Ho _].
  rewrite Hd in Ho. by apply orderly_split in Ho.
Qed.
End runs.

(** A run that serves an addition and a removal. *)
Definition is_poll (e : event) : bool := match e.1 with Poll _ _ => true | _ => false end.

Definition busy_world (requests : list bytes) : Env := fun h c =>
  match c with
  | Poll _ _ =>
      Ans 1 0 [] (if (length (List.filter is_poll h) <? length requests)%nat then [0; 0; 1] else [0; 16])
  | Read _ n =>
      let r := take (Z.to_nat n) (nth (length (List.filter is_read h)) requests []) in
      Ans (Z.min n (Z.of_nat (length r))) 0 r []
  | _ => world h c
  end.

Lemma busy_read requests : Forall (Forall is_byte) requests -> read_ok (busy_world requests).
Proof.
  intros Hr h fd n. cbn -[nth]. split_and!; [lia| |].
  - rewrite length_take. lia.
  - apply Forall_take. destruct (nth_in_or_default (length (List.filter is_read h)) requests []) as [Hin| ->]; [|constructor].
    rewrite Forall_forall in Hr. by apply Hr, list_elem_of_In.
Qed.
Lemma busy_exclusive requests : slirp_exclusive (busy_world requests).
Proof. intros h u a p ga gp H. cbn. by rewrite bool_decide_true. Qed.

Definition busy_requests : list bytes :=
  [add_request; jtext "{'execute':'remove_hostfwd','arguments':{'id':1}}"].

Definition busy_run : list event * outcome Z :=
  do_slirp (E := busy_world busy_requests) (BO := true) (PF := linux_flags) (SL := small_slirp) 4 dirname x86_64 true
    (fun _ => []) (Bounds 3 1 1 43) 3 4 5 (Some (b2l "/tmp/api.sock")) locked_config [].

Lemma do_slirp_forwards_witness :
  busy_run.2 = Done 0 /\ exists d1 a d2,
    busy_run.1 = d1 ++ (SlirpRemoveHostfwd 0 0 8080, a) :: d2 /\ (0, 0, 8080) ∈ map fkey (live d1).
Proof.
  split; [vm_compute; reflexivity|].
  assert (busy_run.1 = take 163 busy_run.1 ++ (SlirpRemoveHostfwd 0 0 8080, Ans 0 0 [] []) :: drop 164 busy_run.1) as Hd
    by (vm_compute; reflexivity).
  exists (take 163 busy_run.1), (Ans 0 0 [] []), (drop 164 busy_run.1). split; [exact Hd|].
  apply (do_slirp_forwards (E := busy_world busy_requests) (BO := true) (PF := linux_flags) (SL := small_slirp)
    (busy_read busy_requests ltac:(repeat constructor; unfold is_byte; lia)) (busy_exclusive busy_requests)
    4 dirname x86_64 true (fun _ => []) (Bounds 3 1 1 43) 3 4 5 (Some (b2l "/tmp/api.sock")) locked_config [] _ _ _ _
    eq_refl ltac:(vm_compute; split; [discriminate|reflexivity]) Hd).
Defined.

(** A run that ends with a forward in the table. *)
Definition leaving_run : list event * outcome Z :=
  do_slirp (E := busy_world [add_request]) (BO := true) (PF := linux_flags) (SL := small_slirp) 4 dirname x86_64 true
    (fun _ => []) (Bounds 2 1 1 43) 3 4 5 (Some (b2l "/tmp/api.sock")) locked_config [].

Lemma do_slirp_frees_witness :
  leaving_run.2 = Done 0 /\ freed leaving_run.1 ≡ₚ allocated leaving_run.1 /\
  allocated leaving_run.1 = [128; 65536; 40; 4096] /\ entries_freed leaving_run.1 = [(1, (0, 0, 8080, 1677852682, 80))] /\
  map snd (entries_freed leaving_run.1) = live leaving_run.1.
Proof.
  assert (leaving_run.2 = Done 0) as Hr by (vm_compute; reflexivity).
  destruct (do_slirp_frees (E := busy_world [add_request]) (BO := true) (PF := linux_flags) (SL := small_slirp)
    (busy_read [add_request] ltac:(repeat constructor; unfold is_byte; lia)) (busy_exclusive [add_request])
    4 dirname x86_64 true (fun _ => []) (Bounds 2 1 1 43) 3 4 5 (Some (b2l "/tmp/api.sock")) locked_config [] 0
    eq_refl ltac:(vm_compute; split; [discriminate|reflexivity]) Hr) as (H1 & _ & H2).
  split; [exact Hr|]. split; [exact H1|]. split; [vm_compute; reflexivity|]. split; [vm_compute; reflexivity|exact H2].
Defined.
