(* ===== verification/Main.v ===== *)
(** * The process (main.c: parent and main)

    [main] reads the command line, makes the socket pair and forks; the child
    opens the tap device in the target namespace ([Netns]), the parent waits
    for it, receives the descriptor and serves ([Loop]).  A run is the run of
    one process: [fork] answers 0 in the child. *)

From S2P Require Import Prelude Libc Cidr Inet6 Options Usage Config OS Api Sandbox Seccomp Glue Netns Loop.

Definition EXIT_SUCCESS : Z := 0.

(** ** [inet_ntop(AF_INET6, ...)], as glibc implements it *)

Fixpoint words (src : bytes) : list Z :=
  match src with
  | a :: b :: src' => Z.lor (Z.shiftl a 8) b :: words src'
  | _ => []
  end.

(** The first longest run of zero words from index [i] on: its base and
    length. *)
Fixpoint best_run (ws : list Z) (i : Z) (best cur : option (Z * Z)) : option (Z * Z) :=
  let better : option (Z * Z) :=
    match cur, best with
    | Some (_, n), Some (_, m) => if m <? n then cur else best
    | Some _, None => cur
    | None, _ => best
    end in
  match ws with
  | [] => better
  | w :: ws' =>
      if w =? 0 then
        best_run ws' (i + 1) best (match cur with Some (b, n) => Some (b, n + 1) | None => Some (i, 1) end)
      else best_run ws' (i + 1) better None
  end.

(** "%x" of a 16-bit word *)
Definition hex16 (w : Z) : bytes :=
  let ds := map (fun k => Z.land (Z.shiftr w (4 * k)) 15) [3; 2; 1; 0] in
  match snd (span (fun d => d =? 0) ds) with
  | [] => b2l "0"
  | ds => map hexchar ds
  end.

Fixpoint print_words (ws src : bytes) (i : Z) (best : option (Z * Z)) : bytes :=
  match ws with
  | [] => []
  | w :: ws' =>
      let in_run := match best with Some (b, n) => (b <=? i) && (i <? b + n) | None => false end in
      if in_run then
        (if match best with Some (b, _) => b =? i | None => false end then [":"%c] else [])
          ++ print_words ws' src (i + 1) best
      else
        (if i =? 0 then [] else [":"%c]) ++
        if (i =? 6) && match best with
                       | Some (b, n) => (b =? 0) && ((n =? 6) || ((n =? 5) && (nth 5 (words src) 0 =? 0xffff)))
                       | None => false
                       end
        then
          let o (k : nat) : bytes := dec (nth (12 + k) src 0) in
          o 0%nat ++ "."%c :: o 1%nat ++ "."%c :: o 2%nat ++ "."%c :: o 3%nat
        else hex16 w ++ print_words ws' src (i + 1) best
  end.

Definition inet_ntop6 (src : bytes) : bytes :=
  let best := match best_run (words src) 0 None None with
              | Some (b, n) => if n <? 2 then None else Some (b, n)
              | None => None
              end in
  print_words (words src) src 0 best ++
  match best with Some (b, n) => if b + n =? 8 then [":"%c] else [] | None => [] end.

Example inet_ntop6_examples :
  map (fun s => option_map inet_ntop6 (inet_pton6 (b2l s)))
    ["fd00::2"; "::"; "::1"; "1:0:0:2:0:0:0:3"; "::ffff:10.0.2.3"; "fe80:0:0:0:0:0:0:0"]%string =
  map (fun s => Some (b2l s)) ["fd00::2"; "::"; "::1"; "1:0:0:2::3"; "::ffff:10.0.2.3"; "fe80::"]%string.
Proof. vm_compute. reflexivity. Qed.

Section main.
Context `{E : Env} `{BO : ByteOrder} `{PF : PollFlags} `{SL : Libslirp}.
Variable SLIRP_CONFIG_VERSION_MAX : Z.
Variable g_path_get_dirname : bytes -> bytes.
Variable target : macros.
Variable have_kill_process : bool.
Variable strerror : Z -> bytes.

(** ** The parent *)

Definition line (label : string) (value : bytes) : call := Printf (b2l label ++ value).

(** The lines [parent] prints. *)
Definition banner (cfg : slirp4netns_config) (api_socket : option bytes) : list call :=
  let net := cfg_net cfg in
  [Printf (b2l "Starting slirp");
   line "* MTU:             " (dec_signed (i32 (cfg_mtu cfg)));
   line "* Network:         " (inet_ntop (vnetwork net));
   line "* Netmask:         " (inet_ntop (vnetmask net));
   line "* Gateway:         " (inet_ntop (vhost net));
   line "* DNS:             " (inet_ntop (vnameserver net));
   line "* DHCP begin:      " (inet_ntop (vdhcp_start net));
   line "* DHCP end:        " (inet_ntop (vdhcp_end net));
   line "* Recommended IP:  " (inet_ntop (recommended_vguest net))] ++
  match api_socket with Some path => [line "* API Socket:      " path] | None => [] end ++
  (if (2 <=? SLIRP_CONFIG_VERSION_MAX) && cfg_enable_outbound_addr cfg then
     match cfg_outbound_addr cfg with
     | Some a => [line "* Outbound IPv4:    " (inet_ntop (sin_addr a))]
     | None => []
     end
   else []) ++
  (if (2 <=? SLIRP_CONFIG_VERSION_MAX) && cfg_enable_outbound_addr6 cfg then
     match cfg_outbound_addr6 cfg with
     | Some a => [line "* Outbound IPv6:    " (inet_ntop6 (sin6_addr a))]
     | None => []
     end
   else []) ++
  (if 0 <? cfg_vmacaddress_len cfg then
     [line "* MAC address:     " (mac_print (take 6 (sa_data (cfg_vmacaddress cfg) ++ replicate 6 0)))]
   else []) ++
  (if cfg_disable_host_loopback cfg then []
   else [Printf (b2l "WARNING: 127.0.0.1:* on the host is accessible as " ++ inet_ntop (vhost net) ++
                 b2l " (set --disable-host-loopback to prohibit connecting to 127.0.0.1:*)")]).

Fixpoint print_all (lines : list call) : M unit :=
  match lines with
  | [] => mret tt
  | l :: lines' => _ ← sys_ l; print_all lines'
  end.

(** Before the sandbox an unprivileged process becomes root of the user
    namespace of the target. *)
Definition become_root (cfg : slirp4netns_config) (target_pid : Z) : M Z :=
  if cfg_enable_sandbox cfg then
    euid ← sys_ret Geteuid;
    if euid =? 0 then mret 0
    else
      checked_call (nsenter target_pid None None true) (
      checked (Setegid 0) (
      checked (Seteuid 0) (
      mret 0)))
  else mret 0.

Definition parent (b : bounds) (tapfd ready_fd exit_fd : Z) (api_socket : option bytes)
    (cfg : slirp4netns_config) (target_pid : Z) : M Z :=
  _ ← print_all (banner cfg api_socket);
  rc ← become_root cfg target_pid;
  if rc <? 0 then _ ← sys_ (Close tapfd); mret rc
  else
    rc ← do_slirp SLIRP_CONFIG_VERSION_MAX g_path_get_dirname target have_kill_process strerror
           b tapfd ready_fd exit_fd api_socket cfg;
    if rc <? 0 then _ ← sys_ (Close tapfd); mret rc
    else mret 0.

(** ** main *)

Definition WIFEXITED (wstatus : Z) : bool := Z.land wstatus 0x7f =? 0.
Definition WEXITSTATUS (wstatus : Z) : Z := Z.shiftr (Z.land wstatus 0xff00) 8.

(** The child's side of the fork; it ends in [exit]. *)
Definition main_child (sv1 : Z) (o : options) (cfg : slirp4netns_config) : M Z :=
  ret ← (if bool_decide (target_type o = Some (b2l "bess"))
         then child_bess sv1 (bess_socket o)
         else child sv1 (target_pid o) (do_config_network o) (tapname o) (netns_path o) (userns_path o) cfg);
  exit_ (if ret <? 0 then EXIT_FAILURE else EXIT_SUCCESS).

(** The descriptor of the tap device, from the child; [inr]: the status to
    exit with. *)
Definition wait_for_tap (b : bounds) (child_pid sv0 : Z) : M (Z + Z) :=
  a ← retry (tries b) EINTR (Waitpid child_pid);
  let child_wstatus := nth 0 (outz a) 0 in
  if ret a <? 0 then mret (inr EXIT_FAILURE)
  else if negb (WIFEXITED child_wstatus) then mret (inr EXIT_FAILURE)
  else
    let child_status := WEXITSTATUS child_wstatus in
    if negb (child_status =? 0) then mret (inr child_status)
    else
      tapfd ← recvfd sv0;
      if tapfd <? 0 then mret (inr EXIT_FAILURE)
      else _ ← sys_ (Close sv0); mret (inl tapfd).

Definition main_parent (b : bounds) (child_pid sv0 : Z) (o : options) (cfg : slirp4netns_config) : M Z :=
  tap ← (if 0 <=? Options.tapfd o then mret (inl (Options.tapfd o)) else wait_for_tap b child_pid sv0);
  match tap with
  | inr status => exit_ status
  | inl tapfd =>
      rc ← parent b tapfd (ready_fd o) (exit_fd o) (api_socket o) cfg (target_pid o);
      exit_ (if rc <? 0 then EXIT_FAILURE else EXIT_SUCCESS)
  end.

(** [path_exists] and [getifaddrs] answer for the host; [args] is [argv]
    after [argv0].  What [parse_args] prints comes first.  [options_destroy]
    frees what [options] points to. *)
Definition main (bd : build) (path_exists : bytes -> bool) (getifaddrs : option (list ifaddr)) (b : bounds)
    (argv0 : bytes) (args : list bytes) : M Z :=
  _ ← print_all (map Printf (parse_args_stdout path_exists SLIRP_CONFIG_VERSION_MAX bd argv0 args));
  match parse_args path_exists args with
  | ExitUsage | ExitVersion => exit_ EXIT_SUCCESS
  | ExitFailure _ => exit_ EXIT_FAILURE
  | Parsed o =>
      match slirp4netns_config_from_options SLIRP_CONFIG_VERSION_MAX getifaddrs o with
      | inr _ => exit_ EXIT_FAILURE
      | inl cfg =>
          sv ← sys (Socketpair AF_LOCAL SOCK_STREAM 0);
          if ret sv <? 0 then exit_ EXIT_FAILURE
          else
            let sv0 := nth 0 (outz sv) 0 in
            let sv1 := nth 1 (outz sv) 0 in
            if Options.tapfd o <? 0 then
              child_pid ← sys_ret Fork;
              if child_pid <? 0 then exit_ EXIT_FAILURE
              else if child_pid =? 0 then main_child sv1 o cfg
              else main_parent b child_pid sv0 o cfg
            else main_parent b (-1) sv0 o cfg
      end
  end.
End main.
