(* ===== verification/MainTheory.v ===== *)
(** * The process: theorems

    What [parent] and [main] do, composed of what the child ([Netns]), the
    configuration ([Config]) and [do_slirp] ([LoopTheory]) do. *)

From S2P Require Import Prelude Libc Cidr Inet6 Options Usage Config OS Api ApiTheory Sandbox Seccomp Glue Netns Loop LoopTheory Main.

(** ** Before libslirp is created *)

(** The event is neither a poll nor a call of libslirp. *)
Definition no_slirp (e : event) : Prop :=
  match e.1 with
  | SlirpNew _ | SlirpPollfdsFill _ | SlirpPollfdsPoll _ | SlirpInput _ | TimerCb _ _
  | SlirpAddHostfwd _ _ _ _ _ | SlirpRemoveHostfwd _ _ _ | Poll _ _ => False
  | _ => True
  end.

Lemma no_slirp_quiet d : Forall no_slirp d -> Forall quiet d.
Proof. intros H. eapply Forall_impl; [exact H|]. by intros [[] a]. Qed.

Section before.
Context `{E : Env} `{BO : ByteOrder}.

Lemma nsenter_no_slirp pid netns userns only : emits no_slirp (nsenter pid netns userns only).
Proof. unfold nsenter, close_unless. repeat emits_step; done. Qed.

Lemma configure_network_no_slirp name cfg : emits no_slirp (configure_network name cfg).
Proof. unfold configure_network, configure_ioctls, checked_call, checked. repeat emits_step; done. Qed.

Lemma child_no_slirp sock pid conf name np up cfg : emits no_slirp (child sock pid conf name np up cfg).
Proof.
  unfold child, checked_call, open_tap, sendfd.
  repeat first [emits_step | apply nsenter_no_slirp | apply configure_network_no_slirp]; done.
Qed.

Lemma child_bess_no_slirp sock path : emits no_slirp (child_bess sock path).
Proof. unfold child_bess, sendfd. repeat emits_step; done. Qed.

Lemma become_root_no_slirp cfg pid : emits no_slirp (become_root cfg pid).
Proof. unfold become_root, checked_call, checked. repeat first [emits_step | apply nsenter_no_slirp]; done. Qed.

Lemma wait_for_tap_from_env b pid sv0 : emits from_env (wait_for_tap b pid sv0).
Proof. unfold wait_for_tap, recvfd. repeat emits_step; by eexists. Qed.

Lemma wait_for_tap_no_slirp b pid sv0 : emits no_slirp (wait_for_tap b pid sv0).
Proof. unfold wait_for_tap, recvfd. repeat emits_step; done. Qed.
End before.

(** ** The parent *)

Section process.
Context `{E : Env} `{BO : ByteOrder} `{PF : PollFlags} `{SL : Libslirp} (k : nat) `{HC : !LibslirpContract k}.
Context (intr : nat) (N : Z) (b : bounds).
Context (version_max : Z) (dn : bytes -> bytes) (t : macros) (kp : bool) (se : Z -> bytes).
Hypothesis Hclock : clock_ok E.
Hypothesis Hread : read_ok E.
Hypothesis Hexcl : slirp_exclusive E.
Hypothesis Hcaps : knows_caps N.
Hypothesis Hcapsb : (Z.to_nat N + 2 <= caps b)%nat.
Hypothesis Hintr : patient E intr.
Hypothesis Htries : (S intr <= tries b)%nat.
Hypothesis Hvisits : (k <= visits b)%nat.
Hypothesis Hfd : fails_with_minus1 E.

Lemma print_all_spec lines h :
  wp (print_all lines) h (fun d o => o = Done tt /\ calls_of d = lines).
Proof.
  revert h. induction lines as [|l lines IH]; intros h; cbn [print_all]; [by apply wp_ret|].
  apply wp_bind_sys_. intros a _. eapply wp_mono; [apply IH|]. intros d o [-> <-]. done.
Qed.

Definition is_printf (c : call) : Prop := match c with Printf _ => True | _ => False end.

Lemma printed_no_slirp lines d : Forall is_printf lines -> calls_of d = lines -> Forall no_slirp d.
Proof.
  intros Hb <-. unfold calls_of in Hb. rewrite List.Forall_map in Hb. eapply Forall_impl; [exact Hb|].
  by intros [[] a].
Qed.

Lemma banner_no_slirp cfg api_socket d :
  calls_of d = banner version_max cfg api_socket -> Forall no_slirp d.
Proof.
  apply printed_no_slirp. unfold banner, line. cbv zeta.
  repeat (apply Forall_app; split); repeat case_match; repeat constructor.
Qed.

Lemma stdout_no_slirp ls d : calls_of d = map Printf ls -> Forall no_slirp d.
Proof. apply printed_no_slirp. rewrite List.Forall_map. by apply Forall_true. Qed.

(** The sandbox is only set up by root: of the host, or else of the user
    namespace of the target, which was joined first. *)
Definition rooted (cfg : slirp4netns_config) (target_pid : Z) (d : list event) : Prop :=
  if cfg_enable_sandbox cfg then
    exists e, (ret e = 0 /\ d = [(Geteuid, e)]) \/
      exists dj g u, ret e <> 0 /\ nsenter_post target_pid None None true dj 0 /\ 0 <= ret g /\ 0 <= ret u /\
        d = (Geteuid, e) :: dj ++ [(Setegid 0, g); (Seteuid 0, u)]
  else d = [].

Lemma become_root_spec cfg target_pid h :
  wp (become_root cfg target_pid) h (returns (fun d r => r < 0 \/ (r = 0 /\ rooted cfg target_pid d))).
Proof.
  unfold become_root, rooted. destruct (cfg_enable_sandbox cfg); [|apply wp_ret; by right].
  apply wp_bind_sys_ret. intros e _. destruct (Z.eqb_spec (ret e) 0).
  { apply wp_ret. right. split; [done|]. exists e. by left. }
  set (P := fun d r => r < 0 \/ (r = 0 /\ exists dj g u, nsenter_post target_pid None None true dj 0 /\
    0 <= ret g /\ 0 <= ret u /\ d = dj ++ [(Setegid 0, g); (Seteuid 0, u)])).
  eapply (wp_mono _ _ (returns P)).
  - eapply wp_checked_call; [by apply nsenter_spec|intros; by left|].
    intros dj r Hj Hr. assert (r = 0) as -> by (destruct Hj as ([?|?] & _); lia).
    apply wp_checked; [intros; by left|]. intros g Hg. apply wp_checked; [intros; by left|]. intros u Hu.
    apply wp_ret. right. split; [done|]. by exists dj, g, u.
  - intros d [r| | |] Hd; simpl in *; try done. destruct Hd as [?|(-> & dj & g & u & Hj & Hg & Hu & ->)]; [by left|].
    right. split; [done|]. exists e. right. by exists dj, g, u.
Qed.

(** A run of [parent]: the banner, then root, then [do_slirp]; the tap
    descriptor is closed when something fails. *)
Definition parent_post (tapfd ready_fd exit_fd : Z) (api_socket : option bytes) (cfg : slirp4netns_config)
    (target_pid : Z) (h : history) (d : list event) (o : outcome Z) : Prop :=
  exists dp dr rest, d = dp ++ dr ++ rest /\
    calls_of dp = banner version_max cfg api_socket /\ Forall no_slirp dr /\
    ((exists rc c, rc < 0 /\ o = Done rc /\ rest = [(Close tapfd, c)]) \/
     (rooted cfg target_pid dr /\ exists ds o',
        do_slirp_post k b tapfd ready_fd exit_fd api_socket cfg (h ++ dp ++ dr) ds o' /\
        match o' with
        | Done 0 => o = Done 0 /\ rest = ds
        | Done rc => rc < 0 /\ o = Done rc /\ exists c, rest = ds ++ [(Close tapfd, c)]
        | _ => o = o' /\ rest = ds
        end)).

Lemma do_slirp_result tapfd ready_fd exit_fd api_socket cfg h d rc :
  do_slirp_post k b tapfd ready_fd exit_fd api_socket cfg h d (Done rc) -> rc = 0 \/ rc = -1.
Proof.
  intros [[[= ->] _]|(v & ds & dr & dl & du & o' & _ & _ & _ & _ & _ & _ & _ & _ & Hl & Ho)]; [by right|].
  destruct o' as [[rc' c]| | |]; simpl in Hl; [|done|by destruct Ho|by destruct Ho].
  assert (rc = rc') as -> by (destruct Ho as [Ho _]; congruence). tauto.
Qed.

Lemma parent_spec tapfd ready_fd exit_fd api_socket cfg target_pid h :
  live h = [] -> in_u32 (recommended_vguest (cfg_net cfg)) ->
  wp (parent version_max dn t kp se b tapfd ready_fd exit_fd api_socket cfg target_pid) h
    (parent_post tapfd ready_fd exit_fd api_socket cfg target_pid h).
Proof.
  intros Hlive Hvg. unfold parent. apply wp_bind. eapply wp_mono; [apply print_all_spec|].
  intros dp o [-> Hdp]. cbn [bind_post]. apply wp_bind.
  eapply wp_mono; [apply (wp_emits no_slirp); [apply become_root_no_slirp|apply become_root_spec]|].
  intros dr o [Hns Hr]. destruct o as [rc| | |]; cbn [returns bind_post] in *; try done.
  destruct (Z.ltb_spec rc 0).
  { apply wp_bind_sys_. intros c _. apply wp_ret. exists dp, dr, [(Close tapfd, c)].
    split_and!; try done. left. by exists rc, c. }
  destruct Hr as [?|[-> Hroot]]; [lia|]. rewrite <-app_assoc. apply wp_bind.
  assert (live (h ++ dp ++ dr) = []) as Hl'.
  { rewrite live_quiet; [done|]. apply no_slirp_quiet, Forall_app. split; [by eapply banner_no_slirp|done]. }
  eapply wp_mono; [by apply (do_slirp_spec k intr N b version_max dn t kp se)|].
  intros ds o' Hds. destruct o' as [rc|s| |]; cbn [bind_post].
  2-4: exists dp, dr, ds; split_and!; [app_eq|done|done|]; right; split; [done|]; eexists ds, _; split; [exact Hds|done].
  pose proof (do_slirp_result _ _ _ _ _ _ _ _ Hds) as Hrc. destruct (Z.ltb_spec rc 0).
  - apply wp_bind_sys_. intros c _. apply wp_ret. exists dp, dr, (ds ++ [(Close tapfd, c)]).
    split_and!; [app_eq|done|done|]. right. split; [done|]. exists ds, (Done rc). split; [exact Hds|].
    destruct rc; [lia|lia|]. split_and!; [done|done|]. by exists c.
  - assert (rc = 0) as -> by lia. apply wp_ret. exists dp, dr, ds. split_and!; [app_eq|done|done|].
    right. split; [done|]. by exists ds, (Done 0).
Qed.

(** The parent.  It prints the banner, which shows the configuration;
    with the sandbox enabled it is root on the host or becomes root of the
    target's user namespace; only then [do_slirp] runs, as [do_slirp_correct]
    says.  When becoming root or [do_slirp] fails, the tap descriptor is
    closed and the negative value is returned, and in the former case libslirp
    was never created. *)
Theorem parent_correct tapfd ready_fd exit_fd api_socket cfg target_pid h :
  live h = [] -> in_u32 (recommended_vguest (cfg_net cfg)) ->
  let run := parent version_max dn t kp se b tapfd ready_fd exit_fd api_socket cfg target_pid h in
  parent_post tapfd ready_fd exit_fd api_socket cfg target_pid h run.1 run.2.
Proof. apply parent_spec. Qed.

(** ** main *)

Lemma WEXITSTATUS_range w : 0 <= WEXITSTATUS w < 256.
Proof.
  unfold WEXITSTATUS. rewrite Z.shiftr_div_pow2 by lia.
  assert (0 <= Z.land w 0xff00 < 2 ^ 16) as Hr.
  { split; [apply Z.land_nonneg; right; lia|].
    replace (Z.land w 0xff00) with (Z.land (Z.land w 0xff00) (Z.ones 16)) by (by rewrite <-Z.land_assoc).
    rewrite Z.land_ones by lia. apply Z.mod_pos_bound. lia. }
  split; [apply Z.div_pos; lia|]. apply Z.div_lt_upper_bound; lia.
Qed.

(** The descriptor came from the child: the child exited with status 0, and
    the first control message of the one-byte message on the socket pair
    carried it. *)
Definition received (child_pid sv0 tapfd : Z) (d : list event) : Prop :=
  exists l a m c fds,
    d = l ++ [(Waitpid child_pid, a); (Recvmsg sv0 1, m); (Close sv0, c)] /\
    Forall (fun e => e.1 = Waitpid child_pid) l /\
    0 <= ret a /\ WIFEXITED (nth 0 (outz a) 0) = true /\ WEXITSTATUS (nth 0 (outz a) 0) = 0 /\
    0 < ret m /\ outz m = SCM_RIGHTS :: tapfd :: fds /\ 0 <= tapfd.

(** No descriptor: the parent exits with the status of the child if it exited
    with a status other than 0, and with 1 otherwise. *)
Definition lost (child_pid sv0 status : Z) (d : list event) : Prop :=
  exists l a rest, d = l ++ (Waitpid child_pid, a) :: rest /\ Forall (fun e => e.1 = Waitpid child_pid) l /\
    let w := nth 0 (outz a) 0 in
    if (0 <=? ret a) && WIFEXITED w && negb (WEXITSTATUS w =? 0)
    then status = WEXITSTATUS w /\ rest = []
    else status = EXIT_FAILURE /\ (rest = [] \/ exists m, rest = [(Recvmsg sv0 1, m)]).

Lemma lost_status child_pid sv0 status d : lost child_pid sv0 status d -> 0 < status < 256.
Proof.
  intros (l & a & rest & _ & _ & H). cbv zeta in H. set (w := nth 0 (outz a) 0) in *.
  pose proof (WEXITSTATUS_range w). destruct (_ && _) eqn:Hb.
  - destruct H as [-> _]. destruct (Z.eqb_spec (WEXITSTATUS w) 0); [|lia]. rewrite andb_false_r in Hb. done.
  - destruct H as [-> _]. unfold EXIT_FAILURE. lia.
Qed.

Lemma lost_fail child_pid sv0 l a rest :
  Forall (fun e : event => e.1 = Waitpid child_pid) l ->
  (0 <=? ret a) && WIFEXITED (nth 0 (outz a) 0) && negb (WEXITSTATUS (nth 0 (outz a) 0) =? 0) = false ->
  (rest = [] \/ exists m, rest = [(Recvmsg sv0 1, m)]) ->
  lost child_pid sv0 EXIT_FAILURE (l ++ (Waitpid child_pid, a) :: rest).
Proof. intros Hl Hb Hr. exists l, a, rest. cbv zeta. by rewrite Hb. Qed.

(** [recvmsg] fails with -1. *)
Definition recvmsg_fails_with_minus1 : Prop := forall h fd n, -1 <= ret (env h (Recvmsg fd n)).
Hypothesis Hrecv : recvmsg_fails_with_minus1.

Lemma recvfd_spec sock h :
  wp (recvfd sock) h (returns (fun d r => exists m, d = [(Recvmsg sock 1, m)] /\
    (0 <= r -> 0 < ret m /\ exists fds, outz m = SCM_RIGHTS :: r :: fds))).
Proof.
  unfold recvfd. apply wp_bind_sys. intros m Hm. pose proof (Hrecv h sock 1) as Hge. rewrite Hm in Hge.
  destruct (Z.ltb_spec (ret m) 0).
  { assert (ret m = -1) as -> by lia. apply wp_ret. exists m. split; [done|]. vm_compute. done. }
  destruct (Z.eqb_spec (ret m) 0). { apply wp_ret. exists m. split; [done|lia]. }
  destruct (outz m) as [|ty [|fd fds]] eqn:Ho; try (apply wp_ret; exists m; split; [done|lia]).
  destruct (Z.eqb_spec ty SCM_RIGHTS); apply wp_ret; exists m; (split; [done|]); [|lia].
  intros _. split; [lia|]. exists fds. by subst.
Qed.

Lemma wait_for_tap_spec child_pid sv0 h :
  wp (wait_for_tap b child_pid sv0) h (returns (fun d r =>
    match r with inl tapfd => received child_pid sv0 tapfd d | inr status => lost child_pid sv0 status d end)).
Proof.
  unfold wait_for_tap. apply wp_bind. eapply wp_mono; [by eapply (wp_retry intr)|].
  intros d o (l & a & -> & -> & Hni & Hl & _). cbn [bind_post]. cbv zeta.
  destruct (Z.ltb_spec (ret a) 0).
  { apply wp_ret. rewrite app_nil_r. apply lost_fail; [done| |by left]. destruct (Z.leb_spec 0 (ret a)); [lia|done]. }
  destruct (WIFEXITED (nth 0 (outz a) 0)) eqn:Hw; cbn [negb].
  2:{ apply wp_ret. rewrite app_nil_r. apply lost_fail; [done| |by left]. by rewrite Hw, andb_false_r. }
  destruct (Z.eqb_spec (WEXITSTATUS (nth 0 (outz a) 0)) 0) as [Hs|Hs]; cbn [negb].
  2:{ apply wp_ret. exists l, a, []. cbv zeta. rewrite app_nil_r, Hw. split_and!; [done|done|].
      destruct (Z.leb_spec 0 (ret a)); [|lia]. destruct (Z.eqb_spec (WEXITSTATUS (nth 0 (outz a) 0)) 0); done. }
  apply wp_bind. eapply wp_mono; [apply recvfd_spec|]. intros d o Ho.
  destruct o as [tapfd| | |]; cbn [returns bind_post] in *; try done. destruct Ho as (m & -> & Hm).
  destruct (Z.ltb_spec tapfd 0).
  { apply wp_ret. rewrite app_nil_r, <-app_assoc. apply lost_fail; [done| |right; by exists m].
    by rewrite Hs, andb_false_r. }
  apply wp_bind_sys_. intros c _. apply wp_ret. destruct (Hm ltac:(lia)) as [Hpos [fds Ho]].
  exists l, a, m, c, fds. split_and!; [app_eq|done|lia|done|done|done|done|lia].
Qed.

(** What the child's side did before it exited. *)
Definition child_end (sock : Z) (o : options) (cfg : slirp4netns_config) (d : list event) (r : Z) : Prop :=
  if bool_decide (target_type o = Some (b2l "bess")) then child_bess_post sock (bess_socket o) d r
  else child_post sock (target_pid o) (do_config_network o) (tapname o) (netns_path o) (userns_path o) cfg d r.

Definition exit_of (o : outcome Z) : outcome Z :=
  match o with Done rc => Exited (if rc <? 0 then EXIT_FAILURE else EXIT_SUCCESS) | _ => o end.

(** The runs of [main] once the command line and the configuration are read. *)
Inductive main_run (o : options) (cfg : slirp4netns_config) (h : history) : list event -> outcome Z -> Prop :=
| run_no_socketpair a :
    let d0 := [(Socketpair AF_LOCAL SOCK_STREAM 0, a)] in
    Forall from_env d0 -> ret a < 0 -> main_run o cfg h d0 (Exited EXIT_FAILURE)
| run_no_fork a f :
    let d0 := [(Socketpair AF_LOCAL SOCK_STREAM 0, a); (Fork, f)] in
    Forall from_env d0 -> 0 <= ret a -> Options.tapfd o < 0 -> ret f < 0 ->
    main_run o cfg h d0 (Exited EXIT_FAILURE)
| run_child a f d r :
    let d0 := [(Socketpair AF_LOCAL SOCK_STREAM 0, a); (Fork, f)] in
    Forall from_env d0 -> 0 <= ret a -> Options.tapfd o < 0 -> ret f = 0 ->
    child_end (nth 1 (outz a) 0) o cfg d r -> Forall no_slirp d ->
    main_run o cfg h (d0 ++ d) (exit_of (Done r))
| run_lost a f d status :
    let d0 := (Socketpair AF_LOCAL SOCK_STREAM 0, a) :: (Fork, f) :: d in
    Forall from_env d0 -> 0 <= ret a -> Options.tapfd o < 0 -> 0 < ret f ->
    lost (ret f) (nth 0 (outz a) 0) status d ->
    main_run o cfg h d0 (Exited status)
| run_received a f d tapfd dp out :
    let d0 := (Socketpair AF_LOCAL SOCK_STREAM 0, a) :: (Fork, f) :: d in
    Forall from_env d0 -> 0 <= ret a -> Options.tapfd o < 0 -> 0 < ret f ->
    received (ret f) (nth 0 (outz a) 0) tapfd d ->
    parent_post tapfd (ready_fd o) (exit_fd o) (api_socket o) cfg (target_pid o) (h ++ d0) dp out ->
    main_run o cfg h (d0 ++ dp) (exit_of out)
| run_given a dp out :
    let d0 := [(Socketpair AF_LOCAL SOCK_STREAM 0, a)] in
    Forall from_env d0 -> 0 <= ret a -> 0 <= Options.tapfd o ->
    parent_post (Options.tapfd o) (ready_fd o) (exit_fd o) (api_socket o) cfg (target_pid o) (h ++ d0) dp out ->
    main_run o cfg h (d0 ++ dp) (exit_of out).

Lemma exit_bind (m : M Z) h Q :
  wp m h (fun d o => Q d (exit_of o)) ->
  wp (rc ← m; exit_ (if rc <? 0 then EXIT_FAILURE else EXIT_SUCCESS)) h Q.
Proof.
  intros Hm. apply wp_bind. eapply wp_mono; [exact Hm|]. intros d [rc|s| |] Ho; try exact Ho.
  cbn [bind_post]. apply wp_exit. by rewrite app_nil_r.
Qed.

Lemma main_child_spec sv1 o cfg h :
  wp (main_child sv1 o cfg) h (fun d out =>
    Forall no_slirp d /\ exists r, out = exit_of (Done r) /\ child_end sv1 o cfg d r).
Proof.
  unfold main_child, child_end. apply exit_bind. case_bool_decide.
  - eapply wp_mono; [apply (wp_emits no_slirp); [apply child_bess_no_slirp|apply child_bess_spec]|].
    intros d [r| | |] [Hns Ho]; simpl in Ho; try done. split; [done|]. by exists r.
  - eapply wp_mono; [apply (wp_emits no_slirp); [apply child_no_slirp|by apply child_spec]|].
    intros d [r| | |] [Hns Ho]; simpl in Ho; try done. split; [done|]. by exists r.
Qed.

Lemma served_spec tapfd o cfg h :
  live h = [] -> typed_config version_max cfg ->
  wp (rc ← parent version_max dn t kp se b tapfd (ready_fd o) (exit_fd o) (api_socket o) cfg (target_pid o);
      exit_ (A := Z) (if rc <? 0 then EXIT_FAILURE else EXIT_SUCCESS)) h (fun d out => exists out',
    out = exit_of out' /\ parent_post tapfd (ready_fd o) (exit_fd o) (api_socket o) cfg (target_pid o) h d out').
Proof.
  intros Hlive Hty. apply exit_bind. eapply wp_mono.
  - apply parent_spec; [done|]. pose proof (ty_net _ _ Hty) as Hn. rewrite !Forall_cons in Hn. tauto.
  - intros d out Hp. by exists out.
Qed.

Lemma main_run_spec o cfg h :
  live h = [] -> typed_config version_max cfg ->
  wp (sv ← sys (Socketpair AF_LOCAL SOCK_STREAM 0);
      if ret sv <? 0 then exit_ EXIT_FAILURE
      else
        let sv0 := nth 0 (outz sv) 0 in
        let sv1 := nth 1 (outz sv) 0 in
        if Options.tapfd o <? 0 then
          child_pid ← sys_ret Fork;
          if child_pid <? 0 then exit_ EXIT_FAILURE
          else if child_pid =? 0 then main_child sv1 o cfg
          else main_parent version_max dn t kp se b child_pid sv0 o cfg
        else main_parent version_max dn t kp se b (-1) sv0 o cfg) h (main_run o cfg h).
Proof.
  intros Hlive Hty. apply wp_bind_sys. intros a Ha.
  assert (from_env (Socketpair AF_LOCAL SOCK_STREAM 0, a)) as Hsa by (by exists h).
  destruct (Z.ltb_spec (ret a) 0). { apply wp_exit. constructor; [by repeat constructor|done]. }
  cbv zeta. destruct (Z.ltb_spec (Options.tapfd o) 0).
  2:{ unfold main_parent. destruct (Z.leb_spec 0 (Options.tapfd o)); [|lia].
      apply wp_bind, wp_ret. cbn [bind_post]. rewrite app_nil_r.
      eapply wp_mono; [apply served_spec; [|done]; rewrite live_quiet; [done|by repeat constructor]|].
      intros d out (out' & -> & Hp). apply run_given; try done. by repeat constructor. }
  apply wp_bind_sys_ret. intros f Hf. assert (from_env (Fork, f)) as Hsf by (by eexists).
  destruct (Z.ltb_spec (ret f) 0). { apply wp_exit. constructor; try done. by repeat constructor. }
  destruct (Z.eqb_spec (ret f) 0).
  { eapply wp_mono; [apply main_child_spec|]. intros d out (Hns & r & -> & Hc).
    apply run_child; try done. by repeat constructor. }
  unfold main_parent. destruct (Z.leb_spec 0 (Options.tapfd o)); [lia|]. apply wp_bind.
  eapply wp_mono; [apply (wp_emits no_slirp); [apply wait_for_tap_no_slirp|];
                   apply (wp_emits from_env); [apply wait_for_tap_from_env|apply wait_for_tap_spec]|].
  intros d out (Hns & Hsd & Ho).
  set (d0 := (Socketpair AF_LOCAL SOCK_STREAM 0, a) :: (Fork, f) :: d).
  assert (Forall from_env d0) as Hs0 by (by repeat constructor).
  destruct out as [[tapfd|status]| | |]; cbn [returns] in Ho; try done.
  2:{ apply wp_exit. rewrite app_nil_r. apply run_lost; try done. lia. }
  cbn [bind_post]. replace (((h ++ _) ++ _) ++ d) with (h ++ d0) by (unfold d0; app_eq).
  eapply wp_mono; [apply (served_spec tapfd o cfg (h ++ d0)); [|done]|].
  - rewrite live_quiet; [done|]. apply no_slirp_quiet. by repeat constructor.
  - intros dp out (out' & -> & Hp). eapply (run_received o cfg h a f d tapfd dp out'); try done. lia.
Qed.

(** A run of [main]: what the command line makes it print, then the rest. *)
Definition main_post (bd : build) (path_exists : bytes -> bool) (ifs : option (list ifaddr)) (argv0 : bytes)
    (args : list bytes) (h : history) (d : list event) (out : outcome Z) : Prop :=
  exists dw d', d = dw ++ d' /\
    calls_of dw = map Printf (parse_args_stdout path_exists version_max bd argv0 args) /\
    match parse_args path_exists args with
    | ExitUsage | ExitVersion => d' = [] /\ out = Exited EXIT_SUCCESS
    | ExitFailure _ => d' = [] /\ out = Exited EXIT_FAILURE
    | Parsed o =>
        match slirp4netns_config_from_options version_max ifs o with
        | inr _ => d' = [] /\ out = Exited EXIT_FAILURE
        | inl cfg => typed_config version_max cfg /\ main_run o cfg (h ++ dw) d' out
        end
    end.

Lemma main_spec bd path_exists ifs argv0 args h :
  live h = [] -> typed_ifaddrs ifs ->
  wp (main version_max dn t kp se bd path_exists ifs b argv0 args) h (main_post bd path_exists ifs argv0 args h).
Proof.
  intros Hlive Hifs. unfold main, main_post. apply wp_bind. eapply wp_mono; [apply print_all_spec|].
  intros dw o [-> Hdw]. cbn [bind_post].
  assert (live (h ++ dw) = []) as Hl' by (rewrite live_quiet; [done|by eapply no_slirp_quiet, stdout_no_slirp]).
  destruct (parse_args path_exists args) as [| |e|o] eqn:Ep; try (apply wp_exit; by exists dw, []).
  destruct (slirp4netns_config_from_options version_max ifs o) as [cfg|e] eqn:Ec; [|apply wp_exit; by exists dw, []].
  assert (typed_config version_max cfg) as Hty.
  { eapply config_typed; [exact Hifs| |exact Ec]. exact (wf_mtu _ _ (parse_args_ok path_exists args o Ep)). }
  eapply wp_mono; [by apply main_run_spec|]. intros d out Hd. by exists dw, d.
Qed.

(** C3: the whole process.  First it prints what the command line asks for;
    with a bad command line or configuration nothing else is called and the
    status is 1.  Otherwise, for every answer of the kernel
    and of libslirp: the forked side runs the child of the target type and
    exits with 0 iff it succeeded, without ever using libslirp; the other side
    serves only the descriptor given with [--netns-type=tapfd], or the one
    received in an SCM_RIGHTS message on the socket pair after the child
    exited with status 0; a failing child's status is passed on. *)
Theorem main_correct bd path_exists ifs argv0 args h :
  live h = [] -> typed_ifaddrs ifs ->
  let run := main version_max dn t kp se bd path_exists ifs b argv0 args h in
  main_post bd path_exists ifs argv0 args h run.1 run.2.
Proof. apply main_spec. Qed.

(** *** The exit status *)

Lemma parent_done_zero tapfd ready_fd exit_fd api_socket cfg target_pid h d :
  parent_post tapfd ready_fd exit_fd api_socket cfg target_pid h d (Done 0) -> 0 <= exit_fd /\ LoopTheory.reported 1 d.
Proof.
  intros (dp & dr & rest & -> & _ & _ & [(rc & c & Hrc & [= <-] & _)|(_ & ds & o' & Hds & Ho)]); [lia|].
  destruct o' as [[|rc|rc]| | |]; try (destruct Ho as (? & [= <-] & _); lia); try by destruct Ho. destruct Ho as [_ ->].
  destruct Hds as [[[=] _]|(v & d1 & d2 & d3 & d4 & o' & -> & _ & Hidx & _ & _ & _ & _ & _ & Hl & Ho)].
  destruct o' as [[rc c]| | |]; simpl in Hl; [|done|by destruct Ho|by destruct Ho].
  assert (rc = 0) as -> by (destruct Ho as [Ho _]; congruence).
  destruct Hl as [(_ & Hi & Hr)|[? _]]; [|done]. rewrite Hidx in Hi, Hr. destruct (Z.leb_spec 0 exit_fd); [|lia].
  split; [done|]. destruct Hr as (fds & tm & a & Hin & Hpos & Hne). exists fds, tm, a.
  split_and!; [|done|done]. rewrite !elem_of_app. tauto.
Qed.

Lemma child_end_zero sock o cfg d : child_end sock o cfg d 0 -> exists fd s, (Sendmsg sock [0] fd, s) ∈ d /\ 0 <= ret s.
Proof.
  unfold child_end. case_bool_decide.
  - intros [[_ (path & s & u & b' & l & a & m & c1 & c2 & _ & _ & _ & _ & _ & _ & Hm & ->)]|[? _]]; [|done].
    exists (ret a), m. split; [|done]. do 5 apply list_elem_of_further. left.
  - intros (_ & _ & Hs). destruct (Hs eq_refl) as (name & dns & a & b' & dcfg & s & c1 & c2 & _ & _ & _ & _ & _ & Hp & _ & ->).
    exists (ret a), s. split; [|done]. rewrite !elem_of_app. right. right. right. left.
Qed.

Lemma do_slirp_no_exit tapfd ready_fd exit_fd api_socket cfg h d s :
  ~ do_slirp_post k b tapfd ready_fd exit_fd api_socket cfg h d (Exited s).
Proof.
  intros [[[=] _]|(v & d1 & d2 & d3 & d4 & o' & _ & _ & _ & _ & _ & _ & _ & _ & Hl & Ho)].
  destruct o' as [[rc c]| | |]; simpl in Hl; [|done|by destruct Ho|by destruct Ho].
  destruct Ho as [Ho _]; congruence.
Qed.

Lemma parent_outcome tapfd ready_fd exit_fd api_socket cfg target_pid h d out :
  parent_post tapfd ready_fd exit_fd api_socket cfg target_pid h d out ->
  match out with Done rc => rc <= 0 | Exited _ => False | _ => True end.
Proof.
  intros (dp & dr & rest & _ & _ & _ & [(rc & c & Hrc & -> & _)|(_ & ds & o' & Hds & Ho)]); [lia|].
  destruct o' as [[|rc|rc]|s| |].
  - by destruct Ho as [-> _].
  - destruct Ho as [? _]. lia.
  - by destruct Ho as (? & -> & _).
  - by apply do_slirp_no_exit in Hds.
  - by destruct Ho as [-> _].
  - by destruct Ho as [-> _].
Qed.

(** The status after serving. *)
Lemma served_status tapfd ready_fd exit_fd api_socket cfg target_pid h d out (P : Prop) :
  parent_post tapfd ready_fd exit_fd api_socket cfg target_pid h d out ->
  (0 <= exit_fd /\ LoopTheory.reported 1 d -> P) ->
  match exit_of out with
  | Exited status => (status = 0 /\ P) \/ status = 1
  | Done _ => False
  | Undefined | OutOfFuel => True
  end.
Proof.
  intros Hp HP. pose proof (parent_outcome _ _ _ _ _ _ _ _ _ Hp) as Hout. destruct out as [rc|s| |]; simpl; try done.
  destruct (Z.ltb_spec rc 0); [by right|]. left. split; [done|]. apply HP. assert (rc = 0) as -> by lia.
  by eapply parent_done_zero.
Qed.

(** Why a process may end with status 0. *)
Definition ended_well (path_exists : bytes -> bool) (args : list bytes) (d : list event) : Prop :=
  parse_args path_exists args = ExitUsage \/ parse_args path_exists args = ExitVersion \/
  exists o, parse_args path_exists args = Parsed o /\
    ((exists f sock fd s, (Fork, f) ∈ d /\ ret f = 0 /\ (Sendmsg sock [0] fd, s) ∈ d /\ 0 <= ret s) \/
     (0 <= exit_fd o /\ LoopTheory.reported 1 d)).

Definition exit_status_post (path_exists : bytes -> bool) (args : list bytes) (d : list event) (out : outcome Z) : Prop :=
  match out with
  | Exited status => (status = 0 /\ ended_well path_exists args d) \/ 0 < status < 256
  | Done _ => False
  | Undefined | OutOfFuel => exists o, parse_args path_exists args = Parsed o
  end.

Lemma served_exit path_exists args o tapfd cfg h d0 dp out :
  parse_args path_exists args = Parsed o ->
  parent_post tapfd (ready_fd o) (exit_fd o) (api_socket o) cfg (target_pid o) h dp out ->
  exit_status_post path_exists args (d0 ++ dp) (exit_of out).
Proof.
  intros Ep Hp. pose proof (served_status _ _ _ _ _ _ _ _ _ (ended_well path_exists args (d0 ++ dp)) Hp) as Hst.
  unfold exit_status_post. destruct (exit_of out) as [rc|s| |]; simpl in *; try by eexists.
  - apply Hst. intros [? ?]. do 2 right. exists o. split; [done|]. right. split; [done|]. by apply reported_app.
  - destruct Hst as [?| ->]; [|by left|right; lia].
    intros [? ?]. do 2 right. exists o. split; [done|]. right. split; [done|]. by apply reported_app.
Qed.

Lemma child_exit path_exists args o cfg sock d0 a f d r :
  parse_args path_exists args = Parsed o -> ret f = 0 -> child_end sock o cfg d r ->
  exit_status_post path_exists args (d0 ++ a :: (Fork, f) :: d) (exit_of (Done r)).
Proof.
  intros Ep Hf Hc. assert (r <= 0) as Hr.
  { unfold child_end in Hc. case_bool_decide; [|by destruct Hc]. by destruct Hc as [[-> _]|[-> _]]. }
  simpl. unfold EXIT_FAILURE, EXIT_SUCCESS. destruct (Z.ltb_spec r 0); [right; lia|]. assert (r = 0) as -> by lia.
  left. split; [done|]. do 2 right. exists o. split; [done|]. left.
  apply child_end_zero in Hc as (fd & s & Hin & Hs). exists f, sock, fd, s. rewrite !elem_of_app.
  split_and!; [do 2 right; left|done|do 3 right; exact Hin|done].
Qed.

(** C25: the exit status says what happened.  The process ends only in
    [exit], and with status 0 only if help or the version was asked for, if it
    was the forked child and the descriptor was sent, or if it was told to stop
    through the exit descriptor; every other status is in 1..255. *)
Theorem main_exit_status bd path_exists ifs argv0 args h :
  live h = [] -> typed_ifaddrs ifs ->
  let run := main version_max dn t kp se bd path_exists ifs b argv0 args h in
  exit_status_post path_exists args run.1 run.2.
Proof.
  intros Hlive Hifs run. pose proof (main_spec bd path_exists ifs argv0 args h Hlive Hifs) as Hm.
  unfold wp in Hm. fold run in Hm. generalize dependent run. intros [d out] (dw & d' & Hd & _ & Hm).
  cbn [fst snd] in *. subst d. destruct (parse_args path_exists args) as [| | |o] eqn:Ep.
  - destruct Hm as [_ ->]. left. split; [done|]. by left.
  - destruct Hm as [_ ->]. left. split; [done|]. by right; left.
  - destruct Hm as [_ ->]. right. unfold EXIT_FAILURE. lia.
  - destruct (slirp4netns_config_from_options version_max ifs o) as [cfg|e].
    2:{ destruct Hm as [_ ->]. right. unfold EXIT_FAILURE. lia. }
    destruct Hm as [_ Hm].
    destruct Hm as [| |? ? ? ? d0 _ _ _ Hf Hc _|? ? ? ? d0 _ _ _ _ Hl|? ? ? ? ? ? d0 _ _ _ _ _ Hp|? ? ? d0 _ _ _ Hp].
    + right. unfold EXIT_FAILURE. lia.
    + right. unfold EXIT_FAILURE. lia.
    + by eapply child_exit.
    + right. by eapply lost_status.
    + rewrite app_assoc. by eapply served_exit.
    + rewrite app_assoc. by eapply served_exit.
Qed.
End process.

(** ** A host on which the theorems apply *)

(** As in [world]; the caller is an ordinary user, the child is process 42,
    exits with 0 and sends descriptor 3. *)
Definition host : Env := fun h c =>
  match c with
  | Geteuid => Ans 1000 0 [] []
  | Socketpair _ _ _ => Ans 0 0 [] [8; 9]
  | Fork => Ans 42 0 [] []
  | Waitpid _ => Ans 42 0 [] [0]
  | Recvmsg _ _ => Ans 1 0 [] [1; 3]
  | _ => world h c
  end.

Lemma host_clock : clock_ok host.
Proof. exact world_clock. Qed.
Lemma host_read : read_ok host.
Proof. exact world_read. Qed.
Lemma host_exclusive : slirp_exclusive host.
Proof. exact world_exclusive. Qed.
Lemma host_caps : knows_caps (E := host) 41.
Proof. exact world_caps. Qed.
Lemma host_patient : patient host 0.
Proof.
  intros h c l Hl Hc. destruct c; try (intros [Hneg _]; simpl in Hneg; lia); exact (world_patient h _ l Hl Hc).
Qed.
Lemma host_fds : fails_with_minus1 host.
Proof. intros h c. destruct c; simpl; try done; lia. Qed.
Lemma host_recvmsg : recvmsg_fails_with_minus1 (E := host).
Proof. intros h fd n. simpl. lia. Qed.

Definition parent_run : list event * outcome Z :=
  parent (E := host) (BO := true) (PF := linux_flags) (SL := small_slirp) 4 dirname x86_64 true (fun _ => [])
    small_bounds 3 4 5 (Some (b2l "/tmp/api.sock")) locked_config 1234 [].

Lemma parent_correct_witness :
  parent_run.2 = Done 0 /\
  parent_post (E := host) (BO := true) 1 small_bounds 4 3 4 5 (Some (b2l "/tmp/api.sock")) locked_config 1234 []
    parent_run.1 parent_run.2.
Proof.
  split; [vm_compute; reflexivity|].
  apply (parent_correct (E := host) (BO := true) (PF := linux_flags) (SL := small_slirp) 1 (HC := small_contract) 0 41
    small_bounds 4 dirname x86_64 true (fun _ => []) host_clock host_read host_exclusive host_caps
    ltac:(vm_compute; lia) host_patient ltac:(simpl; lia) ltac:(simpl; lia) host_fds 3 4 5 (Some (b2l "/tmp/api.sock"))
    locked_config 1234 []).
  - reflexivity.
  - vm_compute. split; [discriminate|reflexivity].
Defined.

Definition main_args : list bytes :=
  argv ["-c"; "--ready-fd=4"; "--exit-fd=5"; "--api-socket=/tmp/api.sock"; "--enable-sandbox"; "--enable-seccomp";
        "1234"; "tap0"].

Definition demo_build : build := Build (Some (b2l "1.2.0")) (b2l "1.2.0+dev") None (b2l "4.7.0") (Some (2, 5, 3)).

Definition process_run : list event * outcome Z :=
  main (E := host) (BO := true) (PF := linux_flags) (SL := small_slirp) 4 dirname x86_64 true (fun _ => []) demo_build
    (fun _ => true) demo_ifs small_bounds (b2l "slirp4netns") main_args [].

Lemma main_correct_witness :
  process_run.2 = Exited 0 /\
  main_post (E := host) (BO := true) 1 small_bounds 4 demo_build (fun _ => true) demo_ifs (b2l "slirp4netns") main_args [] process_run.1 process_run.2.
Proof.
  split; [vm_compute; reflexivity|].
  apply (main_correct (E := host) (BO := true) (PF := linux_flags) (SL := small_slirp) 1 (HC := small_contract) 0 41
    small_bounds 4 dirname x86_64 true (fun _ => []) host_clock host_read host_exclusive host_caps
    ltac:(vm_compute; lia) host_patient ltac:(simpl; lia) ltac:(simpl; lia) host_fds host_recvmsg
    demo_build (fun _ => true) demo_ifs (b2l "slirp4netns") main_args []).
  - reflexivity.
  - exact demo_ifs_typed.
Defined.

Lemma main_exit_status_witness :
  process_run.2 = Exited 0 /\ ended_well (fun _ => true) main_args process_run.1.
Proof.
  assert (process_run.2 = Exited 0) as Hr by (vm_compute; reflexivity). split; [exact Hr|].
  assert (exit_status_post (fun _ => true) main_args process_run.1 process_run.2) as H.
  { apply (main_exit_status (E := host) (BO := true) (PF := linux_flags) (SL := small_slirp) 1 (HC := small_contract)
      0 41 small_bounds 4 dirname x86_64 true (fun _ => []) host_clock host_read host_exclusive host_caps
      ltac:(vm_compute; lia) host_patient ltac:(simpl; lia) ltac:(simpl; lia) host_fds host_recvmsg
      demo_build (fun _ => true) demo_ifs (b2l "slirp4netns") main_args [] eq_refl demo_ifs_typed). }
  rewrite Hr in H. destruct H as [[_ H]|[H _]]; [exact H|discriminate].
Defined.
