(* ===== verification/Processes.v ===== *)
(** * The two processes (main.c: main on both sides of the fork)

    [MainTheory] describes a run of one process.  Here the runs of the child
    and of the parent are put together by what the kernel promises of [fork],
    [waitpid] and a descriptor passed over the socket pair. *)

From S2P Require Import Prelude Libc Cidr Inet6 Options Usage Config OS Api ApiTheory Sandbox Seccomp Glue Netns Loop LoopTheory Main MainTheory.

(** What the theorems on a process ask of its environment. *)
Record ordinary (E : Env) (intr : nat) (N : Z) : Prop := {
  or_clock : clock_ok E;
  or_read : read_ok E;
  or_exclusive : slirp_exclusive E;
  or_caps : knows_caps (E := E) N;
  or_patient : patient E intr;
  or_fds : fails_with_minus1 E;
  or_recvmsg : recvmsg_fails_with_minus1 (E := E)
}.

(** The child lives in [Ec] and its run is [child]; the parent lives in [Ep].
    [fork] answers on both sides; they share the socket pair; the status
    [waitpid] reports is the child's; a descriptor received over the socket
    pair, on the first socket, is one the child sent, under the number [dup]
    gives it in the parent. *)
Record forked (Ec Ep : Env) (child : list event * outcome Z) (dup : Z -> Z) : Prop := {
  fk_child : forall h, ret (env (Env := Ec) h Fork) = 0;
  fk_sockets : forall h h',
    env (Env := Ec) h (Socketpair AF_LOCAL SOCK_STREAM 0) = env (Env := Ep) h' (Socketpair AF_LOCAL SOCK_STREAM 0);
  fk_waitpid : forall h pid, let a := env (Env := Ep) h (Waitpid pid) in let w := nth 0 (outz a) 0 in
    0 <= ret a -> WIFEXITED w = true -> child.2 = Exited (WEXITSTATUS w);
  fk_recvmsg : forall h h' n fd fds,
    let sv := env (Env := Ep) h' (Socketpair AF_LOCAL SOCK_STREAM 0) in
    let m := env (Env := Ep) h (Recvmsg (nth 0 (outz sv) 0) n) in
    0 < ret m -> outz m = SCM_RIGHTS :: fd :: fds -> exists cfd, cfd ∈ fds_sent child.1 /\ fd = dup cfd
}.

Lemma exit_of_zero r : r <= 0 -> exit_of (Done r) = Exited 0 -> r = 0.
Proof. simpl. unfold EXIT_FAILURE, EXIT_SUCCESS. destruct (Z.ltb_spec r 0); [done|lia]. Qed.

Lemma child_end_le sock o cfg d r : child_end sock o cfg d r -> r <= 0.
Proof.
  unfold child_end. case_bool_decide; [|by intros [? _]]. intros [[-> _]|[-> _]]; lia.
Qed.

(** A child that exits with 0 sent one descriptor. *)
Lemma child_end_sent sock o cfg d : child_end sock o cfg d 0 -> exists fd, fds_sent d = [fd].
Proof.
  unfold child_end. case_bool_decide.
  - intros [[_ (path & s & u & b' & l & a & m & c1 & c2 & _ & _ & _ & _ & _ & _ & Hm & ->)]|[? _]]; [|done].
    exists (ret a). unfold fds_sent, sent. simpl. destruct (Z.leb_spec 0 (ret m)); [done|lia].
  - intros (_ & _ & Hs). destruct (Hs eq_refl) as (name & dns & a & b' & dcfg & s & c1 & c2 & _ & _ & _ & _ & _ & _ & Hsent & _).
    by exists (ret a).
Qed.

Lemma printed_no_send ls d : calls_of d = map Printf ls -> fds_sent d = [].
Proof.
  intros Hd. apply no_send_none. assert (Forall is_printf (calls_of d)) as H
    by (rewrite Hd, List.Forall_map; by apply Forall_true).
  unfold calls_of in H. rewrite List.Forall_map in H. eapply Forall_impl; [exact H|]. by intros [[] a].
Qed.

Lemma lost_no_slirp pid sv0 status d : lost pid sv0 status d -> Forall no_slirp d.
Proof.
  intros (l & a & rest & -> & Hl & H). cbv zeta in H. apply Forall_app. split.
  - eapply Forall_impl; [exact Hl|]. by intros [c x] [= ->].
  - constructor; [done|]. destruct (_ && _); destruct H as [_ H]; [by subst|].
    destruct H as [->|[m ->]]; by repeat constructor.
Qed.

Section processes.
Context {Ec Ep : Env} `{BO : ByteOrder} `{PF : PollFlags} `{SL : Libslirp} (k : nat) `{HC : !LibslirpContract k}.
Context (intr : nat) (N : Z) (b : bounds).
Context (version_max : Z) (dn : bytes -> bytes) (t : macros) (kp : bool) (se : Z -> bytes).
Hypothesis Hec : ordinary Ec intr N.
Hypothesis Hep : ordinary Ep intr N.
Hypothesis Hcapsb : (Z.to_nat N + 2 <= caps b)%nat.
Hypothesis Htries : (S intr <= tries b)%nat.
Hypothesis Hvisits : (k <= visits b)%nat.
Context (bd : build) (path_exists : bytes -> bool) (ifs : option (list ifaddr)) (argv0 : bytes) (args : list bytes).
Hypothesis Hifs : typed_ifaddrs ifs.

Definition run_in (E : Env) : list event * outcome Z :=
  main (E := E) version_max dn t kp se bd path_exists ifs b argv0 args [].

Lemma run_in_spec E : ordinary E intr N ->
  main_post (E := E) k b version_max bd path_exists ifs argv0 args [] (run_in E).1 (run_in E).2.
Proof. intros []. by apply (main_spec (E := E) k intr N b version_max dn t kp se). Qed.

(** The child's side: it exits with 0 only if it sent a descriptor. *)
Lemma child_side o cfg dup :
  forked Ec Ep (run_in Ec) dup -> parse_args path_exists args = Parsed o ->
  slirp4netns_config_from_options version_max ifs o = inl cfg -> Options.tapfd o < 0 ->
  (run_in Ec).2 = Exited 0 ->
  exists d0 a dc fd, (run_in Ec).1 = d0 ++ dc /\ from_env (E := Ec) (Socketpair AF_LOCAL SOCK_STREAM 0, a) /\
    child_end (nth 1 (outz a) 0) o cfg dc 0 /\ fds_sent dc = [fd] /\ fds_sent (run_in Ec).1 = [fd].
Proof.
  intros Hfk Hp Hcfg Htap Hout. destruct (run_in_spec Ec Hec) as (dw & d' & Hd & Hdw & Hm).
  rewrite Hp, Hcfg in Hm. destruct Hm as [_ Hm]. rewrite Hout in Hm. apply printed_no_send in Hdw.
  remember (Exited 0) as out eqn:Eo.
  destruct Hm as [| |a f d r d0 Hs _ _ _ Hc _|a f d status d0 Hs _ _ Hf _|a f d tapfd dp out d0 Hs _ _ Hf _ _|a dp out d0 _ _ ? _];
    [done|done| | | |lia].
  2-3: apply Forall_cons in Hs as [_ Hs]; apply Forall_cons in Hs as [[hf Hf'] _]; simpl in Hf';
    pose proof (fk_child _ _ _ _ Hfk hf); rewrite <-Hf' in *; lia.
  pose proof (exit_of_zero r (child_end_le _ _ _ _ _ Hc) Eo) as ->.
  destruct (child_end_sent _ _ _ _ Hc) as [fd Hfd]. exists (dw ++ d0), a, d, fd.
  apply Forall_cons in Hs as [Hs _]. split_and!; [by rewrite Hd, app_assoc|done|done|done|].
  rewrite Hd, !fds_sent_app, Hdw, Hfd. done.
Qed.

(** C4: the tap that is served is the one the child opened.  Take a run of
    the child and a run of the parent joined by a fork.  If the parent makes
    any use of libslirp, then the child exited with 0 after it had joined the
    namespace, created and configured the tap and sent its descriptor (or the
    accepted BESS connection) over its end of the socket pair; and the parent
    serves exactly that descriptor. *)
Theorem served_tap_is_childs o cfg dup :
  forked Ec Ep (run_in Ec) dup -> parse_args path_exists args = Parsed o ->
  slirp4netns_config_from_options version_max ifs o = inl cfg -> Options.tapfd o < 0 ->
  Exists (fun e => ~ no_slirp e) (run_in Ep).1 ->
  exists sv dc0 dc fd dp0 dp out,
    run_in Ec = (dc0 ++ dc, Exited 0) /\ child_end (nth 1 (outz sv) 0) o cfg dc 0 /\ fds_sent dc = [fd] /\
    run_in Ep = (dp0 ++ dp, exit_of out) /\ (Socketpair AF_LOCAL SOCK_STREAM 0, sv) ∈ dp0 /\ Forall no_slirp dp0 /\
    parent_post (E := Ep) k b version_max (dup fd) (ready_fd o) (exit_fd o) (api_socket o) cfg (target_pid o) dp0 dp out.
Proof.
  intros Hfk Hp Hcfg Htap Huse.
  destruct (run_in_spec Ep Hep) as (dw & d' & Hd & Hdw & Hm). apply stdout_no_slirp in Hdw.
  rewrite Hp, Hcfg in Hm. destruct Hm as [_ Hm]. rewrite Hd in Huse. apply Exists_app in Huse.
  destruct Huse as [Huse|Huse]; [by apply Exists_not_Forall in Huse|]. apply Exists_not_Forall in Huse.
  remember (run_in Ep).2 as pout eqn:Epo.
  destruct Hm as [| |a f d r d0 Hs _ _ _ Hc Hns|a f d status d0 Hs _ _ Hf Hl|a f d tapfd dp out d0 Hs Ha _ Hf Hr Hpp|a dp out d0 _ _ ? _];
    try lia.
  1-2: by destruct Huse; repeat constructor.
  1: by destruct Huse; repeat constructor.
  1: by destruct Huse; repeat constructor; eapply lost_no_slirp.
  destruct Hr as (l & w & m & c & fds & -> & Hl & Hw & Hex & Hst & Hm & Hfds & Htf).
  pose proof Hs as Hs'. unfold d0 in Hs'. rewrite !Forall_cons, Forall_app, !Forall_cons in Hs'.
  destruct Hs' as ([ha Ha'] & _ & _ & [hw Hw'] & [hm Hm'] & _). cbn [fst snd] in *.
  assert ((run_in Ec).2 = Exited 0) as Hc.
  { rewrite <-Hst. subst w. by apply (fk_waitpid _ _ _ _ Hfk). }
  destruct (child_side o cfg dup Hfk Hp Hcfg Htap Hc) as (dc0 & a' & dc & fd & Hdc & [hc Hc'] & Hend & Hsent & Hall).
  assert (a' = a) as -> by (simpl in Hc'; subst; apply (fk_sockets _ _ _ _ Hfk)).
  assert (tapfd = dup fd) as ->.
  { subst m a. destruct (fk_recvmsg _ _ _ _ Hfk hm ha 1 tapfd fds Hm Hfds) as (cfd & Hin & ->).
    rewrite Hall in Hin. apply list_elem_of_singleton in Hin. by subst. }
  exists a, dc0, dc, fd, (dw ++ d0), dp, out. split_and!; try done.
  - by rewrite (surjective_pairing (run_in Ec)), Hdc, Hc.
  - rewrite (surjective_pairing (run_in Ep)), Hd, <-Epo. by rewrite app_assoc.
  - apply elem_of_app. right. left.
  - apply Forall_app. split; [done|]. unfold d0. rewrite !Forall_cons, Forall_app, !Forall_cons. split_and!; try done.
    eapply Forall_impl; [exact Hl|]. by intros [c' x] [= ->].
Qed.
End processes.

(** ** Two hosts joined by a fork *)

(** As [host], seen from the child: [fork] answers 0, every descriptor can be
    opened and the message is sent. *)
Definition child_host : Env := fun h c =>
  match c with
  | Fork => Ans 0 0 [] []
  | Open _ _ | Socket _ _ _ | Accept _ => obliging h c
  | Sendmsg _ _ _ => Ans 1 0 [] []
  | _ => host h c
  end.

Lemma child_host_ordinary : ordinary child_host 0 41.
Proof.
  split.
  - exact host_clock.
  - exact host_read.
  - exact host_exclusive.
  - exact host_caps.
  - intros h c l Hl Hc. destruct c; try (intros [Hneg _]; simpl in Hneg; lia); exact (host_patient h _ l Hl Hc).
  - intros h c. destruct c; simpl; try done; lia.
  - exact host_recvmsg.
Qed.

Lemma host_ordinary : ordinary host 0 41.
Proof.
  split; [exact host_clock|exact host_read|exact host_exclusive|exact host_caps|exact host_patient|exact host_fds|
          exact host_recvmsg].
Qed.

Abbreviation demo_run E := (run_in (BO := true) (PF := linux_flags) (SL := small_slirp) small_bounds 4 dirname x86_64 true
  (fun _ => []) demo_build (fun _ => true) demo_ifs (b2l "slirp4netns") main_args E) (only parsing).

Definition main_options : options :=
  match parse_args (fun _ => true) main_args with Parsed o => o | _ => options_init end.

Definition main_config : slirp4netns_config :=
  match slirp4netns_config_from_options (BO := true) 4 demo_ifs main_options with inl cfg => cfg | inr _ => demo_config end.

(** The child's tap is descriptor 5 in the child and 3 in the parent. *)
Lemma demo_forked : forked child_host host (demo_run child_host) (fun fd => fd - 2).
Proof.
  assert ((demo_run child_host).2 = Exited 0) as Hc by (vm_compute; reflexivity).
  assert (fds_sent (demo_run child_host).1 = [5]) as Hs by (vm_compute; reflexivity).
  split; [done|done| |]; cbv zeta.
  - intros h pid _ _. rewrite Hc. reflexivity.
  - intros h h' n fd fds _ [= <- <-]. exists 5. rewrite Hs. by split; [left|].
Qed.

Lemma creates_libslirp d :
  existsb (fun e : event => match e.1 with SlirpNew _ => true | _ => false end) d = true ->
  Exists (fun e => ~ no_slirp e) d.
Proof.
  rewrite existsb_exists. intros ([c a] & Hin & Hc). apply Exists_exists. exists (c, a).
  split; [by apply list_elem_of_In|]. destruct c; done || by intros [].
Qed.

Lemma served_tap_is_childs_witness :
  exists dc0 dc, demo_run child_host = (dc0 ++ dc, Exited 0) /\ fds_sent dc = [5].
Proof.
  destruct (served_tap_is_childs (Ec := child_host) (Ep := host) (BO := true) (PF := linux_flags) (SL := small_slirp)
    1 (HC := small_contract) 0 41 small_bounds 4 dirname x86_64 true (fun _ => []) child_host_ordinary host_ordinary
    ltac:(vm_compute; lia) ltac:(simpl; lia) ltac:(simpl; lia) demo_build (fun _ => true) demo_ifs
    (b2l "slirp4netns") main_args demo_ifs_typed main_options main_config (fun fd => fd - 2) demo_forked)
    as (sv & dc0 & dc & fd & dp0 & dp & out & Hc & Hend & Hfd & Hp & _ & _ & Hpost).
  - vm_compute. reflexivity.
  - vm_compute. reflexivity.
  - vm_compute. reflexivity.
  - apply creates_libslirp. vm_compute. reflexivity.
  - exists dc0, dc. split; [exact Hc|]. rewrite Hfd.
    assert (fds_sent (demo_run child_host).1 = [5]) as Hs by (vm_compute; reflexivity).
    rewrite Hc in Hs. cbn [fst] in Hs.
    rewrite fds_sent_app, Hfd in Hs. destruct (fds_sent dc0) as [|x [|]]; [exact Hs|discriminate Hs|discriminate Hs].
Defined.
